(* ===== verification/_CoqProject ===== *)
-Q . S2P
Prelude.v
Goroutines.v
GoStrings.v
GoTime.v
DbTime.v
Regexp.v
SqlLex.v
GoStd.v
GoUrl.v
Ident.v
Cache.v
Config.v
Http.v
Json.v
Formatters.v
Filters.v
Where.v
WhereSpec.v
Connection.v
Pools.v
Queries.v
Statements.v
Clauses.v
ClausesSpec.v
Permissions.v
Bodies.v
BodiesSpec.v
Exec.v
ExecSpec.v
Prepared.v
Scanner.v
Tables.v
Panics.v
TablesSpec.v
Scripts.v
UrlSpec.v
Settings.v
SettingsSpec.v
Startup.v
StartupSpec.v
ScriptsSpec.v
Adapter.v
Interference.v
Middlewares.v
Plugins.v
Router.v
RouterSpec.v
Kawai.v
KawaiSpec.v
Workspaces.v
WorkspacesSpec.v
WorkspacesSafety.v
Schedules.v
SchedulesSpec.v
Account.v
AccountSpec.v
