(* ===== verification/Prelude.v ===== *)
(** * A verification library for pREST

    pREST is an HTTP server that turns requests into SQL for PostgreSQL, with
    endpoints of its own for workspaces, schedules and accounts.  This
    library models its Go code (under src/) as Rocq functions and proves what
    makes it correct: that no request can inject SQL through the parts of a
    statement that are built from checked pieces, that tenant filters cannot be
    removed, that statements run where the path of the request says, that the
    connection pool and the statement cache keep their invariants, who may change
    a workspace, a schedule or an account, and how each
    operation answers, errors included.  Where the code does not do what it
    means to, a theorem says exactly what it does instead.

    ** How the program works, and which file models what

    - Go and its standard library, as far as the program uses them:
      [Prelude] (results of calls, iteration over maps), [GoStrings] (strings,
      UTF-8, Unicode classes, strconv), [Regexp] (a backtracking matcher with
      RE2's leftmost semantics), [GoStd] (SHA-256, URL escaping, ParseFloat),
      [GoUrl] (url.Parse and the accessors of a URL), [UrlSpec] (it reads the
      URLs the program writes),
      [GoTime] (RFC 3339 texts of instants, read and printed),
      [Http] (requests, contexts, dynamic values), [Json] (encoding/json, fmt).
    - [SqlLex] is no part of the program: a lexer for SQL as PostgreSQL reads
      it (strings, quoted identifiers, positional parameters), with which the
      theorems say what a text means.  A fragment is [sealed] when parentheses
      balance in it and it holds no comment and no statement separator; it is
      [clean] when it is sealed and binds no parameter.
    - internal/ident: [Ident].  cache/: [Cache].  config/: [Config] (records and
      validation), [Settings] and [SettingsSpec] (loading: defaults, file,
      environment, database URL).  adapters/postgres/formatters: [Formatters].
    - adapters/postgres/userfilter.go, workspacefilter.go: [Filters], the rules
      that give a table its ownership column.
    - adapters/postgres/postgres.go: [Where] and [WhereSpec] (WHERE clauses),
      [Clauses] and [ClausesSpec] (field lists, joins, ordering, counting,
      paging, grouping), [Bodies] and [BodiesSpec] (inserts, batches, updates),
      [Permissions] (access rules), [Statements] with [Queries] (the texts of
      statements/queries.go), [Exec] and [ExecSpec] (running statements).
    - dbtime/: [DbTime].  adapters/scanner: [Scanner] (results into Go values); its record is in [Exec].
    - cmd/: [Startup] and [StartupSpec]: what [main] does with the configuration,
      and the migration commands.
    - [Goroutines] is no part of the program: the interleaved steps of goroutines
      over a shared state, and what holds of code that keeps its mutexes (mutual
      exclusion, no deadlock, a bound on the steps).
    - adapters/postgres/internal/connection: [Connection], the functions of the
      pool for a call that runs alone; [Pools], the same calls as the steps of
      concurrent goroutines: [GetPool]'s unlocked test of the package's pointer,
      [Lock] and [Unlock], the accesses to the maps between them, connecting
      ([pool_var] is the pointer, [pools] the [Pool] objects made).
    - The statement cache of postgres.go: [Exec.Prepare] is the whole call as one
      step of the state monad; [Prepared] is the same code over the shared heap,
      as the steps of concurrent goroutines with their [Lock] and [Unlock] ([stmts],
      [objects] and [prepared] are the pointer, the [Stmt] objects and the
      statements made), and proves that a call without interference is
      [Exec.Prepare].
    - adapters/adapter.go: [Adapter], the interface the handlers call the database
      through: a class with an operation per method, its laws, and the instance
      made of the definitions of the other files; adapters/postgres/connection.go
      and the transactions.  [Interference] composes the handlers with it: what the
      current database, which all requests share, does to each of them.
    - controllers/: [Tables] and [TablesSpec], the handlers of tables.go,
      databases.go, schemas.go and healthcheck.go, which compose all of the
      above; [Panics], a calculus of which of these computations can panic.
    - controllers/sql.go, template/, adapters/postgres/queries.go: [Scripts] and
      [ScriptsSpec]: SQL scripts, the language of their templates, the functions
      registered for it, and the endpoint that runs them.
    - middlewares/: [Middlewares]; plugins/: [Plugins]; router/: [Router] and
      [RouterSpec], which compose the endpoints with what stands before them.
    - controllers/utils.go: [Kawai], the database of the workspace, schedule and
      account endpoints, with the monad their handlers are written in;
      [KawaiSpec], the rules to reason about them.
      controllers/workspaces.go, workspace_middleware.go and authz.go:
      [Workspaces], with their abstract specification and its refinement in
      [WorkspacesSpec] and the theorems in [WorkspacesSafety].
      controllers/scheduled_runs.go: [Schedules] and [SchedulesSpec].
      controllers/account.go and memory.go: [Account] and [AccountSpec].

    A handler checks the path ([Tables.validateTableParams]), asks the clause
    functions for the parts of its statement, puts the database of the path into
    the context and calls the adapter ([Exec]), which resolves the connection in
    the pool ([Connection.getDBFromCtx]), takes the statement from the cache or
    prepares it, runs it and wraps the result; the handler turns the result into
    a status and a body.

    ** Conventions

    A Go function that returns an error is a function into [gores]: a value, an
    error (its message) or a run-time panic.  Code that only computes is a pure
    function; code that reaches the pool, the statement cache or the database is
    a program of the state monad [Exec.M], over the interface [Exec.Backend] of
    the database driver.  The handlers over the workspace database are programs
    of [Kawai.K]: its SQL statements are functions on finite maps, a list of
    outcomes says which of them the database refuses, and a transaction restores
    the tables when its body answers or committing fails; a query that lists rows
    can also fail while they are read, which the code does not notice
    ([Kawai.query_rows]).  [Account.A] adds a
    second database and the exchange of requests with the identity service.  What a caller's goroutine cannot control is a
    parameter: the order in which [range] visits a map ([MapRange]), the Unicode
    tables above Latin-1 ([GoStrings.UnicodeTables]), whether a server can be
    reached, and the driver.  Theorems hold for all of them.  Integers are [Z]
    with 64-bit wrap-around where the code computes with them; strings are byte
    strings, decoded to runes where the code does.

    Fuel: the loops of [Regexp], [Where.split_loop]
    ([WhereSpec.splitTopLevelOrGroup_terminates]), [Bodies.chunk_rows] and the
    digit printers take the length of their input (or a bound on the number of
    digits) as fuel; each step consumes at least one byte or row, so the fuel is
    never exhausted, which the lemmas about them prove by relating them to
    definitions without fuel.

    ** What the theorems show

    - Identifiers: [Ident.IsValid_spec], [Ident.Quote_reads_back].
    - Filters: every clause [WhereByRequest] returns reads back as a conjunction
      of predicates with its own parameters ([WhereSpec.WhereByRequest_reads_back]),
      it is a parser followed by a printer ([WhereByRequest_refines]), and its
      first conjuncts are the tenant filter ([tenant_isolation]).
    - Whole statements: [TablesSpec.delete_reads_back], [update_reads_back],
      [writes_carry_tenant_filter], [reads_carry_tenant_filter].
    - Bodies: columns, placeholders and values agree, and the identity of the
      caller is forced on inserts ([BodiesSpec]).
    - Pool and cache: [Pools.pool_safety] and
      [Prepared.prepared_statements_safe] over all interleavings,
      [ExecSpec.statement_cache_invariant] over all operations; the sequential
      models are what a call without interference does
      ([Pools.run_call_is_interleaving],
      [Prepared.prepare_alone_is_Exec_Prepare]); critical sections exclude each
      other, no call waits for a lock for ever, even when servers and drivers do
      not answer others, and every call returns within a fixed number of its own
      steps ([Pools.pool_calls_return], [Prepared.prepare_calls_return]); statements stay
      on their database ([ExecSpec.operations_stay_on_their_database],
      [TablesSpec.table_calls_use_path_database]); a call for a context is the
      call of the current database on that of the context, whatever other requests
      do to the current one ([Adapter.context_sessions_agree]), so that table
      requests do not notice it in multi-database mode
      ([Interference.table_replies_ignore_current_database]).
    - Results: [TablesSpec.table_replies] (the status of every reply, and every
      way a request can panic), [ExecSpec.execReturningOrAffected_spec],
      [batch_insert_body], [insert_returns_its_row],
      [unsafe_path_rejected].
    - Scripts: [ScriptsSpec.script_reads_back] (an argument never leaves its
      place in the script), [script_text_independent] (the statement does not
      depend on the arguments), [script_path_confined].
    - Routes: [RouterSpec.table_requests_carry_identity], the identity of the
      headers reaches the statements of the table endpoints.
    - Workspaces: [WorkspacesSafety.workspace_handlers_refine] (each request
      makes a step of the abstract specification, or none),
      [reachable_workspaces_well_formed], [only_owners_manage],
      [last_owner_survives], [invite_accepted_once], [membership_required].
    - Schedules: [SchedulesSpec.schedules_stay_with_their_owner],
      [created_schedule_is_listed], [run_histories].
    - Accounts: [AccountSpec.closing_is_atomic], [closing_succeeds],
      [closed_account_leaves_nothing], [active_workspace_is_a_membership],
      [active_workspace_reads_back].
    - Configuration: [SettingsSpec.loaded_configuration_is_sound] over every
      file and environment, [default_configuration], [database_url_round_trip],
      [render_resolves]; start-up: [StartupSpec.extra_databases_registered],
      [main_serves_unverified], [https_never_plain],
      [migrations_stop_at_errors], [driver_url_reads_back]; [Scanner.scan_one_row];
      [DbTime.dbtime_round_trip].
    - Deviations, each with a concrete input or a general statement:
      [TablesSpec.select_injection_defeats_tenant_filter],
      [schema_listing_always_rejected], [missing_table_is_bad_request],
      [ExecSpec.cached_statement_crosses_databases], [insert_needs_ascii_table],
      [BodiesSpec.batch_insert_injection], [Permissions.fields_permission_bypass],
      [Pools.first_calls_make_two_pools], [AddURI_race_overwrites_name],
      [Prepared.concurrent_calls_prepare_twice], [first_calls_lose_a_cache],
      [ClearStmt_race_panics], [statements_are_counted] (nothing closes a
      statement), [Adapter.current_database_race],
      [Interference.first_script_request_fails],
      [RouterSpec.scripts_never_see_the_identity], [cached_rows_cross_identities],
      [WorkspacesSafety.accepting_an_invite_strands_the_workspace],
      [member_routes_change_nothing], [invite_token_is_not_told],
      [authz_denials_answer_200], [AccountSpec.closing_deletes_shared_workspaces],
      [SchedulesSpec.name_cut_inside_a_character], [untimed_schedule_is_accepted],
      [cut_list_is_answered],
      [SettingsSpec.unreadable_port_splits_the_url],
      [StartupSpec.second_name_is_dropped], [driver_url_splits_user],
      [redact_leaks_after_at], [kawaiDB_once], [Scanner.scan_of_error_panics]
      and the ones beside them.

    ** What is not modelled

    Pure I/O and glue: logging, the HTTP server, cobra's wiring of the commands,
    mocks and test helpers.  Third-party code
    is a parameter or a class: viper ([Settings.Viper], with the precedence of
    its defaults in [SettingsSpec.ViperLaws] and an instance that has them), the
    file system ([Settings.Files]), encoding/json into Go values
    ([Scanner.JSON]), the router library ([Router.Mux]), negroni
    ([Middlewares.Negroni]), shared objects ([Plugins.PluginPackage]), the cron
    parser, PostgreSQL's view of texts and times ([Schedules.Postgres]), the
    identity service, the provider of the key set, the IP literals of URLs.  The
    decoded body of a request is an argument of the functions that parse it.  Deadlines
    of contexts are not modelled, except that COPY gets its own.  Of the content
    tables of the workspace database only the users their rows carry are
    modelled, and a statement of the workspace handlers runs alone: interleavings
    of two requests to them are not.  [Pools] and [Prepared] take each unlocked access to
    the pointers [pool] and [stmts] as atomic, which the memory model of Go does not promise, and
    transactions are numbers: committing them is left to the driver. *)

From Corelib Require Export ssreflect.
From Stdlib Require Export ZArith NArith Ascii String Lia.
From stdpp Require Export base tactics option strings sorting gmap list.

#[global] Set Default Goal Selector "!".
#[global] Open Scope string_scope.
#[global] Open Scope list_scope.
#[global] Open Scope nat_scope.
#[global] Open Scope general_if_scope.

(** stdpp blocks the reduction of string concatenation; the proofs about string
    builders use it. *)
#[global] Arguments String.append !_ _ / : simpl nomatch.

(** Lengths of lists and of Go strings (in bytes). *)
#[global] Abbreviation length := List.length.
#[global] Abbreviation slen := String.length.

(** ** Results of Go calls

    [Val] is a normal return with a nil error, [Err] a return whose error
    result is non-nil (errors are compared by their message, as the HTTP
    handlers do when they print them), [Panic] a run-time panic. *)

Definition error := string.

Inductive gores (A : Type) : Type :=
| Val (a : A)
| Err (e : error)
| Panic (why : string).
Arguments Val {A} _.
Arguments Err {A} _.
Arguments Panic {A} _.

#[export] Instance gores_ret : MRet gores := λ A a, Val a.
#[export] Instance gores_bind : MBind gores := λ A B f m,
  match m with
  | Val a => f a
  | Err e => Err e
  | Panic w => Panic w
  end.

#[export] Instance gores_eq_dec {A} `{EqDecision A} : EqDecision (gores A).
Proof. solve_decision. Defined.

(** [errors.Wrapf(err, msg)] of github.com/pkg/errors prints [msg: err]. *)
Definition Wrapf (e : error) (msg : string) : error := msg +:+ ": " +:+ e.

Definition is_val {A} (r : gores A) : bool :=
  match r with Val _ => true | _ => false end.

Definition is_panic {A} (r : gores A) : bool :=
  match r with Panic _ => true | _ => false end.

(** Iterating a fallible function over a list, left to right, stopping at the
    first error: the shape of the [for ... range] loops that [return] early. *)
Fixpoint mapE {A B} (f : A → gores B) (l : list A) : gores (list B) :=
  match l with
  | [] => Val []
  | a :: l' => b ← f a; bs ← mapE f l'; Val (b :: bs)
  end.

(** A fold whose accumulator is threaded through a fallible body. *)
Fixpoint foldE {A S} (f : S → A → gores S) (s : S) (l : list A) : gores S :=
  match l with
  | [] => Val s
  | a :: l' => s' ← f s a; foldE f s' l'
  end.

(** ** Go's maps

    Go does not specify the order in which [range] visits a map.  A
    [MapRange] is one choice of order for every map; every theorem about code
    that ranges over a map is proved for an arbitrary one. *)
Class MapRange := {
  map_range : ∀ {V : Type}, gmap string V → list (string * V);
  map_range_perm : ∀ {V : Type} (m : gmap string V), map_range m ≡ₚ map_to_list m
}.

#[export] Instance map_range_sorted : MapRange | 100 := {
  map_range V m := map_to_list m;
  map_range_perm V m := reflexivity (map_to_list m)
}.

(** ** Lemmas on results *)

Create HintDb go discriminated.
#[export] Hint Extern 1 (_ < _)%N => lia : go.

(** Injectivity that leaves the sides as they are written. *)
Lemma Val_inj {A} (a b : A) : Val a = Val b → a = b.
Proof. by injection 1. Qed.

Lemma Val_pair_inj {A B} (a c : A) (b d : B) : Val (a, b) = Val (c, d) → a = c ∧ b = d.
Proof. by intros [= -> ->]. Qed.

Lemma bind_Val {A B} (m : gores A) (f : A → gores B) b :
  (m ≫= f) = Val b ↔ ∃ a, m = Val a ∧ f a = Val b.
Proof.
  destruct m; cbn; split; [eauto | | done | | done |]; intros (? & ? & ?); congruence.
Qed.

Lemma bind_no_panic {A B} (m : gores A) (f : A → gores B) :
  is_panic m = false → (∀ a, m = Val a → is_panic (f a) = false) →
  is_panic (m ≫= f) = false.
Proof. destruct m; cbn; eauto. Qed.

Lemma mapE_Forall2 {A B} (f : A → gores B) l bs :
  mapE f l = Val bs ↔ Forall2 (λ a b, f a = Val b) l bs.
Proof.
  revert bs; induction l as [|a l IH]; intros bs; cbn.
  - split; [intros [= <-]; constructor | by inversion 1].
  - rw bind_Val. setoid_rewrite bind_Val. setoid_rewrite IH. split.
    + intros (b & Hb & bs' & Hbs & [= <-]); by constructor.
    + inversion 1; subst; eauto 6.
Qed.

Lemma mapE_length {A B} (f : A → gores B) l bs :
  mapE f l = Val bs → length bs = length l.
Proof. rw mapE_Forall2; intros H; symmetry; by eapply Forall2_length. Qed.

(** The loop invariant rule of [foldE]. *)
Lemma foldE_invariant {A S} (P : S → Prop) (f : S → A → gores S) s l s' :
  (∀ s a s', P s → f s a = Val s' → P s') → P s → foldE f s l = Val s' → P s'.
Proof.
  intros Hstep; revert s; induction l as [|a l IH]; intros s Hs; cbn.
  - by intros [= <-].
  - rw bind_Val; intros (s1 & H1 & H2); eauto.
Qed.

Lemma foldE_ext {A S} (f g : S → A → gores S) s l :
  (∀ s a, f s a = g s a) → foldE f s l = foldE g s l.
Proof.
  intros H; revert s; induction l as [|a l IH]; intros s; cbn; [done|].
  rw H. by destruct (g s a); cbn.
Qed.

Lemma foldE_app {A S} (f : S → A → gores S) s l1 l2 :
  foldE f s (l1 ++ l2) = s' ← foldE f s l1; foldE f s' l2.
Proof.
  revert s; induction l1 as [|a l1 IH]; intros s; cbn; [done|].
  by destruct (f s a); cbn.
Qed.

(** Nested loops are one loop over the concatenation. *)
Lemma foldE_bind {A B S} (f : S → B → gores S) (g : A → list B) s l :
  foldE (λ s a, foldE f s (g a)) s l = foldE f s (l ≫= g).
Proof.
  revert s; induction l as [|a l IH]; intros s; cbn; [done|].
  rw foldE_app. by destruct (foldE f s (g a)); cbn.
Qed.

(** A loop whose only fallible part does not depend on the accumulator. *)
Lemma foldE_mapE {A B S} (p : A → gores B) (g : S → B → S) s l :
  foldE (λ s a, b ← p a; Val (g s b)) s l = bs ← mapE p l; Val (foldl g s bs).
Proof.
  revert s; induction l as [|a l IH]; intros s; cbn; [done|].
  destruct (p a) as [b| |]; cbn; [|done..]. rw IH. by destruct (mapE p l).
Qed.

Lemma map_range_lookup {V} `{MapRange} (m : gmap string V) k v :
  (k, v) ∈ map_range m ↔ m !! k = Some v.
Proof. by rw map_range_perm elem_of_map_to_list. Qed.

Lemma map_range_NoDup {V} `{MapRange} (m : gmap string V) :
  NoDup (map_range m).*1.
Proof. rw map_range_perm; apply NoDup_fst_map_to_list. Qed.

(** ** Tactics *)

(** Turn a hypothesis [x ← m; k x = Val b] into its parts. *)
Ltac inv_bind :=
  repeat match goal with
  | H : Val _ = Val _ |- _ => injection H as H; try subst
  | H : Err _ = Val _ |- _ => discriminate H
  | H : Panic _ = Val _ |- _ => discriminate H
  | H : (_ ≫= _) = Val _ |- _ =>
      let a := fresh "a" in let Ha := fresh "Ha" in
      apply bind_Val in H as (a & Ha & H)
  end.

(** Case on the discriminee of an [if] or [match] in a hypothesis. *)
Ltac case_match_hyp H :=
  match type of H with
  | context [ match ?x with _ => _ end ] => destruct x eqn:?
  end.
