(* ===== verification/Goroutines.v ===== *)
(** * Goroutines over a shared state

    What the concurrent parts of the program share: goroutines that move one at
    a time over one state, Go's [sync.Mutex], schedules that can be run, the
    number of steps that are left, mutual exclusion and the absence of
    deadlocks.  [Pools] and [Prepared] instantiate it. *)

From S2P Require Import Prelude.

(** ** [sync.Mutex]

    Locked or not.  [Lock] waits while it is locked; [Unlock] of an unlocked one
    is a fatal error of the runtime. *)

Definition Mutex_Lock (m : bool) : option bool := if m then None else Some true.
Definition Mutex_Unlock (m : bool) : option bool := if m then Some false else None.

(** ** Lists of goroutines *)

Lemma lookup_insert_cases {A} (ts : list A) i t j x :
  <[i := t]> ts !! j = Some x → (j = i ∧ x = t) ∨ (j ≠ i ∧ ts !! j = Some x).
Proof. rw list_lookup_insert_Some. intuition congruence. Qed.

Lemma sum_list_with_insert {A} (f : A → nat) (l : list A) i x y :
  l !! i = Some x → sum_list_with f (<[i := y]> l) + f x = sum_list_with f l + f y.
Proof.
  revert i; induction l as [|z l IH]; intros [|i]; try done.
  - intros [= ->]. cbn. lia.
  - intros Hi. specialize (IH i Hi). simpl in *. lia.
Qed.

Lemma sum_list_with_bound {A} (f : A → nat) n (l : list A) :
  (∀ x, f x ≤ n) → sum_list_with f l ≤ n * length l.
Proof. intros Hf. induction l as [|x l IH]; cbn; [lia|]. specialize (Hf x). nia. Qed.

Lemma sum_list_with_ge {A} (f : A → nat) (l : list A) i x :
  l !! i = Some x → f x ≤ sum_list_with f l.
Proof.
  revert i; induction l as [|z l IH]; intros [|i]; cbn; try done.
  - intros [= ->]. lia.
  - intros Hi%IH. lia.
Qed.

Lemma sum_list_with_ge2 {A} (f : A → nat) (l : list A) i j x y :
  i ≠ j → l !! i = Some x → l !! j = Some y → f x + f y ≤ sum_list_with f l.
Proof.
  revert i j; induction l as [|z l IH]; intros [|i] [|j]; cbn; try done.
  - intros _ [= ->] Hj%(sum_list_with_ge f). lia.
  - intros _ Hi%(sum_list_with_ge f) [= ->]. lia.
  - intros Hne Hi Hj. pose proof (IH i j ltac:(lia) Hi Hj). lia.
Qed.

Lemma sum_list_with_pos {A} (f : A → nat) (l : list A) :
  0 < sum_list_with f l → ∃ i x, l !! i = Some x ∧ 0 < f x.
Proof.
  induction l as [|z l IH]; cbn; [lia|]. intros Hl. destruct (decide (0 < f z)) as [Hz|Hz].
  - by exists 0, z.
  - destruct IH as (i & x & ? & ?); [lia|]. by exists (S i), x.
Qed.

(** ** Interleavings *)

Section goroutines.
Context {St G : Type}.
(** The step of one goroutine; [None] when it has returned or has to wait. *)
Variable advance : St → G → option (St * G).

(** One goroutine moves. *)
Inductive interleave : St * list G → St * list G → Prop :=
| interleave_one s s' ts i t t' :
    ts !! i = Some t → advance s t = Some (s', t') → interleave (s, ts) (s', <[i := t']> ts).

Lemma rtc_invariant {A} (R : A → A → Prop) (P : A → Prop) x y :
  (∀ x y, R x y → P x → P y) → rtc R x y → P x → P y.
Proof. intros HR. induction 1; eauto. Qed.

(** Let the goroutines move in the given order. *)
Fixpoint schedule (order : list nat) (c : St * list G) : option (St * list G) :=
  match order with
  | [] => Some c
  | i :: order =>
      t ← c.2 !! i;
      '(s, t') ← advance c.1 t;
      schedule order (s, <[i := t']> c.2)
  end.

Lemma schedule_nsteps order c c' : schedule order c = Some c' → nsteps interleave (length order) c c'.
Proof.
  revert c; induction order as [|i order IH]; intros [s ts]; cbn; [intros [= ->]; constructor|].
  destruct (ts !! i) as [t|] eqn:Hi; [|done]. cbn.
  destruct (advance s t) as [[s' t']|] eqn:Ha; [|done]. cbn. intros Hs%IH.
  eapply nsteps_l; [by eapply interleave_one | done].
Qed.

Lemma schedule_sound order c c' : schedule order c = Some c' → rtc interleave c c'.
Proof. intros Hs%schedule_nsteps. by eapply rtc_nsteps_2. Qed.

(** A goroutine moves to its next state. *)
Definition moves (c c' : St * G) : Prop := advance c.1 c.2 = Some c'.

Lemma moves_interleave c c' ts i :
  rtc moves c c' → ts !! i = Some c.2 → rtc interleave (c.1, ts) (c'.1, <[i := c'.2]> ts).
Proof.
  intros Hm. revert ts. induction Hm as [[s t]|[s t] [s1 t1] [s2 t2] Hs _ IH]; intros ts Hi; cbn in *.
  - rw list_insert_id //.
  - eapply rtc_l; [by eapply interleave_one|].
    rw -(list_insert_insert_eq ts i t2 t1). apply IH.
    rw list_lookup_insert_eq //. by eapply lookup_lt_Some.
Qed.

Lemma interleave_length c c' : interleave c c' → length c'.2 = length c.2.
Proof. intros []. cbn. apply length_insert. Qed.

(** *** Termination *)

(** The steps a goroutine has left, at most. *)
Variable rank : G → nat.
Hypothesis advance_rank : ∀ s t s' t', advance s t = Some (s', t') → rank t' < rank t.

Lemma steps_ranked n c c' :
  nsteps interleave n c c' → n + sum_list_with rank c'.2 ≤ sum_list_with rank c.2.
Proof using advance_rank.
  induction 1 as [c|n c c1 c2 Hs _ IH]; [cbn; lia|].
  destruct Hs as [s s' ts i t t' Hi Ha]. cbn in *.
  pose proof (advance_rank _ _ _ _ Ha). pose proof (sum_list_with_insert rank ts i t t' Hi). lia.
Qed.
End goroutines.

(** ** Mutexes *)

Section mutexes.
Context {St G : Type}.
Variable advance : St → G → option (St * G).
(** Whether the [o]-th mutex is locked, and the one whose critical section a
    goroutine is in. *)
Variable locked : St → nat → bool.
Variable inside : G → option nat.

Definition in_section (o : nat) (t : G) : nat := if decide (inside t = Some o) then 1 else 0.

(** A mutex is locked exactly when one goroutine is in its critical section, and
    then it is the only one. *)
Definition mutual_exclusion (s : St) (ts : list G) : Prop :=
  ∀ o, sum_list_with (in_section o) ts = if locked s o then 1 else 0.

(** A step enters a critical section when it locks the mutex, and leaves it when
    it unlocks it. *)
Definition locks_follow_sections : Prop :=
  ∀ s t s' t', advance s t = Some (s', t') → (∀ o, inside t = Some o → locked s o = true) →
    ∀ o, in_section o t' + (if locked s o then 1 else 0) = in_section o t + (if locked s' o then 1 else 0).

(** The three kinds of steps. *)
Lemma quiet_step s s' t t' :
  (∀ q, locked s' q = locked s q) → inside t' = inside t →
  ∀ q, in_section q t' + (if locked s q then 1 else 0) = in_section q t + (if locked s' q then 1 else 0).
Proof. intros Hl E q. unfold in_section. by rw Hl E. Qed.

Lemma lock_step s s' t t' o :
  locked s o = false → (∀ q, locked s' q = if decide (q = o) then true else locked s q) →
  inside t = None → inside t' = Some o →
  ∀ q, in_section q t' + (if locked s q then 1 else 0) = in_section q t + (if locked s' q then 1 else 0).
Proof.
  intros Ho Hl E E' q. unfold in_section. rw Hl E E'.
  repeat case_decide; simplify_eq; rw ?Ho; try done; by destruct (locked s q).
Qed.

Lemma unlock_step s s' t t' o :
  locked s o = true → (∀ q, locked s' q = if decide (q = o) then false else locked s q) →
  inside t = Some o → inside t' = None →
  ∀ q, in_section q t' + (if locked s q then 1 else 0) = in_section q t + (if locked s' q then 1 else 0).
Proof.
  intros Ho Hl E E' q. unfold in_section. rw Hl E E'.
  repeat case_decide; simplify_eq; rw ?Ho; try done; by destruct (locked s q).
Qed.

Lemma inside_locked s ts i t o :
  mutual_exclusion s ts → ts !! i = Some t → inside t = Some o → locked s o = true.
Proof.
  intros Hm Hi Ho. specialize (Hm o). apply (sum_list_with_ge (in_section o)) in Hi.
  assert (in_section o t = 1) as E by (unfold in_section; by rw decide_True).
  destruct (locked s o); [done|]. lia.
Qed.

Lemma one_inside s ts i j t t' o :
  mutual_exclusion s ts → ts !! i = Some t → ts !! j = Some t' →
  inside t = Some o → inside t' = Some o → i = j.
Proof.
  intros Hm Hi Hj Ho Ho'. destruct (decide (i = j)) as [|Hne]; [done|].
  pose proof (sum_list_with_ge2 (in_section o) ts i j t t' Hne Hi Hj) as Hs. specialize (Hm o).
  assert (in_section o t = 1 ∧ in_section o t' = 1) as [E E'].
  { unfold in_section. by rw !decide_True. }
  destruct (locked s o); lia.
Qed.

Lemma locked_inside s ts o :
  mutual_exclusion s ts → locked s o = true → ∃ i t, ts !! i = Some t ∧ inside t = Some o.
Proof.
  intros Hm Hl. specialize (Hm o). rw Hl in Hm.
  destruct (sum_list_with_pos (in_section o) ts) as (i & t & Hi & Ht); [lia|]. exists i, t. split; [done|].
  unfold in_section in Ht. case_decide; [done|lia].
Qed.

Lemma mutual_exclusion_step c c' :
  locks_follow_sections → interleave advance c c' → mutual_exclusion c.1 c.2 → mutual_exclusion c'.1 c'.2.
Proof.
  intros Hl [s s' ts i t t' Hi Ha] Hm o. cbn in *.
  assert (∀ o, inside t = Some o → locked s o = true) as Hin by (intros o' ?; by eapply inside_locked).
  pose proof (Hl _ _ _ _ Ha Hin o). pose proof (Hm o) as Ho.
  pose proof (sum_list_with_insert (in_section o) ts i t t' Hi). lia.
Qed.

(** *** No deadlock *)

(** The goroutines that need no lock to go on, or have nothing to do: those that
    have returned, and those in a call that may take for ever. *)
Variable away : G → bool.

(** Outside the critical sections only a locked mutex makes a goroutine wait;
    inside one nothing does, and it makes no such call either. *)
Record lock_discipline (s : St) (t : G) : Prop := {
  waits_for_lock : inside t = None → away t = false → advance s t = None → ∃ o, locked s o = true;
  sections_move o : inside t = Some o → locked s o = true → away t = false ∧ is_Some (advance s t)
}.

Lemma no_deadlock s ts :
  Forall (lock_discipline s) ts → mutual_exclusion s ts →
  (∀ i t, ts !! i = Some t → away t = false → advance s t = None) → Forall (λ t, away t = true) ts.
Proof.
  intros Hd Hm Hstuck.
  assert (∀ i t o, ts !! i = Some t → inside t = Some o → False) as Hnone.
  { intros i t o Hi Hin. destruct (sections_move _ _ (Forall_lookup_1 _ _ _ _ Hd Hi) o Hin) as [Ht [x Hx]];
      [by eapply inside_locked|]. by rw (Hstuck i t Hi Ht) in Hx. }
  apply Forall_lookup_2. intros i t Hi. destruct (away t) eqn:Ht; [done|].
  destruct (waits_for_lock _ _ (Forall_lookup_1 _ _ _ _ Hd Hi)) as [o Ho]; [|done|by eapply Hstuck|].
  - destruct (inside t) as [o|] eqn:Hin; [|done]. by destruct (Hnone i t o Hi).
  - destruct (locked_inside s ts o Hm Ho) as (j & t' & Hj & Hin). by destruct (Hnone j t' o Hj).
Qed.

(** *** Leaving the critical sections *)

(** How far a goroutine is from the end of its critical section. *)
Variable rank : G → nat.
Hypothesis advance_rank : ∀ s t s' t', advance s t = Some (s', t') → rank t' < rank t.
(** An invariant of the program that keeps its locks. *)
Variable inv : St * list G → Prop.
Hypothesis inv_step : ∀ c c', interleave advance c c' → inv c → inv c'.
Hypothesis inv_locks : ∀ c, inv c → mutual_exclusion c.1 c.2 ∧ Forall (lock_discipline c.1) c.2.

(** The goroutines inside can go on to the end of their critical sections while
    the others stand still. *)
Lemma leave_sections s ts i t0 :
  inv (s, ts) → ts !! i = Some t0 → inside t0 = None →
  ∃ s' ts', rtc (interleave advance) (s, ts) (s', ts') ∧ ts' !! i = Some t0 ∧ (∀ o, locked s' o = false) ∧
    ((∀ o, locked s o = false) → s' = s ∧ ts' = ts).
Proof using All.
  remember (sum_list_with rank ts) as n eqn:En. revert s ts En.
  induction n as [n IH] using lt_wf_ind. intros s ts -> Hinv Hi H0. destruct (inv_locks _ Hinv) as [Hm Hd].
  destruct (decide (Exists (λ t, is_Some (inside t)) ts)) as [Hex|Hno].
  - apply Exists_exists in Hex as (t & [j Hj]%list_elem_of_lookup & [o Ho]).
    destruct (sections_move _ _ (Forall_lookup_1 _ _ _ _ Hd Hj) o Ho) as [_ [[s' t'] Ha]]; [by eapply inside_locked|].
    pose proof (advance_rank _ _ _ _ Ha). pose proof (sum_list_with_insert rank ts j t t' Hj).
    assert (interleave advance (s, ts) (s', <[j := t']> ts)) as Hstep by by eapply interleave_one.
    destruct (IH (sum_list_with rank (<[j := t']> ts)) ltac:(lia) s' (<[j := t']> ts)) as (s1 & ts1 & Hr & Hi1 & Hf & _);
      [done|by eapply inv_step| |done|].
    + rw list_lookup_insert_ne //. intros ->. rw Hi in Hj. injection Hj as <-. by rw H0 in Ho.
    + exists s1, ts1. split_and!; [by eapply rtc_l|done..|]. intros Hfree.
      specialize (Hfree o). by rw (inside_locked s ts j t o Hm Hj Ho) in Hfree.
  - exists s, ts. split_and!; [done..| |done]. intros o. destruct (locked s o) eqn:E; [|done].
    destruct (locked_inside s ts o Hm E) as (j & t & Hj & Ht). destruct Hno. apply Exists_exists.
    exists t. split; [by eapply list_elem_of_lookup_2|by eexists].
Qed.
End mutexes.

(** ** Code that makes an object when it is first asked for

    [if v == nil { v = new } return v], without a lock: before the test, before
    the assignment, before the return. *)
Inductive getting := GTest | GNew | GRead.
