(* ===== verification/GoStrings.v ===== *)
(** * Go strings

    Go strings are byte strings: [string] is a list of 8-bit [ascii] cells and
    [slen] is Go's [len].  This file models what the program uses of the
    packages [strings], [strconv] (integers), [unicode] and [unicode/utf8].
    The Unicode tables above Latin-1 are data of the Go library; they are the
    class [UnicodeTables], and no theorem constrains them. *)

From S2P Require Import Prelude.

(** ** Bytes *)

Definition bval (c : ascii) : N := N_of_ascii c.
Definition between (lo hi n : N) : bool := (lo <=? n)%N && (n <=? hi)%N.
Definition is_lower_ascii (n : N) : bool := between 97 122 n.
Definition is_upper_ascii (n : N) : bool := between 65 90 n.
Definition is_digit_ascii (n : N) : bool := between 48 57 n.

(** The one-byte string of a byte value. *)
Definition byte_str (n : N) : string := String (ascii_of_N n) "".

(** The double-quote character, and literals in which a backquote stands for
    it (Go's raw string literals hold no backquote). *)
Definition dqc : ascii := Eval vm_compute in ascii_of_N 34.
Definition dq : string := String dqc "".

Fixpoint requote (s : string) : string :=
  match s with
  | "" => ""
  | String c s' => String (if Ascii.eqb c "`" then dqc else c) (requote s')
  end.

Fixpoint bytes_of (s : string) : list N :=
  match s with "" => [] | String c s' => bval c :: bytes_of s' end.

Fixpoint string_forall (p : ascii → bool) (s : string) : bool :=
  match s with "" => true | String c s' => p c && string_forall p s' end.

Fixpoint string_exists (p : ascii → bool) (s : string) : bool :=
  match s with "" => false | String c s' => p c || string_exists p s' end.

(** ** Package strings *)

Definition HasPrefix (s p : string) : bool := String.prefix p s.

Fixpoint drop_bytes (n : nat) (s : string) : string :=
  match n, s with
  | O, _ => s
  | S n', String _ s' => drop_bytes n' s'
  | S _, "" => ""
  end.

Fixpoint take_bytes (n : nat) (s : string) : string :=
  match n, s with
  | S n', String c s' => String c (take_bytes n' s')
  | _, _ => ""
  end.

Definition HasSuffix (s p : string) : bool :=
  Nat.leb (slen p) (slen s) && String.eqb (drop_bytes (slen s - slen p) s) p.

Definition TrimPrefix (s p : string) : string :=
  if HasPrefix s p then drop_bytes (slen p) s else s.

(** [strings.Index], [None] for Go's -1. *)
Fixpoint Index (s sub : string) : option nat :=
  if String.prefix sub s then Some 0
  else match s with "" => None | String _ s' => S <$> Index s' sub end.

Definition Contains (s sub : string) : bool :=
  match Index s sub with Some _ => true | None => false end.

(** [strings.Split(s, sep)] for a non-empty separator: scan left to right,
    skipping [k] bytes of a separator already recognised. *)
Definition cons_head (c : ascii) (l : list string) : list string :=
  match l with [] => [String c ""] | h :: t => String c h :: t end.

Fixpoint split_from (sep : string) (k : nat) (s : string) : list string :=
  match s with
  | "" => [""]
  | String c s' =>
      match k with
      | S k' => split_from sep k' s'
      | O => if String.prefix sep s then "" :: split_from sep (pred (slen sep)) s'
             else cons_head c (split_from sep 0 s')
      end
  end.

Definition Split (s sep : string) : list string := split_from sep 0 s.
#[global] Arguments Split : simpl never.

Fixpoint Join (l : list string) (sep : string) : string :=
  match l with
  | [] => ""
  | [x] => x
  | x :: l' => x +:+ sep +:+ Join l' sep
  end.

(** [strings.ReplaceAll] for a non-empty [old]. *)
Definition ReplaceAll (s old new : string) : string := Join (Split s old) new.

(** [strings.Replace(s, old, new, 1)] for a non-empty [old]. *)
Fixpoint ReplaceFirst (s old new : string) : string :=
  if String.prefix old s then new +:+ drop_bytes (slen old) s
  else match s with "" => "" | String c s' => String c (ReplaceFirst s' old new) end.

(** ** UTF-8 *)

Definition RuneError : N := 65533.

Definition cont_byte (n : N) : bool := between 128 191 n.

(** [utf8.DecodeRuneInString]: the rune at the head of [s] and its width. *)
Definition decode_rune (s : string) : N * nat :=
  match bytes_of (take_bytes 4 s) with
  | [] => (RuneError, 0)
  | b0 :: r =>
      if (b0 <? 128)%N then (b0, 1)
      else match r with
      | b1 :: r' =>
          if between 194 223 b0 && cont_byte b1
          then (((b0 - 192) * 64 + (b1 - 128))%N, 2)
          else match r' with
          | b2 :: r'' =>
              if ((b0 =? 224)%N && between 160 191 b1 ||
                  (between 225 236 b0 || between 238 239 b0) && cont_byte b1 ||
                  (b0 =? 237)%N && between 128 159 b1) && cont_byte b2
              then (((b0 - 224) * 4096 + (b1 - 128) * 64 + (b2 - 128))%N, 3)
              else match r'' with
              | b3 :: _ =>
                  if ((b0 =? 240)%N && between 144 191 b1 ||
                      between 241 243 b0 && cont_byte b1 ||
                      (b0 =? 244)%N && between 128 143 b1) && cont_byte b2 && cont_byte b3
                  then (((b0 - 240) * 262144 + (b1 - 128) * 4096
                         + (b2 - 128) * 64 + (b3 - 128))%N, 4)
                  else (RuneError, 1)
              | [] => (RuneError, 1)
              end
          | [] => (RuneError, 1)
          end
      | [] => (RuneError, 1)
      end
  end.

(** [utf8.AppendRune] *)
Definition encode_rune (r : N) : string :=
  if (r <? 128)%N then byte_str r
  else if (r <? 2048)%N then byte_str (192 + r / 64) +:+ byte_str (128 + r mod 64)
  else if (r <? 65536)%N then
    (if between 55296 57343 r then byte_str 239 +:+ byte_str 191 +:+ byte_str 189
     else byte_str (224 + r / 4096) +:+ byte_str (128 + (r / 64) mod 64)
          +:+ byte_str (128 + r mod 64))
  else if (r <? 1114112)%N then
    byte_str (240 + r / 262144) +:+ byte_str (128 + (r / 4096) mod 64)
    +:+ byte_str (128 + (r / 64) mod 64) +:+ byte_str (128 + r mod 64)
  else byte_str 239 +:+ byte_str 191 +:+ byte_str 189.

(** [for _, r := range s]: the runes of [s] with the bytes each came from. *)
Fixpoint rune_segs_from (k : nat) (s : string) : list (N * string) :=
  match s with
  | "" => []
  | String c s' =>
      match k with
      | S k' => rune_segs_from k' s'
      | O => let '(r, w) := decode_rune s in
             (r, take_bytes w s) :: rune_segs_from (pred w) s'
      end
  end.

Definition rune_segs (s : string) : list (N * string) := rune_segs_from 0 s.
Definition runes (s : string) : list N := (rune_segs s).*1.

(** ** Package unicode *)

Class UnicodeTables := {
  uni_letter : N → bool;      (* category L, code points above U+00FF *)
  uni_digit : N → bool;       (* category Nd, above U+00FF *)
  uni_print : N → bool;       (* strconv.IsPrint, above U+007F *)
  uni_upper : N → N;          (* simple upper-case mapping, above U+007F *)
  uni_lower : N → N           (* simple lower-case mapping, above U+007F *)
}.

(** Tables that give no rune above Latin-1 any property: a concrete instance. *)
Definition ascii_tables : UnicodeTables := {|
  uni_letter := λ _, false; uni_digit := λ _, false; uni_print := λ _, false;
  uni_upper := λ r, r; uni_lower := λ r, r |}.

(** The letters of Latin-1 outside ASCII: U+00AA, U+00B5, U+00BA and U+00C0 to
    U+00FF but for the multiplication and division signs. *)
Definition latin1_letter (r : N) : bool :=
  (r =? 170)%N || (r =? 181)%N || (r =? 186)%N
  || between 192 255 r && negb (r =? 215)%N && negb (r =? 247)%N.

Section unicode.
Context `{UnicodeTables}.

Definition IsLetter (r : N) : bool :=
  is_lower_ascii r || is_upper_ascii r || latin1_letter r
  || (255 <? r)%N && uni_letter r.

Definition IsDigit (r : N) : bool :=
  is_digit_ascii r || (255 <? r)%N && uni_digit r.

(** [unicode.White_Space] *)
Definition IsSpace (r : N) : bool :=
  between 9 13 r || (r =? 32)%N || (r =? 133)%N || (r =? 160)%N
  || (r =? 5760)%N || between 8192 8202 r || (r =? 8232)%N || (r =? 8233)%N
  || (r =? 8239)%N || (r =? 8287)%N || (r =? 12288)%N.

Definition upper_rune (r : N) : N :=
  if (r <? 128)%N then (if is_lower_ascii r then r - 32 else r)%N else uni_upper r.

Definition lower_rune (r : N) : N :=
  if (r <? 128)%N then (if is_upper_ascii r then r + 32 else r)%N else uni_lower r.

(** [strings.Map] over the decoded runes; on ASCII strings this is the
    byte-wise fast path of [strings.ToUpper] and [strings.ToLower]. *)
Definition ToUpper (s : string) : string :=
  String.concat "" (encode_rune ∘ upper_rune <$> runes s).

Definition ToLower (s : string) : string :=
  String.concat "" (encode_rune ∘ lower_rune <$> runes s).
End unicode.

(** ** [strings.TrimSpace] and [strings.TrimRight] *)

Fixpoint drop_space (l : list (N * string)) : list (N * string) :=
  match l with
  | (r, b) :: l' => if IsSpace r then drop_space l' else l
  | [] => []
  end.

Definition TrimSpace (s : string) : string :=
  String.concat "" (rev (drop_space (rev (drop_space (rune_segs s))))).*2.

(** [strings.TrimRight(s, c)] for an ASCII cutset of one byte. *)
Fixpoint TrimRightByte (s : string) (c : ascii) : string :=
  match s with
  | "" => ""
  | String d s' =>
      let t := TrimRightByte s' c in
      match t with
      | "" => if Ascii.eqb d c then "" else String d ""
      | _ => String d t
      end
  end.

(** ** [strconv.Quote] and [strconv.Unquote] *)

Definition hex_digit (n : N) : string :=
  if (n <? 10)%N then byte_str (48 + n) else byte_str (87 + n).

(** [n] hexadecimal digits of [v], most significant first. *)
Fixpoint hex_digits (n : nat) (v : N) : string :=
  match n with
  | O => ""
  | S n' => hex_digits n' (v / 16) +:+ hex_digit (v mod 16)
  end.

Section quote.
Context `{UnicodeTables}.

(** [strconv.IsPrint] *)
Definition IsPrint (r : N) : bool :=
  if (r <? 128)%N then between 32 126 r else uni_print r.

(** One segment of [strconv.appendEscapedRune] for a double-quoted string:
    [b] holds the bytes the rune [r] was decoded from. *)
Definition quote_seg (rb : N * string) : string :=
  let '(r, b) := rb in
  if (r =? RuneError)%N && Nat.eqb (slen b) 1 then
    "\x" +:+ String.concat "" (hex_digits 2 <$> bytes_of b)
  else if (r =? 34)%N then "\" +:+ byte_str 34
  else if (r =? 92)%N then "\\"
  else if IsPrint r then b
  else if (r =? 7)%N then "\a"
  else if (r =? 8)%N then "\b"
  else if (r =? 12)%N then "\f"
  else if (r =? 10)%N then "\n"
  else if (r =? 13)%N then "\r"
  else if (r =? 9)%N then "\t"
  else if (r =? 11)%N then "\v"
  else if (r <? 32)%N || (r =? 127)%N then "\x" +:+ hex_digits 2 r
  else if (r <? 65536)%N then "\u" +:+ hex_digits 4 r
  else "\U" +:+ hex_digits 8 r.

Definition strconv_Quote (s : string) : string :=
  byte_str 34 +:+ String.concat "" (quote_seg <$> rune_segs s) +:+ byte_str 34.
End quote.

(** The value of [n] hexadecimal digits at the head of [s], and the rest. *)
Definition unhex (c : ascii) : option N :=
  let n := bval c in
  if between 48 57 n then Some (n - 48)%N
  else if between 97 102 n then Some (n - 87)%N
  else if between 65 70 n then Some (n - 55)%N
  else None.

Fixpoint take_hex (n : nat) (acc : N) (s : string) : option (N * string) :=
  match n with
  | O => Some (acc, s)
  | S n' =>
      match s with
      | String c s' => match unhex c with
                       | Some d => take_hex n' (acc * 16 + d) s'
                       | None => None end
      | "" => None
      end
  end.

(** [utf8.ValidRune] *)
Definition ValidRune (r : N) : bool :=
  (r <? 55296)%N || between 57344 1114111 r.

(** One octal digit. *)
Definition unoct (c : ascii) : option N :=
  if between 48 55 (bval c) then Some (bval c - 48)%N else None.

(** The escapes of [strconv.UnquoteChar] after a backslash, for a string
    quoted with double quotes: the bytes denoted, and the rest of the input. *)
Definition unquote_escape (c : ascii) (s : string) : option (string * string) :=
  let n := bval c in
  if (n =? 97)%N then Some (byte_str 7, s)
  else if (n =? 98)%N then Some (byte_str 8, s)
  else if (n =? 102)%N then Some (byte_str 12, s)
  else if (n =? 110)%N then Some (byte_str 10, s)
  else if (n =? 114)%N then Some (byte_str 13, s)
  else if (n =? 116)%N then Some (byte_str 9, s)
  else if (n =? 118)%N then Some (byte_str 11, s)
  else if (n =? 92)%N then Some (byte_str 92, s)
  else if (n =? 34)%N then Some (byte_str 34, s)
  else if (n =? 120)%N then '(v, r) ← take_hex 2 0 s; Some (byte_str v, r)
  else if (n =? 117)%N then
    '(v, r) ← take_hex 4 0 s; if ValidRune v then Some (encode_rune v, r) else None
  else if (n =? 85)%N then
    '(v, r) ← take_hex 8 0 s; if ValidRune v then Some (encode_rune v, r) else None
  else match unoct c, s with
  | Some d0, String c1 (String c2 r) =>
      d1 ← unoct c1; d2 ← unoct c2;
      let v := (d0 * 64 + d1 * 8 + d2)%N in
      if (255 <? v)%N then None else Some (byte_str v, r)
  | _, _ => None
  end.

(** The body of a double-quoted string up to its closing quote, which must end the
    input; [fuel] is at least the number of bytes. *)
Fixpoint unquote_body (fuel : nat) (s : string) : option string :=
  match fuel with
  | O => None
  | S f =>
      match s with
      | "" => None
      | String c s' =>
          if Ascii.eqb c (ascii_of_N 34) then
            match s' with "" => Some "" | _ => None end
          else if Ascii.eqb c (ascii_of_N 10) then None
          else if Ascii.eqb c (ascii_of_N 92) then
            match s' with
            | "" => None
            | String e s'' =>
                '(b, r) ← unquote_escape e s'';
                t ← unquote_body f r; Some (b +:+ t)
            end
          else t ← unquote_body f s'; Some (String c t)
      end
  end.

Definition ErrSyntax : error := "invalid syntax".

(** [strconv.Unquote] on a string that starts with a double quote; the program calls it on
    nothing else. *)
Definition strconv_Unquote (s : string) : gores string :=
  match s with
  | String c s' =>
      if Ascii.eqb c (ascii_of_N 34) then
        match unquote_body (S (slen s')) s' with
        | Some t => Val t
        | None => Err ErrSyntax
        end
      else Err ErrSyntax
  | "" => Err ErrSyntax
  end.

(** ** Package strconv: decimal integers *)

Definition digit_str (d : N) : string := byte_str (48 + d).

(** Decimal digits, most significant first; [fuel] bounds their number. *)
Fixpoint ndigits (fuel : nat) (n : N) (acc : string) : string :=
  match fuel with
  | O => acc
  | S f => let acc' := digit_str (n mod 10) +:+ acc in
           if (n <? 10)%N then acc' else ndigits f (n / 10) acc'
  end.

Definition ntoa (n : N) : string := ndigits (S (N.to_nat (N.log2 n))) n "".

(** [strconv.Itoa] and [fmt.Sprintf("%d", z)] *)
Definition Itoa (z : Z) : string :=
  if (z <? 0)%Z then "-" +:+ ntoa (Z.to_N (- z)) else ntoa (Z.to_N z).

Definition MaxInt64 : Z := 9223372036854775807.
Definition MinInt64 : Z := -9223372036854775808.

(** Two's-complement wrap-around of a 64-bit [int]. *)
Definition wrap64 (z : Z) : Z := ((z + 9223372036854775808) mod 18446744073709551616
                                  - 9223372036854775808)%Z.

Fixpoint digits_val (acc : N) (s : string) : option N :=
  match s with
  | "" => Some acc
  | String c s' =>
      if is_digit_ascii (bval c) then digits_val (acc * 10 + (bval c - 48)) s' else None
  end.

Section atoi.
Context `{UnicodeTables}.

(** [strconv.NumError.Error] *)
Definition atoi_error (s : string) : error :=
  "strconv.Atoi: parsing " +:+ strconv_Quote s +:+ ": invalid syntax".
Definition atoi_range_error (s : string) : error :=
  "strconv.Atoi: parsing " +:+ strconv_Quote s +:+ ": value out of range".

(** [strconv.Atoi]: an optional sign, then at least one decimal digit, within
    the range of a 64-bit [int]. *)
Definition Atoi (s : string) : gores Z :=
  let '(neg, body) :=
    match s with
    | String "-" r => (true, r)
    | String "+" r => (false, r)
    | _ => (false, s)
    end in
  match body with
  | "" => Err (atoi_error s)
  | _ =>
      match digits_val 0 body with
      | None => Err (atoi_error s)
      | Some n =>
          let z := (if neg : bool then - Z.of_N n else Z.of_N n)%Z in
          if (MinInt64 <=? z)%Z && (z <=? MaxInt64)%Z then Val z
          else Err (atoi_range_error s)
      end
  end.
End atoi.

(** ** Lemmas *)

(** Prove a fact about all bytes by evaluation. *)
Ltac ascii_cases c := destruct c as [[] [] [] [] [] [] [] []]; vm_compute; try done.

Lemma sapp_assoc (a b c : string) : (a +:+ b) +:+ c = a +:+ (b +:+ c).
Proof. induction a; cbn; congruence. Qed.

Lemma sapp_nil_r (a : string) : a +:+ "" = a.
Proof. induction a; cbn; congruence. Qed.

Lemma slen_app a b : slen (a +:+ b) = slen a + slen b.
Proof. induction a; cbn; congruence. Qed.

Lemma sapp_inj_l (a b c : string) : a +:+ b = a +:+ c → b = c.
Proof. induction a; cbn; [done|]; intros [= ?]; auto. Qed.

Lemma string_forall_app p a b :
  string_forall p (a +:+ b) = string_forall p a && string_forall p b.
Proof. induction a as [|c a IH]; cbn; [done|]. by rw IH andb_assoc. Qed.

Lemma string_forall_impl (p q : ascii → bool) s :
  (∀ c, p c = true → q c = true) → string_forall p s = true → string_forall q s = true.
Proof.
  intros H; induction s as [|c s IH]; cbn; [done|].
  rw !andb_true_iff; intros [??]; auto.
Qed.

Lemma take_drop_bytes n s : take_bytes n s +:+ drop_bytes n s = s.
Proof. revert s; induction n; intros [|c s]; cbn; [done..|]. by f_equal. Qed.

Lemma drop_bytes_app a b : drop_bytes (slen a) (a +:+ b) = b.
Proof. induction a; cbn; [by destruct b|done]. Qed.

Lemma take_bytes_app a b : take_bytes (slen a) (a +:+ b) = a.
Proof. induction a; cbn; [by destruct b|congruence]. Qed.

Lemma slen_drop n s : slen (drop_bytes n s) = slen s - n.
Proof. revert s; induction n; intros [|c s]; cbn; [done..|]. auto. Qed.

Lemma prefix_spec p s : String.prefix p s = true ↔ ∃ t, s = p +:+ t.
Proof.
  revert s; induction p as [|c p IH]; intros [|d s]; cbn.
  - split; [by exists ""|done].
  - split; [by eexists|done].
  - split; [done|by intros [? ?]].
  - destruct (ascii_dec c d) as [->|Hne].
    + rw IH; split; intros [t Ht]; exists t; [by subst|by injection Ht].
    + split; [done|]. intros [t Ht]; congruence.
Qed.

Lemma prefix_app p t : String.prefix p (p +:+ t) = true.
Proof. apply prefix_spec; eauto. Qed.

Lemma Index_spec s sub i :
  Index s sub = Some i → s = take_bytes i s +:+ sub +:+ drop_bytes (i + slen sub) s.
Proof.
  revert i; induction s as [|c s IH]; intros i; cbn [Index].
  - destruct (String.prefix sub "") eqn:E; [|done].
    apply prefix_spec in E as [t Ht]. destruct sub; [|done]. intros [= <-]; done.
  - destruct (String.prefix sub (String c s)) eqn:E.
    + apply prefix_spec in E as [t Ht]. intros [= <-]; cbn [take_bytes Nat.add].
      rw Ht drop_bytes_app; done.
    + destruct (Index s sub) as [j|] eqn:Ej; [|done]. intros [= <-].
      cbn. f_equal. by apply IH.
Qed.

(** *** Split and Join *)

Lemma split_from_nonempty sep k s : split_from sep k s ≠ [].
Proof.
  revert k; induction s as [|c s IH]; intros [|k]; cbn [split_from]; try done.
  destruct (String.prefix _ _); [done|].
  specialize (IH 0); by destruct (split_from sep 0 s).
Qed.

Lemma Join_cons x l sep : l ≠ [] → Join (x :: l) sep = x +:+ sep +:+ Join l sep.
Proof. by destruct l. Qed.

Lemma Join_cons_head c l sep : l ≠ [] → Join (cons_head c l) sep = String c (Join l sep).
Proof. destruct l as [|h [|h' l]]; done. Qed.

Lemma split_from_join sep k s :
  sep ≠ "" → Join (split_from sep k s) sep = drop_bytes k s.
Proof.
  intros Hsep; revert k; induction s as [|c s IH]; intros [|k]; try done; cbn [split_from].
  - destruct (String.prefix sep (String c s)) eqn:E.
    + apply prefix_spec in E as [t Ht].
      rw Join_cons; [apply split_from_nonempty|]. rw IH. cbn.
      destruct sep as [|d sep]; [done|]. cbn in *. injection Ht as -> ->.
      by rw drop_bytes_app.
    + rw Join_cons_head; [apply split_from_nonempty|]. by rw IH.
  - apply IH.
Qed.

Lemma Join_Split s sep : sep ≠ "" → Join (Split s sep) sep = s.
Proof. intros; unfold Split; by rw split_from_join. Qed.

Lemma Split_nonempty s sep : Split s sep ≠ [].
Proof. apply split_from_nonempty. Qed.

(** One-byte separators. *)
Definition no_byte (d : ascii) (s : string) : bool := string_forall (λ c, negb (Ascii.eqb d c)) s.

Lemma Split_cons1 d c s :
  Split (String c s) (String d "") =
  if Ascii.eqb d c then "" :: Split s (String d "") else cons_head c (Split s (String d "")).
Proof.
  unfold Split; cbn [split_from]. cbn [String.prefix].
  destruct (ascii_dec d c) as [->|Hne].
  - rw Ascii.eqb_refl. cbn. by destruct s.
  - destruct (Ascii.eqb_spec d c); done.
Qed.

Lemma Contains_none d s : no_byte d s = true → Contains s (String d "") = false.
Proof.
  unfold Contains, no_byte. induction s as [|c s IH]; [done|]. cbn [string_forall Index].
  rw andb_true_iff negb_true_iff. intros [Hc Hs]. specialize (IH Hs).
  assert (String.prefix (String d "") (String c s) = false) as ->.
  { cbn. destruct (ascii_dec d c) as [->|]; [by rw Ascii.eqb_refl in Hc|done]. }
  by destruct (Index s _).
Qed.

Lemma Split1_no_byte d s : Forall (λ x, no_byte d x = true) (Split s (String d "")).
Proof.
  induction s as [|c s IH]; [by repeat constructor|].
  rw Split_cons1. destruct (Ascii.eqb d c) eqn:E; [by constructor|].
  destruct (Split s _) as [|h t]; cbn; [|inversion IH; subst]; repeat constructor; auto;
    unfold no_byte in *; cbn; by rw E.
Qed.

Lemma Split1_single d s : no_byte d s = true → Split s (String d "") = [s].
Proof.
  unfold no_byte; induction s as [|c s IH]; [done|].
  cbn. rw andb_true_iff negb_true_iff; intros [Hc Hs].
  by rw Split_cons1 Hc IH.
Qed.

Lemma Split1_app d a b :
  no_byte d a = true → Split (a +:+ String d b) (String d "") = a :: Split b (String d "").
Proof.
  unfold no_byte; induction a as [|c a IH]; cbn.
  - intros _. by rw Split_cons1 Ascii.eqb_refl.
  - rw andb_true_iff negb_true_iff; intros [Hc Hs].
    by rw Split_cons1 Hc IH.
Qed.

Lemma Split1_Join d l :
  l ≠ [] → Forall (λ x, no_byte d x = true) l → Split (Join l (String d "")) (String d "") = l.
Proof.
  induction l as [|x l IH]; [done|]. intros _ Hl; inversion Hl as [|?? Hx Hl']; subst.
  destruct l as [|y l]; [by apply Split1_single|].
  rw Join_cons; [done|]. cbn [String.append].
  rw Split1_app; [done|]. by rw IH.
Qed.

(** *** Decimal integers *)

Definition is_digit_byte (c : ascii) : bool := is_digit_ascii (bval c).

Lemma digits_val_app acc a b :
  digits_val acc (a +:+ b) = n ← digits_val acc a; digits_val n b.
Proof.
  revert acc; induction a as [|c a IH]; intros acc; cbn; [done|].
  destruct (is_digit_ascii _); [apply IH|done].
Qed.

Lemma between_true lo hi n : between lo hi n = true ↔ (lo ≤ n ≤ hi)%N.
Proof. unfold between. by rw andb_true_iff !N.leb_le. Qed.

Lemma bval_digit d : (d < 10)%N → bval (ascii_of_N (48 + d)) = (48 + d)%N.
Proof. intros; unfold bval; apply N_ascii_embedding; lia. Qed.

Lemma digits_val_digit acc d s :
  (d < 10)%N → digits_val acc (digit_str d +:+ s) = digits_val (acc * 10 + d) s.
Proof.
  intros Hd. cbn [digit_str byte_str String.append digits_val]. rw bval_digit; [done|].
  unfold is_digit_ascii, between.
  rw !(proj2 (N.leb_le _ _)); [lia..|]. cbn. f_equal; lia.
Qed.

Lemma pow_split (n : N) (f : nat) :
  (n < 10 ^ N.of_nat (S f))%N → (n / 10 < 10 ^ N.of_nat f)%N.
Proof.
  intros H. rw Nat2N.inj_succ N.pow_succ_r' in H. apply N.Div0.div_lt_upper_bound; lia.
Qed.

Lemma ndigits_spec fuel n acc :
  (n < 10 ^ N.of_nat fuel)%N → (0 < fuel)%nat →
  ∃ ds, ndigits fuel n acc = ds +:+ acc ∧ ds ≠ "" ∧
        string_forall is_digit_byte ds = true ∧ ∀ a, ∃ k, digits_val a ds = Some (a * 10 ^ k + n)%N.
Proof.
  revert n acc; induction fuel as [|f IH]; intros n acc Hn Hf; [lia|].
  assert (n mod 10 < 10)%N as Hd by (apply N.mod_lt; lia).
  assert (is_digit_byte (ascii_of_N (48 + n mod 10)) = true) as Hdig.
  { unfold is_digit_byte, is_digit_ascii; rw bval_digit; [done|].
    apply between_true. revert Hd; generalize (n mod 10)%N; lia. }
  cbn [ndigits]. destruct (N.ltb_spec n 10) as [Hlt|Hge].
  - exists (digit_str (n mod 10)). repeat split; [done|by cbn [string_forall digit_str byte_str]; rw Hdig|].
    intros a; exists 1%N. rw -(sapp_nil_r (digit_str _)) digits_val_digit; [done|]. cbn [digits_val].
    rw N.mod_small; [done|]. f_equal; lia.
  - destruct f as [|f]; [cbn in Hn; lia|].
    destruct (IH (n / 10)%N (digit_str (n mod 10) +:+ acc)) as (ds & -> & Hne & Hall & Hval);
      [by apply pow_split|lia|].
    exists (ds +:+ digit_str (n mod 10)). split_and!.
    + by rw sapp_assoc.
    + by destruct ds.
    + rw string_forall_app Hall. cbn [string_forall digit_str byte_str]. by rw Hdig.
    + intros a. destruct (Hval a) as [k Hk]. exists (k + 1)%N.
      rw digits_val_app Hk. cbn [mbind option_bind].
      rw -(sapp_nil_r (digit_str _)) digits_val_digit; [done|]. cbn [digits_val].
      f_equal. rw N.pow_add_r. pose proof (N.div_mod' n 10). lia.
Qed.

Lemma ntoa_fuel n : (n < 10 ^ N.of_nat (S (N.to_nat (N.log2 n))))%N.
Proof.
  rw Nat2N.inj_succ N2Nat.id.
  destruct (decide (n = 0%N)) as [->|Hn]; [done|].
  eapply N.lt_le_trans; [apply N.log2_spec; lia|].
  apply N.pow_le_mono_l; lia.
Qed.

(** [ntoa] prints digits only, at least one, that read back as the number. *)
Lemma ntoa_spec n :
  ntoa n ≠ "" ∧ string_forall is_digit_byte (ntoa n) = true ∧
  ∀ a, ∃ k, digits_val a (ntoa n) = Some (a * 10 ^ k + n)%N.
Proof.
  destruct (ndigits_spec _ n "" (ntoa_fuel n)) as (ds & Hds & Hne & Hall & Hval); [lia|].
  rw sapp_nil_r in Hds. by rw /ntoa Hds.
Qed.

Lemma digits_val_ntoa n : digits_val 0 (ntoa n) = Some n.
Proof. destruct (ntoa_spec n) as (_ & _ & H). destruct (H 0%N) as [k ->]. f_equal; lia. Qed.

Lemma ntoa_cons n : ∃ c s, ntoa n = String c s ∧ is_digit_byte c = true.
Proof.
  destruct (ntoa_spec n) as (Hne & Hall & _). destruct (ntoa n) as [|c s]; [done|].
  cbn in Hall. apply andb_true_iff in Hall as [Hc _]. eauto.
Qed.

Lemma digit_byte_not_sign c :
  is_digit_byte c = true → c ≠ "-"%char ∧ c ≠ "+"%char.
Proof. ascii_cases c. Qed.

(** Reading an integer [fmt.Sprint] printed gives the integer back. *)
Lemma Atoi_Itoa `{UnicodeTables} z :
  (MinInt64 ≤ z ≤ MaxInt64)%Z → Atoi (Itoa z) = Val z.
Proof.
  intros [Hlo Hhi]. unfold Itoa, Atoi. destruct (Z.ltb_spec z 0).
  - cbn [String.append]. destruct (ntoa_cons (Z.to_N (- z))) as (c & s & Hc & _).
    pose proof (digits_val_ntoa (Z.to_N (- z))) as Hv. rw Hc in Hv |- *. rw Hv.
    rw Z2N.id; [lia|]. rw Z.opp_involutive.
    by rw !(proj2 (Z.leb_le _ _)).
  - destruct (ntoa_cons (Z.to_N z)) as (c & s & Hc & Hd).
    pose proof (digits_val_ntoa (Z.to_N z)) as Hv.
    apply digit_byte_not_sign in Hd as [Hm Hp]. rw Hc in Hv |- *.
    assert (match String c s with
            | String "-" r => (true, r) | String "+" r => (false, r)
            | _ => (false, String c s) end = (false, String c s)) as ->.
    { destruct c as [[] [] [] [] [] [] [] []]; done. }
    rw Hv Z2N.id; [lia|]. by rw !(proj2 (Z.leb_le _ _)).
Qed.

(** *** Runes of ASCII text *)

Lemma decode_rune_ascii c s : (bval c < 128)%N → decode_rune (String c s) = (bval c, 1).
Proof.
  intros Hc. unfold decode_rune. cbn [take_bytes bytes_of].
  by rw (proj2 (N.ltb_lt _ _)).
Qed.

Lemma decode_rune_high c s : (128 ≤ bval c)%N → (128 ≤ (decode_rune (String c s)).1)%N.
Proof.
  intros Hc. unfold decode_rune. cbn [take_bytes bytes_of].
  rw (proj2 (N.ltb_ge _ _)); [done|].
  repeat match goal with
  | |- context [match ?x with _ => _ end] => destruct x eqn:?; try (cbn; unfold RuneError; lia)
  end;
  unfold cont_byte, between in *; cbn [fst];
  repeat match goal with
  | H : (_ && _) = true |- _ => apply andb_true_iff in H as [??]
  | H : (_ || _) = true |- _ => apply orb_true_iff in H as [H|H]
  | H : (_ <=? _)%N = true |- _ => apply N.leb_le in H
  | H : (_ =? _)%N = true |- _ => apply N.eqb_eq in H
  end; lia.
Qed.

Definition is_ascii_byte (c : ascii) : bool := (bval c <? 128)%N.

Lemma rune_segs_ascii s :
  string_forall is_ascii_byte s = true →
  rune_segs s = (λ c, (bval c, String c "")) <$> String.list_ascii_of_string s.
Proof.
  unfold rune_segs; induction s as [|c s IH]; cbn [string_forall]; [done|].
  rw andb_true_iff; intros [Hc Hs]. apply N.ltb_lt in Hc.
  cbn [rune_segs_from]. rw decode_rune_ascii; [done|]. cbn [pred take_bytes].
  rw IH; [done|]. by destruct s.
Qed.

#[export] Hint Resolve Split_nonempty split_from_nonempty prefix_app : go.
