(* ===== verification/GoTime.v ===== *)
(** * Times

    What the program uses of Go's package [time]: the RFC 3339 text of an
    instant, and [time.Parse] on that layout, which takes what the layout's
    general parser takes (an hour of one digit, a comma before the fraction).
    An instant is its number of seconds since 1970 in UTC; a fraction of a
    second is read and dropped, as no text the program prints shows it. *)

From S2P Require Import Prelude GoStrings.

(** ** Dates of the proleptic Gregorian calendar *)

(** Year, month and day of a day of an era of 400 years, that begins on the
    first of March of its year 0. *)
Definition civil_of_era (doe : Z) : Z * Z * Z :=
  (let yoe := (doe - doe / 1460 + doe / 36524 - doe / 146096) / 365 in
   let doy := doe - (365 * yoe + yoe / 4 - yoe / 100) in
   let mp := (5 * doy + 2) / 153 in
   let d := doy - (153 * mp + 2) / 5 + 1 in
   let m := if mp <? 10 then mp + 3 else mp - 9 in
   (yoe + (if m <=? 2 then 1 else 0), m, d))%Z.

Definition era_of_civil (yoe m d : Z) : Z :=
  (let doy := (153 * (if m >? 2 then m - 3 else m + 9) + 2) / 5 + d - 1 in
   yoe * 365 + yoe / 4 - yoe / 100 + doy)%Z.

(** From and to the number of days since 1970-01-01. *)
Definition civil_from_days (days : Z) : Z * Z * Z :=
  (let z := days + 719468 in
   let '(y, m, d) := civil_of_era (z mod 146097) in (y + 400 * (z / 146097), m, d))%Z.

Definition days_from_civil (y m d : Z) : Z :=
  (let y' := y - (if m <=? 2 then 1 else 0) in
   y' / 400 * 146097 + era_of_civil (y' mod 400) m d - 719468)%Z.

Definition is_leap (y : Z) : bool :=
  ((y mod 4 =? 0) && (negb (y mod 100 =? 0) || (y mod 400 =? 0)))%Z.
Definition days_in (m y : Z) : Z :=
  (if m =? 2 then if is_leap y then 29 else 28
   else if (m =? 4) || (m =? 6) || (m =? 9) || (m =? 11) then 30 else 31)%Z.

(** ** [Format] *)

(** [appendInt] *)
Definition pad (width : nat) (n : Z) : string :=
  let s := Itoa (Z.abs n) in
  (if (n <? 0)%Z then "-" else "") +:+ String.concat "" (replicate (width - slen s) "0") +:+ s.

Definition date_text (y m d : Z) : string := pad 4 y +:+ "-" +:+ pad 2 m +:+ "-" +:+ pad 2 d.
Definition clock_text (s : Z) : string :=
  pad 2 (s / 3600) +:+ ":" +:+ pad 2 (s / 60 mod 60) +:+ ":" +:+ pad 2 (s mod 60).

(** The zone of a time, [offset] seconds east of UTC. *)
Definition zone_text (offset : Z) : string :=
  (if offset =? 0 then "Z"
   else (if offset <? 0 then "-" else "+")
        +:+ pad 2 (Z.abs offset / 3600) +:+ ":" +:+ pad 2 (Z.abs offset / 60 mod 60))%Z.

(** [t.Format(time.RFC3339)] *)
Definition format_in (t offset : Z) : string :=
  let l := (t + offset)%Z in
  let '(y, m, d) := civil_from_days (l / 86400) in
  date_text y m d +:+ "T" +:+ clock_text (l mod 86400) +:+ zone_text offset.

(** [t.UTC().Format(time.RFC3339)] *)
Definition RFC3339 (t : Z) : string := format_in t 0.

Example RFC3339_examples :
  (RFC3339 0, RFC3339 951782400, RFC3339 1735689599, RFC3339 (-1), format_in 0 (-5400))
  = ("1970-01-01T00:00:00Z", "2000-02-29T00:00:00Z", "2024-12-31T23:59:59Z", "1969-12-31T23:59:59Z",
     "1969-12-31T22:30:00-01:30").
Proof. by vm_compute. Qed.

(** ** [time.Parse(time.RFC3339, s)] *)

Definition digit_of (c : ascii) : option Z :=
  if is_digit_ascii (bval c) then Some (Z.of_N (bval c) - 48)%Z else None.

Definition getnum (fixed : bool) (s : string) : option (Z * string) :=
  match s with
  | "" => None
  | String a s1 =>
      x ← digit_of a;
      match s1 with
      | String b s2 =>
          match digit_of b with
          | Some y => Some (10 * x + y, s2)%Z
          | None => if fixed then None else Some (x, s1)
          end
      | "" => if fixed then None else Some (x, s1)
      end
  end.

Definition skip_byte (c : ascii) (s : string) : option string :=
  match s with String d s' => if Ascii.eqb c d then Some s' else None | "" => None end.

Definition within (lo hi n : Z) : option unit := guard (lo ≤ n ≤ hi)%Z;; Some tt.

Definition year_of (s : string) : option (Z * string) :=
  match getnum true s with
  | Some (hi, s) => '(lo, s) ← getnum true s; Some (100 * hi + lo, s)%Z
  | None => None
  end.

Fixpoint drop_digits (s : string) : string :=
  match s with String c s' => if is_digit_ascii (bval c) then drop_digits s' else s | "" => "" end.

(** A fraction: a point or a comma, and digits. *)
Definition drop_fraction (s : string) : string :=
  match s with
  | String p (String d _ as s') =>
      if (Ascii.eqb p "." || Ascii.eqb p ",") && is_digit_ascii (bval d) then drop_digits s' else s
  | _ => s
  end.

(** The offset, and nothing after it. *)
Definition zone_of (s : string) : option Z :=
  match s with
  | "Z" => Some 0%Z
  | String sign s =>
      '(h, s) ← getnum true s; s ← skip_byte ":" s; '(m, s) ← getnum true s;
      match s with
      | "" =>
          within 0 24 h;; within 0 60 m;;
          let offset := ((h * 60 + m) * 60)%Z in
          if Ascii.eqb sign "+" then Some offset else if Ascii.eqb sign "-" then Some (- offset)%Z else None
      | _ => None
      end
  | "" => None
  end.

(** The instant, and the offset the time is printed with. *)
Definition parse_RFC3339 (s : string) : option (Z * Z) :=
  '(y, s) ← year_of s; s ← skip_byte "-" s; '(m, s) ← getnum true s; within 1 12 m;;
  s ← skip_byte "-" s; '(d, s) ← getnum true s; s ← skip_byte "T" s;
  '(hour, s) ← getnum false s; within 0 23 hour;; s ← skip_byte ":" s;
  '(minute, s) ← getnum true s; within 0 59 minute;; s ← skip_byte ":" s;
  '(second, s) ← getnum true s; within 0 59 second;;
  offset ← zone_of (drop_fraction s); within 1 (days_in m y) d;;
  Some (days_from_civil y m d * 86400 + hour * 3600 + minute * 60 + second - offset, offset)%Z.

Example parse_examples :
  (parse_RFC3339 "2024-02-29T08:30:00.25+01:30", parse_RFC3339 "2024-12-31T1:59:59Z",
   parse_RFC3339 "2023-02-29T00:00:00Z", parse_RFC3339 "tomorrow", parse_RFC3339 "2024-01-01T00:00:00")
  = (Some (1709190000, 5400)%Z, Some (1735610399, 0)%Z, None, None, None).
Proof. by vm_compute. Qed.

(** ** Round trips *)

(** [P] of every integer of an interval, by computation. *)
Fixpoint all_from (n : nat) (z : Z) (P : Z → bool) : bool :=
  match n with O => true | S n => if P z then all_from n (z + 1)%Z P else false end.

Lemma all_from_spec n z P x : all_from n z P = true → (z ≤ x < z + Z.of_nat n)%Z → P x = true.
Proof.
  revert z; induction n as [|n IH]; intros z; cbn [all_from]; [lia|]. destruct (P z) eqn:E; [|done].
  intros Hall Hx. destruct (decide (x = z)) as [->|]; [done|]. apply (IH (z + 1)%Z); [done|lia].
Qed.

(** The days of an era before its year [y], a year beginning in March. *)
Definition year_start (y : Z) : Z := (365 * y + y / 4 - y / 100 + y / 400)%Z.
Definition year_of_day (doe : Z) : Z := ((doe - doe / 1460 + doe / 36524 - doe / 146096) / 365)%Z.

Lemma year_of_day_mono x y : (0 ≤ x ≤ y)%Z → (y ≤ 146096)%Z → (year_of_day x ≤ year_of_day y)%Z.
Proof.
  intros Hx Hy. unfold year_of_day. apply Z.div_le_mono; [done|].
  assert (y = 146096 ∨ y / 146096 = 0)%Z as [->|Ey] by (Z.to_euclidean_division_equations; lia).
  - assert (x = 146096 ∨ x < 146096)%Z as [->|] by lia; [done|].
    rw (Z.div_small x 146096); [lia|]. cbn -[Z.div Z.add Z.sub]. Z.to_euclidean_division_equations; lia.
  - rw Ey (Z.div_small x 146096); Z.to_euclidean_division_equations; lia.
Qed.

(** Each year has its days: 365, and one more before a leap year's March. *)
Definition year_ok (y : Z) : bool :=
  ((year_of_day (year_start y) =? y) && (year_of_day (year_start (y + 1) - 1) =? y)
   && (year_start (y + 1) - year_start y =? (if is_leap (y + 1) then 366 else 365)))%Z.

(** A year's last day has month and day in range. *)
Definition month_of (doy : Z) : Z :=
  (let mp := (5 * doy + 2) / 153 in if mp <? 10 then mp + 3 else mp - 9)%Z.
Definition day_of (doy : Z) : Z := (doy - (153 * ((5 * doy + 2) / 153) + 2) / 5 + 1)%Z.
Definition month_ok (doy : Z) : bool :=
  let m := month_of doy in let d := day_of doy in
  ((1 <=? m) && (m <=? 12) && (1 <=? d)
   && (d <=? (if m =? 2 then if doy =? 365 then 29 else 28
              else if (m =? 4) || (m =? 6) || (m =? 9) || (m =? 11) then 30 else 31))
   && ((153 * (if m >? 2 then m - 3 else m + 9) + 2) / 5 + d - 1 =? doy)
   && Bool.eqb (m <=? 2) (306 <=? doy))%Z.

Lemma years_all : all_from 400 0 year_ok = true.
Proof. by vm_compute. Qed.
Lemma months_all : all_from 366 0 month_ok = true.
Proof. by vm_compute. Qed.
Lemma year_of_day_spec doe : (0 ≤ doe < 146097)%Z →
  let y := year_of_day doe in
  (0 ≤ y < 400 ∧ year_start y ≤ doe < year_start (y + 1)
   ∧ year_start (y + 1) - year_start y = (if is_leap (y + 1) then 366 else 365))%Z.
Proof.
  intros Hd y.
  assert (∀ z, (0 ≤ z < 400)%Z → year_ok z = true) as Hok by (intros z Hz; apply (all_from_spec 400 0); [apply years_all|lia]).
  assert (0 ≤ y ≤ 399)%Z as Hy.
  { split; [apply (year_of_day_mono 0); lia|]. apply (year_of_day_mono doe 146096); lia. }
  pose proof (Hok y ltac:(lia)) as Hk. unfold year_ok in Hk. rw !andb_true_iff !Z.eqb_eq in Hk.
  destruct Hk as [[Hs He] Hl]. split; [lia|]. split; [|done]. split.
  - destruct (decide (y = 0%Z)) as [->|Hy0]; [by change (year_start 0) with 0%Z; lia|].
    pose proof (Hok (y - 1)%Z ltac:(lia)) as Hk. unfold year_ok in Hk. rw !andb_true_iff !Z.eqb_eq in Hk.
    destruct Hk as [[_ Hp] _]. rw Z.sub_add in Hp. apply Z.nlt_ge. intros Hlt.
    assert (year_start y - 1 ≤ 146096)%Z by (unfold year_start; Z.to_euclidean_division_equations; lia).
    pose proof (year_of_day_mono doe (year_start y - 1) ltac:(lia) ltac:(lia)) as Hm. fold y in Hm. lia.
  - destruct (decide (y = 399%Z)) as [->|Hy0]; [by change (year_start (399 + 1)) with 146097%Z; lia|].
    pose proof (Hok (y + 1)%Z ltac:(lia)) as Hk. unfold year_ok in Hk. rw !andb_true_iff !Z.eqb_eq in Hk.
    destruct Hk as [[Hn _] _]. apply Z.nle_gt. intros Hge.
    assert (0 ≤ year_start (y + 1))%Z by (unfold year_start; Z.to_euclidean_division_equations; lia).
    pose proof (year_of_day_mono (year_start (y + 1)) doe ltac:(lia) ltac:(lia)) as Hm. fold y in Hm. lia.
Qed.

Lemma month_of_spec doy : (0 ≤ doy < 366)%Z → month_ok doy = true.
Proof. intros Hd. apply (all_from_spec 366 0); [apply months_all|lia]. Qed.

Lemma civil_of_era_eq doe :
  let yoe := year_of_day doe in let doy := (doe - (365 * yoe + yoe / 4 - yoe / 100))%Z in
  civil_of_era doe = ((yoe + (if month_of doy <=? 2 then 1 else 0))%Z, month_of doy, day_of doy).
Proof. reflexivity. Qed.

Lemma is_leap_era y k : is_leap (y + 400 * k) = is_leap y.
Proof.
  unfold is_leap.
  replace ((y + 400 * k) mod 4)%Z with (y mod 4)%Z by (rw (_ : 400 * k = 100 * k * 4)%Z; [lia|by rw Z_mod_plus_full]).
  replace ((y + 400 * k) mod 100)%Z with (y mod 100)%Z by (rw (_ : 400 * k = 4 * k * 100)%Z; [lia|by rw Z_mod_plus_full]).
  by rw (_ : 400 * k = k * 400)%Z; [lia|rw Z_mod_plus_full].
Qed.

(** A day has one date, and the year is one of four digits when the day is. *)
Lemma civil_days days :
  let '(y, m, d) := civil_from_days days in
  days_from_civil y m d = days ∧ (1 ≤ m ≤ 12)%Z ∧ (1 ≤ d ≤ days_in m y)%Z
  ∧ ((-719528 ≤ days < 2932897)%Z → (0 ≤ y ≤ 9999)%Z).
Proof.
  unfold civil_from_days. set (z := (days + 719468)%Z).
  pose proof (Z.mod_pos_bound z 146097 ltac:(lia)) as Hb. pose proof (Z.div_mod z 146097 ltac:(lia)) as Hd.
  set (doe := (z mod 146097)%Z) in *. set (era := (z / 146097)%Z) in *.
  destruct (year_of_day_spec doe Hb) as (Hyoe & Hrange & Hleap).
  rw civil_of_era_eq. set (yoe := year_of_day doe) in *. set (doy := (doe - (365 * yoe + yoe / 4 - yoe / 100))%Z).
  assert (year_start yoe = 365 * yoe + yoe / 4 - yoe / 100)%Z as Hs by (unfold year_start; rw (Z.div_small yoe 400); lia).
  assert (0 ≤ doy < 366)%Z as Hdoy by (unfold doy; destruct (is_leap (yoe + 1)); lia).
  pose proof (month_of_spec doy Hdoy) as Hok. unfold month_ok in Hok.
  set (m := month_of doy) in *. set (d := day_of doy) in *. set (b := (if (m <=? 2)%Z then 1 else 0)%Z).
  rw !andb_true_iff !Z.leb_le Z.eqb_eq in Hok. destruct Hok as [[[[[? ?] ?] Hdays] Hback] Hfeb].
  apply Bool.eqb_prop in Hfeb. assert (0 ≤ b ≤ 1)%Z by (unfold b; destruct (m <=? 2)%Z; lia).
  split_and!; try done.
  - unfold days_from_civil. fold b.
    assert ((yoe + b + 400 * era - b) / 400 = era ∧ (yoe + b + 400 * era - b) mod 400 = yoe)%Z as [-> ->]
      by (Z.to_euclidean_division_equations; lia).
    unfold era_of_civil. cbv zeta. rw Hback. unfold doy, z in *. lia.
  - unfold days_in. destruct (Z.eqb_spec m 2) as [E|E]; [|done].
    rw is_leap_era. unfold b. rw E. cbn [Z.leb Z.compare Pos.compare Pos.compare_cont]. 
    destruct (Z.eqb_spec doy 365); destruct (is_leap (yoe + 1)); try lia.
  - intros Hr. unfold b. rw Hfeb.
    assert (yoe = 399 ∧ year_start yoe = 145731 ∨ yoe ≤ 398 ∧ year_start (yoe + 1) ≤ 145731)%Z as Hlast.
    { destruct (decide (yoe = 399%Z)) as [E|]; [left; by rw E|right].
      split; [lia|]. unfold year_start. Z.to_euclidean_division_equations; lia. }
    unfold doy, z in *. rw -Hs. destruct (Z.leb_spec 306 (doe - year_start yoe)); lia.
Qed.

Lemma getnum_pad2 fixed n s : (0 ≤ n < 100)%Z → getnum fixed (pad 2 n +:+ s) = Some (n, s).
Proof.
  intros Hn. set (P n := match pad 2 n with
    | String a (String b "") => match digit_of a, digit_of b with Some x, Some y => (10 * x + y =? n)%Z | _, _ => false end
    | _ => false end).
  assert (P n = true) as HP by (apply (all_from_spec 100 0); [by vm_compute|lia]).
  unfold P in HP. destruct (pad 2 n) as [|a [|b []]]; try done.
  unfold getnum. cbn [String.append mbind option_bind].
  destruct (digit_of a) as [x|], (digit_of b) as [y|]; try done. cbn [mbind option_bind]. by apply Z.eqb_eq in HP as ->.
Qed.

Lemma year_of_pad4 n s : (0 ≤ n ≤ 9999)%Z → year_of (pad 4 n +:+ s) = Some (n, s).
Proof.
  intros Hn. set (P n := match pad 4 n with
    | String a (String b (String c (String d ""))) => match digit_of a, digit_of b, digit_of c, digit_of d with
        | Some x, Some y, Some z, Some w => (100 * (10 * x + y) + (10 * z + w) =? n)%Z | _, _, _, _ => false end
    | _ => false end).
  assert (P n = true) as HP by (apply (all_from_spec (Z.to_nat 10000) 0); [by vm_compute|lia]).
  unfold P in HP. destruct (pad 4 n) as [|a [|b [|c [|d []]]]]; try done.
  destruct (digit_of a) eqn:Ea, (digit_of b) eqn:Eb, (digit_of c) eqn:Ec, (digit_of d) eqn:Ed; try done.
  apply Z.eqb_eq in HP. unfold year_of, getnum. cbn [String.append].
  rw Ea Eb. cbv beta iota delta [mbind option_bind]. rw Ec Ed. by rw HP.
Qed.

Lemma within_true lo hi n : (lo ≤ n ≤ hi)%Z → within lo hi n = Some tt.
Proof. intros. unfold within. by rw option_guard_True. Qed.

Ltac walk := cbn [mbind option_bind String.append skip_byte Ascii.eqb Bool.eqb].

(** The text of an instant of the years 0 to 9999 reads back. *)
Lemma parse_format t : (-62167219200 ≤ t < 253402300800)%Z → parse_RFC3339 (RFC3339 t) = Some (t, 0%Z).
Proof.
  intros Ht. unfold RFC3339, format_in, clock_text, date_text. rw Z.add_0_r.
  pose proof (civil_days (t / 86400)) as Hc. destruct (civil_from_days (t / 86400)) as [[y m] d].
  destruct Hc as (Hdays & Hm & Hd & Hy).
  pose proof (Z.div_mod t 86400 ltac:(lia)). pose proof (Z.mod_pos_bound t 86400 ltac:(lia)).
  set (s := (t mod 86400)%Z) in *. set (q := (t / 86400)%Z) in *.
  assert (d ≤ 31)%Z by (unfold days_in, is_leap in Hd; repeat case_match; lia).
  pose proof (Z.div_mod s 60 ltac:(lia)). pose proof (Z.mod_pos_bound s 60 ltac:(lia)).
  pose proof (Z.div_mod (s / 60) 60 ltac:(lia)). pose proof (Z.mod_pos_bound (s / 60) 60 ltac:(lia)).
  assert (s / 3600 = s / 60 / 60)%Z as E by (by rw Zdiv.Zdiv_Zdiv).
  assert (∀ u, year_of (pad 4 y +:+ u) = Some (y, u)) as HY by (intros u; apply year_of_pad4; lia).
  pose proof getnum_pad2 as Hpad. revert HY Hpad. generalize (pad 4) (pad 2). intros pad4 pad2 HY Hpad.
  rw !sapp_assoc. unfold parse_RFC3339, zone_text. rw HY.
  walk. rw Hpad; [lia|]. walk. rw within_true //. walk. rw Hpad; [lia|].
  do 3 (walk; rw Hpad; [lia|]; walk; rw within_true; [lia|]).
  cbn -[within days_in days_from_civil Z.mul Z.add Z.div Z.modulo].
  rw within_true; [lia|]. cbn -[days_in days_from_civil Z.mul Z.add Z.div Z.modulo].
  do 2 f_equal. rw Hdays. lia.
Qed.
