(* ===== verification/DbTime.v ===== *)
(** * Times of the database: dbtime/dbtime.go

    The JSON of a [dbtime.Time]: the layout of PostgreSQL's timestamps, without
    a zone.  A time is its instant in seconds since 1970, its nanoseconds, and
    the offset of its zone. *)

From S2P Require Import Prelude GoStrings GoTime.

Record Time := MkTime { t_sec : Z; t_nsec : Z; t_offset : Z }.

(** Go's zero time, the first of January of the year 1. *)
Definition zero_Time : Time := MkTime (-62135596800) 0 0.

(** ** [Format] and [Parse] on the layout [2006-01-02T15:04:05.999999] *)

Definition digit_char (n : Z) : ascii := ascii_of_N (48 + Z.to_N n).

(** The six digits of a number of microseconds. *)
Definition six_digits (n : Z) : string :=
  (String (digit_char (n / 100000 mod 10)) (String (digit_char (n / 10000 mod 10))
  (String (digit_char (n / 1000 mod 10)) (String (digit_char (n / 100 mod 10))
  (String (digit_char (n / 10 mod 10)) (String (digit_char (n mod 10)) ""))))))%Z.

Fixpoint trim_zeros (s : string) : string :=
  match s with
  | "" => ""
  | String c s => match trim_zeros s with "" => if Ascii.eqb c "0" then "" else String c "" | r => String c r end
  end.

(** [formatNano]: nothing when the microseconds are zero. *)
Definition fraction_text (nsec : Z) : string :=
  match trim_zeros (six_digits (nsec / 1000)) with "" => "" | s => "." +:+ s end.

Definition format_layout (t : Time) : string :=
  let l := (t_sec t + t_offset t)%Z in
  let '(y, m, d) := civil_from_days (l / 86400) in
  date_text y m d +:+ "T" +:+ clock_text (l mod 86400) +:+ fraction_text (t_nsec t).

(** The nanoseconds of the digits of a fraction, the first of which counts
    [scale] nanoseconds; digits after the ninth count nothing. *)
Fixpoint digits_ns (scale : Z) (s : string) : Z :=
  match s with
  | "" => 0%Z
  | String c s => (match digit_of c with Some x => x * scale | None => 0 end + digits_ns (scale / 10) s)%Z
  end.

Fixpoint all_digits (s : string) : bool :=
  match s with "" => true | String c s => is_digit_ascii (bval c) && all_digits s end.

(** The fraction, when there is one, and nothing after it. *)
Definition fraction_of (s : string) : option Z :=
  match s with
  | "" => Some 0%Z
  | String p (String _ _ as ds) =>
      if (Ascii.eqb p "." || Ascii.eqb p ",") && all_digits ds then Some (digits_ns 100000000 ds) else None
  | _ => None
  end.

(** Without a zone the time is UTC. *)
Definition parse_layout (s : string) : option Time :=
  '(y, s) ← year_of s; s ← skip_byte "-" s; '(m, s) ← getnum true s; within 1 12 m;;
  s ← skip_byte "-" s; '(d, s) ← getnum true s; s ← skip_byte "T" s;
  '(hour, s) ← getnum false s; within 0 23 hour;; s ← skip_byte ":" s;
  '(minute, s) ← getnum true s; within 0 59 minute;; s ← skip_byte ":" s;
  '(second, s) ← getnum true s; within 0 59 second;;
  nsec ← fraction_of s; within 1 (days_in m y) d;;
  Some (MkTime (days_from_civil y m d * 86400 + hour * 3600 + minute * 60 + second) nsec 0).

(** ** The methods *)

Definition MarshalJSON (t : Time) : string := dq +:+ format_layout t +:+ dq.

(** The text without its quotes. *)
Definition unquoted (b : string) : string := take_bytes (slen b - 2) (drop_bytes 1 b).

(** The empty text, and a lone quote, panic; the JSON decoder passes neither.
    The message of a [time.ParseError] is a parameter. *)
Definition UnmarshalJSON (parse_error : string → error) (b : string) : gores Time :=
  if String.eqb b "" then Panic "runtime error: index out of range [0] with length 0"
  else if HasPrefix b dq && HasSuffix b dq && Nat.ltb (slen b) 2 then Panic "runtime error: slice bounds out of range [1:0]"
  else
    let b := if HasPrefix b dq && HasSuffix b dq then unquoted b else b in
    if String.eqb b "null" then Val zero_Time
    else match parse_layout b with Some t => Val t | None => Err (parse_error b) end.

Example dbtime_examples :
  (format_layout (MkTime 1494414000 1000 0), parse_layout "2017-05-10T11:00:00.000001",
   format_layout (MkTime 1494414000 0 3600), parse_layout "2017-05-10T11:00:00,1234567899", parse_layout "2017-05-10T11:00:00Z",
   UnmarshalJSON id "null")
  = ("2017-05-10T11:00:00.000001", Some (MkTime 1494414000 1000 0),
     "2017-05-10T12:00:00", Some (MkTime 1494414000 123456789 0), None, Val zero_Time).
Proof. by vm_compute. Qed.

(** ** Fractions read back *)

Lemma digit_char_of n : (0 ≤ n < 10)%Z → digit_of (digit_char n) = Some n ∧ is_digit_ascii (bval (digit_char n)) = true.
Proof.
  intros Hn. assert (n = 0 ∨ n = 1 ∨ n = 2 ∨ n = 3 ∨ n = 4 ∨ n = 5 ∨ n = 6 ∨ n = 7 ∨ n = 8 ∨ n = 9)%Z as Hc by lia.
  by destruct Hc as [-> | [-> | [-> | [-> | [-> | [-> | [-> | [-> | [-> | ->]]]]]]]]].
Qed.

Lemma trim_zeros_ns scale s : digits_ns scale (trim_zeros s) = digits_ns scale s.
Proof.
  revert scale; induction s as [|c s IH]; intros scale; [done|]. cbn [trim_zeros digits_ns]. rw -IH.
  destruct (trim_zeros s) as [|d r]; [|done].
  destruct (Ascii.eqb_spec c "0") as [-> |]; cbn [digits_ns]; [|done].
  change (digit_of "0") with (Some 0%Z). lia.
Qed.

Lemma trim_zeros_digits s : all_digits s = true → all_digits (trim_zeros s) = true.
Proof.
  induction s as [|c s IH]; [done|]. cbn [all_digits trim_zeros]. rw andb_true_iff. intros [Hc Hs]. specialize (IH Hs).
  destruct (trim_zeros s) as [|d r]; [destruct (Ascii.eqb c "0"); cbn; by rw ?Hc|]. cbn [all_digits] in *. by rw Hc.
Qed.

Lemma six_digits_ns n :
  (0 ≤ n < 1000000)%Z → all_digits (six_digits n) = true ∧ digits_ns 100000000 (six_digits n) = (n * 1000)%Z.
Proof.
  intros Hn. unfold six_digits. cbn [all_digits digits_ns].
  assert (∀ x, 0 ≤ x mod 10 < 10)%Z as Hb by (intros; apply Z.mod_pos_bound; lia).
  destruct (digit_char_of _ (Hb (n / 100000)%Z)) as [-> ->], (digit_char_of _ (Hb (n / 10000)%Z)) as [-> ->],
    (digit_char_of _ (Hb (n / 1000)%Z)) as [-> ->], (digit_char_of _ (Hb (n / 100)%Z)) as [-> ->],
    (digit_char_of _ (Hb (n / 10)%Z)) as [-> ->], (digit_char_of _ (Hb n)) as [-> ->].
  split; [done|].
  change (100000000 / 10 / 10 / 10 / 10 / 10)%Z with 1000%Z. change (100000000 / 10 / 10 / 10 / 10)%Z with 10000%Z.
  change (100000000 / 10 / 10 / 10)%Z with 100000%Z. change (100000000 / 10 / 10)%Z with 1000000%Z.
  change (100000000 / 10)%Z with 10000000%Z. Z.to_euclidean_division_equations; lia.
Qed.

Lemma fraction_reads nsec : (0 ≤ nsec < 1000000000)%Z → fraction_of (fraction_text nsec) = Some (nsec / 1000 * 1000)%Z.
Proof.
  intros Hn. destruct (six_digits_ns (nsec / 1000)) as [Hd Hv]; [Z.to_euclidean_division_equations; lia|].
  apply trim_zeros_digits in Hd. rw -trim_zeros_ns in Hv. unfold fraction_text.
  destruct (trim_zeros (six_digits (nsec / 1000))) as [|c s] eqn:E; [by rw -Hv|].
  cbn [String.append fraction_of]. cbn [Ascii.eqb Bool.eqb orb andb]. by rw Hd Hv.
Qed.

(** ** Round trips *)

Definition valid_time (t : Time) : Prop :=
  (-62167219200 ≤ t_sec t + t_offset t < 253402300800)%Z ∧ (0 ≤ t_nsec t < 1000000000)%Z.

Lemma parse_format_layout t :
  valid_time t →
  parse_layout (format_layout t) = Some (MkTime (t_sec t + t_offset t) (t_nsec t / 1000 * 1000) 0).
Proof.
  destruct t as [sec nsec off]. intros [Ht Hn]. cbn [t_sec t_nsec t_offset] in *. unfold format_layout, clock_text, date_text.
  cbn [t_sec t_nsec t_offset]. set (l := (sec + off)%Z) in *.
  pose proof (civil_days (l / 86400)) as Hc. destruct (civil_from_days (l / 86400)) as [[y m] d].
  destruct Hc as (Hdays & Hm & Hd & Hy).
  pose proof (Z.div_mod l 86400 ltac:(lia)). pose proof (Z.mod_pos_bound l 86400 ltac:(lia)).
  set (s := (l mod 86400)%Z) in *. set (q := (l / 86400)%Z) in *.
  assert (d ≤ 31)%Z by (unfold days_in, is_leap in Hd; repeat case_match; lia).
  pose proof (Z.div_mod s 60 ltac:(lia)). pose proof (Z.mod_pos_bound s 60 ltac:(lia)).
  pose proof (Z.div_mod (s / 60) 60 ltac:(lia)). pose proof (Z.mod_pos_bound (s / 60) 60 ltac:(lia)).
  assert (s / 3600 = s / 60 / 60)%Z as E by (by rw Zdiv.Zdiv_Zdiv).
  assert (∀ u, year_of (pad 4 y +:+ u) = Some (y, u)) as HY by (intros u; apply year_of_pad4; lia).
  pose proof getnum_pad2 as Hpad. pose proof (fraction_reads nsec Hn) as Hf. revert HY Hpad Hf.
  generalize (pad 4) (pad 2) (fraction_text nsec). intros pad4 pad2 ft HY Hpad Hf.
  rw !sapp_assoc. unfold parse_layout. rw HY.
  walk. rw Hpad; [lia|]. walk. rw within_true //. walk. rw Hpad; [lia|].
  do 3 (walk; rw Hpad; [lia|]; walk; rw within_true; [lia|]).
  cbn -[within days_in days_from_civil Z.mul Z.add Z.div Z.modulo]. rw Hf.
  cbn -[within days_in days_from_civil Z.mul Z.add Z.div Z.modulo].
  rw within_true; [lia|]. cbn -[days_in days_from_civil Z.mul Z.add Z.div Z.modulo].
  do 2 f_equal. rw Hdays. lia.
Qed.

Lemma unquoted_quoted s : unquoted (dq +:+ s +:+ dq) = s.
Proof.
  unfold unquoted. rw !slen_app. change (slen dq) with 1. change (drop_bytes 1 (dq +:+ s +:+ dq)) with (s +:+ dq).
  replace (1 + (slen s + 1) - 2) with (slen s) by lia. apply take_bytes_app.
Qed.

Lemma quoted_ends s : HasPrefix (dq +:+ s +:+ dq) dq = true ∧ HasSuffix (dq +:+ s +:+ dq) dq = true.
Proof.
  split; [apply prefix_app|]. unfold HasSuffix. rw -(sapp_assoc dq s dq) !slen_app. change (slen dq) with 1.
  rw (proj2 (Nat.leb_le _ _)); [lia|]. replace (1 + slen s + 1 - 1) with (slen (dq +:+ s)) by (rw slen_app; cbn; lia).
  by rw drop_bytes_app.
Qed.

(** The JSON of a time reads back with its calendar date, its clock and its
    microseconds.  Its zone is lost: what comes back is the same instant exactly
    when the time was in UTC, in whole microseconds. *)
Theorem dbtime_round_trip e t :
  valid_time t →
  UnmarshalJSON e (MarshalJSON t) = Val (MkTime (t_sec t + t_offset t) (t_nsec t / 1000 * 1000) 0) ∧
  (UnmarshalJSON e (MarshalJSON t) = Val t ↔ t_offset t = 0%Z ∧ (t_nsec t mod 1000 = 0)%Z).
Proof.
  intros Ht.
  assert (UnmarshalJSON e (MarshalJSON t) = Val (MkTime (t_sec t + t_offset t) (t_nsec t / 1000 * 1000) 0)) as E.
  { pose proof (parse_format_layout t Ht) as Hp. unfold UnmarshalJSON, MarshalJSON.
    destruct (quoted_ends (format_layout t)) as [-> ->].
    change (String.eqb (dq +:+ format_layout t +:+ dq) "") with false.
    rw (proj2 (Nat.ltb_ge _ _)); [rw !slen_app; cbn; lia|]. cbn [andb]. cbv iota. rw unquoted_quoted Hp.
    destruct (String.eqb_spec (format_layout t) "null") as [Hnull|]; [by rw Hnull in Hp|done]. }
  split; [exact E|]. rw E. destruct t as [sec nsec off]; cbn [t_sec t_nsec t_offset]. destruct Ht as [_ Hn].
  pose proof (Z.div_mod nsec 1000 ltac:(lia)). split; [intros [= ??]; lia|]. intros [-> Hm]. do 2 f_equal; lia.
Qed.

Lemma dbtime_witness :
  UnmarshalJSON id (MarshalJSON (MkTime 1494414000 1999 3600)) = Val (MkTime 1494417600 1000 0).
Proof. apply (dbtime_round_trip id (MkTime 1494414000 1999 3600)). unfold valid_time; cbn; lia. Defined.
