(* ===== verification/Regexp.v ===== *)
(** * Go regular expressions

    A backtracking matcher for the fragment of RE2 syntax the program uses:
    rune classes, concatenation, alternation, greedy and lazy repetition and
    capture groups.  RE2 reports the leftmost match, and among the matches at
    that position the one a backtracking search finds first: the matcher
    performs that search.  Every repetition consumes at least one byte, so its
    depth is bounded by the length of the input. *)

From S2P Require Import Prelude GoStrings.

Inductive regex :=
| RSet (p : N → bool)                    (* one rune of a class *)
| REps
| RCat (r1 r2 : regex)
| RAlt (r1 r2 : regex)
| RStar (greedy : bool) (r : regex)
| RGrp (n : nat) (r : regex).

Definition RPlus (greedy : bool) (r : regex) : regex := RCat r (RStar greedy r).

(** A captured group: its number and its text. *)
Definition captures := list (nat * string).
Definition re_cont := string → captures → option (string * captures).

(** [ReMatch r s caps k]: match [r] at the head of [s] and continue with [k]
    on the rest. *)
Fixpoint ReMatch (r : regex) (s : string) (caps : captures) (k : re_cont)
  : option (string * captures) :=
  match r with
  | RSet p =>
      match s with
      | "" => None
      | _ => let '(c, w) := decode_rune s in
             if p c then k (drop_bytes w s) caps else None
      end
  | REps => k s caps
  | RCat r1 r2 => ReMatch r1 s caps (λ s' caps', ReMatch r2 s' caps' k)
  | RAlt r1 r2 =>
      match ReMatch r1 s caps k with
      | Some x => Some x
      | None => ReMatch r2 s caps k
      end
  | RStar greedy r1 =>
      (fix loop (n : nat) (s : string) (caps : captures) {struct n} :=
         match n with
         | O => k s caps
         | S n' =>
             let more := ReMatch r1 s caps (λ s' caps',
               if Nat.ltb (slen s') (slen s) then loop n' s' caps' else None) in
             if greedy then match more with Some x => Some x | None => k s caps end
             else match k s caps with Some x => Some x | None => more end
         end) (slen s) s caps
  | RGrp n r1 =>
      ReMatch r1 s caps (λ s' caps',
        k s' ((n, take_bytes (slen s - slen s') s) :: caps'))
  end.

(** [^r$]: the whole string matches. *)
Definition FullMatch (r : regex) (s : string) : bool :=
  match ReMatch r s [] (λ s' caps, match s' with "" => Some (s', caps) | _ => None end) with
  | Some _ => true
  | None => false
  end.

(** A match at the head of [s]: its length in bytes and its captures. *)
Definition MatchHere (r : regex) (s : string) : option (nat * captures) :=
  match ReMatch r s [] (λ s' caps, Some (s', caps)) with
  | Some (s', caps) => Some (slen s - slen s', caps)
  | None => None
  end.

(** The leftmost match: its text and its captures; [k] bytes of the rune under
    the cursor are still to be skipped. *)
Fixpoint find_from (r : regex) (k : nat) (s : string) : option (string * captures) :=
  let here := match k with
              | O => match MatchHere r s with
                     | Some (n, caps) => Some (take_bytes n s, caps)
                     | None => None end
              | S _ => None end in
  match here with
  | Some x => Some x
  | None => match s with
            | "" => None
            | String _ s' =>
                find_from r (match k with O => pred (decode_rune s).2 | S k' => k' end) s'
            end
  end.

(** [Regexp.FindString] (the empty string when there is no match) *)
Definition FindString (r : regex) (s : string) : string :=
  match find_from r 0 s with Some (m, _) => m | None => "" end.

(** [Regexp.MatchString] *)
Definition MatchString (r : regex) (s : string) : bool :=
  match find_from r 0 s with Some _ => true | None => false end.

(** [Regexp.FindStringSubmatch], by group number; the last capture of a group
    counts. *)
Definition FindSubmatch (r : regex) (s : string) : option captures :=
  match find_from r 0 s with Some (_, caps) => Some caps | None => None end.

Definition group (n : nat) (caps : captures) : option string :=
  x ← list_find (λ x, x.1 = n) caps; Some x.2.2.

(** [Regexp.ReplaceAllStringFunc] for a regex with no empty match: [drop]
    bytes of a match, or [keep] bytes of a rune, are still to be passed over. *)
Fixpoint replace_from (r : regex) (f : string → string) (drop keep : nat) (s : string)
  : string :=
  match s with
  | "" => ""
  | String c s' =>
      match drop, keep with
      | S d, _ => replace_from r f d 0 s'
      | O, S n => String c (replace_from r f 0 n s')
      | O, O =>
          match MatchHere r s with
          | Some (S n, _) => f (take_bytes (S n) s) +:+ replace_from r f n 0 s'
          | _ => String c (replace_from r f 0 (pred (decode_rune s).2) s')
          end
      end
  end.

Definition ReplaceAllFunc (r : regex) (f : string → string) (s : string) : string :=
  replace_from r f 0 0 s.
Definition ReplaceAllString (r : regex) (s repl : string) : string :=
  ReplaceAllFunc r (λ _, repl) s.

(** ** Rune classes *)

Definition lit (n : N) : regex := RSet (N.eqb n).
Definition any_rune : regex := RSet (λ n, negb (n =? 10)%N).   (* [.] *)
Definition az : N → bool := is_lower_ascii.
Definition alpha_us (n : N) : bool := is_lower_ascii n || is_upper_ascii n || (n =? 95)%N.
Definition word_rune (n : N) : bool := alpha_us n || is_digit_ascii n.  (* [\w] *)
Definition ws_rune (n : N) : bool :=                                    (* [\s] *)
  (n =? 9)%N || (n =? 10)%N || (n =? 12)%N || (n =? 13)%N || (n =? 32)%N.

(** ** The language of a regex

    [Mat r s s']: [r] can consume the part of [s] in front of its suffix [s'].
    This is the declarative meaning the search of [ReMatch] implements. *)
Inductive Mat : regex → string → string → Prop :=
| MSet p s c w : s ≠ "" → decode_rune s = (c, w) → p c = true → Mat (RSet p) s (drop_bytes w s)
| MEps s : Mat REps s s
| MCat r1 r2 s s1 s2 : Mat r1 s s1 → Mat r2 s1 s2 → Mat (RCat r1 r2) s s2
| MAltL r1 r2 s s1 : Mat r1 s s1 → Mat (RAlt r1 r2) s s1
| MAltR r1 r2 s s1 : Mat r2 s s1 → Mat (RAlt r1 r2) s s1
| MStarNil g r s : Mat (RStar g r) s s
| MStarCons g r s s1 s2 :
    Mat r s s1 → slen s1 < slen s → Mat (RStar g r) s1 s2 → Mat (RStar g r) s s2
| MGrp n r s s1 : Mat r s s1 → Mat (RGrp n r) s s1.

(** The loop of a repetition, as a function of its own. *)
Definition star_loop (g : bool) (r1 : regex) (k : re_cont) : nat → string → captures →
    option (string * captures) :=
  fix loop (n : nat) (s : string) (caps : captures) {struct n} :=
    match n with
    | O => k s caps
    | S n' =>
        let more := ReMatch r1 s caps (λ s' caps',
          if Nat.ltb (slen s') (slen s) then loop n' s' caps' else None) in
        if g then match more with Some x => Some x | None => k s caps end
        else match k s caps with Some x => Some x | None => more end
    end.

Lemma ReMatch_star g r s caps k :
  ReMatch (RStar g r) s caps k = star_loop g r k (slen s) s caps.
Proof. done. Qed.

(** What the search finds is in the language. *)
Lemma ReMatch_sound r s caps k x :
  ReMatch r s caps k = Some x → ∃ s' caps', Mat r s s' ∧ k s' caps' = Some x.
Proof.
  revert s caps k x.
  induction r as [p| |r1 IH1 r2 IH2|r1 IH1 r2 IH2|g r IH|n r IH]; intros s caps k x.
  - cbn [ReMatch]. destruct s as [|a s]; [done|].
    destruct (decode_rune (String a s)) as [c w] eqn:E. destruct (p c) eqn:Hp; [|done].
    intros Hk. do 2 eexists; split; [by econstructor|done].
  - intros Hk. do 2 eexists; split; [by constructor|done].
  - intros (s1 & c1 & H1 & (s2 & c2 & H2 & Hk)%IH2)%IH1.
    do 2 eexists; split; [by econstructor|done].
  - cbn [ReMatch]. destruct (ReMatch r1 s caps k) eqn:E.
    + intros [= <-]. apply IH1 in E as (s1 & c1 & H1 & Hk).
      do 2 eexists; split; [by constructor|done].
    + intros (s1 & c1 & H1 & Hk)%IH2. do 2 eexists; split; [by apply MAltR|done].
  - rw ReMatch_star. generalize (slen s); intros n. revert s caps x.
    induction n as [|n IHn]; intros s caps x; cbn [star_loop].
    + intros Hk. do 2 eexists; split; [by apply MStarNil|done].
    + assert (∀ y, ReMatch r s caps (λ s' caps',
          if Nat.ltb (slen s') (slen s) then star_loop g r k n s' caps' else None) = Some y →
          ∃ s' caps', Mat (RStar g r) s s' ∧ k s' caps' = Some y) as Hmore.
      { intros y (s1 & c1 & H1 & Hloop)%IH.
        destruct (Nat.ltb_spec (slen s1) (slen s)) as [Hlt|]; [|done].
        apply IHn in Hloop as (s2 & c2 & H2 & Hk).
        do 2 eexists; split; [by eapply MStarCons|done]. }
      assert (k s caps = Some x → ∃ s' caps', Mat (RStar g r) s s' ∧ k s' caps' = Some x) as Hnil.
      { intros Hk. do 2 eexists; split; [by apply MStarNil|done]. }
      destruct g.
      * destruct (ReMatch r s caps _) eqn:E; [intros [= <-]; by apply Hmore|done].
      * destruct (k s caps) eqn:E; [intros [= <-]; by apply Hnil|by apply Hmore].
  - intros (s1 & c1 & H1 & Hk)%IH. do 2 eexists; split; [by constructor|done].
Qed.

(** The bound on the depth of a repetition is enough: more of it changes
    nothing, so the length of the input always suffices. *)
Lemma ReMatch_ext r s caps k1 k2 :
  (∀ s' caps', (slen s' ≤ slen s) → k1 s' caps' = k2 s' caps') →
  ReMatch r s caps k1 = ReMatch r s caps k2.
Proof.
  revert s caps k1 k2.
  induction r as [p| |r1 IH1 r2 IH2|r1 IH1 r2 IH2|g r IH|n r IH]; intros s caps k1 k2 Hk.
  - cbn [ReMatch]. destruct s; [done|]. destruct (decode_rune _) as [c w]; destruct (p c); [|done].
    apply Hk. rw slen_drop; lia.
  - by apply Hk.
  - apply IH1; intros s1 c1 Hs1. apply IH2; intros s2 c2 Hs2. apply Hk; lia.
  - cbn [ReMatch]. by rw (IH1 s caps k1 k2) // (IH2 s caps k1 k2).
  - rw !ReMatch_star. generalize (slen s); intros n.
    revert s caps Hk. induction n as [|n IHn]; intros s caps Hk; cbn [star_loop].
    + by apply Hk.
    + rw (IH s caps _ (λ s' caps',
        if Nat.ltb (slen s') (slen s) then star_loop g r k2 n s' caps' else None)).
      { intros s1 c1 Hs1. destruct (Nat.ltb_spec (slen s1) (slen s)); [|done].
        apply IHn. intros; apply Hk; lia. }
      by rw (Hk s caps).
  - apply IH; intros s1 c1 Hs1. by apply Hk.
Qed.

Lemma star_loop_empty g r k n s caps : slen s = 0 → star_loop g r k n s caps = k s caps.
Proof.
  intros Hs; destruct n as [|n]; [done|]. cbn [star_loop].
  destruct (ReMatch r s caps _) eqn:E; [|destruct g; [done|by destruct (k s caps)]].
  apply ReMatch_sound in E as (s1 & c1 & _ & H). by rw Hs in H.
Qed.

Lemma star_loop_fuel g r k n m s caps :
  (slen s ≤ n) → (slen s ≤ m) → star_loop g r k n s caps = star_loop g r k m s caps.
Proof.
  revert m s caps; induction n as [|n IH]; intros m s caps Hn Hm.
  { rw !star_loop_empty //; lia. }
  destruct m as [|m]; [rw !star_loop_empty //; lia|].
  cbn [star_loop].
  rw (ReMatch_ext r s caps _ (λ s' caps',
    if Nat.ltb (slen s') (slen s) then star_loop g r k m s' caps' else None)); [|done].
  intros s1 c1 Hs1. destruct (Nat.ltb_spec (slen s1) (slen s)); [|done]. apply IH; lia.
Qed.

Lemma star_loop_step g r k s caps :
  star_loop g r k (slen s) s caps =
  let more := ReMatch r s caps (λ s' caps',
    if Nat.ltb (slen s') (slen s) then star_loop g r k (slen s') s' caps' else None) in
  if g then match more with Some x => Some x | None => k s caps end
  else match k s caps with Some x => Some x | None => more end.
Proof.
  rw (star_loop_fuel g r k (slen s) (S (slen s))); [lia..|]. cbn [star_loop].
  rw (ReMatch_ext r s caps _ (λ s' caps',
    if Nat.ltb (slen s') (slen s) then star_loop g r k (slen s') s' caps' else None)); [|done].
  intros s1 c1 Hs1. destruct (Nat.ltb_spec (slen s1) (slen s)); [|done].
  apply star_loop_fuel; lia.
Qed.

(** Everything in the language is found. *)
Lemma ReMatch_complete r s s' caps k :
  Mat r s s' → (∀ caps', k s' caps' ≠ None) → ReMatch r s caps k ≠ None.
Proof.
  intros Hm; revert caps k; induction Hm as
    [p s c w Hs E Hp| |r1 r2 s s1 s2 _ IH1 _ IH2|r1 r2 s s1 _ IH1|r1 r2 s s1 _ IH1
    |g r s|g r s s1 s2 _ IH1 Hlt _ IH2|n r s s1 _ IH1]; intros caps k Hk.
  - cbn [ReMatch]. destruct s; [done|]. by rw E Hp.
  - apply Hk.
  - apply IH1; intros c1. by apply IH2.
  - cbn [ReMatch]. specialize (IH1 caps k Hk). by destruct (ReMatch r1 s caps k).
  - cbn [ReMatch]. specialize (IH1 caps k Hk). by destruct (ReMatch r1 s caps k).
  - rw ReMatch_star star_loop_step. cbn zeta. specialize (Hk caps).
    destruct g; repeat case_match; done.
  - rw ReMatch_star star_loop_step. cbn zeta.
    match goal with |- context [ReMatch r s caps ?c] =>
      assert (ReMatch r s caps c ≠ None) as Hne end.
    { apply IH1; intros c1. rw (proj2 (Nat.ltb_lt _ _)); [done|]. by apply IH2. }
    destruct g; destruct (ReMatch r s caps _); destruct (k s caps); done.
  - cbn [ReMatch]. by apply IH1.
Qed.

(** [MatchString] of an anchored regex decides membership. *)
Lemma FullMatch_spec r s : FullMatch r s = true ↔ Mat r s "".
Proof.
  unfold FullMatch. destruct (ReMatch r s [] _) as [x|] eqn:E.
  - apply ReMatch_sound in E as (s' & caps' & Hm & Hk). by destruct s'.
  - split; [done|]. intros Hm. by destruct (ReMatch_complete r s "" []
      (λ s' caps, match s' with "" => Some (s', caps) | _ => None end) Hm).
Qed.

(** ** Classes of ASCII runes *)

Definition ascii_class (p : N → bool) : Prop := ∀ n, p n = true → (n < 128)%N.

Lemma Mat_set_ascii p s s' :
  ascii_class p → Mat (RSet p) s s' ↔ ∃ c, s = String c s' ∧ p (bval c) = true.
Proof.
  intros Hp; split.
  - inversion 1 as [? ? c w Hs E Hc| | | | | | |]; subst.
    destruct s as [|a s]; [done|]. exists a.
    destruct (N.lt_ge_cases (bval a) 128) as [Hlt|Hge].
    + rw decode_rune_ascii in E; [done|]. by injection E as <- <-; cbn.
    + apply (decode_rune_high a s) in Hge. rw E in Hge. apply Hp in Hc. cbn in Hge; lia.
  - intros (c & -> & Hc). change s' with (drop_bytes 1 (String c s')) at 2.
    apply (MSet p _ (bval c)); [done| |done]. apply decode_rune_ascii, Hp, Hc.
Qed.

(** A repeated ASCII class consumes a run of bytes of the class. *)
Lemma Mat_star_ascii g p s s' :
  ascii_class p →
  Mat (RStar g (RSet p)) s s' ↔ ∃ a, s = a +:+ s' ∧ string_forall (p ∘ bval) a = true.
Proof.
  intros Hp; split.
  - intros Hm. remember (RStar g (RSet p)) as r eqn:Er.
    induction Hm as [| | | | |g' r' s|g' r' s s1 s2 H1 _ Hlt _ IH|]; try done.
    + by exists "".
    + injection Er as -> ->. apply Mat_set_ascii in H1 as (c & -> & Hc); [|done].
      destruct IH as (a & -> & Ha); [done|]. exists (String c a); split; [done|].
      cbn. by rw Hc Ha.
  - intros (a & -> & Ha). induction a as [|c a IH]; [constructor|].
    cbn in Ha. apply andb_true_iff in Ha as [Hc Ha].
    eapply MStarCons; [|cbn; eauto|by apply IH].
    by apply Mat_set_ascii; [|eauto].
Qed.

Ltac ascii_class_tac :=
  intros ?; unfold alpha_us, word_rune, az, is_lower_ascii, is_upper_ascii, is_digit_ascii,
    alpha_us, between;
  rw ?orb_true_iff ?andb_true_iff ?N.leb_le ?N.eqb_eq; lia.

Lemma alpha_us_ascii : ascii_class alpha_us.
Proof. ascii_class_tac. Qed.

Lemma word_rune_ascii : ascii_class word_rune.
Proof.
  intros n; unfold word_rune; rw orb_true_iff; intros [H%alpha_us_ascii|H]; [done|].
  revert H; unfold is_digit_ascii; rw between_true; lia.
Qed.

Lemma lit_ascii n : (n < 128)%N → ascii_class (N.eqb n).
Proof. intros ? m; rw N.eqb_eq; lia. Qed.

#[export] Hint Resolve alpha_us_ascii word_rune_ascii lit_ascii : go.

(** A greedy repetition of a class takes the longest run of it, when the
    continuation succeeds there. *)
Lemma ReMatch_star_run p w c x caps k r :
  ascii_class p → string_forall (p ∘ bval) w = true → (bval c < 128)%N → p (bval c) = false →
  k (String c x) caps = Some r →
  ReMatch (RStar true (RSet p)) (w +:+ String c x) caps k = Some r.
Proof.
  intros Hp Hw Hc Hpc Hk. induction w as [|d w IH]; rw ReMatch_star star_loop_step.
  - cbn [String.append ReMatch]. by rw decode_rune_ascii // Hpc.
  - cbn [string_forall] in Hw. apply andb_true_iff in Hw as [Hd Hw]. cbn in Hd.
    cbn [String.append ReMatch]. rw decode_rune_ascii; [by apply Hp|]. rw Hd.
    cbn [drop_bytes String.length]. rw (proj2 (Nat.ltb_lt _ _)); [lia|].
    rw -ReMatch_star. by rw (IH Hw).
Qed.

Lemma ReMatch_set p c s caps k :
  (bval c < 128)%N → p (bval c) = true → ReMatch (RSet p) (String c s) caps k = k s caps.
Proof. intros Hc Hp. cbn [ReMatch]. by rw decode_rune_ascii // Hp. Qed.

Lemma ReMatch_grp n r1 s caps k :
  ReMatch (RGrp n r1) s caps k =
  ReMatch r1 s caps (λ s' caps', k s' ((n, take_bytes (slen s - slen s') s) :: caps')).
Proof. done. Qed.

Lemma ReMatch_cat r1 r2 s caps k :
  ReMatch (RCat r1 r2) s caps k = ReMatch r1 s caps (λ s' caps', ReMatch r2 s' caps' k).
Proof. done. Qed.

(** ** Greedy runs over ASCII bytes of any class *)

Definition in_class (p : N → bool) (c : ascii) : bool := p (bval c) && (bval c <? 128)%N.

Lemma in_class_true p c : in_class p c = true → p (bval c) = true ∧ (bval c < 128)%N.
Proof. unfold in_class. by rw andb_true_iff N.ltb_lt. Qed.

Lemma star_set_step p d s caps k :
  in_class p d = true →
  ReMatch (RStar true (RSet p)) (String d s) caps k =
  match ReMatch (RStar true (RSet p)) s caps k with Some x => Some x | None => k (String d s) caps end.
Proof.
  intros [Hp Hd]%in_class_true. rw ReMatch_star star_loop_step. cbn [ReMatch].
  rw decode_rune_ascii // Hp. cbn [drop_bytes String.length]. by rw (proj2 (Nat.ltb_lt _ _)); [lia|].
Qed.

Lemma star_set_stop p c s caps k :
  (bval c < 128)%N → p (bval c) = false →
  ReMatch (RStar true (RSet p)) (String c s) caps k = k (String c s) caps.
Proof. intros Hc Hp. rw ReMatch_star star_loop_step. cbn [ReMatch]. by rw decode_rune_ascii // Hp. Qed.

Lemma star_set_run p w s caps k r :
  string_forall (in_class p) w = true → ReMatch (RStar true (RSet p)) s caps k = Some r →
  ReMatch (RStar true (RSet p)) (w +:+ s) caps k = Some r.
Proof.
  intros Hw Hs. induction w as [|d w IH]; [done|]. cbn [string_forall] in Hw.
  apply andb_true_iff in Hw as [Hd Hw]. cbn [String.append]. rw star_set_step //. by rw IH.
Qed.

Lemma star_set_none p w s caps k :
  string_forall (in_class p) w = true → ReMatch (RStar true (RSet p)) s caps k = None →
  (∀ d t, in_class p d = true → string_exists (Ascii.eqb d) w = true → k (String d t) caps = None) →
  ReMatch (RStar true (RSet p)) (w +:+ s) caps k = None.
Proof.
  intros Hw Hs. induction w as [|d w IH]; intros Hk; [done|]. cbn [string_forall] in Hw.
  apply andb_true_iff in Hw as [Hd Hw]. cbn [String.append]. rw star_set_step //.
  rw IH; [done | |].
  - intros d' t Hd' Ht. apply Hk; [done|]. cbn. by rw Ht orb_true_r.
  - apply Hk; [done|]. cbn. by rw Ascii.eqb_refl.
Qed.

Lemma lit_fails n c s caps k : (bval c < 128)%N → bval c ≠ n → ReMatch (lit n) (String c s) caps k = None.
Proof. intros Hc Hn. cbn [ReMatch lit]. rw decode_rune_ascii //. by rw (proj2 (N.eqb_neq _ _)); [congruence|]. Qed.

(** A path: the repetition of runs that end in a dot takes everything up to
    the last dot of a run and leaves the segment behind it. *)
Definition re_dotted (p : N → bool) : regex :=
  RStar true (RGrp 1 (RCat (RStar true (RSet p)) (lit 46))).

Lemma dotted_none p w c s caps k :
  string_forall (in_class p) w = true → no_byte "." w = true → (bval c < 128)%N →
  p (bval c) = false → bval c ≠ 46%N →
  ReMatch (RStar true (RSet p)) (w +:+ String c s) caps (λ s' caps', ReMatch (lit 46) s' caps' k) = None.
Proof.
  intros Hw Hd Hc Hp Hc46. apply star_set_none; [done | |].
  - rw star_set_stop //. by apply lit_fails.
  - intros d t [_ Hd']%in_class_true Hin. apply lit_fails; [done|]. intros E.
    revert Hd Hin. clear -E. induction w as [|x w IH]; [done|]. cbn. rw andb_true_iff; intros [H1 H2].
    rw orb_true_iff; intros [H|H]; [|by apply IH]. apply Ascii.eqb_eq in H; subst x.
    revert H1 E. clear. ascii_cases d.
Qed.

Lemma dotted_end p w c s caps k :
  string_forall (in_class p) w = true → no_byte "." w = true → (bval c < 128)%N →
  p (bval c) = false → bval c ≠ 46%N →
  ReMatch (re_dotted p) (w +:+ String c s) caps k = k (w +:+ String c s) caps.
Proof.
  intros. unfold re_dotted. rw ReMatch_star star_loop_step ReMatch_grp ReMatch_cat. by rw dotted_none.
Qed.

Lemma ReMatch_dotted p w1 w2 c s caps k r :
  p 46%N = true → string_forall (in_class p) w1 = true → string_forall (in_class p) w2 = true →
  no_byte "." w2 = true → (bval c < 128)%N → p (bval c) = false → bval c ≠ 46%N →
  (∀ g, k (w2 +:+ String c s) ((1, g) :: caps) = Some (r g)) →
  ∃ g, ReMatch (re_dotted p) (w1 +:+ String "." (w2 +:+ String c s)) caps k = Some (r g).
Proof.
  intros H46 H1 H2 Hd Hc Hp Hc46 Hk. unfold re_dotted. set (rest := w2 +:+ String c s).
  rw ReMatch_star star_loop_step ReMatch_grp ReMatch_cat. cbv zeta.
  eexists. match goal with |- match ?x with _ => _ end = ?r => assert (x = r) as ->; [|done] end.
  apply star_set_run; [done|]. rw star_set_step; [by unfold in_class; rw H46|].
  unfold rest at 1. rw dotted_none //. rw ReMatch_set //.
  rw (proj2 (Nat.ltb_lt _ _)); [rw slen_app; cbn; lia|].
  rw -ReMatch_star. fold (re_dotted p). unfold rest. rw dotted_end //.
Qed.
