(* ===== verification/SqlLex.v ===== *)
(** * A reference lexer for the SQL the program builds

    This file is specification only: it models no code of the repository.  It
    reads a SQL text the way PostgreSQL does with standard conforming strings:
    ['...'] with doubled quotes is a string literal, a double-quoted run with
    doubled quotes is an identifier, [$n] is a positional parameter, and every
    other byte stands for itself.  The theorems on the query builders are
    stated through it: what a request puts into a query reads back as one
    token, and never as SQL text. *)

From S2P Require Import Prelude GoStrings.

Inductive token :=
| TPh (n : N)          (* $n *)
| TStr (s : string)    (* a string literal *)
| TIdent (s : string)  (* a double-quoted identifier *)
| TCh (c : ascii).     (* any other byte *)

#[export] Instance token_eq_dec : EqDecision token.
Proof. solve_decision. Defined.

Inductive lstate :=
| LOut
| LDollar
| LNum (n : N)
| LStr (acc : string) | LStrQ (acc : string)
| LId (acc : string) | LIdQ (acc : string).

Definition sq : ascii := "'"%char.

Definition lex_out (c : ascii) : list token * lstate :=
  if Ascii.eqb c sq then ([], LStr "")
  else if Ascii.eqb c dqc then ([], LId "")
  else if Ascii.eqb c "$" then ([], LDollar)
  else ([TCh c], LOut).

Definition lex_step (st : lstate) (c : ascii) : option (list token * lstate) :=
  match st with
  | LOut => Some (lex_out c)
  | LDollar => if is_digit_byte c then Some ([], LNum (bval c - 48)) else None
  | LNum n =>
      if is_digit_byte c then Some ([], LNum (n * 10 + (bval c - 48)))
      else let '(t, st') := lex_out c in Some (TPh n :: t, st')
  | LStr a => if Ascii.eqb c sq then Some ([], LStrQ a) else Some ([], LStr (a +:+ String c ""))
  | LStrQ a =>
      if Ascii.eqb c sq then Some ([], LStr (a +:+ String sq ""))
      else let '(t, st') := lex_out c in Some (TStr a :: t, st')
  | LId a => if Ascii.eqb c dqc then Some ([], LIdQ a) else Some ([], LId (a +:+ String c ""))
  | LIdQ a =>
      if Ascii.eqb c dqc then Some ([], LId (a +:+ String dqc ""))
      else let '(t, st') := lex_out c in Some (TIdent a :: t, st')
  end.

Fixpoint lex_run (st : lstate) (s : string) : option (list token * lstate) :=
  match s with
  | "" => Some ([], st)
  | String c s' =>
      '(t, st') ← lex_step st c;
      '(t', st'') ← lex_run st' s';
      Some (t ++ t', st'')
  end.

(** What a state still holds when the text ends; [None] for an open quote. *)
Definition lex_end (st : lstate) : option (list token) :=
  match st with
  | LOut => Some []
  | LNum n => Some [TPh n]
  | LStrQ a => Some [TStr a]
  | LIdQ a => Some [TIdent a]
  | LDollar | LStr _ | LId _ => None
  end.

Definition lex (s : string) : option (list token) :=
  '(t, st) ← lex_run LOut s; t' ← lex_end st; Some (t ++ t').

(** ** Predicates on tokens *)

(** The numbers of the positional parameters, in the order of the text. *)
Fixpoint placeholders (ts : list token) : list N :=
  match ts with
  | [] => []
  | TPh n :: ts' => n :: placeholders ts'
  | _ :: ts' => placeholders ts'
  end.

(** Parentheses outside quotes: the depth after [ts], [None] when a closing
    one has no opening one. *)
Fixpoint depth (d : nat) (ts : list token) : option nat :=
  match ts with
  | [] => Some d
  | TCh c :: ts' =>
      if Ascii.eqb c "(" then depth (S d) ts'
      else if Ascii.eqb c ")" then match d with O => None | S d' => depth d' ts' end
      else depth d ts'
  | _ :: ts' => depth d ts'
  end.

(** No statement separator, no comment and no escape outside quotes: a dash is
    always followed by another byte than a dash. *)
Fixpoint harmless (ts : list token) : bool :=
  match ts with
  | [] => true
  | TCh c :: ts' =>
      if Ascii.eqb c ";" || Ascii.eqb c "/" || Ascii.eqb c "\" then false
      else if Ascii.eqb c "-" then
        match ts' with
        | TCh d :: _ => negb (Ascii.eqb d "-") && harmless ts'
        | _ => false
        end
      else harmless ts'
  | _ :: ts' => harmless ts'
  end.

(** A fragment that cannot change the reading of the text around it. *)
Definition sealed (ts : list token) : Prop := depth 0 ts = Some 0 ∧ harmless ts = true.

(** The text may follow any fragment without joining its last token. *)
Definition starts_sep (s : string) : bool :=
  match s with
  | "" => true
  | String c _ => negb (is_digit_byte c || Ascii.eqb c sq || Ascii.eqb c dqc)
  end.

(** Bytes with no lexical meaning of their own. *)
Definition plain_byte (c : ascii) : bool :=
  negb (Ascii.eqb c sq || Ascii.eqb c dqc || Ascii.eqb c "$").
Definition plain (s : string) : bool := string_forall plain_byte s.

Definition chars (s : string) : list token := TCh <$> String.list_ascii_of_string s.

(** ** Lemmas *)

Lemma lex_run_app st a b :
  lex_run st (a +:+ b) =
  '(t, st') ← lex_run st a; '(t', st'') ← lex_run st' b; Some (t ++ t', st'').
Proof.
  revert st; induction a as [|c a IH]; intros st; cbn.
  - by destruct (lex_run st b) as [[??]|].
  - destruct (lex_step st c) as [[t st1]|]; cbn; [|done].
    rw IH. destruct (lex_run st1 a) as [[t1 st2]|]; cbn; [|done].
    destruct (lex_run st2 b) as [[t2 st3]|]; cbn; [|done]. by rw app_assoc.
Qed.

(** A pending token is flushed by any text that starts a new one. *)
Lemma lex_run_flush st t c s :
  lex_end st = Some t → starts_sep (String c s) = true →
  lex_run st (String c s) = '(t', st') ← lex_run LOut (String c s); Some (t ++ t', st').
Proof.
  cbn [starts_sep]. rw negb_true_iff !orb_false_iff; intros Ht [[Hd Hs] Hq].
  cbn [lex_run]. destruct st; try done; cbn in Ht; injection Ht as <-; cbn [lex_step];
    rw ?Hd ?Hs ?Hq; cbn;
    destruct (lex_out c) as [t' st']; cbn; destruct (lex_run st' s) as [[??]|]; done.
Qed.

(** Fragments compose: the reading of a concatenation is the concatenation of
    the readings. *)
Lemma lex_app a b ta tb :
  lex a = Some ta → lex b = Some tb → starts_sep b = true → lex (a +:+ b) = Some (ta ++ tb).
Proof.
  unfold lex; rw lex_run_app.
  destruct (lex_run LOut a) as [[t st]|]; cbn; [|done].
  destruct (lex_end st) as [te|] eqn:Hst; cbn; [|done]. intros [= <-] Hb Hsep.
  destruct b as [|c b].
  - cbn in Hb |- *. rw Hst. cbn. injection Hb as <-. by rw !app_nil_r.
  - rw (lex_run_flush _ _ _ _ Hst Hsep).
    destruct (lex_run LOut (String c b)) as [[t' st']|]; cbn in *; [|done].
    destruct (lex_end st') as [te'|]; cbn in *; [|done].
    injection Hb as <-. by rw !app_assoc.
Qed.

Lemma lex_run_plain s : plain s = true → lex_run LOut s = Some (chars s, LOut).
Proof.
  unfold plain, chars; induction s as [|c s IH]; [done|].
  cbn [string_forall lex_run lex_step]. rw andb_true_iff; intros [Hc Hs].
  unfold plain_byte in Hc. rw negb_true_iff !orb_false_iff in Hc. destruct Hc as [[H1 H2] H3].
  unfold lex_out. rw H1 H2 H3. cbn. by rw IH.
Qed.

Lemma lex_plain s : plain s = true → lex s = Some (chars s).
Proof. intros H; unfold lex; rw lex_run_plain; [done|]. cbn. by rw app_nil_r. Qed.

(** Text in front needs no separator when it ends outside quotes, identifiers and parameters. *)
Lemma lex_after_out a b ta tb :
  lex_run LOut a = Some (ta, LOut) → lex b = Some tb → lex (a +:+ b) = Some (ta ++ tb).
Proof.
  intros Ha; unfold lex; rw lex_run_app Ha. cbn.
  destruct (lex_run LOut b) as [[t st]|]; cbn; [|done].
  destruct (lex_end st); cbn; [|done]. intros [= <-]. by rw app_assoc.
Qed.

(** Plain text in front needs no separator. *)
Lemma lex_plain_app a b tb :
  plain a = true → lex b = Some tb → lex (a +:+ b) = Some (chars a ++ tb).
Proof. intros Ha. by apply lex_after_out, lex_run_plain. Qed.

Lemma chars_app a b : chars (a +:+ b) = chars a ++ chars b.
Proof. unfold chars; induction a as [|c a IH]; [done|]. cbn. by f_equal. Qed.

(** *** Quoted strings and identifiers *)

Lemma ReplaceAll1_cons d new c s :
  ReplaceAll (String c s) (String d "") new =
  (if Ascii.eqb d c then new else String c "") +:+ ReplaceAll s (String d "") new.
Proof.
  unfold ReplaceAll. rw Split_cons1. destruct (Ascii.eqb d c).
  - rw Join_cons; [apply Split_nonempty|done].
  - by rw Join_cons_head; [apply Split_nonempty|].
Qed.

Lemma ReplaceAll1_none d new s : no_byte d s = true → ReplaceAll s (String d "") new = s.
Proof. intros H; unfold ReplaceAll. by rw Split1_single. Qed.

Lemma lex_run_str acc v :
  lex_run (LStr acc) (ReplaceAll v "'" "''") = Some ([], LStr (acc +:+ v)).
Proof.
  revert acc; induction v as [|c v IH]; intros acc; [by rw sapp_nil_r|].
  rw ReplaceAll1_cons lex_run_app. destruct (Ascii.eqb_spec "'" c) as [<-|Hne].
  - cbn. rw IH. cbn. by rw sapp_assoc.
  - cbn [lex_run lex_step]. rw (proj2 (Ascii.eqb_neq _ _)); [by intros ->|].
    cbn. rw IH. cbn. by rw sapp_assoc.
Qed.

(** A value with its quotes doubled, in quotes, reads as that value. *)
Lemma lex_quoted_str v : lex ("'" +:+ ReplaceAll v "'" "''" +:+ "'") = Some [TStr v].
Proof. unfold lex; cbn. by rw lex_run_app lex_run_str. Qed.

Lemma lex_run_id acc v :
  lex_run (LId acc) (ReplaceAll v dq (dq +:+ dq)) = Some ([], LId (acc +:+ v)).
Proof.
  revert acc; induction v as [|c v IH]; intros acc; [by rw sapp_nil_r|].
  unfold dq in *. rw ReplaceAll1_cons lex_run_app. destruct (Ascii.eqb_spec dqc c) as [<-|Hne].
  - cbn. rw IH. cbn. by rw sapp_assoc.
  - cbn [lex_run lex_step]. rw (proj2 (Ascii.eqb_neq _ _)); [by intros ->|].
    cbn. rw IH. cbn. by rw sapp_assoc.
Qed.

Lemma lex_quoted_id v : lex (dq +:+ ReplaceAll v dq (dq +:+ dq) +:+ dq) = Some [TIdent v].
Proof. unfold lex; cbn. by rw lex_run_app lex_run_id. Qed.

Lemma lex_plain_id v : no_byte dqc v = true → lex (dq +:+ v +:+ dq) = Some [TIdent v].
Proof. intros H. rw -(lex_quoted_id v). unfold dq. by rw ReplaceAll1_none. Qed.

(** *** Positional parameters *)

Lemma lex_run_num n s k :
  string_forall is_digit_byte s = true → digits_val n s = Some k →
  lex_run (LNum n) s = Some ([], LNum k).
Proof.
  revert n; induction s as [|c s IH]; intros n; cbn; [by intros _ [= ->]|].
  unfold is_digit_byte at 1; rw andb_true_iff; intros [Hc Hs]. rw Hc; intros Hv.
  unfold is_digit_byte; rw Hc. cbn. by rw (IH _ Hs Hv).
Qed.

Lemma lex_ph n : lex ("$" +:+ ntoa n) = Some [TPh n].
Proof.
  destruct (ntoa_spec n) as (_ & Hall & _). pose proof (digits_val_ntoa n) as Hv.
  destruct (ntoa_cons n) as (c & s & Hc & Hd). rw Hc in Hall, Hv |- *.
  cbn in Hall, Hv. rw andb_true_iff in Hall. destruct Hall as [_ Hs].
  unfold is_digit_byte in Hd. rw Hd in Hv.
  unfold lex; cbn. unfold is_digit_byte; rw Hd. cbn.
  by rw (lex_run_num _ _ n Hs Hv).
Qed.

(** *** Composition of the predicates *)

Lemma placeholders_app a b : placeholders (a ++ b) = placeholders a ++ placeholders b.
Proof. induction a as [|[] a IH]; cbn; rw ?IH; done. Qed.

Lemma placeholders_chars s : placeholders (chars s) = [].
Proof. unfold chars; induction s; done. Qed.

Lemma depth_app d a b : depth d (a ++ b) = d' ← depth d a; depth d' b.
Proof.
  revert d; induction a as [|[] a IH]; intros d; cbn; auto.
  repeat case_match; auto.
Qed.

Lemma depth_shift d e a d' : depth d a = Some d' → depth (d + e) a = Some (d' + e).
Proof.
  revert d; induction a as [|[] a IH]; intros d; cbn; auto; [congruence|].
  destruct (Ascii.eqb c "("); [by apply (IH (S d))|].
  destruct (Ascii.eqb c ")"); [|by apply IH].
  destruct d as [|d]; [done|]. by apply IH.
Qed.

Lemma harmless_app a b : harmless a = true → harmless b = true → harmless (a ++ b) = true.
Proof.
  intros Ha Hb; revert Ha; induction a as [|[| | |c] a IH]; cbn; auto.
  destruct (_ || _ || _); [done|]. destruct (Ascii.eqb c "-"); [|done].
  destruct a as [|[| | |d] a]; try done. cbn [app].
  rw !andb_true_iff; intros [-> ?]; auto.
Qed.

Lemma sealed_app a b : sealed a → sealed b → sealed (a ++ b).
Proof.
  intros [Ha Ha'] [Hb Hb']; split; [by rw depth_app Ha|by apply harmless_app].
Qed.

Lemma sealed_paren a : sealed a → sealed (TCh "(" :: a ++ [TCh ")"]).
Proof.
  intros [Ha Ha']; split; cbn.
  - rw depth_app. apply (depth_shift 0 1) in Ha. cbn in Ha. by rw Ha.
  - by apply harmless_app.
Qed.

Lemma sealed_nil : sealed [].
Proof. done. Qed.
Lemma sealed_ident s : sealed [TIdent s].
Proof. done. Qed.
Lemma sealed_str s : sealed [TStr s].
Proof. done. Qed.
Lemma sealed_ph n : sealed [TPh n].
Proof. done. Qed.

(** Plain words, spaces and dots are sealed. *)
Definition wordy_byte (c : ascii) : bool :=
  negb (Ascii.eqb c "(" || Ascii.eqb c ")" || Ascii.eqb c ";" || Ascii.eqb c "/"
        || Ascii.eqb c "\" || Ascii.eqb c "-").

Lemma sealed_chars s : string_forall wordy_byte s = true → sealed (chars s).
Proof.
  unfold chars; induction s as [|c s IH]; [done|].
  cbn [string_forall]. rw andb_true_iff; intros [Hc Hs]. destruct (IH Hs) as [Hd Hh].
  unfold wordy_byte in Hc. rw negb_true_iff !orb_false_iff in Hc.
  destruct Hc as [[[[[H1 H2] H3] H4] H5] H6].
  split; cbn; rw ?H1 ?H2 ?H3 ?H4 ?H5 ?H6; done.
Qed.

Create HintDb sql discriminated.
#[export] Hint Resolve sealed_app sealed_paren sealed_nil sealed_ident sealed_str sealed_ph
  sealed_chars : sql.

(** Numbers as a client writes them: every dash has something else behind it. *)
Fixpoint dashes_ok (s : string) : bool :=
  match s with
  | "" => true
  | String c s' =>
      (if Ascii.eqb c "-"
       then match s' with String d _ => negb (Ascii.eqb d "-") | "" => false end else true)
      && dashes_ok s'
  end.

Lemma sealed_dashes s :
  string_forall (λ c, wordy_byte c || Ascii.eqb c "-") s = true → dashes_ok s = true → sealed (chars s).
Proof.
  unfold chars; induction s as [|c s IH]; [done|]. cbn [string_forall dashes_ok].
  rw !andb_true_iff; intros [Hc Hs] [Hd Hr]. destruct (IH Hs Hr) as [IHd IHh].
  split; cbn [String.list_ascii_of_string fmap list_fmap depth harmless].
  - apply orb_true_iff in Hc as [Hc| ->%Ascii.eqb_eq]; [|done].
    unfold wordy_byte in Hc. rw negb_true_iff !orb_false_iff in Hc.
    destruct Hc as [[[[[H1 H2] H3] H4] H5] H6]. by rw H1 H2.
  - destruct (Ascii.eqb_spec c "-") as [->|Hne]; cbn.
    + destruct s as [|d s]; [done|]. cbn in *. by rw Hd.
    + destruct (Ascii.eqb_spec c "-"); [done|]. rw orb_false_r in Hc. unfold wordy_byte in Hc.
      rw negb_true_iff !orb_false_iff in Hc. destruct Hc as [[[[[H1 H2] H3] H4] H5] H6].
      by rw H3 H4 H5.
Qed.

(** ** Clean fragments

    Text without positional parameters that cannot change the reading of the
    text around it. *)
Definition clean (s : string) : Prop :=
  ∃ ts, lex s = Some ts ∧ sealed ts ∧ placeholders ts = [].

(** Text the program's own templates are made of. *)
Definition template_byte (c : ascii) : bool := plain_byte c && wordy_byte c.
Definition template (s : string) : bool := string_forall template_byte s.

Lemma template_facts s : template s = true → plain s = true ∧ string_forall wordy_byte s = true.
Proof.
  intros H. split; (eapply string_forall_impl, H); intros c; unfold template_byte;
    by rw andb_true_iff; intros [? ?].
Qed.

Lemma template_app a b : template (a +:+ b) = template a && template b.
Proof. apply string_forall_app. Qed.

Lemma clean_template s : template s = true → clean s.
Proof.
  intros [Hp Hw]%template_facts. exists (chars s).
  split; [by apply lex_plain|]. split; [by apply sealed_chars|]. apply placeholders_chars.
Qed.

Lemma clean_app a b : clean a → clean b → starts_sep b = true → clean (a +:+ b).
Proof.
  intros (ta & Ha & Sa & Pa) (tb & Hb & Sb & Pb) Hs. exists (ta ++ tb).
  split; [by apply lex_app|]. split; [by apply sealed_app|]. by rw placeholders_app Pa Pb.
Qed.

Lemma clean_template_app a b : template a = true → clean b → clean (a +:+ b).
Proof.
  intros [Hp Hw]%template_facts (tb & Hb & Sb & Pb). exists (chars a ++ tb).
  split; [by apply lex_plain_app|]. split; [by apply sealed_app; [apply sealed_chars|]|].
  by rw placeholders_app Pb placeholders_chars.
Qed.

Lemma clean_app_template a b : clean a → template b = true → starts_sep b = true → clean (a +:+ b).
Proof. intros. by apply clean_app; [|apply clean_template|]. Qed.

Lemma lex_paren s ts :
  lex s = Some ts → lex ("(" +:+ s +:+ ")") = Some (TCh "(" :: ts ++ [TCh ")"%char]).
Proof.
  intros Hs. change (TCh "(" :: ts ++ [TCh ")"%char]) with (chars "(" ++ (ts ++ chars ")")).
  apply lex_plain_app; [done|]. by apply lex_app.
Qed.

Lemma clean_paren s : clean s → clean ("(" +:+ s +:+ ")").
Proof.
  intros (ts & Hs & Ss & Ps). eexists. split; [by apply lex_paren|].
  split; [by apply sealed_paren|]. cbn. by rw placeholders_app Ps.
Qed.

Lemma clean_quoted_str v : clean ("'" +:+ ReplaceAll v "'" "''" +:+ "'").
Proof. eexists; split; [apply lex_quoted_str|done]. Qed.

Lemma clean_ident v : no_byte dqc v = true → clean (dq +:+ v +:+ dq).
Proof. intros. eexists; split; [by apply lex_plain_id|done]. Qed.

Lemma clean_Join c sep l :
  template (String c sep) = true → starts_sep (String c "") = true →
  Forall clean l → clean (Join l (String c sep)).
Proof.
  intros Ht Hs. induction 1 as [|x l Hx Hl IH]; [by apply clean_template|].
  destruct l as [|y l]; [done|]. rw Join_cons; [done|].
  apply clean_app; [done| |done]. by apply clean_template_app.
Qed.

#[export] Hint Resolve clean_template clean_paren clean_quoted_str : sql.
