(* ===== verification/GoStd.v ===== *)
(** * More of Go's standard library

    What the program uses of [crypto/sha256] and [encoding/hex], of [net/url]
    and of [strconv.ParseFloat]. *)

From S2P Require Import Prelude GoStrings SqlLex.

(** ** crypto/sha256 *)

Module Sha256.

Definition w32 (n : N) : N := N.land n 4294967295.
Definition add32 (a b : N) : N := w32 (a + b).
Definition rotr (n : N) (x : N) : N := N.lor (N.shiftr x n) (w32 (N.shiftl x (32 - n))).

Definition bsig0 x := N.lxor (rotr 2 x) (N.lxor (rotr 13 x) (rotr 22 x)).
Definition bsig1 x := N.lxor (rotr 6 x) (N.lxor (rotr 11 x) (rotr 25 x)).
Definition ssig0 x := N.lxor (rotr 7 x) (N.lxor (rotr 18 x) (N.shiftr x 3)).
Definition ssig1 x := N.lxor (rotr 17 x) (N.lxor (rotr 19 x) (N.shiftr x 10)).
Definition ch x y z := N.lxor (N.land x y) (N.land (N.lxor x 4294967295) z).
Definition maj x y z := N.lxor (N.land x y) (N.lxor (N.land x z) (N.land y z)).

(** The round constants are the leading fractional bits of the cube roots of
    the first 64 primes, the initial state those of the square roots of the
    first 8. *)
Definition is_prime (n : nat) : bool :=
  Nat.leb 2 n && forallb (λ d, negb (Nat.eqb (n mod d) 0)) (seq 2 (n - 2)).
Definition primes : list N := N.of_nat <$> filter (λ n, Is_true (is_prime n)) (seq 0 312).

(** The integer cube root of [n], bit by bit below [2 ^ bits]. *)
Fixpoint cube_root (bits : nat) (acc n : N) : N :=
  match bits with
  | O => acc
  | S b => let t := (acc + 2 ^ N.of_nat b)%N in
           cube_root b (if (t * t * t <=? n)%N then t else acc) n
  end.

Definition K : list N :=
  Eval vm_compute in (λ p, w32 (cube_root 40 0 (N.shiftl p 96))) <$> take 64 primes.
Definition H0 : list N :=
  Eval vm_compute in (λ p, w32 (N.sqrt (N.shiftl p 64))) <$> take 8 primes.

(** [n] bytes of [v], most significant first. *)
Fixpoint be_bytes (n : nat) (v : N) : list N :=
  match n with
  | O => []
  | S n' => N.land (N.shiftr v (8 * N.of_nat n')) 255 :: be_bytes n' v
  end.

Definition pad (m : list N) : list N :=
  let l := length m in
  m ++ 128%N :: replicate ((119 - l mod 64) mod 64) 0%N ++ be_bytes 8 (8 * N.of_nat l).

Fixpoint words (bs : list N) : list N :=
  match bs with
  | a :: b :: c :: d :: bs' =>
      (N.shiftl a 24 + N.shiftl b 16 + N.shiftl c 8 + d)%N :: words bs'
  | _ => []
  end.

(** The message schedule: [w] holds the last 16 words, oldest first. *)
Fixpoint schedule (n : nat) (w : list N) : list N :=
  match n with
  | O => []
  | S n' =>
      match w with
      | w0 :: rest =>
          let x := add32 (add32 (ssig1 (nth 14 w 0%N)) (nth 9 w 0%N))
                         (add32 (ssig0 (nth 1 w 0%N)) w0) in
          w0 :: schedule n' (rest ++ [x])
      | [] => []
      end
  end.

Definition round (s : list N) (kw : N * N) : list N :=
  match s with
  | [a; b; c; d; e; f; g; h] =>
      let t1 := add32 (add32 (add32 h (bsig1 e)) (ch e f g)) (add32 kw.1 kw.2) in
      let t2 := add32 (bsig0 a) (maj a b c) in
      [add32 t1 t2; a; b; c; add32 d t1; e; f; g]
  | _ => s
  end.

Definition block (hs : list N) (ws : list N) : list N :=
  zip_with add32 hs (foldl round hs (zip K (schedule 64 ws))).

Fixpoint blocks (n : nat) (hs ws : list N) : list N :=
  match n with
  | O => hs
  | S n' => blocks n' (block hs (take 16 ws)) (drop 16 ws)
  end.

(** [sha256.Sum256] *)
Definition Sum256 (m : list N) : list N :=
  let ws := words (pad m) in
  blocks (length ws / 16) H0 ws ≫= be_bytes 4.

End Sha256.

(** [hex.EncodeToString] *)
Definition hex_encode (bs : list N) : string := String.concat "" (hex_digits 2 <$> bs).

Example sha256_abc :
  hex_encode (Sha256.Sum256 (bytes_of "abc")) =
  "ba7816bf8f01cfea414140de5dae2223b00361a396177a9cb410ff61f20015ad".
Proof. by vm_compute. Qed.

Example sha256_two_blocks :
  hex_encode (Sha256.Sum256 (bytes_of "abcdbcdecdefdefgefghfghighijhijkijkljklmklmnlmnomnopnopq")) =
  "248d6a61d20638b8e5c026930c3e6039a33ce45964ff2167f6ecedd419db06c1".
Proof. by vm_compute. Qed.

(** ** net/url *)

Inductive encoding := encodePath | encodeUserPassword | encodeHost | encodeQueryComponent.

(** [url.shouldEscape] *)
Definition shouldEscape (c : ascii) (mode : encoding) : bool :=
  let n := bval c in
  if is_lower_ascii n || is_upper_ascii n || is_digit_ascii n then false
  else if match mode with
          | encodeHost => existsb (N.eqb n) [33; 36; 38; 39; 40; 41; 42; 43; 44; 59; 61; 58; 91; 93; 60; 62; 34]%N
          | _ => false end then false
  else if existsb (N.eqb n) [45; 95; 46; 126]%N then false
  else if existsb (N.eqb n) [36; 38; 43; 44; 47; 58; 59; 61; 63; 64]%N then
    match mode with
    | encodePath => (n =? 63)%N
    | encodeUserPassword => existsb (N.eqb n) [64; 47; 63; 58]%N
    | encodeQueryComponent | encodeHost => true
    end
  else true.

Definition upper_hex_digit (n : N) : string :=
  if (n <? 10)%N then byte_str (48 + n) else byte_str (55 + n).

Definition escape_byte (mode : encoding) (c : ascii) : string :=
  if Ascii.eqb c " " then match mode with encodeQueryComponent => "+" | _ => "%20" end
  else if shouldEscape c mode then
    "%" +:+ upper_hex_digit (bval c / 16) +:+ upper_hex_digit (bval c mod 16)
  else String c "".

(** [url.escape] *)
Definition url_escape (s : string) (mode : encoding) : string :=
  String.concat "" (escape_byte mode <$> String.list_ascii_of_string s).

(** [url.QueryUnescape]; the error is the program's to drop. *)
Fixpoint QueryUnescape (s : string) : option string :=
  match s with
  | "" => Some ""
  | String c s' =>
      if Ascii.eqb c "%" then
        match s' with
        | String a (String b r) =>
            x ← unhex a; y ← unhex b; t ← QueryUnescape r;
            Some (byte_str (x * 16 + y) +:+ t)
        | _ => None
        end
      else t ← QueryUnescape s';
           Some (String (if Ascii.eqb c "+" then " "%char else c) t)
  end.

(** The values [url.Values.Encode] writes, keys in sorted order. *)
Definition query_encode (kvs : list (string * string)) : string :=
  Join ((λ kv, url_escape kv.1 encodeQueryComponent +:+ "=" +:+ url_escape kv.2 encodeQueryComponent)
        <$> kvs) "&".

(** ** strconv.ParseFloat

    Whether [ParseFloat(s, 64)] returns a nil error: the syntax, and the range
    (the value rounds to a finite float). *)

Definition lower_byte (c : ascii) : N :=
  let n := bval c in if is_upper_ascii n then (n + 32)%N else n.

Definition is_hex_letter (c : ascii) : bool := between 97 102 (lower_byte c).

(** [strconv.underscoreOK]: 1 after a digit, 2 after an underscore, 0 otherwise. *)
Fixpoint underscore_run (hex : bool) (saw : nat) (s : string) : bool :=
  match s with
  | "" => negb (Nat.eqb saw 2)
  | String c s' =>
      if is_digit_ascii (bval c) || hex && is_hex_letter c then underscore_run hex 1 s'
      else if Ascii.eqb c "_" then Nat.eqb saw 1 && underscore_run hex 2 s'
      else negb (Nat.eqb saw 2) && underscore_run hex 0 s'
  end.

Definition strip_sign (s : string) : bool * string :=
  match s with
  | String "-" r => (true, r)
  | String "+" r => (false, r)
  | _ => (false, s)
  end.

Definition underscoreOK (s : string) : bool :=
  let s := (strip_sign s).2 in
  match s with
  | String "0" (String b r) =>
      let l := lower_byte b in
      if (l =? 98)%N || (l =? 111)%N || (l =? 120)%N
      then underscore_run (l =? 120)%N 1 r else underscore_run false 0 s
  | _ => underscore_run false 0 s
  end.

(** The mantissa scanned so far: its value, the number of digits after the
    point, and what has been seen. *)
Record mantissa := MkMant { m_value : N; m_frac : N; m_dot : bool; m_digits : bool; m_under : bool }.

Fixpoint scan_mantissa (hex : bool) (m : mantissa) (s : string) : mantissa * string :=
  let base := if hex then 16%N else 10%N in
  match s with
  | "" => (m, s)
  | String c s' =>
      let digit d :=
        MkMant (m_value m * base + d) (if m_dot m then m_frac m + 1 else m_frac m)%N (m_dot m) true (m_under m) in
      if Ascii.eqb c "_" then
        scan_mantissa hex (MkMant (m_value m) (m_frac m) (m_dot m) (m_digits m) true) s'
      else if Ascii.eqb c "." then
        if m_dot m then (m, s)
        else scan_mantissa hex (MkMant (m_value m) (m_frac m) true (m_digits m) (m_under m)) s'
      else if is_digit_ascii (bval c) then scan_mantissa hex (digit (bval c - 48)%N) s'
      else if hex && is_hex_letter c then scan_mantissa hex (digit (lower_byte c - 87)%N) s'
      else (m, s)
  end.

(** The digits and underscores of an exponent: its value (saturating at
    10000), whether an underscore was seen, and the rest. *)
Fixpoint scan_exponent (e : N) (under : bool) (s : string) : N * bool * string :=
  match s with
  | String c s' =>
      if Ascii.eqb c "_" then scan_exponent e true s'
      else if is_digit_ascii (bval c)
      then scan_exponent (if (e <? 10000)%N then e * 10 + (bval c - 48) else e)%N under s'
      else (e, under, s)
  | "" => (e, under, s)
  end.

(** The value is below 2^1024 - 2^970, from which it rounds to infinity. *)
Definition float_limit : Z := 2 ^ 1024 - 2 ^ 970.
Definition in_range (base : Z) (v : Z) (e : Z) : bool :=
  if (v =? 0)%Z then true
  else if (0 <=? e)%Z then (v * base ^ e <? float_limit)%Z
  else (v <? float_limit * base ^ (- e))%Z.

Definition read_float_ok (s : string) : bool :=
  let '(_, body) := strip_sign s in
  let '(hex, digits) :=
    match body with
    | String "0" (String x (String d r)) =>
        if (lower_byte x =? 120)%N then (true, String d r) else (false, body)
    | _ => (false, body)
    end in
  let '(m, rest) := scan_mantissa hex (MkMant 0 0 false false false) digits in
  let frac := if hex then (4 * Z.of_N (m_frac m))%Z else Z.of_N (m_frac m) in
  let base := if hex then 2%Z else 10%Z in
  m_digits m &&
  match rest with
  | "" => negb hex && (negb (m_under m) || underscoreOK s)
          && in_range base (Z.of_N (m_value m)) (- frac)
  | String c r =>
      (lower_byte c =? (if hex then 112 else 101))%N &&
      let '(eneg, r) := strip_sign r in
      match r with
      | "" => false
      | String d _ =>
          is_digit_ascii (bval d) &&
          let '(e, under, r') := scan_exponent 0 false r in
          match r' with
          | "" => (negb (m_under m || under) || underscoreOK s)
                  && in_range base (Z.of_N (m_value m))
                       ((if eneg then - Z.of_N e else Z.of_N e) - frac)%Z
          | _ => false
          end
      end
  end.

(** [strconv.special] on the whole string. *)
Fixpoint lower_bytes (s : string) : string :=
  match s with "" => "" | String c s' => String (ascii_of_N (lower_byte c)) (lower_bytes s') end.

Definition special_float (s : string) : bool :=
  let l := lower_bytes s in
  let u := (strip_sign l).2 in
  String.eqb l "nan" || String.eqb u "inf" || String.eqb u "infinity".

Definition ParseFloat_ok (s : string) : bool := special_float s || read_float_ok s.

Example ParseFloat_accepts :
  forallb ParseFloat_ok ["1"; "-1.5e3"; "+.5"; "5."; "1_23.50_0_0e+1_2"; "0x1p-2"; "iNf"; "-infinity"; "nan";
    "1.797693134862315708145274237317043567981e308"; "0x_1_2.3p4"; "0"; "1e-400"; "0x1.fffffffffffffp1023"] = true.
Proof. by vm_compute. Qed.

Example ParseFloat_rejects :
  existsb ParseFloat_ok [""; "."; "1e"; "--1"; "1_"; "_1"; "0x1"; "1e400"; "-nan"; "infi"; "1 "; "1e5;"; "0x1p1024";
    "123_.5e12"; "1__2"] = false.
Proof. by vm_compute. Qed.

(** *** The bytes of a float *)

Definition number_byte (c : ascii) : bool :=
  let n := bval c in
  is_lower_ascii n || is_upper_ascii n || is_digit_ascii n || Ascii.eqb c "_" || Ascii.eqb c ".".

Lemma number_byte_facts c :
  number_byte c = true → Ascii.eqb c "-" = false ∧ plain_byte c = true ∧ wordy_byte c = true.
Proof. ascii_cases c. Qed.

Lemma hex_letter_number c : is_hex_letter c = true → number_byte c = true.
Proof. ascii_cases c. Qed.

Lemma digit_number c : is_digit_ascii (bval c) = true → number_byte c = true.
Proof. ascii_cases c. Qed.

Lemma strip_sign_spec s :
  s = (strip_sign s).2 ∨ s = String "-" (strip_sign s).2 ∨ s = String "+" (strip_sign s).2.
Proof. destruct s as [|[[] [] [] [] [] [] [] []] s]; cbn; auto. Qed.

Lemma scan_mantissa_spec hex m s :
  let '(m', rest) := scan_mantissa hex m s in
  ∃ a, s = a +:+ rest ∧ string_forall number_byte a = true ∧
       (m_digits m' = true → m_digits m = true ∨ a ≠ "").
Proof.
  revert m; induction s as [|c s IH]; intros m; cbn [scan_mantissa].
  { exists ""; auto. }
  assert (∀ m1, (number_byte c = true) →
    let '(m', rest) := scan_mantissa hex m1 s in
    ∃ a, String c s = a +:+ rest ∧ string_forall number_byte a = true ∧
         (m_digits m' = true → m_digits m = true ∨ a ≠ "")) as Hstep.
  { intros m1 Hc. specialize (IH m1). destruct (scan_mantissa hex m1 s) as [m' rest].
    destruct IH as (a & -> & Ha & _). exists (String c a). cbn. by rw Hc Ha; auto. }
  assert (∃ a, String c s = a +:+ String c s ∧ string_forall number_byte a = true ∧
         (m_digits m = true → m_digits m = true ∨ a ≠ "")) as Hstop by (exists ""; auto).
  destruct (Ascii.eqb_spec c "_") as [->|_]; [by apply Hstep|].
  destruct (Ascii.eqb_spec c ".") as [->|_]; [destruct (m_dot m); [done|by apply Hstep]|].
  destruct (is_digit_ascii (bval c)) eqn:Hd; [by apply Hstep, digit_number|].
  destruct (hex && is_hex_letter c) eqn:Hh; [|done].
  apply andb_true_iff in Hh as [_ Hh]. by apply Hstep, hex_letter_number.
Qed.

Lemma scan_exponent_spec e u s :
  (scan_exponent e u s).2 = "" → string_forall number_byte s = true.
Proof.
  revert e u; induction s as [|c s IH]; intros e u; [done|]. cbn [scan_exponent string_forall].
  destruct (Ascii.eqb_spec c "_") as [->|_]; [by intros ?%IH|].
  destruct (is_digit_ascii (bval c)) eqn:Hd; [|done].
  intros Hs%IH. by rw Hs digit_number.
Qed.

(** The shape of an accepted float: an optional sign, a mantissa, and an
    optional exponent with a sign of its own. *)
Definition float_text (s : string) : Prop :=
  string_forall (λ c, number_byte c || Ascii.eqb c "-" || Ascii.eqb c "+") s = true ∧ dashes_ok s = true.

Lemma dashes_ok_number a b :
  string_forall number_byte a = true → dashes_ok (a +:+ b) = dashes_ok b.
Proof.
  induction a as [|c a IH]; [done|]. cbn [string_forall String.append dashes_ok].
  rw andb_true_iff; intros [[-> _]%number_byte_facts Ha]. by apply IH.
Qed.

Lemma float_text_app a b :
  string_forall number_byte a = true → float_text b → float_text (a +:+ b).
Proof.
  intros Ha [Hb Hd]. split; [|by rw dashes_ok_number].
  rw string_forall_app Hb andb_true_r. eapply string_forall_impl, Ha. by intros c ->.
Qed.

(** A sign in front of text that starts with a number byte. *)
Lemma float_text_sign s a b :
  (strip_sign s).2 = a +:+ b → a ≠ "" → string_forall number_byte a = true → float_text b →
  float_text s.
Proof.
  intros E Hne Ha Hb. pose proof (float_text_app a b Ha Hb) as [Hf Hd].
  destruct (strip_sign_spec s) as [Hs|[Hs|Hs]]; rw Hs E; [done|split..|split]; cbn [string_forall dashes_ok];
    rw ?Hf ?Hd ?orb_true_r; try done.
  destruct a as [|c a]; [done|]. cbn [String.append string_forall] in *.
  apply andb_true_iff in Ha as [[-> _]%number_byte_facts _]. done.
Qed.

Lemma read_float_text s : read_float_ok s = true → float_text s.
Proof.
  unfold read_float_ok. destruct (strip_sign s) as [sg body] eqn:Hsg.
  set (hd := match body with String "0" _ => _ | _ => _ end).
  assert (∃ pre, body = pre +:+ hd.2 ∧ string_forall number_byte pre = true) as (pre & Hpre & Hprenum).
  { subst hd. destruct body as [|z [|x [|d r]]]; try (exists ""; split; [|done];
      repeat case_match; done).
    destruct (Ascii.eqb_spec z "0") as [->|Hz]; [|exists ""; split; [|done]; repeat case_match; done].
    destruct (N.eqb_spec (lower_byte x) 120) as [Hx|Hx]; [|exists ""; done].
    exists (String "0" (String x "")); split; [done|]. revert Hx. clear. ascii_cases x. }
  destruct hd as [hex digits]. cbn [snd] in Hpre.
  pose proof (scan_mantissa_spec hex (MkMant 0 0 false false false) digits) as Hm.
  destruct (scan_mantissa hex _ digits) as [m rest]. destruct Hm as (a & -> & Ha & Hdig).
  rw andb_true_iff; intros [Hd Hrest]. destruct (Hdig Hd) as [|Hne]; [done|].
  apply (float_text_sign s (pre +:+ a) rest).
  - by rw Hsg Hpre sapp_assoc.
  - by destruct pre.
  - by rw string_forall_app Hprenum Ha.
  - destruct rest as [|c r]; [done|].
    rw andb_true_iff in Hrest. destruct Hrest as [Hc Hr].
    assert (number_byte c = true) as Hcn.
    { revert Hc. clear. destruct hex; ascii_cases c. }
    destruct (strip_sign r) as [es r0] eqn:Hes. destruct r0 as [|d r0]; [done|].
    rw andb_true_iff in Hr. destruct Hr as [Hd0 Hr].
    destruct (scan_exponent 0 false (String d r0)) as [[e u] r'] eqn:Ex.
    destruct r'; [|done]. pose proof (scan_exponent_spec 0 false (String d r0)) as Hnum.
    rw Ex in Hnum. specialize (Hnum eq_refl).
    apply (float_text_app (String c "")); [cbn; by rw Hcn|].
    apply (float_text_sign r (String d r0) ""); [by rw Hes sapp_nil_r|done..].
Qed.

Lemma lower_number s : string_forall number_byte (lower_bytes s) = true → string_forall number_byte s = true.
Proof.
  induction s as [|c s IH]; [done|]. cbn [lower_bytes string_forall].
  rw !andb_true_iff; intros [Hc Hs]. split; [|by apply IH]. revert Hc. clear. ascii_cases c.
Qed.

Lemma lower_sign s : strip_sign (lower_bytes s) = ((strip_sign s).1, lower_bytes (strip_sign s).2).
Proof. destruct s as [|[[] [] [] [] [] [] [] []] s]; reflexivity. Qed.

(** What [ParseFloat] accepts has only number bytes and signs, and no two
    dashes in a row. *)
Lemma ParseFloat_text s : ParseFloat_ok s = true → float_text s.
Proof.
  unfold ParseFloat_ok. rw orb_true_iff; intros [H|H]; [|by apply read_float_text].
  assert (∀ t, t ≠ "" → string_forall number_byte t = true → lower_bytes (strip_sign s).2 = t → float_text s) as Hgen.
  { intros t Hne Ht E. apply (float_text_sign s (strip_sign s).2 "").
    - by rw sapp_nil_r. - intros E2. by rw E2 in E; subst. - apply lower_number. by rw E. - done. }
  unfold special_float in H. rw lower_sign in H. cbn [snd] in H.
  rw !orb_true_iff !String.eqb_eq in H. destruct H as [[H|H]|H].
  - apply (Hgen "nan"); [done..|]. rw -H. destruct s as [|[[] [] [] [] [] [] [] []] s]; done.
  - by apply (Hgen "inf").
  - by apply (Hgen "infinity").
Qed.

Lemma float_text_lex s : float_text s → lex s = Some (chars s) ∧ sealed (chars s).
Proof.
  intros [Hb Hd]. split.
  - apply lex_plain. eapply string_forall_impl, Hb. intros c; ascii_cases c.
  - apply sealed_dashes; [|done]. eapply string_forall_impl, Hb. intros c; ascii_cases c.
Qed.
