(* ===== verification/Ident.v ===== *)
(** * SQL identifiers: internal/ident/ident.go

    Validation and quoting of the identifiers a request supplies: columns,
    functions' arguments, and the database, schema and table of the path. *)

From S2P Require Import Prelude GoStrings Regexp SqlLex.

(** ** The package *)

(** The compiled regex: a segment (a letter or underscore, then letters, digits
    and underscores), then any number of groups of a dot and a segment,
    anchored at both ends. *)
Definition ident_segment : regex := RCat (RSet alpha_us) (RStar true (RSet word_rune)).
Definition re : regex := RCat ident_segment (RStar true (RGrp 1 (RCat (lit 46) ident_segment))).

Definition IsValid (s : string) : bool :=
  if negb (FullMatch re s) then false
  else forallb (λ part, negb (Nat.eqb (slen part) 0 || Nat.ltb 63 (slen part))) (Split s ".").

Definition IsSafeSegment `{UnicodeTables} (s : string) : bool :=
  if Nat.eqb (slen s) 0 || Nat.ltb 63 (slen s) then false
  else forallb (λ r, IsLetter r || IsDigit r || (r =? 95)%N || (r =? 45)%N) (runes s).

Definition Quote (s : string) : gores string :=
  if negb (IsValid s) then Err ("invalid identifier: " +:+ s)
  else Val (Join ((λ p, dq +:+ ReplaceAll p dq (dq +:+ dq) +:+ dq) <$> Split s ".") ".").

Definition SplitAndValidateCSV (s : string) : gores (list string) :=
  match s with
  | "" => Val []
  | _ =>
      let parts := Split s "," in
      _ ← mapE (λ p, if IsValid p then Val tt else Err ("invalid identifier: " +:+ p)) parts;
      Val parts
  end.

(** The calling convention [q, _ := ident.Quote(x)]: the error is dropped. *)
Definition quoted (s : string) : string := match Quote s with Val q => q | _ => "" end.

(** ** Specification *)

(** An unquoted SQL identifier: a letter or underscore, then letters, digits
    and underscores. *)
Definition simple_ident (s : string) : bool :=
  match s with
  | "" => false
  | String c s' => alpha_us (bval c) && string_forall (word_rune ∘ bval) s'
  end.

Definition valid_part (p : string) : Prop := simple_ident p = true ∧ slen p ≤ 63.

(** The tokens of a dotted path of quoted identifiers. *)
Fixpoint dotted (ps : list string) : list token :=
  match ps with
  | [] => []
  | [p] => [TIdent p]
  | p :: ps' => TIdent p :: TCh "." :: dotted ps'
  end.

(** ** Lemmas *)

Lemma Mat_segment s s' :
  Mat ident_segment s s' ↔ ∃ a, s = a +:+ s' ∧ simple_ident a = true.
Proof.
  split.
  - inversion 1 as [| |? ? ? s1 ? H1 H2| | | | |]; subst.
    apply Mat_set_ascii in H1 as (c & -> & Hc); [|auto with go].
    apply Mat_star_ascii in H2 as (a & -> & Ha); [|auto with go].
    exists (String c a); split; [done|]. cbn. by rw Hc Ha.
  - intros (a & -> & Ha). destruct a as [|c a]; [done|]. cbn in Ha.
    apply andb_true_iff in Ha as [Hc Ha].
    eapply MCat; [apply Mat_set_ascii; [auto with go|eauto]|].
    apply Mat_star_ascii; [auto with go|eauto].
Qed.

Lemma simple_ident_bytes a :
  simple_ident a = true → string_forall (word_rune ∘ bval) a = true.
Proof.
  destruct a as [|c a]; [done|]. cbn. rw !andb_true_iff; intros [Hc Ha].
  split; [|done]. unfold word_rune. by rw Hc.
Qed.

Lemma word_byte_facts c :
  word_rune (bval c) = true →
  Ascii.eqb "." c = false ∧ Ascii.eqb dqc c = false ∧ plain_byte c = true ∧
  wordy_byte c = true ∧ is_ascii_byte c = true.
Proof. ascii_cases c. Qed.

Lemma simple_ident_no_dot a : simple_ident a = true → no_byte "." a = true.
Proof.
  intros Ha%simple_ident_bytes. eapply string_forall_impl, Ha.
  intros c Hc%word_byte_facts. by destruct Hc as [-> _].
Qed.

Lemma simple_ident_no_quote a : simple_ident a = true → no_byte dqc a = true.
Proof.
  intros Ha%simple_ident_bytes. eapply string_forall_impl, Ha.
  intros c Hc%word_byte_facts. by destruct Hc as [_ [-> _]].
Qed.

(** The repeated group of the regex consumes dot-prefixed segments. *)
Lemma Mat_segments s :
  Mat (RStar true (RGrp 1 (RCat (lit 46) ident_segment))) s "" ↔
  ∃ ps, s = String.concat "" ((λ p, "." +:+ p) <$> ps) ∧ Forall (λ p, simple_ident p = true) ps.
Proof.
  split.
  - intros Hm. remember (RStar _ _) as r eqn:Er. remember "" as e eqn:Ee.
    induction Hm as [| | | | |g' r' s|g' r' s s1 s2 H1 _ Hlt _ IH|]; try done; simplify_eq.
    + by exists [].
    + destruct (IH eq_refl eq_refl) as (ps & -> & Hps).
      inversion H1 as [| | | | | | |? ? ? ? H2]; subst.
      inversion H2 as [| |? ? ? s3 ? H3 H4| | | | |]; subst.
      apply Mat_set_ascii in H3 as (c & -> & Hc); [|auto with go].
      apply Mat_segment in H4 as (a & -> & Ha).
      assert (c = "."%char) as -> by (revert Hc; ascii_cases c).
      exists (a :: ps); split; [|by constructor]. cbn.
      destruct ps; cbn; by rw ?sapp_nil_r.
  - intros (ps & -> & Hps). induction Hps as [|a ps Ha Hps IH]; [constructor|].
    assert (String.concat "" ((λ p, "." +:+ p) <$> a :: ps)
            = "." +:+ a +:+ String.concat "" ((λ p, "." +:+ p) <$> ps)) as ->.
    { destruct ps; cbn; by rw ?sapp_nil_r. }
    eapply MStarCons; [| |exact IH].
    + apply MGrp, (MCat _ _ _ (a +:+ String.concat "" ((λ p, "." +:+ p) <$> ps))).
      * apply Mat_set_ascii; [auto with go|]. by exists "."%char.
      * apply Mat_segment; eauto.
    + cbn. rw slen_app. lia.
Qed.

Lemma Join_dotted p ps :
  Join (p :: ps) "." = p +:+ String.concat "" ((λ q, "." +:+ q) <$> ps).
Proof.
  revert p; induction ps as [|q ps IH]; intros p; [by rw sapp_nil_r|].
  rw Join_cons; [done|]. rw IH. destruct ps; cbn; by rw ?sapp_nil_r.
Qed.

Lemma FullMatch_re s :
  FullMatch re s = true ↔ Forall (λ p, simple_ident p = true) (Split s ".").
Proof.
  rw FullMatch_spec. split.
  - inversion 1 as [| |? ? ? s1 ? H1 H2| | | | |]; subst.
    apply Mat_segment in H1 as (a & -> & Ha). apply Mat_segments in H2 as (ps & -> & Hps).
    assert (Forall (λ p, simple_ident p = true) (a :: ps)) as Hall by by constructor.
    rw -Join_dotted Split1_Join; [done| |done].
    eapply Forall_impl; [exact Hall|]. by intros ? ?%simple_ident_no_dot.
  - intros Hall. rw -{1}(Join_Split s "."); [done|].
    destruct (Split s ".") as [|p ps] eqn:E; [by apply Split_nonempty in E|].
    inversion Hall; subst. rw Join_dotted.
    eapply MCat; [apply Mat_segment; eauto|]. apply Mat_segments; eauto.
Qed.

Lemma length_check n : negb (Nat.eqb n 0 || Nat.ltb 63 n) = true ↔ n ≠ 0 ∧ n ≤ 63.
Proof. rw negb_true_iff orb_false_iff Nat.eqb_neq Nat.ltb_ge. done. Qed.

Lemma simple_ident_nonempty p : simple_ident p = true → slen p ≠ 0.
Proof. by destruct p. Qed.

Lemma IsValid_parts s : IsValid s = true ↔ Forall valid_part (Split s ".").
Proof.
  unfold IsValid, valid_part. rw Forall_and -FullMatch_re.
  destruct (FullMatch re s) eqn:E; cbn [negb]; [|by split; [|intros []]].
  rw forallb_forall !List.Forall_forall.
  apply FullMatch_re in E. rw List.Forall_forall in E.
  split; [intros H; split; [done|]|intros [_ H]]; intros p Hp.
  - by apply length_check, H.
  - apply length_check; split; [by apply simple_ident_nonempty, E|by apply H].
Qed.

Lemma IsValid_idents s : IsValid s = true → Forall (λ p, simple_ident p = true) (Split s ".").
Proof. intros H%IsValid_parts. eapply Forall_impl; [exact H|]. by intros ? [? ?]. Qed.

(** A valid identifier contains no byte with a lexical meaning. *)
Lemma IsValid_bytes s :
  IsValid s = true → string_forall (λ c, word_rune (bval c) || Ascii.eqb c ".") s = true.
Proof.
  intros H%IsValid_idents. rw -(Join_Split s "."); [done|].
  induction H as [|p ps Hp Hps IH]; [done|].
  assert (string_forall (λ c, word_rune (bval c) || Ascii.eqb c ".") p = true) as Hw.
  { apply simple_ident_bytes in Hp. eapply string_forall_impl, Hp. by intros c Hc; cbn in Hc; rw Hc. }
  destruct ps as [|q ps]; [done|]. rw Join_cons; [done|]. by rw !string_forall_app Hw IH.
Qed.

Lemma IsValid_plain s : IsValid s = true → plain s = true.
Proof. intros H%IsValid_bytes. eapply string_forall_impl, H. intros c; ascii_cases c. Qed.

Lemma IsValid_wordy s : IsValid s = true → string_forall wordy_byte s = true.
Proof. intros H%IsValid_bytes. eapply string_forall_impl, H. intros c; ascii_cases c. Qed.

Lemma IsValid_no_byte d s :
  IsValid s = true → (word_rune (bval d) || Ascii.eqb d ".") = false → no_byte d s = true.
Proof.
  intros H%IsValid_bytes Hd. eapply string_forall_impl, H. intros c Hc.
  apply negb_true_iff, Ascii.eqb_neq. intros ->. by rw Hc in Hd.
Qed.

Lemma IsValid_nonempty s : IsValid s = true → s ≠ "".
Proof. by intros H ->. Qed.

(** The two ways the program quotes a path agree: [ident.Quote] segment by
    segment, and the format that joins the segments with a quoted dot. *)
Lemma Quote_Join s :
  IsValid s = true →
  Quote s = Val (dq +:+ Join (Split s ".") (dq +:+ "." +:+ dq) +:+ dq).
Proof.
  intros H; unfold Quote; rw H; cbn [negb]. apply IsValid_idents in H. f_equal.
  pose proof (Split_nonempty s ".") as Hne.
  induction H as [|p ps Hp Hps IH]; [done|]. clear Hne.
  assert (ReplaceAll p dq (dq +:+ dq) = p) as Hrep.
  { apply ReplaceAll1_none, simple_ident_no_quote, Hp. }
  destruct ps as [|q ps]; [cbn [fmap list_fmap Join]; by rw Hrep|].
  rw (Join_cons p); [done|]. cbn [fmap list_fmap] in *. rw Join_cons; [done|].
  rw IH; [done|]. rw Hrep. by rw !sapp_assoc.
Qed.

Lemma lex_dotted ps :
  Forall (λ p, simple_ident p = true) ps → ps ≠ [] →
  lex (dq +:+ Join ps (dq +:+ "." +:+ dq) +:+ dq) = Some (dotted ps).
Proof.
  intros H; induction H as [|p ps Hp Hps IH]; [done|]. intros _.
  apply simple_ident_no_quote in Hp.
  destruct ps as [|q ps]; [by apply lex_plain_id|].
  rw Join_cons; [done|].
  assert (dq +:+ (p +:+ (dq +:+ "." +:+ dq) +:+ Join (q :: ps) (dq +:+ "." +:+ dq)) +:+ dq
          = (dq +:+ p +:+ dq) +:+ ("." +:+ (dq +:+ Join (q :: ps) (dq +:+ "." +:+ dq) +:+ dq))) as ->.
  { by rw !sapp_assoc. }
  eapply (lex_app _ _ [TIdent p]); [by apply lex_plain_id| |done].
  eapply (lex_plain_app "."); [done|]. by apply IH.
Qed.

Lemma lex_quoted s : IsValid s = true → lex (quoted s) = Some (dotted (Split s ".")).
Proof.
  intros H; unfold quoted; rw Quote_Join; [done|].
  apply lex_dotted; [by apply IsValid_idents|apply Split_nonempty].
Qed.

Lemma quoted_cons s : IsValid s = true → ∃ r, quoted s = String dqc r.
Proof. intros H; unfold quoted; rw Quote_Join; [done|]. eexists; reflexivity. Qed.

Lemma sealed_dotted ps : sealed (dotted ps).
Proof.
  induction ps as [|p [|q ps] IH]; [done..|].
  change (dotted (p :: q :: ps)) with ([TIdent p; TCh "."%char] ++ dotted (q :: ps)).
  by apply sealed_app.
Qed.

Lemma placeholders_dotted ps : placeholders (dotted ps) = [].
Proof. induction ps as [|p [|q ps] IH]; [done..|]. exact IH. Qed.

#[export] Hint Resolve sealed_dotted IsValid_plain IsValid_wordy : sql.

Lemma clean_quoted s : IsValid s = true → clean (quoted s).
Proof.
  intros H. eexists; split; [by apply lex_quoted|]. split; [apply sealed_dotted|apply placeholders_dotted].
Qed.

Lemma IsValid_template s : IsValid s = true → template s = true.
Proof. intros H%IsValid_bytes. eapply string_forall_impl, H. intros c; ascii_cases c. Qed.

Lemma IsValid_no_quote s : IsValid s = true → no_byte dqc s = true.
Proof. intros H. by apply IsValid_no_byte. Qed.

#[export] Hint Resolve clean_quoted IsValid_template IsValid_no_quote : sql.

(** The loop that validates every part. *)
Lemma check_all_spec ps :
  match mapE (λ p, if IsValid p then Val tt else Err ("invalid identifier: " +:+ p)) ps with
  | Val _ => Forall (λ p, IsValid p = true) ps
  | Err _ => Exists (λ p, IsValid p = false) ps
  | Panic _ => False
  end.
Proof.
  induction ps as [|p ps IH]; cbn; [constructor|].
  destruct (IsValid p) eqn:Hp; cbn; [|by constructor].
  destruct (mapE _ ps); cbn; [by constructor|by apply Exists_cons_tl|done].
Qed.

(** ** Properties *)

(** [ident.IsValid], a regex match followed by a length check of every
    dot-separated part, accepts exactly the dotted paths whose parts are
    non-empty SQL identifiers of at most 63 bytes. *)
Theorem IsValid_spec s :
  IsValid s = true ↔
  Forall (λ p, simple_ident p = true ∧ 1 ≤ slen p ≤ 63) (Split s ".").
Proof.
  rw IsValid_parts. unfold valid_part.
  split; intros H; (eapply Forall_impl; [exact H|]); intros p [Hp ?];
    split; [done| |done|lia].
  apply simple_ident_nonempty in Hp; lia.
Qed.

(** C24: [ident.Quote] is safe and exact: the text it returns reads, in SQL, as
    the dotted path of quoted identifiers named by the parts of its argument, on
    its own and inside any statement, when what precedes it ends outside quotes,
    quoted identifiers and parameters, and what follows starts with neither a
    digit nor a quote; it fails exactly on the invalid arguments. *)
Theorem Quote_reads_back s :
  (IsValid s = true → ∃ q, Quote s = Val q ∧ lex q = Some (dotted (Split s ".")) ∧
     Join (Split s ".") "." = s ∧
     ∀ before after ts us, lex_run LOut before = Some (ts, LOut) → lex after = Some us → starts_sep after = true →
       lex (before +:+ q +:+ after) = Some (ts ++ dotted (Split s ".") ++ us)) ∧
  (IsValid s = false → Quote s = Err ("invalid identifier: " +:+ s)).
Proof.
  split; intros H.
  - assert (lex (quoted s) = Some (dotted (Split s "."))) as Hl.
    { unfold quoted. rw Quote_Join //. apply lex_dotted; [by apply IsValid_idents|apply Split_nonempty]. }
    exists (quoted s). split_and!; [by rw /quoted Quote_Join|done|by apply Join_Split|].
    intros before after ts us Hb Ha Hsep. apply (lex_app _ _ _ _ Hl Ha) in Hsep as Hq.
    by rw (lex_after_out before _ _ _ Hb Hq).
  - unfold Quote. by rw H.
Qed.

(** [ident.SplitAndValidateCSV] returns the comma-separated parts of its
    argument, all valid identifiers, and joining them gives the argument back;
    it fails when one part is not valid. *)
Theorem SplitAndValidateCSV_spec s :
  s ≠ "" →
  match SplitAndValidateCSV s with
  | Val parts => Forall (λ p, IsValid p = true) parts ∧ Join parts "," = s
  | Err _ => Exists (λ p, IsValid p = false) (Split s ",")
  | Panic _ => False
  end.
Proof.
  intros Hs. pose proof (check_all_spec (Split s ",")) as H. unfold SplitAndValidateCSV.
  destruct s as [|c s]; [done|]. destruct (mapE _ _); cbn; auto. split; [done|by apply Join_Split].
Qed.

Lemma SplitAndValidateCSV_witness :
  "a,b.c" ≠ "" ∧ SplitAndValidateCSV "a,b.c" = Val ["a"; "b.c"] ∧
  match SplitAndValidateCSV "a,b.c" with
  | Val parts => Forall (λ p, IsValid p = true) parts ∧ Join parts "," = "a,b.c"
  | Err _ => Exists (λ p, IsValid p = false) (Split "a,b.c" ",")
  | Panic _ => False
  end.
Proof. split; [done|]. split; [by vm_compute|]. apply (SplitAndValidateCSV_spec "a,b.c"). done. Defined.
