(* ===== verification/Cache.v ===== *)
(** * The response cache: cache/cache.go, cache/buntdb.go

    The configuration, the per-endpoint rule and the two operations on the
    embedded BuntDB store.  BuntDB itself is third-party code; what the program
    relies on is a key/value store per file with a time to live per entry,
    which is the state threaded through [BuntGet] and [BuntSet]. *)

From S2P Require Import Prelude GoStrings.

(** ** Configuration *)

Record Endpoint := MkEndpoint {
  ep_Enabled : bool;
  ep_Endpoint : string;
  ep_Time : Z
}.

Record CacheConfig := MkCacheConfig {
  cc_Enabled : bool;
  cc_Time : Z;
  cc_StoragePath : string;
  cc_SufixFile : string;
  cc_Endpoints : list Endpoint
}.

Definition ClearEndpoints (c : CacheConfig) : CacheConfig :=
  MkCacheConfig (cc_Enabled c) (cc_Time c) (cc_StoragePath c) (cc_SufixFile c) [].

(** The loop of [EndpointRules]: the first endpoint equal to the URI decides. *)
Fixpoint endpoint_loop (es : list Endpoint) (uri : string) (dflt : bool * Z) : bool * Z :=
  match es with
  | [] => dflt
  | e :: es' =>
      if String.eqb (ep_Endpoint e) uri then (true, ep_Time e)
      else endpoint_loop es' uri dflt
  end.

Definition EndpointRules (c : CacheConfig) (uri : string) : bool * Z :=
  let enabled := cc_Enabled c && Nat.eqb (length (cc_Endpoints c)) 0 in
  endpoint_loop (cc_Endpoints c) uri (enabled, cc_Time c).

(** ** The store *)

(** An entry: its value and the instant (in minutes) it expires at. *)
Record CacheEntry := MkCacheEntry { ce_value : string; ce_expires : Z }.

(** One database file per URL: the file's path, then the key inside it. *)
Definition CacheStore := gmap string (gmap string CacheEntry).

Section bunt.
(** [slugify.Slugify] of github.com/avelino/slugify, and [filepath.Join]. *)
Context (Slugify : string → string) (path_join : string → string → string).
(** Whether [buntdb.Open] succeeds on a path. *)
Context (can_open : string → bool).

Definition bunt_file (c : CacheConfig) (key : string) : string :=
  let k := match key with "" => key | _ => Slugify key end in
  path_join (cc_StoragePath c) (k +:+ cc_SufixFile c).

(** [BuntConnect]: the database of a key, or an error; on an error the
    receiver's [Enabled] is cleared (of a copy, in both callers). *)
Definition BuntConnect (c : CacheConfig) (key : string) : CacheConfig * gores string :=
  let f := bunt_file c key in
  if can_open f then (c, Val f)
  else (MkCacheConfig false (cc_Time c) (cc_StoragePath c) (cc_SufixFile c) (cc_Endpoints c),
        Err ("could not open " +:+ f)).

(** [BuntGet] at instant [now]: the cached body that is written to the
    response, or [None] when the request goes on. *)
Definition BuntGet (c : CacheConfig) (now : Z) (st : CacheStore) (key : string) : option string :=
  match (BuntConnect c key).2 with
  | Val f =>
      db ← st !! f; e ← db !! key;
      if (now <? ce_expires e)%Z then Some (ce_value e) else None
  | _ => None
  end.

(** [BuntSet] at instant [now]. *)
Definition BuntSet (c : CacheConfig) (now : Z) (st : CacheStore) (key value : string) : CacheStore :=
  let uri := Split key "?" in
  let '(cacheRule, cacheTime) := EndpointRules c (default "" (head uri)) in
  if negb (cc_Enabled c) || negb cacheRule then st
  else match (BuntConnect c key).2 with
  | Val f =>
      let db := default ∅ (st !! f) in
      <[f := <[key := MkCacheEntry value (now + cacheTime)]> db]> st
  | _ => st
  end.
End bunt.

(** ** Lemmas *)

Lemma endpoint_loop_cases es uri dflt :
  (∃ e, e ∈ es ∧ ep_Endpoint e = uri ∧ endpoint_loop es uri dflt = (true, ep_Time e)) ∨
  (Forall (λ e, ep_Endpoint e ≠ uri) es ∧ endpoint_loop es uri dflt = dflt).
Proof.
  induction es as [|e es IH]; [by right|]. cbn.
  destruct (String.eqb_spec (ep_Endpoint e) uri) as [He|Hne].
  - left. exists e. split; [by left|done].
  - destruct IH as [(e' & Hin & Heq & ->)|[Hall ->]].
    + left. exists e'. split; [by right|done].
    + right. by split; [constructor|].
Qed.

(** ** Properties *)

(** [EndpointRules] with no configured endpoint caches everything exactly
    when the cache is enabled, for the default time; with endpoints it caches
    exactly the listed URIs, each for the time of an entry that lists it.  The
    [enabled] flag of an entry plays no part: an endpoint configured as
    disabled is cached all the same. *)
Theorem EndpointRules_spec c uri :
  (cc_Endpoints c = [] → EndpointRules c uri = (cc_Enabled c, cc_Time c)) ∧
  (cc_Endpoints c ≠ [] →
     ((EndpointRules c uri).1 = true ↔ uri ∈ ep_Endpoint <$> cc_Endpoints c) ∧
     ((EndpointRules c uri).1 = true →
        ∃ e, e ∈ cc_Endpoints c ∧ ep_Endpoint e = uri ∧ (EndpointRules c uri).2 = ep_Time e)) ∧
  (∀ flag, EndpointRules
     (MkCacheConfig (cc_Enabled c) (cc_Time c) (cc_StoragePath c) (cc_SufixFile c)
        ((λ e, MkEndpoint flag (ep_Endpoint e) (ep_Time e)) <$> cc_Endpoints c)) uri
     = EndpointRules c uri).
Proof.
  unfold EndpointRules. split_and!.
  - intros ->; cbn. by rw andb_true_r.
  - intros Hne. assert (Nat.eqb (length (cc_Endpoints c)) 0 = false) as ->.
    { by destruct (cc_Endpoints c). }
    rw andb_false_r.
    destruct (endpoint_loop_cases (cc_Endpoints c) uri (false, cc_Time c))
      as [(e & Hin & <- & ->)|[Hall ->]]; cbn.
    + split; [|by eauto]. split; [|done]. intros _. by apply list_elem_of_fmap_2.
    + split; [|done]. split; [done|]. intros (e & -> & Hin)%list_elem_of_fmap.
      rw Forall_forall in Hall. by destruct (Hall _ Hin).
  - intros flag; cbn. rw length_fmap.
    generalize (cc_Enabled c && Nat.eqb (length (cc_Endpoints c)) 0, cc_Time c); intros d.
    induction (cc_Endpoints c) as [|e es IH]; cbn; [done|]. by rw IH.
Qed.

Lemma BuntSet_BuntGet_stored Slugify path_join can_open c now now' st key value t :
  cc_Enabled c = true →
  EndpointRules c (default "" (head (Split key "?"))) = (true, t) →
  can_open (bunt_file Slugify path_join c key) = true →
  BuntGet Slugify path_join can_open c now'
    (BuntSet Slugify path_join can_open c now st key value) key
  = (if (now' <? now + t)%Z then Some value else None) ∧
  (∀ key', (EndpointRules c (default "" (head (Split key' "?")))).1 = false →
     BuntSet Slugify path_join can_open c now st key' value = st).
Proof.
  intros He Hr Ho. unfold BuntGet, BuntSet, BuntConnect. split.
  - rw Hr He Ho. cbn. by rw lookup_insert_eq; cbn; rw lookup_insert_eq.
  - intros key' Hk. destruct (EndpointRules c (default "" (head (Split key' "?")))) as [b t'].
    cbn in Hk |- *. by rw Hk orb_true_r.
Qed.

(** What [BuntSet] stores is what [BuntGet] returns for the same URL until
    the entry expires, and not after; a URL the rules do not cache is never
    stored. *)
Theorem BuntSet_BuntGet Slugify path_join can_open c now now' st key value t :
  cc_Enabled c = true →
  EndpointRules c (default "" (head (Split key "?"))) = (true, t) →
  can_open (bunt_file Slugify path_join c key) = true →
  BuntGet Slugify path_join can_open c now'
    (BuntSet Slugify path_join can_open c now st key value) key
  = (if (now' <? now + t)%Z then Some value else None) ∧
  (∀ key', (EndpointRules c (default "" (head (Split key' "?")))).1 = false →
     BuntSet Slugify path_join can_open c now st key' value = st).
Proof. apply BuntSet_BuntGet_stored. Qed.

Lemma BuntSet_BuntGet_witness :
  let c := MkCacheConfig true 10 "./" ".db" [] in
  BuntGet (λ s, s) append (λ _, true) c 5
    (BuntSet (λ s, s) append (λ _, true) c 0 ∅ "/prest/public/t?_page=1" "[]")
    "/prest/public/t?_page=1" = (if (5 <? 0 + 10)%Z then Some "[]" else None) ∧
  (∀ key', (EndpointRules c (default "" (head (Split key' "?")))).1 = false →
     BuntSet (λ s, s) append (λ _, true) c 0 ∅ key' "[]" = ∅).
Proof.
  intros c. apply (BuntSet_BuntGet (λ s, s) append (λ _, true) c 0 5 ∅ _ _ 10);
    by vm_compute.
Defined.
