(* ===== verification/Config.v ===== *)
(** * Configuration: config/config.go

    The configuration record that every other component reads as the global
    [config.PrestConf], its parts, and the checks on it.  The fields that hold
    Go interfaces (the adapter, the logger) are not data and are left out.
    Reading the values out of viper and the environment is in [Settings]. *)

From S2P Require Import Prelude GoStrings Cache.

(** ** The records *)

Record UserFilterConfig := MkUserFilter {
  uf_Database : string; uf_Schema : string; uf_Table : string; uf_Column : string
}.

Record TenantCompatConfig := MkTenantCompat {
  tc_Database : string; tc_Schema : string; tc_Table : string;
  tc_UserColumn : string; tc_TenantColumn : string
}.

Record TablesConf := MkTablesConf {
  tbl_Name : string; tbl_Permissions : list string; tbl_Fields : list string
}.

Record UsersConf := MkUsersConf { usr_Name : string; usr_Tables : list TablesConf }.

Record AccessConf := MkAccessConf {
  ac_Restrict : bool; ac_IgnoreTable : list string;
  ac_Tables : list TablesConf; ac_Users : list UsersConf
}.

Record ExposeConf := MkExposeConf {
  ex_Enabled : bool; ex_DatabaseListing : bool; ex_SchemaListing : bool; ex_TableListing : bool
}.

Record PluginMiddleware := MkPluginMiddleware { pm_File : string; pm_Func : string }.

Record PGURLConfig := MkPGURL { pu_Name : string; pu_URL : string }.

Record Prest := MkPrest {
  AuthEnabled : bool;
  AuthSchema : string;
  AuthTable : string;
  AuthUsername : string;
  AuthPassword : string;
  AuthEncrypt : string;
  AuthMetadata : list string;
  AuthType : string;
  UserIDHeader : string;
  UserIDFilters : list UserFilterConfig;
  HTTPHost : string;
  HTTPPort : Z;
  HTTPTimeout : Z;
  PGHost : string;
  PGPort : Z;
  PGUser : string;
  PGPass : string;
  PGDatabase : string;
  PGURL : string;
  PGURLs : list string;
  PGNamedURLs : list PGURLConfig;
  PGSSLMode : string;
  PGSSLCert : string;
  PGSSLKey : string;
  PGSSLRootCert : string;
  ContextPath : string;
  PGMaxIdleConn : Z;
  PGMaxOpenConn : Z;
  PGConnTimeout : Z;
  PGCache : bool;
  JWTKey : string;
  JWTAlgo : string;
  JWTWellKnownURL : string;
  JWTJWKS : string;
  JWTWhiteList : list string;
  JSONAggType : string;
  MigrationsPath : string;
  QueriesPath : string;
  Access : AccessConf;
  Expose : ExposeConf;
  CORSAllowOrigin : list string;
  CORSAllowHeaders : list string;
  CORSAllowMethods : list string;
  CORSAllowCredentials : bool;
  Debug : bool;
  EnableDefaultJWT : bool;
  SingleDB : bool;
  HTTPSMode : bool;
  HTTPSCert : string;
  HTTPSKey : string;
  Cache : CacheConfig;
  PluginPath : string;
  PluginMiddlewareList : list PluginMiddleware;
  TenantCompatFilters : list TenantCompatConfig;
  TenantActiveHeader : string
}.

(** Go's zero values, [&Prest{}]. *)
Definition zero_AccessConf := MkAccessConf false [] [] [].
Definition zero_ExposeConf := MkExposeConf false false false false.
Definition zero_CacheConfig := MkCacheConfig false 0 "" "" [].

Definition zero_Prest : Prest := {|
  AuthEnabled := false;
  AuthSchema := "";
  AuthTable := "";
  AuthUsername := "";
  AuthPassword := "";
  AuthEncrypt := "";
  AuthMetadata := [];
  AuthType := "";
  UserIDHeader := "";
  UserIDFilters := [];
  HTTPHost := "";
  HTTPPort := 0;
  HTTPTimeout := 0;
  PGHost := "";
  PGPort := 0;
  PGUser := "";
  PGPass := "";
  PGDatabase := "";
  PGURL := "";
  PGURLs := [];
  PGNamedURLs := [];
  PGSSLMode := "";
  PGSSLCert := "";
  PGSSLKey := "";
  PGSSLRootCert := "";
  ContextPath := "";
  PGMaxIdleConn := 0;
  PGMaxOpenConn := 0;
  PGConnTimeout := 0;
  PGCache := false;
  JWTKey := "";
  JWTAlgo := "";
  JWTWellKnownURL := "";
  JWTJWKS := "";
  JWTWhiteList := [];
  JSONAggType := "";
  MigrationsPath := "";
  QueriesPath := "";
  Access := zero_AccessConf;
  Expose := zero_ExposeConf;
  CORSAllowOrigin := [];
  CORSAllowHeaders := [];
  CORSAllowMethods := [];
  CORSAllowCredentials := false;
  Debug := false;
  EnableDefaultJWT := false;
  SingleDB := false;
  HTTPSMode := false;
  HTTPSCert := "";
  HTTPSKey := "";
  Cache := zero_CacheConfig;
  PluginPath := "";
  PluginMiddlewareList := [];
  TenantCompatFilters := [];
  TenantActiveHeader := ""
|}.

(** ** Assignments

    [c <| f := x |>] is [c] after the assignment [c.f = x]: the record of the
    fields of [c] with [x] in the place of [f], which is found by the getter. *)
Definition eta_Prest (c : Prest) : Prest := MkPrest
  (AuthEnabled c) (AuthSchema c) (AuthTable c) (AuthUsername c) (AuthPassword c) (AuthEncrypt c)
  (AuthMetadata c) (AuthType c) (UserIDHeader c) (UserIDFilters c) (HTTPHost c) (HTTPPort c) (HTTPTimeout c)
  (PGHost c) (PGPort c) (PGUser c) (PGPass c) (PGDatabase c) (PGURL c) (PGURLs c) (PGNamedURLs c)
  (PGSSLMode c) (PGSSLCert c) (PGSSLKey c) (PGSSLRootCert c) (ContextPath c) (PGMaxIdleConn c)
  (PGMaxOpenConn c) (PGConnTimeout c) (PGCache c) (JWTKey c) (JWTAlgo c) (JWTWellKnownURL c) (JWTJWKS c)
  (JWTWhiteList c) (JSONAggType c) (MigrationsPath c) (QueriesPath c) (Access c) (Expose c)
  (CORSAllowOrigin c) (CORSAllowHeaders c) (CORSAllowMethods c) (CORSAllowCredentials c) (Debug c)
  (EnableDefaultJWT c) (SingleDB c) (HTTPSMode c) (HTTPSCert c) (HTTPSKey c) (Cache c) (PluginPath c)
  (PluginMiddlewareList c) (TenantCompatFilters c) (TenantActiveHeader c).

Class Field {T} (f : Prest → T) := assign : T → Prest → Prest.
Arguments assign {T} f {_} x c /.

Ltac field_setter f :=
  let x := fresh "x" in let c := fresh "c" in intros x c;
  let e := eval cbv beta delta [eta_Prest] in (eta_Prest c) in
  match eval pattern (f c) in e with ?g _ => let r := eval cbv beta in (g x) in exact r end.
#[export] Hint Extern 0 (Field ?f) => (unfold Field; field_setter f) : typeclass_instances.

Notation "c <| f := x |>" := (assign f x c)
  (at level 1, f at level 200, format "c  <| f  :=  x |>").

Definition set_UserIDFilters (x : list UserFilterConfig) (c : Prest) : Prest := c <| UserIDFilters := x |>.
Definition set_TenantCompatFilters (x : list TenantCompatConfig) (c : Prest) : Prest := c <| TenantCompatFilters := x |>.
Definition set_PGDatabase (x : string) (c : Prest) : Prest := c <| PGDatabase := x |>.
Definition set_PGCache (x : bool) (c : Prest) : Prest := c <| PGCache := x |>.
Definition set_SingleDB (x : bool) (c : Prest) : Prest := c <| SingleDB := x |>.
Definition set_Access (x : AccessConf) (c : Prest) : Prest := c <| Access := x |>.
Definition set_Cache (x : CacheConfig) (c : Prest) : Prest := c <| Cache := x |>.
Definition set_headers (user tenant : string) (c : Prest) : Prest :=
  c <| UserIDHeader := user |> <| TenantActiveHeader := tenant |>.

Example assign_example :
  let c := zero_Prest <| PGHost := "h" |> <| PGPort := 1%Z |> <| PGHost := "k" |> in
  (PGHost c, PGPort c, PGUser c) = ("k", 1%Z, "").
Proof. by vm_compute. Qed.

(** ** Checks *)

(** [getPrestConfFile] *)
Definition getPrestConfFile (prestConf : string) : string :=
  match prestConf with "" => "./prest.toml" | _ => prestConf end.

(** [getJSONAgg], on the value viper holds for [json.agg.type]. *)
Definition jsonAggDefault := "jsonb_agg".
Definition jsonAgg := "json_agg".
Definition getJSONAgg (config : string) : string :=
  if String.eqb config jsonAgg then jsonAgg else jsonAggDefault.

Definition hasNamedURLs (urls : list PGURLConfig) : bool :=
  existsb (λ u, negb (String.eqb (pu_URL u) "")) urls.

(** [ValidateTenantCompat]: the set of the triples of the user filters, then
    the first compat filter whose triple is in it. *)
Definition filter_key (d s t : string) : string * string * string := (d, s, t).

Definition overlap_error (f : TenantCompatConfig) : error :=
  "table " +:+ tc_Database f +:+ "/" +:+ tc_Schema f +:+ "/" +:+ tc_Table f +:+
  " appears in both user_id_filters and tenant_compat_filters — list it in exactly one".

Definition ValidateTenantCompat (cfg : Prest) : gores unit :=
  let seen : gset (string * string * string) :=
    list_to_set ((λ f, filter_key (uf_Database f) (uf_Schema f) (uf_Table f)) <$> UserIDFilters cfg) in
  foldE (λ _ f,
    if decide (filter_key (tc_Database f) (tc_Schema f) (tc_Table f) ∈ seen)
    then Err (overlap_error f) else Val tt) tt (TenantCompatFilters cfg).

Definition ErrJWTDefaultEnabledNoKey : error :=
  "jwt.default is enabled but no verification material was provided (set jwt.key, jwt.jwks or jwt.wellknownurl, or disable jwt.default)".
Definition ErrAuthEnabledNoJWTKey : error :=
  "auth.enabled is true but jwt.key is empty (required to verify HS256 tokens)".

Definition ValidateJWTConfig (cfg : Prest) : gores unit :=
  if AuthEnabled cfg && String.eqb (JWTKey cfg) "" then Err ErrAuthEnabledNoJWTKey
  else if negb (EnableDefaultJWT cfg) then Val tt
  else if Debug cfg then Val tt
  else if negb (String.eqb (JWTKey cfg) "") || negb (String.eqb (JWTJWKS cfg) "")
          || negb (String.eqb (JWTWellKnownURL cfg) "") then Val tt
  else Err ErrJWTDefaultEnabledNoKey.

(** ** Properties *)

(** [ValidateTenantCompat] accepts a configuration exactly when no
    (database, schema, table) triple of a tenant filter is also the triple of
    a user-id filter. *)
Theorem ValidateTenantCompat_spec cfg :
  ValidateTenantCompat cfg = Val tt ↔
  ∀ f g, f ∈ TenantCompatFilters cfg → g ∈ UserIDFilters cfg →
    ¬ (tc_Database f = uf_Database g ∧ tc_Schema f = uf_Schema g ∧ tc_Table f = uf_Table g).
Proof.
  unfold ValidateTenantCompat.
  induction (TenantCompatFilters cfg) as [|f fs IH]; cbn [foldE].
  { split; [|done]. intros _ f g Hf. by apply elem_of_nil in Hf. }
  case_decide as Hin; rw elem_of_list_to_set list_elem_of_fmap in Hin; cbn.
  - split; [done|]. intros H. destruct Hin as (g & Heq & Hg).
    injection Heq as ???. destruct (H f g); [by left|done|done].
  - rw IH. split; intros H f' g Hf' Hg.
    + apply elem_of_cons in Hf' as [->|Hf']; [|by apply H].
      intros (H1 & H2 & H3). apply Hin. exists g. split; [|done]. unfold filter_key. by rw H1 H2 H3.
    + apply H; [by right|done].
Qed.

(** [ValidateJWTConfig] lets the server start only when every middleware
    it would install has a key to verify with: basic authentication needs
    [jwt.key], and the default JWT middleware, outside debug mode, needs a
    key, a JWKS or a well-known URL. *)
Theorem ValidateJWTConfig_spec cfg :
  ValidateJWTConfig cfg = Val tt ↔
  (AuthEnabled cfg = true → JWTKey cfg ≠ "") ∧
  (EnableDefaultJWT cfg = true → Debug cfg = false →
   JWTKey cfg ≠ "" ∨ JWTJWKS cfg ≠ "" ∨ JWTWellKnownURL cfg ≠ "").
Proof.
  unfold ValidateJWTConfig.
  destruct (AuthEnabled cfg), (EnableDefaultJWT cfg), (Debug cfg);
    destruct (String.eqb_spec (JWTKey cfg) ""), (String.eqb_spec (JWTJWKS cfg) ""),
      (String.eqb_spec (JWTWellKnownURL cfg) ""); cbn; intuition congruence.
Qed.
