(* ===== verification/Http.v ===== *)
(** * Requests, contexts and dynamic values

    The request as the handlers see it (method, path, query, headers, context
    values), the context keys of context/keys.go, the dynamic values Go keeps
    in [interface{}], and the responses the handlers write. *)

From S2P Require Import Prelude GoStrings Config.

(** ** Dynamic values

    What an [interface{}] of the program can hold: JSON values as
    encoding/json decodes them (numbers are [float64], arrays [[]interface{}],
    objects [map[string]interface{}]), and the Go values the code builds.  A
    [float64] is represented by its shortest decimal: its sign, the digits
    without leading or trailing zeros, and the position of the decimal point
    relative to the first of them; zero has no digits. *)
Record float64 := MkFloat { f_neg : bool; f_digits : string; f_dp : Z }.

Inductive iface :=
| INil
| IBool (b : bool)
| IFloat (f : float64)
| IInt (z : Z)
| IStr (s : string)
| ISlice (l : list iface)              (* []interface{} *)
| IStrs (l : list string)              (* []string *)
| IInts (l : list Z)                   (* []int *)
| IMap (m : list (string * iface))     (* map[string]interface{} *)
| IStringer (s : string)               (* a fmt.Stringer, by its String() *)
| IStringers (l : list string).        (* []fmt.Stringer *)

(** ** Context values: context/keys.go

    The values stored under the keys of the program, each [None] when the key
    is absent or does not hold a value of the asserted type. *)
Record Context := MkContext {
  DBNameKey : option string;
  HTTPTimeoutKey : option Z;
  UserInfoKey : option string;
  UserIDKey : option string;
  TenantIDKey : option string;
  TenantIDActiveKey : option string
}.

Definition empty_context := MkContext None None None None None None.

Definition with_DBName (v : string) (c : Context) : Context :=
  MkContext (Some v) (HTTPTimeoutKey c) (UserInfoKey c) (UserIDKey c) (TenantIDKey c) (TenantIDActiveKey c).
Definition with_HTTPTimeout (v : Z) (c : Context) : Context :=
  MkContext (DBNameKey c) (Some v) (UserInfoKey c) (UserIDKey c) (TenantIDKey c) (TenantIDActiveKey c).
Definition with_UserID (v : string) (c : Context) : Context :=
  MkContext (DBNameKey c) (HTTPTimeoutKey c) (UserInfoKey c) (Some v) (TenantIDKey c) (TenantIDActiveKey c).
Definition with_TenantIDActive (v : string) (c : Context) : Context :=
  MkContext (DBNameKey c) (HTTPTimeoutKey c) (UserInfoKey c) (UserIDKey c) (TenantIDKey c) (Some v).

(** ** Requests *)

Record Request := MkRequest {
  Method : string;
  Path : string;                          (* r.URL.Path *)
  URL : string;                           (* r.URL.String() *)
  Query : gmap string (list string);      (* r.URL.Query() *)
  Header : gmap string (list string);     (* canonical names *)
  Ctx : Context;                          (* r.Context() *)
  Vars : gmap string string               (* mux.Vars(r) *)
}.

Definition with_ctx (c : Context) (r : Request) : Request :=
  MkRequest (Method r) (Path r) (URL r) (Query r) (Header r) c (Vars r).

(** [url.Values.Get] *)
Definition QueryGet (r : Request) (key : string) : string :=
  match Query r !! key with Some (v :: _) => v | _ => "" end.

(** The values of a key, [nil] when it is absent. *)
Definition QueryAll (r : Request) (key : string) : list string :=
  default [] (Query r !! key).

(** [textproto.CanonicalMIMEHeaderKey]: upper case at the start and after a
    dash, lower case elsewhere; a name with another byte than a token
    character is left alone. *)
Definition token_byte (c : ascii) : bool :=
  let n := bval c in
  is_lower_ascii n || is_upper_ascii n || is_digit_ascii n
  || existsb (N.eqb n) [33; 35; 36; 37; 38; 39; 42; 43; 45; 46; 94; 95; 96; 124; 126]%N.

Fixpoint canonical_from (up : bool) (s : string) : string :=
  match s with
  | "" => ""
  | String c s' =>
      let n := bval c in
      let n' := if up && is_lower_ascii n then (n - 32)%N
                else if negb up && is_upper_ascii n then (n + 32)%N else n in
      String (ascii_of_N n') (canonical_from (n =? 45)%N s')
  end.

Definition CanonicalHeaderKey (s : string) : string :=
  if string_forall token_byte s then canonical_from true s else s.

(** [http.Header.Get] *)
Definition HeaderGet (r : Request) (key : string) : string :=
  match Header r !! CanonicalHeaderKey key with Some (v :: _) => v | _ => "" end.

(** [mux.Vars(r)[name]]: the empty string for a variable the route has not. *)
Definition VarsGet (r : Request) (name : string) : string := default "" (Vars r !! name).

(** ** Responses *)

Record Response := MkResponse { Status : Z; RespBody : string }.

(** controllers/errors.go: the message is formatted into a JSON object
    without escaping; [http.Error] adds a newline. *)
Definition newline : string := byte_str 10.
Definition jsonError (message : string) (status : Z) : Response :=
  MkResponse status (requote "{`error`:`" +:+ message +:+ requote "`}" +:+ newline).

Definition ok_bytes (b : string) : Response := MkResponse 200 b.

(** Status codes. *)
Definition StatusOK : Z := 200.
Definition StatusCreated : Z := 201.
Definition StatusNoContent : Z := 204.
Definition StatusBadRequest : Z := 400.
Definition StatusUnauthorized : Z := 401.
Definition StatusForbidden : Z := 403.
Definition StatusNotFound : Z := 404.
Definition StatusMethodNotAllowed : Z := 405.
Definition StatusInternalServerError : Z := 500.
Definition StatusBadGateway : Z := 502.
Definition StatusServiceUnavailable : Z := 503.
