(* ===== verification/Json.v ===== *)
(** * encoding/json and fmt on dynamic values

    The parts of the standard library that print an [interface{}]:
    [fmt.Sprint] of numbers, the [%s] verb, [json.Marshal], and [sort.Strings]. *)

From S2P Require Import Prelude GoStrings SqlLex Http.

(** ** sort.Strings *)

Definition str_leb (s t : string) : bool :=
  match String.compare s t with Gt => false | _ => true end.
Definition str_le (s t : string) : Prop := str_leb s t = true.

#[export] Instance str_le_dec s t : Decision (str_le s t).
Proof. unfold str_le. apply _. Defined.

Definition sort_strings (l : list string) : list string := merge_sort str_le l.

(** ** Floats *)

Definition zeros (n : Z) : string := String.concat "" (replicate (Z.to_nat n) "0").

(** [strconv]'s [%f] form with as many decimals as the digits need. *)
Definition fmt_f (f : float64) : string :=
  let ds := f_digits f in
  let nd := Z.of_nat (slen ds) in
  let int := if (0 <? f_dp f)%Z
             then take_bytes (Z.to_nat (f_dp f)) ds +:+ zeros (f_dp f - nd) else "0" in
  let frac := if (nd - f_dp f >? 0)%Z
              then "." +:+ zeros (- f_dp f) +:+ drop_bytes (Z.to_nat (f_dp f)) ds else "" in
  (if f_neg f then "-" else "") +:+ int +:+ frac.

(** The [%e] form; the exponent has at least two digits when [pad] is set. *)
Definition fmt_e (pad : bool) (f : float64) : string :=
  let ds := f_digits f in
  let exp := (f_dp f - 1)%Z in
  let e := Itoa (Z.abs exp) in
  (if f_neg f then "-" else "") +:+ take_bytes 1 ds
  +:+ (if Nat.ltb 1 (slen ds) then "." +:+ drop_bytes 1 ds else "")
  +:+ "e" +:+ (if (exp <? 0)%Z then "-" else "+")
  +:+ (if pad && Nat.ltb (slen e) 2 then "0" +:+ e else e).

Definition is_zero (f : float64) : bool := String.eqb (f_digits f) "".

(** [fmt.Sprint] of a [float64]: the shortest [%g] form. *)
Definition Sprint_float (f : float64) : string :=
  let exp := (f_dp f - 1)%Z in
  if negb (is_zero f) && ((exp <? -4) || (6 <=? exp))%Z then fmt_e true f else fmt_f f.

(** encoding/json prints the [%f] form between 1e-6 and 1e21. *)
Definition json_float (f : float64) : string :=
  let exp := (f_dp f - 1)%Z in
  if negb (is_zero f) && ((exp <? -6) || (21 <=? exp))%Z then fmt_e false f else fmt_f f.

(** ** json.Marshal *)

Section marshal.
Context `{UnicodeTables}.

(** One rune of a JSON string, with the characters that are special in HTML
    escaped too. *)
Definition json_seg (rb : N * string) : string :=
  let '(r, b) := rb in
  if (r =? 34)%N then "\" +:+ dq
  else if (r =? 92)%N then "\\"
  else if (r =? 8)%N then "\b"
  else if (r =? 12)%N then "\f"
  else if (r =? 10)%N then "\n"
  else if (r =? 13)%N then "\r"
  else if (r =? 9)%N then "\t"
  else if (r <? 32)%N || existsb (N.eqb r) [60; 62; 38]%N then "\u" +:+ hex_digits 4 r
  else if (r =? RuneError)%N && Nat.eqb (slen b) 1 then "\ufffd"
  else if existsb (N.eqb r) [8232; 8233]%N then "\u" +:+ hex_digits 4 r
  else b.

Definition json_string (s : string) : string :=
  dq +:+ String.concat "" (json_seg <$> rune_segs s) +:+ dq.

(** Objects are printed with their keys in byte order. *)
Fixpoint insert_key (k : string) (v : string) (l : list (string * string)) : list (string * string) :=
  match l with
  | [] => [(k, v)]
  | (k', v') :: l' => if str_leb k k' then (k, v) :: l else (k', v') :: insert_key k v l'
  end.

Definition json_object (kvs : list (string * string)) : string :=
  "{" +:+ Join ((λ kv, json_string kv.1 +:+ ":" +:+ kv.2)
                <$> foldr (λ kv, insert_key kv.1 kv.2) [] kvs) "," +:+ "}".

Definition json_array (vs : list string) : string := "[" +:+ Join vs "," +:+ "]".

(** A [fmt.Stringer] has no JSON form of its own here: the program marshals
    none. *)
Fixpoint json_marshal (v : iface) : string :=
  match v with
  | INil => "null"
  | IBool b => if b then "true" else "false"
  | IFloat f => json_float f
  | IInt z => Itoa z
  | IStr s | IStringer s => json_string s
  | IStrs l | IStringers l => json_array (json_string <$> l)
  | IInts l => json_array (Itoa <$> l)
  | ISlice l => json_array ((fix go (l : list iface) :=
      match l with [] => [] | v :: l' => json_marshal v :: go l' end) l)
  | IMap m => json_object ((fix go (m : list (string * iface)) :=
      match m with [] => [] | (k, v) :: m' => (k, json_marshal v) :: go m' end) m)
  end.

(** ** fmt.Sprintf("%s", v) of a decoded JSON value *)

Definition bad_verb (type value : string) : string := "%!s(" +:+ type +:+ "=" +:+ value +:+ ")".

Fixpoint Sprintf_s (v : iface) : string :=
  match v with
  | INil => "%!s(<nil>)"
  | IBool b => bad_verb "bool" (if b then "true" else "false")
  | IFloat f => bad_verb "float64" (Sprint_float f)
  | IInt z => bad_verb "int" (Itoa z)
  | IStr s | IStringer s => s
  | IStrs l | IStringers l => "[" +:+ Join l " " +:+ "]"
  | IInts l => "[" +:+ Join ((λ z, bad_verb "int" (Itoa z)) <$> l) " " +:+ "]"
  | ISlice l => "[" +:+ Join ((fix go (l : list iface) :=
      match l with [] => [] | v :: l' => Sprintf_s v :: go l' end) l) " " +:+ "]"
  | IMap m => "map[" +:+ Join ((λ kv, kv.1 +:+ ":" +:+ kv.2)
      <$> foldr (λ kv, insert_key kv.1 kv.2) [] ((fix go (m : list (string * iface)) :=
      match m with [] => [] | (k, v) :: m' => (k, Sprintf_s v) :: go m' end) m)) " " +:+ "]"
  end.
End marshal.

Example floats_print :
  (Sprint_float (MkFloat false "1" 7), Sprint_float (MkFloat true "15" 1), json_float (MkFloat false "1" 7),
   Sprint_float (MkFloat false "" 0), Sprint_float (MkFloat false "5" (-1)), json_float (MkFloat false "25" (-7)),
   Sprint_float (MkFloat false "123456" 6))
  = ("1e+06", "-1.5", "1000000", "0", "0.05", "2.5e-8", "123456").
Proof. by vm_compute. Qed.

Example json_prints :
  let _ := ascii_tables in
  json_marshal (IMap [("b", ISlice [IBool true; INil; IStr "<x>"]); ("a", IInt 3)])
  = requote "{`a`:3,`b`:[true,null,`\u003cx\u003e`]}".
Proof. by vm_compute. Qed.
