(* ===== verification/Formatters.v ===== *)
(** * PostgreSQL array literals: adapters/postgres/formatters/formatters.go *)

From S2P Require Import Prelude GoStrings SqlLex Http.

Definition bslash : string := byte_str 92.

Fixpoint FormatArray (value : iface) : string :=
  let check (aux elem : string) : string := (if String.eqb aux "" then aux else aux +:+ ",") +:+ elem in
  let str (s : string) : string :=
    let aux := ReplaceAll s bslash (bslash +:+ bslash) in
    let aux := ReplaceAll aux dq (bslash +:+ dq) in
    dq +:+ aux +:+ dq in
  let wrap (elems : list string) : string := "{" +:+ foldl check "" elems +:+ "}" in
  match value with
  | IStringers l => wrap (str <$> l)
  | ISlice l => wrap ((fix go (l : list iface) :=
      match l with [] => [] | v :: l' => FormatArray v :: go l' end) l)
  | IStrs l => wrap (str <$> l)
  | IInts l => wrap (Itoa <$> l)
  | IStr s => str s
  | IInt z => Itoa z
  | IStringer s => str s
  | INil | IBool _ | IFloat _ | IMap _ => ""
  end.

(** ** Specification: reading an array literal

    PostgreSQL's reading of a one-dimensional array of quoted elements: a
    backslash escapes the byte after it, commas separate, braces enclose. *)
Inductive astate := AOpen | AStart | AElem (acc : string) | AEsc (acc : string) | AAfter | ADone.

Definition array_step (st : astate) (c : ascii) : option (list string * astate) :=
  match st with
  | AOpen =>
      if Ascii.eqb c dqc then Some ([], AElem "")
      else if Ascii.eqb c "}" then Some ([], ADone) else None
  | AStart => if Ascii.eqb c dqc then Some ([], AElem "") else None
  | AElem a =>
      if Ascii.eqb c "\" then Some ([], AEsc a)
      else if Ascii.eqb c dqc then Some ([a], AAfter)
      else Some ([], AElem (a +:+ String c ""))
  | AEsc a => Some ([], AElem (a +:+ String c ""))
  | AAfter =>
      if Ascii.eqb c "," then Some ([], AStart)
      else if Ascii.eqb c "}" then Some ([], ADone) else None
  | ADone => None
  end.

Fixpoint array_run (st : astate) (s : string) : option (list string * astate) :=
  match s with
  | "" => Some ([], st)
  | String c s' =>
      '(t, st') ← array_step st c; '(t', st'') ← array_run st' s'; Some (t ++ t', st'')
  end.

Definition read_array (s : string) : option (list string) :=
  match s with
  | String "{" s' =>
      match array_run AOpen s' with Some (t, ADone) => Some t | _ => None end
  | _ => None
  end.

(** ** Lemmas *)

Definition escape_elem (s : string) : string :=
  ReplaceAll (ReplaceAll s bslash (bslash +:+ bslash)) dq (bslash +:+ dq).

Lemma escape_elem_cons c s :
  escape_elem (String c s) =
  (if Ascii.eqb c "\" then bslash +:+ bslash
   else if Ascii.eqb c dqc then bslash +:+ dq else String c "") +:+ escape_elem s.
Proof.
  unfold escape_elem, bslash, dq, byte_str. rw ReplaceAll1_cons.
  change (ascii_of_N 92) with "\"%char. rw (Ascii.eqb_sym c "\"%char).
  destruct (Ascii.eqb_spec "\" c) as [<-|Hne].
  - cbn [String.append]. rw !ReplaceAll1_cons. done.
  - cbn [String.append]. rw ReplaceAll1_cons (Ascii.eqb_sym c dqc). by destruct (Ascii.eqb dqc c).
Qed.

Lemma array_run_app st a b :
  array_run st (a +:+ b) =
  '(t, st') ← array_run st a; '(t', st'') ← array_run st' b; Some (t ++ t', st'').
Proof.
  revert st; induction a as [|c a IH]; intros st; cbn.
  - by destruct (array_run st b) as [[??]|].
  - destruct (array_step st c) as [[t st1]|]; cbn; [|done].
    rw IH. destruct (array_run st1 a) as [[t1 st2]|]; cbn; [|done].
    destruct (array_run st2 b) as [[t2 st3]|]; cbn; [|done]. by rw app_assoc.
Qed.

Lemma array_run_elem acc s :
  array_run (AElem acc) (escape_elem s) = Some ([], AElem (acc +:+ s)).
Proof.
  revert acc; induction s as [|c s IH]; intros acc; [by cbn; rw sapp_nil_r|].
  rw escape_elem_cons array_run_app.
  assert (array_run (AElem acc)
    (if Ascii.eqb c "\" then bslash +:+ bslash
     else if Ascii.eqb c dqc then bslash +:+ dq else String c "")
    = Some ([], AElem (acc +:+ String c ""))) as ->.
  { destruct (Ascii.eqb_spec c "\") as [->|H1]; [done|].
    destruct (Ascii.eqb_spec c dqc) as [->|H2]; [done|].
    cbn. by rw !(proj2 (Ascii.eqb_neq _ _)). }
  cbn. rw IH. cbn. by rw sapp_assoc.
Qed.

Lemma array_run_quoted st s :
  st = AOpen ∨ st = AStart → array_run st (dq +:+ escape_elem s +:+ dq) = Some ([s], AAfter).
Proof. by intros [->| ->]; cbn; rw array_run_app array_run_elem. Qed.

(** The comma-joining loop, from a non-empty accumulator. *)
Definition join_elem (aux elem : string) : string :=
  (if String.eqb aux "" then aux else aux +:+ ",") +:+ elem.

Lemma array_run_join st l acc t :
  acc ≠ "" → array_run st acc = Some (t, AAfter) →
  array_run st (foldl join_elem acc ((λ s, dq +:+ escape_elem s +:+ dq) <$> l) +:+ "}")
  = Some (t ++ l, ADone).
Proof.
  revert acc t; induction l as [|s l IH]; intros acc t Hne Hrun; cbn [fmap list_fmap foldl].
  - rw array_run_app Hrun. cbn. by rw app_nil_r.
  - rw (IH _ (t ++ [s])); [by destruct acc| |by rw -app_assoc].
    unfold join_elem. rw (proj2 (String.eqb_neq _ _)); [done|].
    rw sapp_assoc array_run_app Hrun. cbn [mbind option_bind].
    rw (array_run_app AAfter ","). cbn [array_run array_step mbind option_bind Ascii.eqb Bool.eqb].
    rw array_run_quoted; [by right|done].
Qed.

(** ** Properties *)

(** [FormatArray] round-trips through PostgreSQL's array input: a slice of
    strings, given as [[]string], as [[]interface{}] or as [[]fmt.Stringer],
    reads back as the same strings, whatever quotes, backslashes, commas or
    braces they contain. *)
Theorem FormatArray_strings l :
  read_array (FormatArray (IStrs l)) = Some l ∧
  read_array (FormatArray (ISlice (IStr <$> l))) = Some l ∧
  read_array (FormatArray (IStringers l)) = Some l.
Proof.
  assert (read_array ("{" +:+ foldl join_elem "" ((λ s, dq +:+ escape_elem s +:+ dq) <$> l) +:+ "}")
          = Some l) as H.
  { destruct l as [|s l]; [done|]. cbn [fmap list_fmap foldl].
    pose proof (array_run_join AOpen l (dq +:+ escape_elem s +:+ dq) [s]) as Hr.
    rw array_run_quoted in Hr; [by left|]. specialize (Hr ltac:(done) eq_refl).
    unfold read_array. cbn [String.append]. change (join_elem "" ?x) with x.
    by rw Hr. }
  assert (∀ l, (fix go (l : list iface) :=
    match l with [] => [] | v :: l' => FormatArray v :: go l' end) (IStr <$> l)
    = (λ s, dq +:+ escape_elem s +:+ dq) <$> l) as Hgo.
  { induction l0 as [|s l0 IH]; [done|]. cbn. by f_equal. }
  split_and!; [exact H| |exact H]. cbn [FormatArray]. by rw Hgo.
Qed.

(** The elements of a JSON array are [float64] values, which no case of
    [FormatArray] formats: an array of JSON numbers, booleans or nulls is
    stored as the empty array literal, whatever its length. *)
Theorem FormatArray_drops_scalars l :
  Forall (λ v, match v with IFloat _ | IBool _ | INil => True | _ => False end) l →
  FormatArray (ISlice l) = "{}".
Proof.
  intros Hl. cbn [FormatArray].
  assert ((fix go (l : list iface) :=
    match l with [] => [] | v :: l' => FormatArray v :: go l' end) l = replicate (length l) "") as ->.
  { induction Hl as [|v l Hv _ IH]; [done|]. cbn. rw IH. by destruct v. }
  by induction (length l).
Qed.

Lemma FormatArray_drops_scalars_witness :
  FormatArray (ISlice [IFloat (MkFloat false "1" 1); IFloat (MkFloat false "25" 2); IBool true]) = "{}".
Proof. apply FormatArray_drops_scalars. by repeat constructor. Defined.
