(* ===== verification/Filters.v ===== *)
(** * Tenant filters: adapters/postgres/userfilter.go and workspacefilter.go

    Which filter column applies to a request, and which identity it carries. *)

From S2P Require Import Prelude GoStrings SqlLex Ident Config Http.

(** ** The lookups *)

(** The database, schema and table of [/{database}/{schema}/{table}...]. *)
Definition path_parts (path : string) : option (string * string * string) :=
  match Split (TrimPrefix path "/") "/" with
  | d :: s :: t :: _ => Some (d, s, t)
  | _ => None
  end.

Definition user_filter_matches (d s t : string) (f : UserFilterConfig) : bool :=
  String.eqb (uf_Database f) d && (String.eqb (uf_Schema f) "" || String.eqb (uf_Schema f) s)
  && String.eqb (uf_Table f) t && negb (String.eqb (uf_Column f) "").

Definition ResolveUserIDColumn (PrestConf : Prest) (r : Request) : string :=
  match UserIDFilters PrestConf with
  | [] => ""
  | fs =>
      match path_parts (Path r) with
      | None => ""
      | Some (d, s, t) =>
          match find (user_filter_matches d s t) fs with
          | Some f => uf_Column f
          | None => ""
          end
      end
  end.

Definition UserIDFromContext (r : Request) : string := default "" (UserIDKey (Ctx r)).

Definition compat_matches (d s t : string) (f : TenantCompatConfig) : bool :=
  String.eqb (tc_Database f) d && (String.eqb (tc_Schema f) "" || String.eqb (tc_Schema f) s)
  && String.eqb (tc_Table f) t
  && negb (String.eqb (tc_UserColumn f) "") && negb (String.eqb (tc_TenantColumn f) "").

Definition ResolveTenantCompat (PrestConf : Prest) (r : Request) : option TenantCompatConfig :=
  match TenantCompatFilters PrestConf with
  | [] => None
  | fs =>
      match path_parts (Path r) with
      | None => None
      | Some (d, s, t) => find (compat_matches d s t) fs
      end
  end.

Definition TenantIDActiveFromContext (r : Request) : string :=
  default "" (TenantIDActiveKey (Ctx r)).

(** The columns a configuration names are identifiers. *)
Definition columns_valid (PrestConf : Prest) : Prop :=
  Forall (λ f, uf_Column f = "" ∨ IsValid (uf_Column f) = true) (UserIDFilters PrestConf) ∧
  Forall (λ f, IsValid (tc_UserColumn f) = true ∧ IsValid (tc_TenantColumn f) = true)
    (TenantCompatFilters PrestConf).

(** ** Lemmas *)

Lemma ResolveUserIDColumn_cases cfg r :
  ResolveUserIDColumn cfg r = "" ∨
  ∃ d s t f, path_parts (Path r) = Some (d, s, t) ∧ f ∈ UserIDFilters cfg ∧
    user_filter_matches d s t f = true ∧ ResolveUserIDColumn cfg r = uf_Column f.
Proof.
  unfold ResolveUserIDColumn. destruct (UserIDFilters cfg) as [|f0 fs]; [by left|].
  destruct (path_parts (Path r)) as [[[d s] t]|]; [|by left].
  destruct (find _ _) as [f|] eqn:E; [|by left]. right.
  apply find_some in E as [Hin Hm]. exists d, s, t, f. by rw list_elem_of_In.
Qed.

(** The test for an empty rule list changes nothing. *)
Lemma ResolveUserIDColumn_find cfg r :
  ResolveUserIDColumn cfg r =
  match path_parts (Path r) with
  | Some (d, s, t) =>
      match find (user_filter_matches d s t) (UserIDFilters cfg) with
      | Some f => uf_Column f
      | None => ""
      end
  | None => ""
  end.
Proof.
  unfold ResolveUserIDColumn.
  by destruct (UserIDFilters cfg), (path_parts (Path r)) as [[[d s] t]|].
Qed.

Lemma ResolveTenantCompat_Some cfg r f :
  ResolveTenantCompat cfg r = Some f →
  ∃ d s t, path_parts (Path r) = Some (d, s, t) ∧ f ∈ TenantCompatFilters cfg ∧
           compat_matches d s t f = true.
Proof.
  unfold ResolveTenantCompat. destruct (TenantCompatFilters cfg) as [|f0 fs]; [done|].
  destruct (path_parts (Path r)) as [[[d s] t]|]; [|done].
  intros [Hin Hm]%find_some. exists d, s, t. by rw list_elem_of_In.
Qed.

Lemma user_column_valid cfg r :
  columns_valid cfg → ResolveUserIDColumn cfg r ≠ "" →
  IsValid (ResolveUserIDColumn cfg r) = true.
Proof.
  intros [Hu _] Hne. destruct (ResolveUserIDColumn_cases cfg r) as [H|(d & s & t & f & _ & Hin & _ & Heq)].
  - done.
  - rw Forall_forall in Hu. rw Heq in Hne |- *. by destruct (Hu f Hin).
Qed.

Lemma compat_columns_valid cfg r f :
  columns_valid cfg → ResolveTenantCompat cfg r = Some f →
  IsValid (tc_UserColumn f) = true ∧ IsValid (tc_TenantColumn f) = true.
Proof.
  intros [_ Hc] (d & s & t & _ & Hin & _)%ResolveTenantCompat_Some.
  rw Forall_forall in Hc. by apply Hc.
Qed.

(** ** Properties *)

(** For a request whose path names database [d], schema [s] and table [t],
    [ResolveUserIDColumn] returns the column of the first rule for that table
    whose schema is [s] or empty; a path with fewer than three segments, and a
    table no rule names, have no filter. *)
Theorem ResolveUserIDColumn_spec cfg r :
  match path_parts (Path r) with
  | None => ResolveUserIDColumn cfg r = ""
  | Some (d, s, t) =>
      (∀ fs1 f fs2, UserIDFilters cfg = fs1 ++ f :: fs2 →
         Forall (λ g, user_filter_matches d s t g = false) fs1 →
         user_filter_matches d s t f = true →
         ResolveUserIDColumn cfg r = uf_Column f) ∧
      (Forall (λ g, user_filter_matches d s t g = false) (UserIDFilters cfg) →
         ResolveUserIDColumn cfg r = "")
  end.
Proof.
  rw ResolveUserIDColumn_find. destruct (path_parts (Path r)) as [[[d s] t]|]; [|done]. split.
  - intros fs1 f fs2 -> Hall Hf. induction Hall as [|g gs Hg _ IH]; cbn; [by rw Hf|by rw Hg].
  - induction 1 as [|g gs Hg _ IH]; cbn; [done|by rw Hg].
Qed.

(** A rule with an empty schema matches every schema, but the overlap
    check compares schemas literally: there is a configuration that
    [ValidateTenantCompat] accepts in which one request is subject to both a
    user-id filter and a tenant filter. *)
Theorem overlap_check_misses_wildcard :
  ∃ cfg r f, ValidateTenantCompat cfg = Val tt ∧
    ResolveTenantCompat cfg r = Some f ∧ ResolveUserIDColumn cfg r ≠ "".
Proof.
  exists (set_UserIDFilters [MkUserFilter "db" "" "notes" "user_id"]
    (set_TenantCompatFilters [MkTenantCompat "db" "public" "notes" "user_id" "tenant_id"] zero_Prest)),
    (MkRequest "GET" "/db/public/notes" "/db/public/notes" ∅ ∅ empty_context ∅),
    (MkTenantCompat "db" "public" "notes" "user_id" "tenant_id").
  split_and!; by vm_compute.
Qed.
