(* ===== verification/Where.v ===== *)
(** * WHERE clauses: adapters/postgres/postgres.go

    [WhereByRequest] turns the query parameters of a request, and the identity
    in its context, into the conjunction of a WHERE clause and the values of
    its positional parameters. *)

From S2P Require Import Prelude GoStrings Regexp SqlLex Ident Config Http Formatters Filters.

(** ** Errors: adapters/postgres/errors.go *)

Definition ErrJoinInvalidNumberOfArgs : error := "invalid number of arguments in join statement".
Definition ErrInvalidIdentifier : error := "invalid identifier".
Definition ErrInvalidJoinClause : error := "invalid join clause".
Definition ErrMustSelectOneField : error := "you must select at least one field".
Definition ErrNoTableName : error := "unable to find table name".
Definition ErrInvalidOperator : error := "invalid operator".
Definition ErrInvalidGroupFn : error := "invalid group function".
Definition ErrBodyEmpty : error := "body is empty".
Definition ErrEmptyOrInvalidSlice : error := "empty or invalid slice".

(** ** Operators *)

(** The regex [\$[a-z]+.] *)
Definition removeOperatorRegex : regex := RCat (lit 36) (RCat (RPlus true (RSet az)) any_rune).

(** The cases of the switch of [GetQueryOperator], in its order. *)
Definition operator_table : list (string * string) := [
  ("eq", "="); ("ne", "!="); ("gt", ">"); ("gte", ">="); ("lt", "<"); ("lte", "<=");
  ("in", "IN"); ("nin", "NOT IN"); ("any", "ANY"); ("some", "SOME"); ("all", "ALL");
  ("notnull", "IS NOT NULL"); ("null", "IS NULL"); ("true", "IS TRUE");
  ("nottrue", "IS NOT TRUE"); ("false", "IS FALSE"); ("notfalse", "IS NOT FALSE");
  ("like", "LIKE"); ("ilike", "ILIKE"); ("nlike", "NOT LIKE"); ("nilike", "NOT ILIKE");
  ("ltreelanc", "@>"); ("ltreerdesc", "<@"); ("ltreematch", "~"); ("ltreematchtxt", "@")].

Definition assoc (k : string) (l : list (string * string)) : option string :=
  snd <$> find (λ p, String.eqb p.1 k) l.

Definition GetQueryOperator (op : string) : gores string :=
  let op := ReplaceAll op "$" "" in
  let op := ReplaceAll op " " "" in
  match assoc op operator_table with
  | Some o => Val o
  | None => Err ErrInvalidOperator
  end.

Definition is_in (op : string) : bool := String.eqb op "IN" || String.eqb op "NOT IN".
Definition is_quantifier (op : string) : bool :=
  String.eqb op "ANY" || String.eqb op "SOME" || String.eqb op "ALL".
Definition is_test (op : string) : bool :=
  existsb (String.eqb op)
    ["IS NULL"; "IS NOT NULL"; "IS TRUE"; "IS NOT TRUE"; "IS FALSE"; "IS NOT FALSE"].

(** ** Splitting an [_or] group *)

(** [unicode.IsSpace] of one byte taken as a rune. *)
Definition isWhitespace (b : ascii) : bool := IsSpace (bval b).

(** The two bytes at the cursor are [||]. *)
Definition isTopLevelLegacySeparator (s : string) : bool :=
  match s with String "|" (String "|" _) => true | _ => false end.

(** [strings.EqualFold] with OR, white space after it, and white space or the
    start of the text before it; [prev] is the byte before the cursor. *)
Definition isTopLevelOrSeparator (prev : option ascii) (s : string) : bool :=
  match s with
  | String o (String r rest) =>
      if negb ((Ascii.eqb o "O" || Ascii.eqb o "o") && (Ascii.eqb r "R" || Ascii.eqb r "r"))
      then false
      else if match prev with Some p => negb (isWhitespace p) | None => false end then false
      else match rest with
           | "" => false
           | String w _ => isWhitespace w
           end
  | _ => false
  end.

(** [flush]: the parts with the current one added, unless it is blank. *)
Definition flush (cur : string) (parts : list string) : list string :=
  let part := TrimSpace cur in
  match part with "" => parts | _ => parts ++ [part] end.

Fixpoint skip_whitespace (prev : option ascii) (s : string) : option ascii * string :=
  match s with
  | String c s' => if isWhitespace c then skip_whitespace (Some c) s' else (prev, s)
  | "" => (prev, s)
  end.

(** The scanning loop: [s] is the text from the cursor on, [prev] the byte
    before it.  [fuel] bounds the number of iterations. *)
Fixpoint split_loop (fuel : nat) (prev : option ascii) (s : string)
    (inSingleQuote inDoubleQuote : bool) (current : string) (parts : list string)
  : option (list string) :=
  match fuel with
  | O => None
  | S f =>
      match s with
      | "" => Some (flush current parts)
      | String ch s1 =>
          let current' := current +:+ String ch "" in
          if inSingleQuote then
            if Ascii.eqb ch sq then
              match s1 with
              | String ch2 s2 =>
                  if Ascii.eqb ch2 sq
                  then split_loop f (Some ch2) s2 true inDoubleQuote (current' +:+ String ch2 "") parts
                  else split_loop f (Some ch) s1 false inDoubleQuote current' parts
              | "" => split_loop f (Some ch) s1 false inDoubleQuote current' parts
              end
            else split_loop f (Some ch) s1 true inDoubleQuote current' parts
          else if inDoubleQuote then
            if Ascii.eqb ch dqc then
              match s1 with
              | String ch2 s2 =>
                  if Ascii.eqb ch2 dqc
                  then split_loop f (Some ch2) s2 false true (current' +:+ String ch2 "") parts
                  else split_loop f (Some ch) s1 false false current' parts
              | "" => split_loop f (Some ch) s1 false false current' parts
              end
            else split_loop f (Some ch) s1 false true current' parts
          else if isTopLevelLegacySeparator s then
            split_loop f (Some "|"%char) (drop_bytes 2 s) false false "" (flush current parts)
          else if Ascii.eqb ch sq then split_loop f (Some ch) s1 true false current' parts
          else if Ascii.eqb ch dqc then split_loop f (Some ch) s1 false true current' parts
          else if isTopLevelOrSeparator prev s then
            let '(prev', rest) := skip_whitespace (head (String.list_ascii_of_string s1)) (drop_bytes 2 s) in
            split_loop f prev' rest false false "" (flush current parts)
          else split_loop f (Some ch) s1 false false current' parts
      end
  end.

Definition splitTopLevelOrGroup (v : string) : list string :=
  default [] (split_loop (S (slen v)) None v false false "" []).

(** ** One condition *)

Definition ph (n : Z) : string := "$" +:+ Itoa n.

(** The placeholders [$pid, $(pid+1), ...] of the [n] members of an IN list. *)
Fixpoint ph_list (pid : Z) (n : nat) : list string :=
  match n with O => [] | S n' => ph pid :: ph_list (pid + 1) n' end.

(** The part of [whereKeyAndValue] common to plain and JSON columns: [left] is
    the column expression. *)
Definition comparison (left op value : string) (pid : Z) : string * list iface * Z :=
  if is_in op then
    let v := Split value "," in
    (left +:+ " " +:+ op +:+ " (" +:+ Join (ph_list pid (length v)) "," +:+ ")",
     IStr <$> v, (pid + Z.of_nat (length v))%Z)
  else if is_quantifier op then
    (left +:+ " = " +:+ op +:+ " (" +:+ ph pid +:+ ")",
     [IStr (FormatArray (IStrs (Split value ",")))], (pid + 1)%Z)
  else if is_test op then (left +:+ " " +:+ op, [], pid)
  else (left +:+ " " +:+ op +:+ " " +:+ ph pid, [IStr value], (pid + 1)%Z).

(** A dotted path with its segments quoted. *)
Definition quote_path (path : string) : string :=
  dq +:+ Join (Split path ".") (dq +:+ "." +:+ dq) +:+ dq.

Definition json_condition (field op value : string) (pid : Z) : gores (string * list iface * Z) :=
  match Split field "->>" with
  | [col; attr] =>
      if negb (IsValid col) || negb (IsValid attr)
      then Err (Wrapf ErrInvalidIdentifier ("[" +:+ col +:+ " " +:+ attr +:+ "]"))
      else
        let safeAttr := ReplaceAll attr "'" "''" in
        let jsonLeft := quote_path col +:+ "->>'" +:+ safeAttr +:+ "'" in
        Val (comparison jsonLeft op value pid)
  | jsonField => Err (Wrapf ErrInvalidIdentifier ("[" +:+ Join jsonField " " +:+ "]"))
  end.

Definition tsquery_condition (field value : string) (pid : Z) : gores (string * list iface * Z) :=
  let tsQueryField := Split field "$" in
  let f0 := default "" (tsQueryField !! 0) in
  if negb (IsValid f0) then Err (Wrapf ErrInvalidIdentifier f0)
  else
    let safeVal := ReplaceAll value "'" "''" in
    match tsQueryField with
    | [_; cfg] =>
        if negb (IsValid cfg) then Err (Wrapf ErrInvalidIdentifier cfg)
        else
          let safeCfg := ReplaceAll cfg "'" "''" in
          Val (f0 +:+ " @@ to_tsquery('" +:+ safeCfg +:+ "', '" +:+ safeVal +:+ "')", [], pid)
    | _ => Val (f0 +:+ " @@ to_tsquery('" +:+ safeVal +:+ "')", [], pid)
    end.

Definition whereKeyAndValue (rawKey v : string) (pid : Z) : gores (string * list iface * Z) :=
  match v with
  | "" => Err ErrInvalidOperator
  | _ =>
      let op := ReplaceAll (FindString removeOperatorRegex v) "." "" in
      let op := match op with "" => "$eq" | _ => op end in
      let value := ReplaceAllString removeOperatorRegex v "" in
      op ← GetQueryOperator op;
      match Split rawKey ":" with
      | k0 :: kind :: _ =>
          if String.eqb kind "jsonb" then json_condition k0 op value pid
          else if String.eqb kind "tsquery" then tsquery_condition k0 value pid
          else if negb (IsValid k0) then Err (Wrapf ErrInvalidIdentifier k0)
          else Err ("unknown type suffix: " +:+ kind)
      | _ =>
          if negb (IsValid rawKey) then Err (Wrapf ErrInvalidIdentifier rawKey)
          else Val (comparison (quote_path rawKey) op value pid)
      end
  end.

(** ** The whole clause *)

(** The local variables of [WhereByRequest]. *)
Record WState := MkW {
  whereKey : list string;
  whereValues : list iface;
  orClauses : list string;
  wpid : Z
}.

(** The filters the request context injects, in front of everything else. *)
Definition tenant_filter (PrestConf : Prest) (r : Request) (pid : Z) : WState :=
  match ResolveTenantCompat PrestConf r with
  | None =>
      let uid := UserIDFromContext r in
      let col := ResolveUserIDColumn PrestConf r in
      if String.eqb uid "" || String.eqb col "" then MkW [] [] [] pid
      else MkW [quoted col +:+ " = " +:+ ph pid] [IStr uid] [] (pid + 1)
  | Some compat =>
      let wsCol := quoted (tc_TenantColumn compat) in
      let usrCol := quoted (tc_UserColumn compat) in
      let ws := TenantIDActiveFromContext r in
      let uid := UserIDFromContext r in
      if negb (String.eqb ws "") then
        MkW [wsCol +:+ " = " +:+ ph pid] [IStr ws] [] (pid + 1)
      else if negb (String.eqb uid "") then
        MkW [usrCol +:+ " = " +:+ ph pid; wsCol +:+ " IS NULL"] [IStr uid] [] (pid + 1)
      else MkW [] [] [] pid
  end.

(** One value of an ordinary parameter. *)
Definition where_value (key : string) (st : WState) (v : string) : gores WState :=
  '(k, vls, pid) ← whereKeyAndValue key v (wpid st);
  if String.eqb k "" then Val (MkW (whereKey st) (whereValues st) (orClauses st) pid)
  else Val (MkW (whereKey st ++ [k]) (whereValues st ++ vls) (orClauses st) pid).

(** One part of an [_or] group: [field=condition]. *)
Definition or_part (st : WState) (part : string) : gores WState :=
  let part := TrimSpace part in
  match part with
  | "" => Val st
  | _ =>
      match Index part "=" with
      | None | Some O => Val st
      | Some pos =>
          let field := take_bytes pos part in
          let condition := drop_bytes (pos + 1) part in
          '(k, vls, pid) ← whereKeyAndValue field condition (wpid st);
          if String.eqb k "" then Val (MkW (whereKey st) (whereValues st) (orClauses st) pid)
          else Val (MkW (whereKey st) (whereValues st ++ vls) (orClauses st ++ [k]) pid)
      end
  end.

Definition or_value (st : WState) (v : string) : gores WState :=
  let v := TrimSpace v in
  match v with
  | "" => Val st
  | _ => foldE or_part st (splitTopLevelOrGroup v)
  end.

(** One query parameter with all its values. *)
Definition where_entry (st : WState) (kv : string * list string) : gores WState :=
  let '(key, val) := kv in
  if negb (HasPrefix key "_") then foldE (where_value key) st val
  else if String.eqb key "_or" then foldE or_value st val
  else Val st.

(** The final loop that joins the conjuncts. *)
Definition and_join (keys : list string) : string :=
  foldl (λ whereSyntax k,
    if String.eqb whereSyntax "" then whereSyntax +:+ k else whereSyntax +:+ " AND " +:+ k) "" keys.

Definition or_group (clauses : list string) : string := "(" +:+ Join clauses " OR " +:+ ")".

Section where_.
Context `{MapRange}.

Definition WhereByRequest (PrestConf : Prest) (r : Request) (initialPlaceholderID : Z)
  : gores (string * list iface) :=
  st ← foldE where_entry (tenant_filter PrestConf r initialPlaceholderID) (map_range (Query r));
  let keys := match orClauses st with
              | [] => whereKey st
              | ors => whereKey st ++ [or_group ors]
              end in
  Val (and_join keys, whereValues st).
End where_.
