(* ===== verification/WhereSpec.v ===== *)
(** * What a WHERE clause means

    A specification of [Where]: the abstract predicates a query parameter
    stands for, how they are printed and how they read back in SQL, and the
    refinement of [whereKeyAndValue] and [WhereByRequest] to it. *)

From S2P Require Import Prelude GoStrings Regexp SqlLex Ident Config Http Formatters Filters Where.

(** ** Abstract predicates *)

Inductive column :=
| CPath (path : list string)                   (* a quoted dotted path *)
| CJson (path : list string) (attr : string).  (* an attribute of a jsonb column *)

Inductive predicate :=
| PCmp (c : column) (op : string)              (* a comparison with one parameter *)
| PIn (c : column) (op : string) (n : nat)     (* membership in [n] parameters *)
| PQuant (c : column) (op : string)            (* equality with ANY, SOME or ALL of an array *)
| PTest (c : column) (op : string)             (* IS NULL and the like *)
| PTs (f : string) (cfg : option string) (query : string).  (* full text search *)

Definition arity (p : predicate) : nat :=
  match p with PCmp _ _ | PQuant _ _ => 1 | PIn _ _ n => n | PTest _ _ | PTs _ _ _ => 0 end.

Definition column_ok (c : column) : Prop :=
  match c with
  | CPath ps => ps ≠ [] ∧ Forall valid_part ps
  | CJson ps a => ps ≠ [] ∧ Forall valid_part ps ∧ IsValid a = true
  end.

Definition operators : list string := operator_table.*2.

Definition pred_ok (p : predicate) : Prop :=
  match p with
  | PCmp c op | PIn c op _ | PQuant c op | PTest c op => column_ok c ∧ op ∈ operators
  | PTs f cfg _ => IsValid f = true ∧ from_option (λ c, IsValid c = true) True cfg
  end.

(** The text of a predicate whose first parameter is [$pid]. *)
Definition column_text (c : column) : string :=
  match c with
  | CPath ps => dq +:+ Join ps (dq +:+ "." +:+ dq) +:+ dq
  | CJson ps a => (dq +:+ Join ps (dq +:+ "." +:+ dq) +:+ dq) +:+ "->>'" +:+ ReplaceAll a "'" "''" +:+ "'"
  end.

Definition pred_text (pid : Z) (p : predicate) : string :=
  match p with
  | PCmp c op => column_text c +:+ " " +:+ op +:+ " " +:+ ph pid
  | PIn c op n => column_text c +:+ " " +:+ op +:+ " (" +:+ Join (ph_list pid n) "," +:+ ")"
  | PQuant c op => column_text c +:+ " = " +:+ op +:+ " (" +:+ ph pid +:+ ")"
  | PTest c op => column_text c +:+ " " +:+ op
  | PTs f (Some cfg) q =>
      f +:+ " @@ to_tsquery('" +:+ ReplaceAll cfg "'" "''" +:+ "', '" +:+ ReplaceAll q "'" "''" +:+ "')"
  | PTs f None q => f +:+ " @@ to_tsquery('" +:+ ReplaceAll q "'" "''" +:+ "')"
  end.

(** The tokens it reads as. *)
Definition column_tokens (c : column) : list token :=
  match c with
  | CPath ps => dotted ps
  | CJson ps a => dotted ps ++ chars "->>" ++ [TStr a]
  end.

(** [n] consecutive numbers. *)
Fixpoint ids (start : N) (n : nat) : list N :=
  match n with O => [] | S n' => start :: ids (start + 1) n' end.

Fixpoint commas (ns : list N) : list token :=
  match ns with [] => [] | [n] => [TPh n] | n :: ns' => TPh n :: TCh "," :: commas ns' end.

Definition pred_tokens (pid : N) (p : predicate) : list token :=
  match p with
  | PCmp c op => column_tokens c ++ chars (" " +:+ op +:+ " ") ++ [TPh pid]
  | PIn c op n =>
      column_tokens c ++ chars (" " +:+ op +:+ " ") ++ TCh "(" :: commas (ids pid n) ++ [TCh ")"%char]
  | PQuant c op =>
      column_tokens c ++ chars (" = " +:+ op +:+ " ") ++ TCh "(" :: [TPh pid] ++ [TCh ")"%char]
  | PTest c op => column_tokens c ++ chars (" " +:+ op)
  | PTs f (Some cfg) q =>
      chars (f +:+ " @@ to_tsquery") ++ TCh "(" :: ([TStr cfg] ++ chars ", " ++ [TStr q]) ++ [TCh ")"%char]
  | PTs f None q => chars (f +:+ " @@ to_tsquery") ++ TCh "(" :: [TStr q] ++ [TCh ")"%char]
  end.

(** ** What a parameter means *)

Definition parse_comparison (c : column) (op value : string) : predicate * list iface :=
  if is_in op then (PIn c op (length (Split value ",")), IStr <$> Split value ",")
  else if is_quantifier op then (PQuant c op, [IStr (FormatArray (IStrs (Split value ",")))])
  else if is_test op then (PTest c op, [])
  else (PCmp c op, [IStr value]).

Definition parse_param (rawKey v : string) : gores (predicate * list iface) :=
  match v with
  | "" => Err ErrInvalidOperator
  | _ =>
      let op := ReplaceAll (FindString removeOperatorRegex v) "." "" in
      let op := match op with "" => "$eq" | _ => op end in
      let value := ReplaceAllString removeOperatorRegex v "" in
      op ← GetQueryOperator op;
      match Split rawKey ":" with
      | [_] =>
          if IsValid rawKey then Val (parse_comparison (CPath (Split rawKey ".")) op value)
          else Err (Wrapf ErrInvalidIdentifier rawKey)
      | k0 :: kind :: _ =>
          if String.eqb kind "jsonb" then
            match Split k0 "->>" with
            | [col; attr] =>
                if IsValid col && IsValid attr
                then Val (parse_comparison (CJson (Split col ".") attr) op value)
                else Err (Wrapf ErrInvalidIdentifier ("[" +:+ col +:+ " " +:+ attr +:+ "]"))
            | fs => Err (Wrapf ErrInvalidIdentifier ("[" +:+ Join fs " " +:+ "]"))
            end
          else if String.eqb kind "tsquery" then
            match Split k0 "$" with
            | f :: fs =>
                if negb (IsValid f) then Err (Wrapf ErrInvalidIdentifier f)
                else match fs with
                     | [cfg] => if IsValid cfg then Val (PTs f (Some cfg) value, [])
                                else Err (Wrapf ErrInvalidIdentifier cfg)
                     | _ => Val (PTs f None value, [])
                     end
            | [] => Err ""
            end
          else if negb (IsValid k0) then Err (Wrapf ErrInvalidIdentifier k0)
          else Err ("unknown type suffix: " +:+ kind)
      | [] => Err ""
      end
  end.

(** ** Lemmas: one predicate *)

Lemma ph_list_length pid n : length (ph_list pid n) = n.
Proof. revert pid; induction n as [|n IH]; intros pid; cbn; by rw ?IH. Qed.

Lemma comparison_parse c op value pid :
  comparison (column_text c) op value pid =
  let '(p, vs) := parse_comparison c op value in
  (pred_text pid p, vs, (pid + Z.of_nat (length vs))%Z).
Proof.
  unfold comparison, parse_comparison.
  destruct (is_in op); [by cbn; rw length_fmap|].
  destruct (is_quantifier op); [done|].
  destruct (is_test op); [cbn; by rw Z.add_0_r|done].
Qed.

Lemma whereKeyAndValue_parse rawKey v pid :
  whereKeyAndValue rawKey v pid =
  '(p, vs) ← parse_param rawKey v;
  Val (pred_text pid p, vs, (pid + Z.of_nat (length vs))%Z).
Proof.
  unfold whereKeyAndValue, parse_param. destruct v as [|c v]; [done|].
  destruct (GetQueryOperator _) as [op| |]; cbn [mbind gores_bind]; try done.
  destruct (Split rawKey ":") as [|k0 [|kind ks]] eqn:Hk; [by apply Split_nonempty in Hk| |].
  - destruct (IsValid rawKey); cbn [negb mbind gores_bind]; [|done].
    unfold quote_path. change (dq +:+ Join (Split rawKey ".") (dq +:+ "." +:+ dq) +:+ dq)
      with (column_text (CPath (Split rawKey "."))).
    rw comparison_parse. by destruct (parse_comparison _ _ _).
  - destruct (String.eqb kind "jsonb").
    { unfold json_condition. destruct (Split k0 "->>") as [|col [|attr [|]]]; try done.
      rw -negb_andb. destruct (IsValid col && IsValid attr); cbn [negb]; [|done].
      cbn [mbind gores_bind]. unfold quote_path.
      change ((dq +:+ Join (Split col ".") (dq +:+ "." +:+ dq) +:+ dq) +:+ "->>'" +:+ ReplaceAll attr "'" "''" +:+ "'")
        with (column_text (CJson (Split col ".") attr)).
      rw comparison_parse. by destruct (parse_comparison _ _ _). }
    destruct (String.eqb kind "tsquery").
    { unfold tsquery_condition. destruct (Split k0 "$") as [|f fs] eqn:Hf; [by apply Split_nonempty in Hf|].
      cbn [lookup list_lookup default from_option id]. destruct (IsValid f); cbn [negb]; [|done].
      destruct fs as [|cfg [|]]; cbn; try by rw Z.add_0_r.
      destruct (IsValid cfg); cbn; by rw ?Z.add_0_r. }
    by destruct (IsValid k0).
Qed.

Lemma operators_facts op :
  op ∈ operators → plain op = true ∧ string_forall wordy_byte op = true.
Proof.
  assert (Forall (λ op, plain op = true ∧ string_forall wordy_byte op = true) operators) as H
    by (repeat constructor).
  rw Forall_forall in H. apply H.
Qed.

Lemma assoc_elem k l v : assoc k l = Some v → v ∈ l.*2.
Proof.
  unfold assoc. rw fmap_Some. intros ([k' v'] & [H _]%find_some & ->).
  apply list_elem_of_In in H. by apply (list_elem_of_fmap_2 snd) in H.
Qed.

Lemma GetQueryOperator_ok s op : GetQueryOperator s = Val op → op ∈ operators.
Proof.
  unfold GetQueryOperator. destruct (assoc _ _) eqn:E; [|done]. intros [= <-].
  by eapply assoc_elem.
Qed.

Lemma IsValid_path s : IsValid s = true → Split s "." ≠ [] ∧ Forall valid_part (Split s ".").
Proof. intros H. split; [apply Split_nonempty|by apply IsValid_parts]. Qed.

Lemma parse_comparison_ok c op value :
  column_ok c → op ∈ operators →
  pred_ok (parse_comparison c op value).1 ∧
  arity (parse_comparison c op value).1 = length (parse_comparison c op value).2.
Proof.
  intros Hc Hop. unfold parse_comparison.
  destruct (is_in op); [by cbn; rw length_fmap|].
  destruct (is_quantifier op); [done|]. by destruct (is_test op).
Qed.

(** A parameter that is accepted means a well-formed predicate, with as many
    values as it has parameters. *)
Lemma parse_param_ok k v p vs :
  parse_param k v = Val (p, vs) → pred_ok p ∧ arity p = length vs.
Proof.
  unfold parse_param. destruct v as [|c v]; [done|].
  rw bind_Val; intros (op & Hop%GetQueryOperator_ok & H). revert H.
  set (value := ReplaceAllString _ _ _).
  assert (∀ c, column_ok c → Val (parse_comparison c op value) = Val (p, vs) →
          pred_ok p ∧ arity p = length vs) as Hcmp.
  { intros c0 Hc0 [= E]. destruct (parse_comparison_ok c0 op value); auto. by rw E in H, H0. }
  destruct (Split k ":") as [|k0 [|kind ks]]; [done| |].
  - destruct (IsValid k) eqn:Hk; [|done]. apply Hcmp. by apply IsValid_path.
  - destruct (String.eqb kind "jsonb").
    { destruct (Split k0 "->>") as [|col [|attr [|]]]; try done.
      destruct (IsValid col) eqn:Hcol, (IsValid attr) eqn:Hattr; cbn [andb]; try done.
      apply Hcmp. apply IsValid_path in Hcol as [??]. done. }
    destruct (String.eqb kind "tsquery"); [|by destruct (IsValid k0)].
    destruct (Split k0 "$") as [|f fs]; [done|].
    destruct (IsValid f) eqn:Hf; cbn [negb]; [|done].
    destruct fs as [|cfg [|]]; [by intros [= <- <-]| |by intros [= <- <-]].
    destruct (IsValid cfg) eqn:Hcfg; [|done]. by intros [= <- <-].
Qed.

(** *** Reading a predicate back *)

Lemma valid_part_simple ps :
  Forall valid_part ps → Forall (λ p, simple_ident p = true) ps.
Proof. intros H. eapply Forall_impl; [exact H|]. by intros ? [? ?]. Qed.

Lemma lex_column c : column_ok c → lex (column_text c) = Some (column_tokens c).
Proof.
  destruct c as [ps|ps a]; cbn [column_ok column_text column_tokens].
  - intros [? ?]. by apply lex_dotted; [apply valid_part_simple|].
  - intros (? & ? & Ha). apply lex_app; [by apply lex_dotted; [apply valid_part_simple|]| |done].
    apply (lex_plain_app "->>"); [done|]. apply lex_quoted_str.
Qed.

Lemma lex_ph_Z pid : (0 ≤ pid)%Z → lex (ph pid) = Some [TPh (Z.to_N pid)].
Proof. intros H. unfold ph, Itoa. rw (proj2 (Z.ltb_ge _ _)); [done|]. apply lex_ph. Qed.

Lemma lex_commas pid n :
  (0 ≤ pid)%Z → lex (Join (ph_list pid n) ",") = Some (commas (ids (Z.to_N pid) n)).
Proof.
  revert pid; induction n as [|n IH]; intros pid Hp; [done|].
  destruct n as [|n]; [by apply lex_ph_Z|].
  change (ph_list pid (S (S n))) with (ph pid :: ph_list (pid + 1) (S n)).
  rw Join_cons; [done|].
  assert (Z.to_N pid + 1 = Z.to_N (pid + 1))%N as E by lia.
  change (commas (ids (Z.to_N pid) (S (S n))))
    with ([TPh (Z.to_N pid)] ++ chars "," ++ commas (ids (Z.to_N pid + 1) (S n))).
  apply lex_app; [by apply lex_ph_Z| |done].
  apply lex_plain_app; [done|]. rw E. apply IH. lia.
Qed.

Lemma plain_app a b : plain (a +:+ b) = plain a && plain b.
Proof. apply string_forall_app. Qed.

(** An operator between a column and what follows it. *)
Lemma lex_infix c pre op post s ts :
  column_ok c → plain (" " +:+ pre +:+ op +:+ post) = true → lex s = Some ts →
  lex (column_text c +:+ (" " +:+ pre) +:+ op +:+ post +:+ s)
  = Some (column_tokens c ++ chars (" " +:+ pre +:+ op +:+ post) ++ ts).
Proof.
  intros Hc Hop Hs. apply lex_app; [by apply lex_column| |done].
  rw (_ : (" " +:+ pre) +:+ op +:+ post +:+ s = (" " +:+ pre +:+ op +:+ post) +:+ s).
  { by rw !sapp_assoc. }
  by apply lex_plain_app.
Qed.

Lemma lex_call f s ts :
  plain f = true → lex s = Some ts →
  lex (f +:+ "(" +:+ s +:+ ")") = Some (chars f ++ TCh "(" :: ts ++ [TCh ")"%char]).
Proof. intros. by apply lex_plain_app, lex_paren. Qed.

Lemma lex_pred pid p :
  (0 ≤ pid)%Z → pred_ok p → lex (pred_text pid p) = Some (pred_tokens (Z.to_N pid) p).
Proof.
  intros Hp. destruct p as [c op|c op n|c op|c op|f [cfg|] q]; cbn [pred_ok pred_text pred_tokens].
  - intros [Hc [Hop _]%operators_facts].
    apply (lex_infix c "" op " "); [done|by rw !plain_app Hop|by apply lex_ph_Z].
  - intros [Hc [Hop _]%operators_facts].
    apply (lex_infix c "" op " "); [done|by rw !plain_app Hop|by apply lex_paren, lex_commas].
  - intros [Hc [Hop _]%operators_facts].
    apply (lex_infix c "= " op " "); [done|by rw !plain_app Hop|by apply lex_paren, lex_ph_Z].
  - intros [Hc [Hop _]%operators_facts]. apply lex_app; [by apply lex_column| |done].
    apply lex_plain. by rw plain_app Hop.
  - cbn [from_option]. intros [Hf%IsValid_plain Hcfg].
    pose proof (lex_quoted_str cfg) as H1. pose proof (lex_quoted_str q) as H2.
    rw (_ : f +:+ _ = (f +:+ " @@ to_tsquery") +:+ "(" +:+
      (("'" +:+ ReplaceAll cfg "'" "''" +:+ "'") +:+ (", " +:+
       ("'" +:+ ReplaceAll q "'" "''" +:+ "'"))) +:+ ")").
    { by rw !sapp_assoc. }
    apply lex_call; [by rw plain_app Hf|]. apply (lex_app _ _ [TStr cfg]); [done| |done].
    by apply (lex_plain_app ", ").
  - intros [Hf%IsValid_plain _].
    rw (_ : f +:+ _ = (f +:+ " @@ to_tsquery") +:+ "(" +:+
      ("'" +:+ ReplaceAll q "'" "''" +:+ "'") +:+ ")"); [by rw !sapp_assoc|].
    apply lex_call; [by rw plain_app Hf|]. apply lex_quoted_str.
Qed.

Lemma wordy_app a b : string_forall wordy_byte (a +:+ b) = string_forall wordy_byte a && string_forall wordy_byte b.
Proof. apply string_forall_app. Qed.

Lemma sealed_column c : sealed (column_tokens c).
Proof. destruct c; cbn [column_tokens]; [|apply sealed_app; [|apply (sealed_app (chars "->>"))]]; auto with sql. Qed.

Lemma sealed_commas ns : sealed (commas ns).
Proof. by induction ns as [|n [|m ns] IH]. Qed.

#[export] Hint Resolve sealed_column sealed_commas : sql.

Lemma sealed_pred n p : pred_ok p → sealed (pred_tokens n p).
Proof.
  destruct p as [c op|c op m|c op|c op|f [cfg|] q]; cbn [pred_ok pred_tokens];
    [intros [Hc [_ Hop]%operators_facts]..|intros [Hf _]|intros [Hf _]].
  all: repeat first [apply sealed_app | apply sealed_paren]; auto with sql.
  all: try (apply sealed_chars; rw !wordy_app ?Hop; try done).
  all: by rw IsValid_wordy.
Qed.

Lemma placeholders_column c : placeholders (column_tokens c) = [].
Proof. destruct c; cbn [column_tokens]; by rw ?placeholders_app ?placeholders_dotted. Qed.

Lemma placeholders_commas ns : placeholders (commas ns) = ns.
Proof.
  induction ns as [|n [|m ns] IH]; [done..|].
  change (placeholders (commas (n :: m :: ns))) with (n :: placeholders (commas (m :: ns))). by rw IH.
Qed.

(** The parameters of a predicate are consecutive. *)
Lemma placeholders_pred n p : placeholders (pred_tokens n p) = ids n (arity p).
Proof.
  destruct p as [c op|c op m|c op|c op|f [cfg|] q]; cbn [pred_tokens arity];
    rw ?placeholders_app ?placeholders_column ?placeholders_chars; cbn [placeholders app];
    rw ?placeholders_app ?placeholders_commas; cbn [placeholders app]; by rw ?app_nil_r.
Qed.

(** ** The parameters of a request *)

(** A conjunct of the clause, or a member of its OR group: a field and the
    condition on it. *)
Inductive item :=
| Conj (key v : string)
| Disj (field condition : string).

Definition part_item (part : string) : option item :=
  let part := TrimSpace part in
  match part with
  | "" => None
  | _ =>
      match Index part "=" with
      | None | Some O => None
      | Some pos => Some (Disj (take_bytes pos part) (drop_bytes (pos + 1) part))
      end
  end.

Definition or_items (v : string) : list item :=
  let v := TrimSpace v in
  match v with "" => [] | _ => omap part_item (splitTopLevelOrGroup v) end.

Definition entry_items (kv : string * list string) : list item :=
  let '(key, val) := kv in
  if negb (HasPrefix key "_") then Conj key <$> val
  else if String.eqb key "_or" then val ≫= or_items
  else [].

Definition request_items `{MapRange} (r : Request) : list item :=
  map_range (Query r) ≫= entry_items.

(** A parsed item: whether it belongs to the OR group, its predicate and the
    values of its parameters. *)
Definition parsed : Type := bool * predicate * list iface.

Definition parse_item (it : item) : gores parsed :=
  match it with
  | Conj k v => '(p, vs) ← parse_param k v; Val (false, p, vs)
  | Disj f c => '(p, vs) ← parse_param f c; Val (true, p, vs)
  end.

Definition values_of (ps : list parsed) : list iface := mjoin (snd <$> ps).

(** The texts of the items on one side, parameters numbered from [pid]. *)
Fixpoint texts (disj : bool) (pid : Z) (ps : list parsed) : list string :=
  match ps with
  | [] => []
  | (b, p, vs) :: ps' =>
      let rest := texts disj (pid + Z.of_nat (length vs)) ps' in
      if Bool.eqb b disj then pred_text pid p :: rest else rest
  end.

Definition add_parsed (st : WState) (x : parsed) : WState :=
  let '(b, p, vs) := x in
  let k := pred_text (wpid st) p in
  MkW (if b then whereKey st else whereKey st ++ [k]) (whereValues st ++ vs)
      (if b then orClauses st ++ [k] else orClauses st) (wpid st + Z.of_nat (length vs)).

Lemma pred_text_nonempty pid p : pred_ok p → String.eqb (pred_text pid p) "" = false.
Proof.
  destruct p as [c|c|c|c|f [cfg|] q]; try (destruct c; reflexivity); cbn;
    intros [Hf _]; destruct f; done.
Qed.

Lemma bind_assoc {A B C} (m : gores A) (f : A → gores B) (g : B → gores C) :
  ((m ≫= f) ≫= g) = (m ≫= λ a, f a ≫= g).
Proof. by destruct m. Qed.

Lemma where_value_parse key st v :
  where_value key st v = x ← parse_item (Conj key v); Val (add_parsed st x).
Proof.
  unfold where_value; cbn [parse_item]. rw whereKeyAndValue_parse !bind_assoc.
  destruct (parse_param key v) as [[p vs]| |] eqn:E; cbn [mbind gores_bind]; [|done..].
  apply parse_param_ok in E as [Hok _]. by rw pred_text_nonempty.
Qed.

Lemma or_part_parse st part :
  or_part st part =
  foldE (λ st it, x ← parse_item it; Val (add_parsed st x)) st (option_list (part_item part)).
Proof.
  unfold or_part, part_item. destruct (TrimSpace part) as [|c s]; [done|].
  destruct (Index (String c s) "=") as [[|pos]|]; [done| |done].
  unfold option_list; cbn [option_rect foldE parse_item]. rw whereKeyAndValue_parse !bind_assoc.
  destruct (parse_param _ _) as [[p vs]| |] eqn:E; cbn [mbind gores_bind]; [|done..].
  apply parse_param_ok in E as [Hok _]. by rw pred_text_nonempty.
Qed.

Lemma omap_bind {A B} (f : A → option B) l : omap f l = l ≫= (option_list ∘ f).
Proof. induction l as [|a l IH]; cbn; [done|]. rw IH. by destruct (f a). Qed.

Lemma or_value_parse st v :
  or_value st v = foldE (λ st it, x ← parse_item it; Val (add_parsed st x)) st (or_items v).
Proof.
  unfold or_value, or_items. destruct (TrimSpace v) as [|c s]; [done|].
  rw omap_bind -foldE_bind. apply foldE_ext. intros. apply or_part_parse.
Qed.

Lemma where_entry_parse st kv :
  where_entry st kv = foldE (λ st it, x ← parse_item it; Val (add_parsed st x)) st (entry_items kv).
Proof.
  destruct kv as [key val]; unfold where_entry, entry_items.
  destruct (negb _).
  - revert st; induction val as [|v val IH]; intros st; [done|]. cbn [foldE fmap list_fmap].
    rw where_value_parse. by destruct (parse_item _); cbn.
  - destruct (String.eqb key "_or"); [|done]. rw -foldE_bind. apply foldE_ext. intros; apply or_value_parse.
Qed.

Lemma foldl_add_parsed st ps :
  foldl add_parsed st ps =
  MkW (whereKey st ++ texts false (wpid st) ps) (whereValues st ++ values_of ps)
      (orClauses st ++ texts true (wpid st) ps) (wpid st + Z.of_nat (length (values_of ps))).
Proof.
  revert st; induction ps as [|[[b p] vs] ps IH]; intros st.
  - cbn. rw !app_nil_r Z.add_0_r. by destruct st.
  - cbn [foldl]. rw IH. unfold values_of. cbn [add_parsed fmap list_fmap mjoin list_join snd texts].
    rw length_app Nat2Z.inj_add. destruct b; cbn -[Z.of_nat]; rw -?app_assoc Z.add_assoc; done.
Qed.

(** ** The clause as a whole *)

(** The filters of the context, as parsed items in front of the others. *)
Definition tenant_parsed (cfg : Prest) (r : Request) : list parsed :=
  match ResolveTenantCompat cfg r with
  | None =>
      let uid := UserIDFromContext r in
      let col := ResolveUserIDColumn cfg r in
      if String.eqb uid "" || String.eqb col "" then []
      else [(false, PCmp (CPath (Split col ".")) "=", [IStr uid])]
  | Some compat =>
      let ws := TenantIDActiveFromContext r in
      let uid := UserIDFromContext r in
      if negb (String.eqb ws "") then
        [(false, PCmp (CPath (Split (tc_TenantColumn compat) ".")) "=", [IStr ws])]
      else if negb (String.eqb uid "") then
        [(false, PCmp (CPath (Split (tc_UserColumn compat) ".")) "=", [IStr uid]);
         (false, PTest (CPath (Split (tc_TenantColumn compat) ".")) "IS NULL", [])]
      else []
  end.

Definition or_keys (ors : list string) : list string :=
  match ors with [] => [] | _ => [or_group ors] end.
Definition clause_keys (pid : Z) (ps : list parsed) : list string :=
  texts false pid ps ++ or_keys (texts true pid ps).
Definition clause_text (pid : Z) (ps : list parsed) : string := and_join (clause_keys pid ps).

(** The tokens of the items on one side, and of the clause. *)
Fixpoint item_tokens (disj : bool) (pid : N) (ps : list parsed) : list (list token) :=
  match ps with
  | [] => []
  | (b, p, vs) :: ps' =>
      let rest := item_tokens disj (pid + N.of_nat (length vs)) ps' in
      if Bool.eqb b disj then pred_tokens pid p :: rest else rest
  end.

Fixpoint sep_tokens (sep : string) (l : list (list token)) : list token :=
  match l with
  | [] => []
  | [t] => t
  | t :: l' => t ++ chars sep ++ sep_tokens sep l'
  end.

Definition group_tokens (ors : list (list token)) : list (list token) :=
  match ors with [] => [] | _ => [TCh "(" :: sep_tokens " OR " ors ++ [TCh ")"%char]] end.

Definition clause_tokens (pid : N) (ps : list parsed) : list token :=
  sep_tokens " AND " (item_tokens false pid ps ++ group_tokens (item_tokens true pid ps)).

Definition parsed_ok (x : parsed) : Prop := pred_ok x.1.2 ∧ arity x.1.2 = length x.2.

Lemma parse_items_ok its ps : mapE parse_item its = Val ps → Forall parsed_ok ps.
Proof.
  rw mapE_Forall2. induction 1 as [|it x its ps Hx _ IH]; constructor; [|done].
  unfold parsed_ok. destruct it as [k v|k v]; cbn in Hx;
    apply bind_Val in Hx as ([p vs] & Hp & [= <-]); by apply parse_param_ok in Hp.
Qed.

Lemma column_text_quoted s : IsValid s = true → column_text (CPath (Split s ".")) = quoted s.
Proof. intros H. unfold quoted. by rw Quote_Join. Qed.

Lemma tenant_parsed_ok cfg r : columns_valid cfg → Forall parsed_ok (tenant_parsed cfg r).
Proof.
  intros Hv. unfold tenant_parsed.
  assert (∀ s, IsValid s = true → column_ok (CPath (Split s "."))) as Hcol by apply IsValid_path.
  assert ("=" ∈ operators) as H1 by (by apply (bool_decide_unpack _)).
  assert ("IS NULL" ∈ operators) as H2 by (by apply (bool_decide_unpack _)).
  destruct (ResolveTenantCompat cfg r) as [f|] eqn:E.
  - apply (compat_columns_valid _ _ _ Hv) in E as [Hu Ht].
    destruct (negb _); [|destruct (negb _)]; repeat constructor; cbn; auto using Forall_nil;
      by apply Hcol.
  - destruct (_ || _) eqn:Hne; [by constructor|]. apply orb_false_iff in Hne as [_ Hc].
    apply String.eqb_neq in Hc. apply (user_column_valid _ _ Hv) in Hc.
    repeat constructor; cbn; auto; by apply Hcol.
Qed.

Lemma tenant_filter_parsed cfg r n :
  columns_valid cfg →
  tenant_filter cfg r n = foldl add_parsed (MkW [] [] [] n) (tenant_parsed cfg r).
Proof.
  intros Hv. unfold tenant_parsed, tenant_filter.
  destruct (ResolveTenantCompat cfg r) as [f|] eqn:E.
  - apply (compat_columns_valid _ _ _ Hv) in E as [Hu Ht].
    rw -!column_text_quoted; [done..|].
    destruct (negb _); [done|]. destruct (negb _); [|done].
    cbn -[column_text]. by rw Z.add_0_r.
  - destruct (_ || _) eqn:Hne; [done|]. apply orb_false_iff in Hne as [_ Hc].
    apply String.eqb_neq in Hc. apply (user_column_valid _ _ Hv) in Hc.
    by rw -column_text_quoted.
Qed.

Lemma and_join_acc acc keys :
  acc ≠ "" →
  foldl (λ w k, if String.eqb w "" then w +:+ k else w +:+ " AND " +:+ k) acc keys
  = Join (acc :: keys) " AND ".
Proof.
  revert acc; induction keys as [|k keys IH]; intros acc Hne; [done|].
  cbn [foldl]. rw (proj2 (String.eqb_neq _ _)); [done|].
  rw IH; [by destruct acc|]. destruct keys; cbn; by rw ?sapp_assoc.
Qed.

Lemma and_join_Join keys :
  Forall (λ k, String.eqb k "" = false) keys → and_join keys = Join keys " AND ".
Proof.
  destruct 1 as [|k keys Hk _]; [done|]. unfold and_join. cbn [foldl].
  rw String.eqb_refl. apply and_join_acc. by apply String.eqb_neq.
Qed.

Lemma lex_Join c sep ss ts :
  plain (String c sep) = true → starts_sep (String c "") = true →
  Forall2 (λ s t, lex s = Some t) ss ts →
  lex (Join ss (String c sep)) = Some (sep_tokens (String c sep) ts).
Proof.
  intros Hp Hs. induction 1 as [|s t ss ts Hst Hall IH]; [done|].
  destruct Hall as [|s' t' ss ts Hst' Hall]; [done|].
  rw Join_cons; [done|]. apply lex_app; [done| |done]. by apply lex_plain_app.
Qed.

Lemma texts_lex disj pid ps :
  (0 ≤ pid)%Z → Forall parsed_ok ps →
  Forall2 (λ s t, lex s = Some t) (texts disj pid ps) (item_tokens disj (Z.to_N pid) ps).
Proof.
  intros Hp Hall; revert pid Hp; induction Hall as [|[[b p] vs] ps [Hok _] _ IH]; intros pid Hp.
  { constructor. }
  cbn [texts item_tokens].
  assert (Z.to_N pid + N.of_nat (length vs) = Z.to_N (pid + Z.of_nat (length vs)))%N as -> by lia.
  destruct (Bool.eqb b disj); [constructor; [by apply lex_pred|]|]; apply IH; lia.
Qed.

Lemma texts_nonempty disj pid ps :
  Forall parsed_ok ps → Forall (λ k, String.eqb k "" = false) (texts disj pid ps).
Proof.
  intros Hall; revert pid; induction Hall as [|[[b p] vs] ps [Hok _] _ IH]; intros pid; [constructor|].
  cbn [texts]. destruct (Bool.eqb b disj); [constructor; [by apply pred_text_nonempty|]|]; apply IH.
Qed.

Lemma group_lex ss ts :
  Forall2 (λ s t, lex s = Some t) ss ts →
  Forall2 (λ s t, lex s = Some t) (or_keys ss) (group_tokens ts).
Proof.
  intros H. destruct H as [|s t ss ts Hs Ht]; [constructor|].
  constructor; [|constructor].
  apply lex_paren, lex_Join; [done..|by constructor].
Qed.

Lemma clause_lex pid ps :
  (0 ≤ pid)%Z → Forall parsed_ok ps →
  lex (clause_text pid ps) = Some (clause_tokens (Z.to_N pid) ps).
Proof.
  intros Hp Hps. unfold clause_text, clause_keys, clause_tokens. rw and_join_Join.
  - apply Forall_app; split; [by apply texts_nonempty|]. destruct (texts true pid ps); by repeat constructor.
  - apply lex_Join; [done..|].
    apply Forall2_app; [by apply texts_lex|by apply group_lex, texts_lex].
Qed.

Lemma item_tokens_sealed disj n ps :
  Forall parsed_ok ps → Forall sealed (item_tokens disj n ps).
Proof.
  intros Hall; revert n; induction Hall as [|[[b p] vs] ps [Hok _] _ IH]; intros n; [constructor|].
  cbn [item_tokens]. destruct (Bool.eqb b disj); [constructor; [by apply sealed_pred|]|]; apply IH.
Qed.

Lemma sep_tokens_sealed sep l :
  string_forall wordy_byte sep = true → Forall sealed l → sealed (sep_tokens sep l).
Proof.
  intros Hs. induction 1 as [|t l Ht Hl IH]; [done|]. destruct l; [done|].
  apply sealed_app; [done|]. apply sealed_app; auto with sql.
Qed.

Lemma group_tokens_sealed l : Forall sealed l → Forall sealed (group_tokens l).
Proof.
  intros H. destruct l as [|t l]; [done|]. constructor; [|constructor].
  apply sealed_paren. by apply sep_tokens_sealed.
Qed.

Lemma clause_sealed n ps : Forall parsed_ok ps → sealed (clause_tokens n ps).
Proof.
  intros H. apply sep_tokens_sealed; [done|].
  apply Forall_app; split; [|apply group_tokens_sealed]; by apply item_tokens_sealed.
Qed.

(** *** The parameters of a clause *)

Lemma ids_app n a b : ids n (a + b) = ids n a ++ ids (n + N.of_nat a) b.
Proof.
  revert n; induction a as [|a IH]; intros n; cbn [ids app Nat.add]; [by rw N.add_0_r|].
  f_equal. rw IH. by assert (n + 1 + N.of_nat a = n + N.of_nat (S a))%N as -> by lia.
Qed.

Lemma ids_elem n k i : i ∈ ids n k ↔ (n ≤ i < n + N.of_nat k)%N.
Proof.
  revert n; induction k as [|k IH]; intros n; cbn [ids]; [rw elem_of_nil; lia|].
  rw elem_of_cons IH. lia.
Qed.

Lemma placeholders_sep sep l : placeholders (sep_tokens sep l) = l ≫= placeholders.
Proof.
  induction l as [|t [|t' l] IH]; [done|cbn; by rw app_nil_r|].
  change (sep_tokens sep (t :: t' :: l)) with (t ++ chars sep ++ sep_tokens sep (t' :: l)).
  by rw !placeholders_app placeholders_chars IH.
Qed.

Lemma placeholders_group l : group_tokens l ≫= placeholders = l ≫= placeholders.
Proof.
  destruct l as [|t l]; [done|]. cbn -[sep_tokens].
  by rw placeholders_app placeholders_sep !app_nil_r.
Qed.

Lemma item_placeholders n ps :
  Forall parsed_ok ps →
  (item_tokens false n ps ≫= placeholders) ++ (item_tokens true n ps ≫= placeholders)
  ≡ₚ ids n (length (values_of ps)).
Proof.
  intros Hall; revert n; induction Hall as [|[[b p] vs] ps [Hok Har] _ IH]; intros n; [done|].
  unfold values_of. cbn [item_tokens fmap list_fmap mjoin list_join snd]. cbn in Har.
  rw length_app ids_app -(IH _).
  destruct b; cbn [Bool.eqb]; rw bind_cons placeholders_pred Har; [|by rw app_assoc].
  by rw !app_assoc (Permutation_app_comm (item_tokens _ _ _ ≫= _) (ids n _)).
Qed.

Lemma clause_placeholders n ps :
  Forall parsed_ok ps → placeholders (clause_tokens n ps) ≡ₚ ids n (length (values_of ps)).
Proof.
  intros H. unfold clause_tokens. rw placeholders_sep bind_app placeholders_group.
  by apply item_placeholders.
Qed.

(** *** The shape of the conjuncts *)

Lemma values_of_app a b : values_of (a ++ b) = values_of a ++ values_of b.
Proof. unfold values_of. by rw fmap_app join_app. Qed.

Lemma WhereByRequest_parse `{MapRange} cfg r n :
  columns_valid cfg →
  WhereByRequest cfg r n =
  ps ← mapE parse_item (request_items r);
  Val (clause_text n (tenant_parsed cfg r ++ ps), values_of (tenant_parsed cfg r ++ ps)).
Proof.
  intros Hv. unfold WhereByRequest, request_items.
  rw (foldE_ext _ _ _ _ where_entry_parse) foldE_bind foldE_mapE bind_assoc.
  destruct (mapE parse_item _) as [ps| |]; [|done..]. cbn [mbind gores_bind].
  rw tenant_filter_parsed // -foldl_app foldl_add_parsed. cbn [orClauses whereKey whereValues wpid app].
  unfold clause_text, clause_keys. destruct (texts true n _); cbn [or_keys]; by rw ?app_nil_r.
Qed.

(** A conjunct of the clause: one predicate, or the OR group. *)
Definition conjunct (n : N) (ts : list token) : Prop :=
  (∃ m p, (n ≤ m)%N ∧ pred_ok p ∧ ts = pred_tokens m p) ∨
  (∃ ors, Forall (λ t, ∃ m p, (n ≤ m)%N ∧ pred_ok p ∧ t = pred_tokens m p) ors ∧
          ts = TCh "(" :: sep_tokens " OR " ors ++ [TCh ")"%char]).

Lemma item_tokens_preds d n ps :
  Forall parsed_ok ps →
  Forall (λ t, ∃ m p, (n ≤ m)%N ∧ pred_ok p ∧ t = pred_tokens m p) (item_tokens d n ps).
Proof.
  intros Hall. assert (n ≤ n)%N as Hle by done. revert Hle. generalize n at 1 3 as n'.
  induction Hall as [|[[b p] vs] ps [Hok _] _ IH] in n |- *; intros n' Hle; [constructor|].
  cbn [item_tokens]. destruct (Bool.eqb b d); [constructor; [by eauto|]|]; apply IH; lia.
Qed.

Lemma clause_conjuncts n ps :
  Forall parsed_ok ps →
  Forall (conjunct n) (item_tokens false n ps ++ group_tokens (item_tokens true n ps)).
Proof.
  intros H. apply Forall_app; split.
  - eapply Forall_impl; [by apply item_tokens_preds|]. by left.
  - pose proof (item_tokens_preds true n ps H) as Hor.
    destruct (item_tokens true n ps) as [|t l]; [done|].
    constructor; [|done]. right. eauto.
Qed.

Lemma item_tokens_app d n a b :
  item_tokens d n (a ++ b) =
  item_tokens d n a ++ item_tokens d (n + N.of_nat (length (values_of a))) b.
Proof.
  revert n; induction a as [|[[b' p] vs] a IH]; intros n; [cbn; by rw N.add_0_r|].
  cbn [app item_tokens]. rw IH. unfold values_of. cbn [fmap list_fmap mjoin list_join snd].
  rw length_app Nat2N.inj_add N.add_assoc. by destruct (Bool.eqb b' d).
Qed.

(** The clause of a request starts with the tenant predicates, and the rest of
    it refers to later parameters only. *)
Lemma WhereByRequest_tenant `{MapRange} cfg r n w vals :
  columns_valid cfg → (0 ≤ n)%Z → WhereByRequest cfg r n = Val (w, vals) →
  let t := tenant_parsed cfg r in
  ∃ cs vs, vals = values_of t ++ vs ∧
    lex w = Some (sep_tokens " AND " (item_tokens false (Z.to_N n) t ++ cs)) ∧
    Forall (conjunct (Z.to_N n + N.of_nat (length (values_of t)))) cs.
Proof.
  intros Hv Hn. rw WhereByRequest_parse //. intros Hw. inv_bind. apply parse_items_ok in Ha.
  pose proof (tenant_parsed_ok cfg r Hv) as Ht.
  assert (item_tokens true (Z.to_N n) (tenant_parsed cfg r) = []) as Hno.
  { unfold tenant_parsed. by repeat case_match. }
  do 2 eexists. split; [apply values_of_app|]. split.
  - rw clause_lex; [done|by apply Forall_app|].
    unfold clause_tokens. rw !item_tokens_app Hno -app_assoc. done.
  - by apply clause_conjuncts.
Qed.

(** *** Operators *)

Lemma no_match_replace r f k s : find_from r k s = None → replace_from r f 0 k s = s.
Proof.
  revert k; induction s as [|c s IH]; intros k; [done|]. cbn [find_from replace_from].
  destruct k as [|k]; [|by intros ?%IH; f_equal].
  destruct (MatchHere r (String c s)) as [[n caps]|]; [done|]. intros H%IH. by f_equal.
Qed.

Lemma replace_from_drop r f a x : replace_from r f (slen a) 0 (a +:+ x) = replace_from r f 0 0 x.
Proof.
  induction a as [|c a IH]; [done|]. cbn [String.append replace_from String.length]. apply IH.
Qed.

(** The text of an operator in front of a value, as the client writes it. *)
Definition operator_prefix (sfx : string) : string := "$" +:+ sfx +:+ ".".

Definition table_match (sfx : string) : Prop :=
  ∀ x, ReMatch removeOperatorRegex (operator_prefix sfx +:+ x) [] (λ s caps, Some (s, caps)) = Some (x, []).

Lemma lower_table_match sfx :
  sfx ≠ "" → string_forall (az ∘ bval) sfx = true → table_match sfx.
Proof.
  destruct sfx as [|c w]; [done|]. intros _ Hall x. cbn [string_forall] in Hall.
  apply andb_true_iff in Hall as [Hc Hw]. cbn in Hc.
  assert (ascii_class az) as Haz by (intros n; unfold az, is_lower_ascii; rw between_true; lia).
  rw (_ : operator_prefix (String c w) +:+ x = String "$" (String c (w +:+ String "." x))).
  { unfold operator_prefix. by rw !sapp_assoc. }
  unfold removeOperatorRegex, RPlus. rw ReMatch_cat ReMatch_set // !ReMatch_cat.
  rw ReMatch_set //; [by apply Haz|].
  apply (ReMatch_star_run az w "." x); [done..|]. by rw ReMatch_set.
Qed.

Lemma table_matches : Forall (λ p : string * string, table_match p.1) operator_table.
Proof.
  assert (Forall (λ p : string * string, p.1 ≠ "" ∧ string_forall (az ∘ bval) p.1 = true) operator_table)
    as H by (apply (bool_decide_unpack _); by vm_compute).
  eapply Forall_impl; [exact H|]. intros p [??]. by apply lower_table_match.
Qed.

Lemma prefix_match sfx x :
  table_match sfx → MatchHere removeOperatorRegex (operator_prefix sfx +:+ x)
  = Some (slen (operator_prefix sfx), []).
Proof. intros H. unfold MatchHere. rw H slen_app. do 2 f_equal. lia. Qed.

Lemma operator_prefix_spec sfx x :
  table_match sfx → MatchString removeOperatorRegex x = false →
  FindString removeOperatorRegex (operator_prefix sfx +:+ x) = operator_prefix sfx ∧
  ReplaceAllString removeOperatorRegex (operator_prefix sfx +:+ x) "" = x.
Proof.
  intros Hm Hx. pose proof (prefix_match sfx x Hm) as Hp.
  unfold MatchString in Hx. destruct (find_from removeOperatorRegex 0 x) as [[]|] eqn:Hf; [done|].
  split.
  - unfold FindString. destruct (operator_prefix sfx) as [|c s] eqn:E; [done|].
    cbn [String.append find_from] in *. rw Hp. cbn [slen String.length take_bytes].
    by rw take_bytes_app.
  - unfold ReplaceAllString, ReplaceAllFunc. destruct (operator_prefix sfx) as [|c s] eqn:E; [done|].
    cbn [String.append replace_from String.length] in *. rw Hp. cbn [String.append].
    rw replace_from_drop. by apply no_match_replace.
Qed.

Lemma no_operator v :
  MatchString removeOperatorRegex v = false →
  FindString removeOperatorRegex v = "" ∧ ReplaceAllString removeOperatorRegex v "" = v.
Proof.
  unfold MatchString, FindString. destruct (find_from removeOperatorRegex 0 v) as [[]|] eqn:E; [done|].
  intros _. split; [done|]. by apply no_match_replace.
Qed.

Lemma table_lookup :
  Forall (λ p : string * string,
    GetQueryOperator (ReplaceAll (operator_prefix p.1) "." "") = Val p.2) operator_table.
Proof. repeat constructor. Qed.

Lemma valid_single s d :
  IsValid s = true → (word_rune (bval d) || Ascii.eqb d ".") = false → Split s (String d "") = [s].
Proof. intros. by apply Split1_single, IsValid_no_byte. Qed.

(** *** The scanning loop ends *)

Lemma skip_whitespace_length prev s : slen (skip_whitespace prev s).2 ≤ slen s.
Proof.
  revert prev; induction s as [|c s IH]; intros prev; cbn; [done|].
  destruct (isWhitespace c); cbn; [|done]. specialize (IH (Some c)). lia.
Qed.

(** Every round consumes a byte: one unit of fuel for each byte and one for the
    end are enough. *)
Lemma split_loop_total fuel prev s a b cur parts :
  slen s < fuel → ∃ l, split_loop fuel prev s a b cur parts = Some l.
Proof.
  revert prev s a b cur parts; induction fuel as [|f IH]; intros prev s a b cur parts Hf; [lia|].
  destruct s as [|ch s1]; cbn [split_loop]; [by eexists|]. cbn [String.length] in Hf.
  destruct a.
  { destruct (Ascii.eqb ch sq); [|apply IH; lia]. destruct s1 as [|ch2 s2]; [apply IH; lia|].
    cbn [String.length] in Hf. destruct (Ascii.eqb ch2 sq); apply IH; cbn [String.length]; lia. }
  destruct b.
  { destruct (Ascii.eqb ch dqc); [|apply IH; lia]. destruct s1 as [|ch2 s2]; [apply IH; lia|].
    cbn [String.length] in Hf. destruct (Ascii.eqb ch2 dqc); apply IH; cbn [String.length]; lia. }
  assert (slen (drop_bytes 2 (String ch s1)) ≤ slen s1) as Hd by (rw slen_drop; cbn; lia).
  destruct (isTopLevelLegacySeparator _); [apply IH; lia|].
  destruct (Ascii.eqb ch sq); [apply IH; lia|]. destruct (Ascii.eqb ch dqc); [apply IH; lia|].
  destruct (isTopLevelOrSeparator prev _); [|apply IH; lia].
  pose proof (skip_whitespace_length (head (String.list_ascii_of_string s1)) (drop_bytes 2 (String ch s1))) as Hs.
  destruct (skip_whitespace _ _) as [p r]. apply IH. cbn [snd] in Hs. lia.
Qed.

(** More fuel changes nothing. *)
Lemma split_loop_mono f f' prev s a b cur parts l :
  split_loop f prev s a b cur parts = Some l → f ≤ f' → split_loop f' prev s a b cur parts = Some l.
Proof.
  revert f' prev s a b cur parts; induction f as [|f IH]; intros [|f'] prev s a b cur parts Hl Hf; [done|done|lia|].
  assert (f ≤ f') as Hff by lia. clear Hf. revert Hl. destruct s as [|ch s1]; cbn [split_loop]; [done|].
  destruct a; [destruct (Ascii.eqb ch sq); [destruct s1 as [|ch2 s2]; [|destruct (Ascii.eqb ch2 sq)]|]; by eauto|].
  destruct b; [destruct (Ascii.eqb ch dqc); [destruct s1 as [|ch2 s2]; [|destruct (Ascii.eqb ch2 dqc)]|]; by eauto|].
  destruct (isTopLevelLegacySeparator _); [by eauto|]. destruct (Ascii.eqb ch sq); [by eauto|].
  destruct (Ascii.eqb ch dqc); [by eauto|]. destruct (isTopLevelOrSeparator prev _); [|by eauto].
  destruct (skip_whitespace _ _) as [p r]. by eauto.
Qed.

(** C12: The scanner of an [_or] value ends: a round for each byte and one more
    are enough whatever the value holds, and further rounds would find the same
    parts. *)
Theorem splitTopLevelOrGroup_terminates v rounds :
  slen v < rounds → split_loop rounds None v false false "" [] = Some (splitTopLevelOrGroup v).
Proof.
  intros Hr. unfold splitTopLevelOrGroup.
  destruct (split_loop_total (S (slen v)) None v false false "" [] (Nat.lt_succ_diag_r _)) as [l Hl].
  rw Hl. by apply (split_loop_mono (S (slen v))).
Qed.

Lemma split_terminates_witness :
  split_loop 9 None "a=$eq.1" false false "" [] = Some (splitTopLevelOrGroup "a=$eq.1").
Proof. apply (splitTopLevelOrGroup_terminates "a=$eq.1" 9). cbn. lia. Defined.

(** ** Properties *)

Section properties.
Context `{MapRange}.

(** C11: [WhereByRequest], for every order in which the query map is visited,
    is the composition of a parser and a printer: each parameter of the request
    (one per value of an ordinary key, one per part of an [_or] value) is
    parsed on its own, the first that does not parse is the error returned, and
    otherwise the clause is the conjunction of the tenant predicates, the
    ordinary predicates and the OR group, parameters numbered from the given
    placeholder in the order of the values. *)
Theorem WhereByRequest_refines cfg r n :
  columns_valid cfg →
  WhereByRequest cfg r n =
  ps ← mapE parse_item (request_items r);
  Val (clause_text n (tenant_parsed cfg r ++ ps), values_of (tenant_parsed cfg r ++ ps)).
Proof. apply WhereByRequest_parse. Qed.

(** C10: no request can inject SQL through its filters: whatever its query
    parameters are, a clause [WhereByRequest] returns reads as a conjunction of
    well-formed predicates, with balanced parentheses, no comment and no
    statement separator outside quotes, and its positional parameters are
    exactly the [length vals] numbers from the initial one, once each.  The
    columns of the configured rules are identifiers ([columns_valid]). *)
Theorem WhereByRequest_reads_back cfg r n w vals :
  columns_valid cfg → (0 ≤ n)%Z →
  WhereByRequest cfg r n = Val (w, vals) →
  ∃ cs, lex w = Some (sep_tokens " AND " cs) ∧ Forall (conjunct (Z.to_N n)) cs ∧
        sealed (sep_tokens " AND " cs) ∧
        placeholders (sep_tokens " AND " cs) ≡ₚ ids (Z.to_N n) (length vals).
Proof.
  intros Hv Hn. rw WhereByRequest_parse //. intros Hw. inv_bind.
  assert (Forall parsed_ok (tenant_parsed cfg r ++ a)) as Hok.
  { apply Forall_app; split; [by apply tenant_parsed_ok|by eapply parse_items_ok]. }
  eexists; split; [by apply clause_lex|]. split; [by apply clause_conjuncts|].
  split; [by apply clause_sealed|by apply clause_placeholders].
Qed.

(** C9: tenant isolation.  On a table with a tenant-compat rule, a request
    whose active tenant is [ws] only ever reads a clause whose first conjunct is
    [tenant column = $n] with [ws] as the value of [$n]; in personal mode its
    first conjuncts are [user column = $n] with the user id and [tenant column
    IS NULL].  On a table with a user-id rule the first conjunct is [column =
    $n] with the user id.  Every other conjunct uses later parameters only, so
    no query parameter can remove, weaken or rebind the filter.  The columns of
    the configured rules are identifiers ([columns_valid]). *)
Theorem tenant_isolation cfg r n w vals :
  columns_valid cfg → (0 ≤ n)%Z → WhereByRequest cfg r n = Val (w, vals) →
  let uid := UserIDFromContext r in
  let ws := TenantIDActiveFromContext r in
  let first c op := pred_tokens (Z.to_N n) (op (CPath (Split c "."))) in
  let eq c := PCmp c "=" in
  let null c := PTest c "IS NULL" in
  let guarded who fs := ∃ cs vs, vals = IStr who :: vs ∧
      lex w = Some (sep_tokens " AND " (fs ++ cs)) ∧ Forall (conjunct (Z.to_N n + 1)) cs in
  match ResolveTenantCompat cfg r with
  | Some f =>
      (ws ≠ "" → guarded ws [first (tc_TenantColumn f) eq]) ∧
      (ws = "" → uid ≠ "" → guarded uid [first (tc_UserColumn f) eq; first (tc_TenantColumn f) null])
  | None => uid ≠ "" → ResolveUserIDColumn cfg r ≠ "" → guarded uid [first (ResolveUserIDColumn cfg r) eq]
  end.
Proof.
  intros Hv Hn Hw. pose proof (WhereByRequest_tenant _ _ _ _ _ Hv Hn Hw) as Ht.
  cbn zeta in Ht |- *. unfold tenant_parsed in Ht.
  destruct (ResolveTenantCompat cfg r) as [f|]; [split|].
  - intros Hws%String.eqb_neq. rw Hws in Ht. exact Ht.
  - intros Hws Hu%String.eqb_neq. rw Hws String.eqb_refl Hu in Ht. exact Ht.
  - intros Hu%String.eqb_neq Hc%String.eqb_neq. rw Hu Hc in Ht. exact Ht.
Qed.

(** The filter language.  For a column path [key], every operator
    [$sfx.] of the table and every value text [x] in which no further operator
    occurs, the parameter [key=$sfx.x] is the predicate of that operator on the
    quoted column with [x] (or its comma-separated parts) as values; without an
    operator, [key=x] is equality with [x]. *)
Theorem operator_language key sfx op x n :
  IsValid key = true → (sfx, op) ∈ operator_table →
  MatchString removeOperatorRegex x = false →
  let pred o := parse_comparison (CPath (Split key ".")) o x in
  let result o := Val (pred_text n (pred o).1, (pred o).2, n + Z.of_nat (length (pred o).2))%Z in
  whereKeyAndValue key ("$" +:+ sfx +:+ "." +:+ x) n = result op ∧
  (x ≠ "" → whereKeyAndValue key x n = result "=").
Proof.
  intros Hk Hin Hx. cbn zeta. rw !whereKeyAndValue_parse.
  pose proof table_matches as Hm. rw Forall_forall in Hm. specialize (Hm _ Hin).
  pose proof table_lookup as Hl. rw Forall_forall in Hl. specialize (Hl _ Hin).
  cbn [fst snd] in Hm, Hl. pose proof (valid_single key ":" Hk eq_refl) as Hs. split.
  - rw (_ : "$" +:+ sfx +:+ "." +:+ x = operator_prefix sfx +:+ x).
    { unfold operator_prefix. by rw !sapp_assoc. }
    destruct (operator_prefix_spec sfx x Hm Hx) as [Hf Hr].
    unfold parse_param. rw Hf Hr Hs Hk.
    destruct (operator_prefix sfx +:+ x) eqn:E1; [done|].
    destruct (ReplaceAll (operator_prefix sfx) "." "") eqn:E2; [done|].
    rw Hl. cbn [mbind gores_bind]. destruct (parse_comparison _ op x); done.
  - intros Hne. destruct (no_operator x Hx) as [Hf Hr].
    unfold parse_param. rw Hf Hr Hs Hk. destruct x as [|c x]; [done|].
    change (GetQueryOperator _) with (Val (A := string) "=").
    cbn [mbind gores_bind]. by destruct (parse_comparison _ "=" _).
Qed.
End properties.

(** A configuration with a rule of each kind, and requests to both tables. *)
Definition sample_cfg : Prest :=
  set_UserIDFilters [MkUserFilter "db" "" "files" "user_id"]
    (set_TenantCompatFilters [MkTenantCompat "db" "public" "notes" "user_id" "tenant_id"] zero_Prest).

Definition sample_req (path : string) (c : Context) : Request :=
  MkRequest "GET" path path
    (<["title" := ["$like.a%"]]> (<["_or" := ["n=$in.1,2 OR d->>k:jsonb=x'y"]]> ∅)) ∅ c ∅.

Definition notes_req := sample_req "/db/public/notes" (with_TenantIDActive "t1" empty_context).

Lemma sample_cfg_valid : columns_valid sample_cfg.
Proof. split; repeat constructor; by right. Qed.

Lemma WhereByRequest_refines_witness :
  columns_valid sample_cfg ∧
  WhereByRequest sample_cfg notes_req 1 =
  ps ← mapE parse_item (request_items notes_req);
  Val (clause_text 1 (tenant_parsed sample_cfg notes_req ++ ps),
       values_of (tenant_parsed sample_cfg notes_req ++ ps)).
Proof. split; [apply sample_cfg_valid|]. apply WhereByRequest_refines, sample_cfg_valid. Defined.

Definition notes_where : string :=
  requote "`tenant_id` = $1 AND `title` LIKE $5 AND (`n` IN ($2,$3) OR `d`->>'k' = $4)".

Lemma WhereByRequest_reads_back_witness :
  WhereByRequest sample_cfg notes_req 1 =
    Val (notes_where, [IStr "t1"; IStr "1"; IStr "2"; IStr "x'y"; IStr "a%"]) ∧
  ∃ cs, lex notes_where = Some (sep_tokens " AND " cs) ∧ Forall (conjunct 1) cs ∧
        sealed (sep_tokens " AND " cs) ∧ placeholders (sep_tokens " AND " cs) ≡ₚ ids 1 5.
Proof.
  split; [by vm_compute|].
  apply (WhereByRequest_reads_back sample_cfg notes_req 1 notes_where
    [IStr "t1"; IStr "1"; IStr "2"; IStr "x'y"; IStr "a%"]);
    [apply sample_cfg_valid|done|by vm_compute].
Defined.

Lemma tenant_isolation_witness :
  ∃ cs vs, [IStr "t1"; IStr "1"; IStr "2"; IStr "x'y"; IStr "a%"] = IStr "t1" :: vs ∧
    lex notes_where = Some (sep_tokens " AND "
      ([pred_tokens 1 (PCmp (CPath (Split "tenant_id" ".")) "=")] ++ cs)) ∧
    Forall (conjunct (1 + 1)) cs.
Proof.
  apply (proj1 (tenant_isolation sample_cfg notes_req 1 notes_where
    [IStr "t1"; IStr "1"; IStr "2"; IStr "x'y"; IStr "a%"] sample_cfg_valid
    ltac:(done) ltac:(by vm_compute))). done.
Defined.

Lemma operator_language_witness :
  whereKeyAndValue "a.b" "$gte.5" 3 = Val (requote "`a`.`b` >= $3", [IStr "5"], 4%Z) ∧
  ("5" ≠ "" → whereKeyAndValue "a.b" "5" 3 = Val (requote "`a`.`b` = $3", [IStr "5"], 4%Z)).
Proof. apply (operator_language "a.b" "gte" ">=" "5" 3); [done|by apply (bool_decide_unpack _)|done]. Defined.
