(* ===== verification/Pools.v ===== *)
(** * The pool under concurrent requests: adapters/postgres/internal/connection/conn.go

    [Connection] has the sequential functions.  In the code the pool is an
    object behind the package's pointer [pool], made when it is first asked for:
    every call runs [GetPool], without a lock, in a goroutine of its own, and
    then works on the object it got, whose mutex it holds around each access to
    the maps.  This file models [AddDatabaseToPool] and [AddURI] as the steps of
    concurrent goroutines: the accesses to the pointer, [Lock] and [Unlock], the
    accesses to the maps in between, connecting to the server and closing a
    connection that is not needed.  (Go calls the accesses of [GetPool] a data
    race; the steps take each of them as atomic.) *)

From S2P Require Import Prelude GoStrings GoStd Config Connection Goroutines.

(** ** The shared heap *)

Record PoolObject := MkPoolObject { Mtx : bool; maps : Pool }.

Record Pools := MkPools {
  pool_var : option nat;         (* var pool *Pool: nil, or an object *)
  pools : list PoolObject;       (* the Pool objects made so far *)
  current_name : string;         (* currDatabase *)
  handles : gmap nat string;     (* [opened], [closed] and [next] of [ConnState] *)
  shut : gset nat;
  fresh : nat
}.

Definition empty_maps : Pool := MkPool ∅ ∅.
Definition nil_pools : Pools := MkPools None [] "" ∅ ∅ 0.

(** [pool = &Pool{...}]. *)
Definition new_pool (s : Pools) : Pools :=
  MkPools (Some (length (pools s))) (pools s ++ [MkPoolObject false empty_maps])
    (current_name s) (handles s) (shut s) (fresh s).

Definition GetPool (s : Pools) : Pools * option nat :=
  let s := match pool_var s with None => new_pool s | Some _ => s end in
  (s, pool_var s).

(** Before the first request: the pointer is nil, unless start-up has already
    asked for the pool. *)
Definition init_pools (made : bool) : Pools := if made then new_pool nil_pools else nil_pools.

(** The sequential state with the [p]-th object as its pool, and back. *)
Definition conn_at (p : nat) (s : Pools) : ConnState :=
  MkConn (default empty_maps (maps <$> pools s !! p)) (current_name s) (handles s) (shut s) (fresh s).
Definition with_conn (p : nat) (st : ConnState) (s : Pools) : Pools :=
  MkPools (pool_var s) (alter (λ o, MkPoolObject (Mtx o) (pool st)) p (pools s))
    (currDatabase st) (opened st) (closed st) (next st).

(** [p.Mtx.Lock()] and [p.Mtx.Unlock()]. *)
Definition set_Mtx (p : nat) (b : bool) (s : Pools) : Pools :=
  MkPools (pool_var s) (alter (λ o, MkPoolObject b (maps o)) p (pools s))
    (current_name s) (handles s) (shut s) (fresh s).
Definition lock (p : nat) (s : Pools) : option Pools :=
  o ← pools s !! p; b ← Mutex_Lock (Mtx o); Some (set_Mtx p b s).
Definition unlock (p : nat) (s : Pools) : option Pools :=
  o ← pools s !! p; b ← Mutex_Unlock (Mtx o); Some (set_Mtx p b s).

(** ** The goroutines *)

(** Where a goroutine that runs a call [c] is; [p] is the pool it got, [h] the
    connection it opened. *)
Inductive thread :=
| TGet (g : getting) (c : call)                (* in [GetPool] *)
| TLock (c : call) (p : nat)                   (* before the first [Lock] *)
| TFind (c : call) (p : nat)                   (* before the lookups *)
| TFound (c : call) (p : nat) (r : option nat) (* before [Unlock] *)
| TConnect (c : call) (p : nat)                (* connecting, without the lock *)
| TRelock (c : call) (p : nat) (h : nat)       (* before the second [Lock] *)
| TCheck (c : call) (p : nat) (h : nat)        (* before the second lookup *)
| TPut (c : call) (p : nat) (h : nat)          (* before [p.DB[key] = DB] *)
| TPutName (c : call) (p : nat) (h : nat)      (* before [p.DB[nk] = DB] *)
| TStored (c : call) (p : nat) (h : nat)       (* before [Unlock] *)
| TLost (c : call) (p : nat) (h existing : nat)  (* before [Unlock]: another was first *)
| TClose (c : call) (p : nat) (h existing : nat) (* before [DB.Close()] *)
| TRet (c : call) (r : gores nat).

(** [AddURI] refuses an empty DSN before anything else. *)
Definition start (c : call) : thread :=
  match c with
  | CURI _ "" => TRet c (Err "empty dsn")
  | _ => TGet GTest c
  end.

Definition nil_pool : string := "runtime error: invalid memory address or nil pointer dereference".

Section steps.
Context `{UnicodeTables}.
Variable dial : string → gores unit.
Variable cfg : Prest.

Definition pool_step (s : Pools) (t : thread) : option (Pools * thread) :=
  match t with
  | TGet GTest c => Some (s, TGet (match pool_var s with None => GNew | Some _ => GRead end) c)
  | TGet GNew c => Some (new_pool s, TGet GRead c)
  | TGet GRead c =>
      Some (s, match pool_var s with Some p => TLock c p | None => TRet c (Panic nil_pool) end)
  | TLock c p => s ← lock p s; Some (s, TFind c p)
  | TFind c p => Some (s, TFound c p (lookup_call cfg c (conn_at p s)))
  | TFound c p r =>
      s ← unlock p s;
      Some (s, match r with Some h => TRet c (Val h) | None => TConnect c p end)
  | TConnect c p =>
      match openAndPing dial (call_dsn cfg c) (conn_at p s) with
      | (st, Val h) => Some (with_conn p st s, TRelock c p h)
      | (st, Err e) => Some (with_conn p st s, TRet c (Err (connect_error c e)))
      | (st, Panic w) => Some (with_conn p st s, TRet c (Panic w))
      end
  | TRelock c p h => s ← lock p s; Some (s, TCheck c p h)
  | TCheck c p h =>
      Some (s, match DB (pool (conn_at p s)) !! poolKey (call_dsn cfg c) with
               | Some existing => TLost c p h existing
               | None => TPut c p h
               end)
  | TPut c p h =>
      Some (with_conn p (put_DB (poolKey (call_dsn cfg c)) h (conn_at p s)) s,
            match c with CAdd _ => TStored c p h | CURI _ _ => TPutName c p h end)
  | TPutName c p h =>
      match c with
      | CAdd _ => Some (s, TStored c p h)
      | CURI name dsn =>
          Some (with_conn p (put_DB (nameKey (uri_name name dsn)) h (conn_at p s)) s, TStored c p h)
      end
  | TStored c p h => s ← unlock p s; Some (s, TRet c (Val h))
  | TLost c p h existing => s ← unlock p s; Some (s, TClose c p h existing)
  | TClose c p h existing => Some (with_conn p (close_handle h (conn_at p s)) s, TRet c (Val existing))
  | TRet _ _ => None
  end.
End steps.

(** ** Locks *)

Definition locked (s : Pools) (p : nat) : bool :=
  match pools s !! p with Some o => Mtx o | None => false end.

Definition inside (t : thread) : option nat :=
  match t with
  | TFind _ p | TFound _ p _ | TCheck _ p _ | TPut _ p _ | TPutName _ p _ | TStored _ p _ | TLost _ p _ _ => Some p
  | _ => None
  end.

(** The goroutines that have returned, and those waiting for a server. *)
Definition away (t : thread) : bool := match t with TRet _ _ | TConnect _ _ => true | _ => false end.

(** The steps a goroutine has left, at most. *)
Definition rank (t : thread) : nat :=
  match t with
  | TGet GTest _ => 12 | TGet GNew _ => 11 | TGet GRead _ => 10
  | TLock _ _ => 9 | TFind _ _ => 8 | TFound _ _ _ => 7 | TConnect _ _ => 6
  | TRelock _ _ _ => 5 | TCheck _ _ _ => 4 | TPut _ _ _ => 3 | TPutName _ _ _ => 2 | TStored _ _ _ => 1
  | TLost _ _ _ _ => 2 | TClose _ _ _ _ => 1 | TRet _ _ => 0
  end.

Lemma pool_lock_Some p s s' : lock p s = Some s' → locked s p = false ∧ s' = set_Mtx p true s ∧ p < length (pools s).
Proof.
  unfold lock, locked. destruct (pools s !! p) as [[[] m]|] eqn:E; cbn; try done.
  intros [= <-]. split_and!; [done..|]. by eapply lookup_lt_Some.
Qed.

Lemma pool_unlock_Some p s s' : unlock p s = Some s' → locked s p = true ∧ s' = set_Mtx p false s ∧ p < length (pools s).
Proof.
  unfold unlock, locked. destruct (pools s !! p) as [[[] m]|] eqn:E; cbn; try done.
  intros [= <-]. split_and!; [done..|]. by eapply lookup_lt_Some.
Qed.

Lemma pool_lock_None p s : lock p s = None → p < length (pools s) → locked s p = true.
Proof.
  unfold lock, locked. intros E [o Ho]%lookup_lt_is_Some_2. rw Ho in E. rw Ho. by destruct o as [[]].
Qed.

Lemma pool_unlock_is_Some p s : locked s p = true → is_Some (unlock p s).
Proof. unfold unlock, locked. by destruct (pools s !! p) as [[[] m]|]. Qed.

Lemma pool_locked_set_Mtx p q b s : p < length (pools s) → locked (set_Mtx p b s) q = if decide (q = p) then b else locked s q.
Proof.
  intros Hp. unfold locked, set_Mtx. cbn. rw list_lookup_alter. case_decide as E.
  - subst q. rw decide_True //. by destruct (lookup_lt_is_Some_2 _ _ Hp) as [o ->].
  - by rw decide_False.
Qed.

Lemma locked_with_conn p st s q : locked (with_conn p st s) q = locked s q.
Proof.
  unfold locked, with_conn. cbn. rw list_lookup_alter. case_decide; [subst|done]. by destruct (pools s !! q).
Qed.

Lemma locked_new_pool s q : locked (new_pool s) q = locked s q.
Proof.
  unfold locked, new_pool. cbn. destruct (decide (q < length (pools s))) as [Hq|Hq].
  - by rw lookup_app_l.
  - rw lookup_app_r; [lia|]. rw (lookup_ge_None_2 (pools s) q); [lia|]. by destruct (q - _) as [|[]].
Qed.

Section discipline.
Context `{UnicodeTables}.
Variable dial : string → gores unit.
Variable cfg : Prest.
Implicit Types (s : Pools) (t : thread) (ts : list thread).

(** What a step does to the locks. *)
Lemma pool_step_locks : locks_follow_sections (pool_step dial cfg) locked inside.
Proof.
  intros s t s' t' Ha _.
  destruct t as [[] c|c p|c p|c p r|c p|c p h|c p h|c p h|c p h|c p h|c p h e|c p h e|c r]; cbn in Ha; try done.
  all: try (destruct (lock p s) as [s1|] eqn:El; [|done]; apply pool_lock_Some in El as (El & -> & Hp);
    injection Ha as <- <-; apply (lock_step _ _ _ _ _ _ p El); [|done..]; intros q; by rw pool_locked_set_Mtx).
  all: try (destruct (unlock p s) as [s1|] eqn:El; [|done]; apply pool_unlock_Some in El as (El & -> & Hp);
    injection Ha as <- <-; apply (unlock_step _ _ _ _ _ _ p El); [intros q; by rw pool_locked_set_Mtx|done|try done; by destruct r]).
  all: try (destruct (openAndPing _ _ _) as [st [h|e|w]]).
  all: try destruct c; injection Ha as <- <-; apply quiet_step; try (intros q; apply locked_with_conn); try done.
  all: try (intros q; apply locked_new_pool).
  all: cbn; try (by destruct (pool_var s)); by destruct (_ !! poolKey _).
Qed.

Lemma pool_step_rank s t s' t' : pool_step dial cfg s t = Some (s', t') → rank t' < rank t.
Proof.
  destruct t as [[] c|c p|c p|c p r|c p|c p h|c p h|c p h|c p h|c p h|c p h e|c p h e|c r]; cbn; try done.
  all: try (destruct (lock p s); cbn; [|done]).
  all: try (destruct (unlock p s); cbn; [|done]).
  all: try (destruct (openAndPing _ _ _) as [st [h|e|w]]).
  all: try destruct c; intros; simplify_eq; repeat case_match; cbn; lia.
Qed.

(** ** The maps *)

(** [p.DB] of the [p]-th object. *)
Definition db (p : nat) s : gmap string nat := DB (pool (conn_at p s)).

Lemma conn_at_with_conn p st s : p < length (pools s) → conn_at p (with_conn p st s) = st.
Proof.
  intros [o Ho]%lookup_lt_is_Some_2. unfold conn_at, with_conn. cbn. rw list_lookup_alter_eq Ho. by destruct st.
Qed.

Lemma db_with_conn p q st s :
  p < length (pools s) → db q (with_conn p st s) = if decide (q = p) then DB (pool st) else db q s.
Proof.
  intros Hp. case_decide as E; [subst; unfold db; by rw conn_at_with_conn|].
  unfold db, conn_at, with_conn. cbn. by rw list_lookup_alter_ne.
Qed.

Lemma conn_at_set_Mtx p b q s : conn_at q (set_Mtx p b s) = conn_at q s.
Proof.
  unfold conn_at, set_Mtx. cbn. f_equal. rw list_lookup_alter. case_decide; [subst|done].
  by destruct (pools s !! q).
Qed.

Lemma conn_at_new_pool q s : conn_at q (new_pool s) = conn_at q s.
Proof.
  unfold conn_at, new_pool. cbn. f_equal. destruct (decide (q < length (pools s))) as [Hq|Hq].
  - by rw lookup_app_l.
  - rw lookup_app_r; [lia|]. rw (lookup_ge_None_2 (pools s) q); [lia|]. by destruct (q - _) as [|[]].
Qed.

(** ** The invariant *)

(** Every connection of a pool is open, and is the one under the hash of its own
    DSN. *)
Record pools_ok s : Prop := {
  ok_var p : pool_var s = Some p → p < length (pools s);
  ok_filed p k h : db p s !! k = Some h → (h ∉ shut s) ∧ ∃ dsn, handles s !! h = Some dsn ∧
    db p s !! poolKey dsn = Some h ∧ (k = poolKey dsn ∨ ∃ n, k = nameKey n);
  ok_handles h dsn : handles s !! h = Some dsn → h < fresh s;
  ok_shut h : h ∈ shut s → h < fresh s
}.

(** [h] may be returned for [c]. *)
Definition answers s (c : call) (h : nat) : Prop :=
  ∃ p dsn, handles s !! h = Some dsn ∧ db p s !! poolKey dsn = Some h ∧
    match c with CAdd name => poolKey dsn = poolKey (GetURI cfg name) | CURI _ _ => True end.

(** [h] was opened for [c], and nobody else knows it yet. *)
Definition private s (c : call) (h : nat) : Prop :=
  handles s !! h = Some (call_dsn cfg c) ∧ (h ∉ shut s) ∧ ∀ p k, db p s !! k ≠ Some h.

(** The pool a goroutine works on, the connection that is its own, and the one
    it is about to publish or to close. *)
Definition target (t : thread) : option nat :=
  match t with
  | TLock _ p | TFind _ p | TFound _ p _ | TConnect _ p | TRelock _ p _ | TCheck _ p _ | TPut _ p _
  | TPutName _ p _ | TStored _ p _ | TLost _ p _ _ | TClose _ p _ _ => Some p
  | TGet _ _ | TRet _ _ => None
  end.
Definition owns (t : thread) : option nat :=
  match t with
  | TRelock _ _ h | TCheck _ _ h | TPut _ _ h | TLost _ _ h _ | TClose _ _ h _ => Some h
  | _ => None
  end.
Definition touches (t : thread) : option nat :=
  match t with TPut _ _ h | TPutName _ _ h | TClose _ _ h _ => Some h | _ => None end.

Definition knows s (t : thread) : Prop :=
  match t with
  | TFound c _ (Some h) | TRet c (Val h) => answers s c h
  | TRelock c _ h | TCheck c _ h => private s c h
  | TPut c p h => private s c h ∧ db p s !! poolKey (call_dsn cfg c) = None
  | TPutName c p h | TStored c p h =>
      handles s !! h = Some (call_dsn cfg c) ∧ db p s !! poolKey (call_dsn cfg c) = Some h
  | TLost c _ h e | TClose c _ h e => private s c h ∧ answers s c e
  | _ => True
  end.

Definition thread_ok s (t : thread) : Prop :=
  (∀ p, target t = Some p → p < length (pools s)) ∧ knows s t.

(** What a step of [t] may do to the state the others look at. *)
Record effect s (t : thread) s' : Prop := {
  eff_handles : handles s ⊆ handles s';
  eff_pools : length (pools s) ≤ length (pools s');
  eff_hash p dsn h : db p s !! poolKey dsn = Some h → db p s' !! poolKey dsn = Some h;
  eff_new p k h : db p s' !! k = Some h → db p s !! k = Some h ∨ touches t = Some h;
  eff_shut h : h ∈ shut s' → h ∈ shut s ∨ touches t = Some h;
  eff_outside p : inside t ≠ Some p → db p s' = db p s
}.

Lemma answers_effect s t s' c h : effect s t s' → answers s c h → answers s' c h.
Proof.
  intros He (p & dsn & Hh & Hd & ?). exists p, dsn. split_and!; [|by eapply eff_hash|done].
  eapply lookup_weaken; [done|by eapply eff_handles].
Qed.

Lemma private_effect s t s' c h : effect s t s' → touches t ≠ Some h → private s c h → private s' c h.
Proof.
  intros He Ht (Hh & Hs & Hp). split_and!.
  - eapply lookup_weaken; [done|by eapply eff_handles].
  - by intros [?|?]%(eff_shut _ _ _ He).
  - intros p k [Hk|?]%(eff_new _ _ _ He); [by apply Hp in Hk|done].
Qed.

Lemma thread_ok_effect s t s' x :
  effect s t s' → thread_ok s x →
  (∀ h, owns x = Some h → touches t ≠ Some h) → (∀ p, inside x = Some p → inside t ≠ Some p) →
  thread_ok s' x.
Proof.
  intros He [Hp Hk] Ho Hi. split.
  - intros p Hx%Hp. pose proof (eff_pools _ _ _ He). lia.
  - destruct x as [g c|c p|c p|c p [h|]|c p|c p h|c p h|c p h|c p h|c p h|c p h e|c p h e|c [h|e|w]]; cbn in *; try done.
    all: try (by eapply answers_effect).
    all: try (eapply private_effect; by auto).
    1: destruct Hk as [? Hn]; split; [eapply private_effect; by auto|]; by rw (eff_outside _ _ _ He); [apply Hi|].
    1,2: destruct Hk; split; [eapply lookup_weaken; [done|by eapply eff_handles]|by eapply eff_hash].
    all: destruct Hk; split; [eapply private_effect; by auto|by eapply answers_effect].
Qed.

(** *** The steps *)

(** A step that leaves the maps and the connections as they are. *)
Lemma quiet_ok s t s' :
  (∀ p, conn_at p s' = conn_at p s) → length (pools s) ≤ length (pools s') →
  (∀ p, pool_var s' = Some p → p < length (pools s')) → pools_ok s → effect s t s' ∧ pools_ok s'.
Proof.
  intros Hc Hl Hv [_ Hf Hh Hs].
  assert (∀ p, db p s' = db p s) as Ed by (intros p; unfold db; by rw Hc).
  assert (handles s' = handles s) as Eh by exact (f_equal opened (Hc 0)).
  assert (shut s' = shut s) as Es by exact (f_equal closed (Hc 0)).
  assert (fresh s' = fresh s) as En by exact (f_equal next (Hc 0)).
  split; split; rw ?Eh ?Es ?En; intros *; rw ?Ed; try apply Hh; auto.
Qed.

Lemma knows_quiet s s' t : effect s t s' → touches t = None → inside t = None → thread_ok s t → thread_ok s' t.
Proof. intros He Ht Hi Hk. by eapply thread_ok_effect; [done..|rw Ht|rw Hi]. Qed.

Lemma answers_found s c p h : pools_ok s → lookup_call cfg c (conn_at p s) = Some h → answers s c h.
Proof.
  intros Hok. unfold lookup_call. fold (db p s). destruct c as [name|name dsn].
  - intros Hk. destruct (ok_filed _ Hok _ _ _ Hk) as (_ & dsn & Ho & Hp & [E|[n E]]); [|by apply poolKey_nameKey in E].
    by exists p, dsn.
  - destruct (db p s !! poolKey dsn) as [h'|] eqn:Hk; [intros [= ->]|clear Hk; intros Hk];
      destruct (ok_filed _ Hok _ _ _ Hk) as (_ & d & Ho & Hp & _); by exists p, d.
Qed.

(** Opening: the new connection is the caller's own. *)
Lemma open_ok s t p c :
  pools_ok s → p < length (pools s) →
  let s' := with_conn p (MkConn (pool (conn_at p s)) (current_name s) (<[fresh s := call_dsn cfg c]> (handles s))
                           (shut s) (S (fresh s))) s in
  effect s t s' ∧ pools_ok s' ∧ private s' c (fresh s).
Proof.
  intros [Hv Hf Hh Hs] Hp s'.
  assert (∀ q, db q s' = db q s) as Ed.
  { intros q. unfold s'. rw db_with_conn //. by case_decide; [subst|]. }
  assert (handles s !! fresh s = None) as Hfresh.
  { destruct (handles s !! fresh s) as [d|] eqn:E; [|done]. apply Hh in E. lia. }
  assert (handles s ⊆ handles s') as Hsub by by apply insert_subseteq.
  split_and!; split; try (cbn; by rw ?length_alter).
  - intros *. by rw Ed.
  - intros *. rw Ed. by left.
  - by left.
  - intros q k h. rw Ed. intros (? & dsn & ? & ?)%Hf. split; [done|]. exists dsn.
    split; [by eapply lookup_weaken|done].
  - cbn. intros h dsn. rw lookup_insert_Some. intros [[<- _]|[_ ?%Hh]]; lia.
  - cbn. intros h ?%Hs. lia.
  - cbn. by rw lookup_insert_eq.
  - split; [by intros ?%Hs; lia|]. intros q k. rw Ed. intros (_ & dsn & Hd & _)%Hf. by rw Hfresh in Hd.
Qed.

(** Writing one entry of the map: the hash of the caller's own connection, or a
    name for one that is there under its hash. *)
Lemma put_ok s t p c h k :
  pools_ok s → p < length (pools s) → inside t = Some p → touches t = Some h →
  (k = poolKey (call_dsn cfg c) ∧ db p s !! k = None ∨ (∃ n, k = nameKey n) ∧ db p s !! poolKey (call_dsn cfg c) = Some h) →
  handles s !! h = Some (call_dsn cfg c) → (h ∉ shut s) →
  let s' := with_conn p (put_DB k h (conn_at p s)) s in
  effect s t s' ∧ pools_ok s' ∧ handles s' !! h = Some (call_dsn cfg c) ∧ db p s' !! poolKey (call_dsn cfg c) = Some h.
Proof.
  intros [Hv Hf Hh Hs] Hp Hi Ht Hk Hd Hn s'.
  assert (∀ q, db q s' = if decide (q = p) then <[k := h]> (db p s) else db q s) as Ed.
  { intros q. unfold s'. rw db_with_conn //. }
  assert (∀ q dsn h0, db q s !! poolKey dsn = Some h0 → db q s' !! poolKey dsn = Some h0) as Hhash.
  { intros q dsn h0 Hq. rw Ed. case_decide as E; [subst q|done]. destruct Hk as [[-> Hnone]|[[n ->] _]].
    - rw lookup_insert_ne; [intros E; by rw E Hq in Hnone|done].
    - rw lookup_insert_ne; [intros E; symmetry in E; by apply poolKey_nameKey in E|done]. }
  assert (db p s' !! poolKey (call_dsn cfg c) = Some h) as Hown.
  { destruct Hk as [[-> _]|[_ Hk]]; [|by apply Hhash]. rw Ed decide_True //. by rw lookup_insert_eq. }
  split_and!; [split|split|..]; try (cbn; by rw ?length_alter); try done.
  - intros q k0 h0. rw Ed. case_decide as E; [subst q|by left]. rw lookup_insert_Some.
    intros [[_ <-]|[_ ?]]; [by right|by left].
  - by left.
  - intros q Hq. rw Ed decide_False //. intros ->. by rw Hi in Hq.
  - intros q k0 h0 Hk0. rw Ed in Hk0. case_decide as E; [subst q; apply lookup_insert_Some in Hk0 as [[<- <-]|[_ Hk0]]|].
    + split; [done|]. exists (call_dsn cfg c). split_and!; [done..|]. destruct Hk as [[-> _]|[? _]]; auto.
    + destruct (Hf _ _ _ Hk0) as (? & dsn & ? & ?%Hhash & ?). eauto.
    + destruct (Hf _ _ _ Hk0) as (? & dsn & ? & ?%Hhash & ?). eauto.
Qed.

(** Closing the caller's own connection. *)
Lemma close_ok s t p c h :
  pools_ok s → p < length (pools s) → touches t = Some h → private s c h →
  let s' := with_conn p (close_handle h (conn_at p s)) s in effect s t s' ∧ pools_ok s'.
Proof.
  intros [Hv Hf Hh Hs] Hp Ht (Hd & Hn & Hout) s'.
  assert (∀ q, db q s' = db q s) as Ed.
  { intros q. unfold s'. rw db_with_conn //. by case_decide; [subst|]. }
  split; split; try (cbn; by rw ?length_alter); try done.
  - intros *. by rw Ed.
  - intros *. rw Ed. by left.
  - cbn. intros h0. rw elem_of_union elem_of_singleton. intros [->|?]; [by right|by left].
  - intros q k h0. rw Ed. intros Hk. destruct (Hf _ _ _ Hk) as (? & dsn & ? & ?). split; [|by exists dsn].
    cbn. rw elem_of_union elem_of_singleton. intros [->|?]; [by apply Hout in Hk|done].
  - cbn. intros h0. rw elem_of_union elem_of_singleton. intros [->|?]; [by eapply Hh|by apply Hs].
Qed.

Lemma quiet_mtx s t p b : pools_ok s → let s' := set_Mtx p b s in effect s t s' ∧ pools_ok s'.
Proof.
  intros Hok. apply quiet_ok; [by intros q; apply conn_at_set_Mtx| | |done]; cbn; rw length_alter; [done|apply Hok].
Qed.

Lemma quiet_new s t : pools_ok s → effect s t (new_pool s) ∧ pools_ok (new_pool s).
Proof.
  intros Hok. apply quiet_ok; [by intros q; apply conn_at_new_pool| | |done]; cbn; rw length_app; cbn; [lia|].
  intros p [= <-]. lia.
Qed.

Lemma with_conn_id p s : p < length (pools s) → with_conn p (conn_at p s) s = s.
Proof.
  intros [o Ho]%lookup_lt_is_Some_2. unfold with_conn, conn_at. rw Ho. destruct s as [v ps n hs sh f]. cbn in *.
  f_equal. apply list_eq. intros q. rw list_lookup_alter. case_decide; [subst|done].
  rw Ho. cbn. by destruct o.
Qed.

(** A goroutine after a step that changed nothing it knows. *)
Lemma next_ok s t s' t' :
  effect s t s' ∧ pools_ok s' → target t' = target t ∨ target t' = None →
  (∀ p, target t = Some p → p < length (pools s)) →
  (effect s t s' → pools_ok s' → knows s' t') → (∀ h, owns t' = Some h → owns t = Some h ∨ h = fresh s) →
  effect s t s' ∧ pools_ok s' ∧ thread_ok s' t' ∧ (∀ h, owns t' = Some h → owns t = Some h ∨ h = fresh s).
Proof.
  intros [He Hok] Ht Hp Hk Ho. split_and!; [done..| |done]. split; [|auto].
  intros p Hx. pose proof (eff_pools _ _ _ He). destruct Ht as [Ht|Ht]; rw Ht in Hx; [|done].
  specialize (Hp p Hx). lia.
Qed.

Lemma pool_step_ok s t s' t' :
  pools_ok s → thread_ok s t → pool_step dial cfg s t = Some (s', t') →
  effect s t s' ∧ pools_ok s' ∧ thread_ok s' t' ∧ (∀ h, owns t' = Some h → owns t = Some h ∨ h = fresh s).
Proof.
  intros Hok [Hp Hk] Ha.
  assert (∀ t, effect s t s ∧ pools_ok s) as Hid by (intros x; by apply quiet_ok; [..|apply Hok|]).
  destruct t as [[] c|c p|c p|c p r|c p|c p h|c p h|c p h|c p h|c p h|c p h e|c p h e|c r]; cbn in Ha, Hp, Hk; try done.
  - injection Ha as <- <-. apply next_ok; [done|by destruct (pool_var s); auto|done|by destruct (pool_var s)|by destruct (pool_var s)].
  - injection Ha as <- <-. apply next_ok; [by apply quiet_new|by auto|done|done|done].
  - injection Ha as <- <-. destruct (Hid (TGet GRead c)) as [He _]. split_and!; [done..| |by destruct (pool_var s)].
    destruct (pool_var s) as [p|] eqn:E; split; try done. cbn. intros q [= <-]. by apply Hok.
  - destruct (lock p s) as [s1|] eqn:El; [|done]. apply pool_lock_Some in El as (_ & -> & _). injection Ha as <- <-.
    apply next_ok; [by apply quiet_mtx|by auto|done|done|done].
  - injection Ha as <- <-. apply next_ok; [done|by auto|done| |done]. intros _ _. cbn.
    destruct (lookup_call cfg c (conn_at p s)) as [h|] eqn:El; [|done]. by eapply answers_found.
  - destruct (unlock p s) as [s1|] eqn:El; [|done]. apply pool_unlock_Some in El as (_ & -> & _). injection Ha as <- <-.
    apply next_ok; [by apply quiet_mtx|by destruct r; auto|done| |by destruct r].
    intros He _. destruct r; [by eapply answers_effect|done].
  - unfold openAndPing in Ha. destruct (dial (call_dsn cfg c)) as [u|e|w].
    + injection Ha as <- <-. destruct (open_ok s (TConnect c p) p c) as (He & Hok' & Hpr); [done|by apply Hp|].
      apply next_ok; [done|by left|done|done|]. intros h [= <-]. by right.
    + injection Ha as <- <-. rw with_conn_id; [by apply Hp|]. apply next_ok; [done|by auto|done|done|done].
    + injection Ha as <- <-. rw with_conn_id; [by apply Hp|]. apply next_ok; [done|by auto|done|done|done].
  - destruct (lock p s) as [s1|] eqn:El; [|done]. apply pool_lock_Some in El as (_ & -> & _). injection Ha as <- <-.
    apply next_ok; [by apply quiet_mtx|by auto|done| |by auto]. intros He _. by eapply private_effect.
  - injection Ha as <- <-. change (DB (default _ _)) with (db p s).
    destruct (db p s !! poolKey (call_dsn cfg c)) as [e|] eqn:Ed;
      (apply next_ok; [done|by auto|done| |by auto]); intros _ _; cbn; (split; [done|]); [|done].
    destruct (ok_filed _ Hok _ _ _ Ed) as (_ & d & Hd & Hpd & [E|[n E]]); [|by apply poolKey_nameKey in E].
    exists p, d. split_and!; [done..|]. by destruct c.
  - injection Ha as <- <-. destruct Hk as [(Hd & Hn & _) Hnone].
    destruct (put_ok s (TPut c p h) p c h (poolKey (call_dsn cfg c))) as (He & Hok' & Hd' & Hown);
      [auto..|]. apply next_ok; [done|by left; destruct c|done|by destruct c|by destruct c].
  - destruct Hk as [Hd Hown]. destruct (ok_filed _ Hok _ _ _ Hown) as [Hn _]. destruct c as [name|name dsn].
    + injection Ha as <- <-. apply next_ok; [done|by auto|done|done|done].
    + injection Ha as <- <-.
      destruct (put_ok s (TPutName (CURI name dsn) p h) p (CURI name dsn) h (nameKey (uri_name name dsn))) as (He & Hok' & Hd' & Hown');
        [eauto..|]. apply next_ok; [done|by auto|done|done|done].
  - destruct (unlock p s) as [s1|] eqn:El; [|done]. apply pool_unlock_Some in El as (_ & -> & _). injection Ha as <- <-.
    apply next_ok; [by apply quiet_mtx|by auto|done| |done]. intros He _. destruct Hk as [Hd Hown]. cbn.
    eapply (answers_effect s _ _ _ _ He). exists p, (call_dsn cfg c). split_and!; [done..|]. by destruct c.
  - destruct (unlock p s) as [s1|] eqn:El; [|done]. apply pool_unlock_Some in El as (_ & -> & _). injection Ha as <- <-.
    apply next_ok; [by apply quiet_mtx|by auto|done| |by auto]. intros He _. destruct Hk.
    split; [by eapply private_effect|by eapply answers_effect].
  - injection Ha as <- <-. destruct Hk as [Hpr Han]. apply next_ok; [by eapply close_ok; eauto|by auto|done| |done].
    intros He _. by eapply answers_effect.
Qed.

(** *** All goroutines *)

Record pools_inv (c : Pools * list thread) : Prop := {
  inv_mutex : mutual_exclusion locked inside c.1 c.2;
  inv_pools : pools_ok c.1;
  inv_threads : Forall (thread_ok c.1) c.2;
  inv_own i j t t' h : c.2 !! i = Some t → c.2 !! j = Some t' → owns t = Some h → owns t' = Some h → i = j
}.

Lemma owns_private s t h : thread_ok s t → owns t = Some h → ∃ c, private s c h.
Proof.
  intros [_ Hk]. destruct t as [g c|c p|c p|c p r|c p|c p h0|c p h0|c p h0|c p h0|c p h0|c p h0 e|c p h0 e|c r];
    try done; cbn in *; intros [= ->]; exists c; by try destruct Hk.
Qed.

(** Nobody else owns the connection a step publishes or closes. *)
Lemma touches_own s ts i j t x h :
  Forall (thread_ok s) ts → (∀ i j t t' h, ts !! i = Some t → ts !! j = Some t' → owns t = Some h → owns t' = Some h → i = j) →
  i ≠ j → ts !! i = Some t → ts !! j = Some x → owns x = Some h → touches t ≠ Some h.
Proof.
  intros Hts Hown Hne Hi Hj Hx Ht. destruct (owns t) as [h'|] eqn:Ho.
  - apply Hne, (Hown i j t x h); try done. by destruct t; simplify_eq/=.
  - destruct (owns_private s x h) as (c & _ & _ & Hp); [by eapply (Forall_lookup_1 _ _ _ _ Hts)|done|].
    destruct (Forall_lookup_1 _ _ _ _ Hts Hi) as [_ Hk]. destruct t; simplify_eq/=. destruct Hk as [_ Hk]. by apply Hp in Hk.
Qed.

Lemma pools_inv_step c c' : interleave (pool_step dial cfg) c c' → pools_inv c → pools_inv c'.
Proof.
  intros Hs [Hm Hok Hts Hown]. pose proof (mutual_exclusion_step _ _ _ _ _ pool_step_locks Hs Hm) as Hm'.
  destruct Hs as [s s' ts i t t' Hi Ha]. cbn in *. pose proof (Forall_lookup_1 _ _ _ _ Hts Hi) as Ht.
  destruct (pool_step_ok _ _ _ _ Hok Ht Ha) as (He & Hok' & Ht' & Ho).
  assert (∀ j x h, j ≠ i → ts !! j = Some x → owns t' = Some h → owns x = Some h → False) as Hnew.
  { intros j x h Hne Hj Ht0 Hx. destruct (Ho h Ht0) as [Ho' | ->]; [by apply Hne, (Hown j i x t h)|].
    destruct (owns_private s x (fresh s)) as (c & Hd & _); [by eapply (Forall_lookup_1 _ _ _ _ Hts)|done|].
    apply (ok_handles _ Hok) in Hd. lia. }
  split; [done..| |]; cbn.
  - apply Forall_lookup_2. intros j x [[-> ->] | [Hne Hj]]%lookup_insert_cases; [done|].
    eapply thread_ok_effect; [exact He|by eapply (Forall_lookup_1 _ _ _ _ Hts)|..].
    + intros h Hx. by eapply (touches_own s ts i j).
    + intros p Hx Hin. apply Hne. symmetry. by eapply (one_inside locked inside s ts).
  - intros j k x y h [[-> ->] | [Hj' Hj]]%lookup_insert_cases [[-> ->] | [Hk' Hk]]%lookup_insert_cases Hx Hy;
      [done|by destruct (Hnew k y h)|by destruct (Hnew j x h)|by eapply Hown].
Qed.

Lemma start_ok c : inside (start c) = None ∧ owns (start c) = None ∧ ∀ s, thread_ok s (start c).
Proof. by destruct c as [name|name [|]]. Qed.

Lemma pools_inv_init made cs : pools_inv (init_pools made, start <$> cs).
Proof.
  assert (∀ p, db p (init_pools made) = ∅) as Ed.
  { intros p. unfold db. destruct made; [cbn [init_pools]; by rw conn_at_new_pool|done]. }
  split; cbn.
  - intros o. rw (_ : sum_list_with (in_section inside o) (start <$> cs) = 0).
    + induction cs as [|c cs IH]; [done|]. cbn. rw IH. unfold in_section. by rw (proj1 (start_ok c)).
    + destruct made; [cbn [init_pools]; by rw locked_new_pool|done].
  - split.
    + destruct made; [|done]. intros p [= <-]. cbn. lia.
    + intros p k h. by rw Ed lookup_empty.
    + intros h dsn. by destruct made; rw lookup_empty.
    + intros h. by destruct made.
  - apply Forall_forall. intros t [c [-> _]]%list_elem_of_fmap. apply start_ok.
  - intros i j t t' h (c & -> & _)%list_lookup_fmap_Some _. by rw (proj1 (proj2 (start_ok c))).
Qed.

Lemma pools_inv_reached made cs c :
  rtc (interleave (pool_step dial cfg)) (init_pools made, start <$> cs) c → pools_inv c.
Proof. intros Hr. by eapply (rtc_invariant _ _ _ _ pools_inv_step Hr), pools_inv_init. Qed.

(** When the pool is there before, nobody makes another. *)
Definition single (c : Pools * list thread) : Prop :=
  length (pools c.1) = 1 ∧ is_Some (pool_var c.1) ∧ Forall (λ t, ∀ c, t ≠ TGet GNew c) c.2.

Lemma pool_step_single s t s' t' :
  is_Some (pool_var s) → (∀ c, t ≠ TGet GNew c) → pool_step dial cfg s t = Some (s', t') →
  length (pools s') = length (pools s) ∧ pool_var s' = pool_var s ∧ ∀ c, t' ≠ TGet GNew c.
Proof.
  intros [q Hq] Hn Ha.
  destruct t as [[] c|c p|c p|c p r|c p|c p h|c p h|c p h|c p h|c p h|c p h e|c p h e|c r]; cbn in Ha; try done.
  all: try (by destruct (Hn c)).
  all: try (destruct (lock p s) as [s1|] eqn:El; [|done]; apply pool_lock_Some in El as (El & -> & Hp)).
  all: try (destruct (unlock p s) as [s1|] eqn:El; [|done]; apply pool_unlock_Some in El as (El & -> & Hp)).
  all: try (destruct (openAndPing _ _ _) as [st [h|e|w]]).
  all: try rw Hq in Ha; try destruct c; injection Ha as <- <-; (split; [cbn; by rw ?length_alter|split; [reflexivity|]]).
  all: try (intros ?; discriminate).
  all: intros c E; repeat case_match; discriminate E.
Qed.

Lemma single_step c c' : interleave (pool_step dial cfg) c c' → single c → single c'.
Proof.
  intros [s s' ts i t t' Hi Ha] (Hl & Hv & Hts). cbn in *.
  destruct (pool_step_single s t s' t') as (Hl' & Hv' & Ht'); [done|by eapply (Forall_lookup_1 _ _ _ _ Hts)|done|].
  split_and!; cbn; [congruence|by rw Hv'|by apply Forall_insert].
Qed.

Lemma single_reached cs c :
  rtc (interleave (pool_step dial cfg)) (init_pools true, start <$> cs) c → single c.
Proof.
  intros Hr. eapply (rtc_invariant _ _ _ _ single_step Hr). split_and!; [done|by eexists|].
  apply Forall_forall. intros t [[name|name [|]] [-> _]]%list_elem_of_fmap; done.
Qed.

(** *** Progress *)

Lemma pool_discipline s t : pools_ok s → thread_ok s t → lock_discipline (pool_step dial cfg) locked inside away s t.
Proof.
  intros Hok [Hp Hk]. split.
  - destruct t as [[] c|c p|c p|c p r|c p|c p h|c p h|c p h|c p h|c p h|c p h e|c p h e|c r]; cbn in *; try done.
    all: intros _ _; destruct (lock p s) as [s1|] eqn:El; [done|]; intros _; exists p; apply pool_lock_None; auto.
  - intros o. destruct t as [[] c|c p|c p|c p r|c p|c p h|c p h|c p h|c p h|c p h|c p h e|c p h e|c r]; cbn in *; try done.
    all: intros [= ->] Ho; destruct (pool_unlock_is_Some o s Ho) as [s1 Eu]; rw ?Eu; try done; by destruct c.
Qed.

Lemma pool_inv_discipline c :
  pools_inv c → mutual_exclusion locked inside c.1 c.2 ∧ Forall (lock_discipline (pool_step dial cfg) locked inside away c.1) c.2.
Proof.
  intros [Hm Hok Hts _]. split; [done|]. eapply Forall_impl; [exact Hts|]. intros t. by apply pool_discipline.
Qed.
End discipline.

(** ** Running alone *)

Section alone.
Context `{UnicodeTables}.
Variable dial : string → gores unit.
Variable cfg : Prest.
Implicit Types (s : Pools) (ts : list thread).

(** The sequential state: the object the pointer designates; a nil pointer reads
    as an empty pool. *)
Definition current s : ConnState := conn_at (default (length (pools s)) (pool_var s)) s.

Lemma pools_eq s s' :
  pool_var s = pool_var s' → current_name s = current_name s' → handles s = handles s' → shut s = shut s' →
  fresh s = fresh s' → (∀ p, pools s !! p = pools s' !! p) → s = s'.
Proof. destruct s, s'. cbn. intros -> -> -> -> -> E. f_equal. by apply list_eq. Qed.

Lemma pool_lock_free p s : p < length (pools s) → locked s p = false → lock p s = Some (set_Mtx p true s).
Proof. unfold lock, locked. intros [o Ho]%lookup_lt_is_Some_2. rw Ho. by destruct o as [[]]. Qed.

(** What a critical section wrote is there when it is left. *)
Lemma leave_section p st s :
  p < length (pools s) → locked s p = false →
  unlock p (with_conn p st (set_Mtx p true s)) = Some (with_conn p st s).
Proof.
  intros Hp Hl. destruct (lookup_lt_is_Some_2 _ _ Hp) as [[b m] Ho]. unfold locked in Hl. rw Ho in Hl. cbn in Hl. subst b.
  unfold unlock, set_Mtx, with_conn at 1. cbn. rw !list_lookup_alter_eq Ho. cbn. f_equal. apply pools_eq; try done.
  intros q. cbn. destruct (decide (q = p)) as [->|Hne]; [by rw !list_lookup_alter_eq Ho|by rw !list_lookup_alter_ne].
Qed.

Lemma leave_section_quiet p s :
  p < length (pools s) → locked s p = false → unlock p (set_Mtx p true s) = Some s.
Proof.
  intros Hp Hl. pose proof (leave_section p (conn_at p s) s Hp Hl) as E.
  rw -(conn_at_set_Mtx p true p s) with_conn_id in E; [by cbn; rw length_alter|].
  by rw conn_at_set_Mtx with_conn_id in E.
Qed.

Lemma with_conn_twice p st st' s : with_conn p st' (with_conn p st s) = with_conn p st' s.
Proof.
  apply pools_eq; try done. intros q. cbn.
  destruct (decide (q = p)) as [->|Hne]; [rw !list_lookup_alter_eq; by destruct (pools s !! p)|by rw !list_lookup_alter_ne].
Qed.

Lemma length_with_conn p st s : length (pools (with_conn p st s)) = length (pools s).
Proof. cbn. apply length_alter. Qed.

#[local] Abbreviation moves := (Goroutines.moves (pool_step dial cfg)).

(** The second critical section. *)
Lemma store_moves s c p h :
  p < length (pools s) → locked s p = false →
  rtc moves (s, TRelock c p h)
    (with_conn p (store_call cfg c h (conn_at p s)).1 s, TRet c (Val (store_call cfg c h (conn_at p s)).2)).
Proof.
  intros Hp Hl. eapply rtc_l; [unfold moves, Goroutines.moves; cbn; by rw pool_lock_free|].
  eapply rtc_l; [done|]. cbn [fst snd]. rw conn_at_set_Mtx. unfold store_call.
  destruct (DB (pool (conn_at p s)) !! poolKey (call_dsn cfg c)) as [e|] eqn:Ed.
  - eapply rtc_l; [unfold Goroutines.moves; cbn [fst snd pool_step]; by rw leave_section_quiet|]. by apply rtc_once.
  - eapply rtc_l; [done|]. cbn [fst snd]. rw conn_at_set_Mtx.
    destruct c as [name|name dsn].
    + apply rtc_once. unfold Goroutines.moves. cbn [fst snd pool_step]. by rw leave_section.
    + eapply rtc_l; [done|]. cbn [fst snd].
      rw conn_at_with_conn; [by cbn; rw length_alter|]. rw with_conn_twice.
      apply rtc_once. unfold Goroutines.moves. cbn [fst snd pool_step]. by rw leave_section.
Qed.

Lemma call_moves s c p :
  p < length (pools s) → locked s p = false → start c = TGet GTest c →
  rtc moves (s, TLock c p)
    (with_conn p (run_call dial cfg c (conn_at p s)).1 s, TRet c (run_call dial cfg c (conn_at p s)).2).
Proof.
  intros Hp Hl Hc.
  assert (run_call dial cfg c (conn_at p s) = match lookup_call cfg c (conn_at p s) with
      | Some h => (conn_at p s, Val h)
      | None => match openAndPing dial (call_dsn cfg c) (conn_at p s) with
          | (st, Val h) => let '(st, h) := store_call cfg c h st in (st, Val h)
          | (st, Err e) => (st, Err (connect_error c e))
          | (st, Panic w) => (st, Panic w)
          end end) as -> by (by destruct c as [name|name [|]]).
  eapply rtc_l; [unfold moves, Goroutines.moves; cbn; by rw pool_lock_free|].
  eapply rtc_l; [done|]. cbn [fst snd]. rw conn_at_set_Mtx.
  destruct (lookup_call cfg c (conn_at p s)) as [h|] eqn:El.
  - apply rtc_once. unfold Goroutines.moves. cbn [fst snd pool_step]. by rw leave_section_quiet // with_conn_id.
  - eapply rtc_l; [unfold Goroutines.moves; cbn [fst snd pool_step]; by rw leave_section_quiet|].
    destruct (openAndPing dial (call_dsn cfg c) (conn_at p s)) as [st [h|e|w]] eqn:Eo.
    + eapply rtc_l; [unfold Goroutines.moves; cbn [fst snd pool_step]; by rw Eo|].
      pose proof (store_moves (with_conn p st s) c p h) as Hs. rw length_with_conn locked_with_conn conn_at_with_conn // with_conn_twice in Hs.
      destruct (store_call cfg c h st) as [st' h']. by apply Hs.
    + apply rtc_once. unfold Goroutines.moves. cbn [fst snd pool_step]. by rw Eo.
    + apply rtc_once. unfold Goroutines.moves. cbn [fst snd pool_step]. by rw Eo.
Qed.

Lemma GetPool_moves s c :
  ∃ p, GetPool s = ((GetPool s).1, Some p) ∧ rtc moves (s, TGet GTest c) ((GetPool s).1, TLock c p).
Proof.
  unfold GetPool. destruct (pool_var s) as [p|] eqn:E; cbn.
  - exists p. split; [by rw E|]. eapply rtc_l; [done|]. cbn [fst snd]. rw E.
    apply rtc_once. unfold Goroutines.moves. cbn. by rw E.
  - exists (length (pools s)). split; [done|]. eapply rtc_l; [done|]. cbn [fst snd]. rw E.
    eapply rtc_l; [done|]. by apply rtc_once.
Qed.

(** One whole call, seen from the sequential state. *)
Lemma run_moves s c :
  (∀ p, locked s p = false) → (∀ p, pool_var s = Some p → p < length (pools s)) →
  ∃ s', rtc moves (s, start c) (s', TRet c (run_call dial cfg c (current s)).2) ∧
    current s' = (run_call dial cfg c (current s)).1.
Proof.
  intros Hl Hv. assert (start c = TGet GTest c ∨ ∃ n, c = CURI n "") as [Hc|[n ->]].
  { destruct c as [name|name [|]]; eauto. }
  - destruct (GetPool_moves s c) as (p & Eg & Hm). rw Hc. unfold GetPool in *.
    set (s1 := match pool_var s with Some _ => s | None => new_pool s end) in *.
    injection Eg as Ep. assert (current s = conn_at p s1) as ->.
    { unfold current, s1 in *. destruct (pool_var s) as [q|] eqn:E; cbn in *; [congruence|].
      injection Ep as <-. by rw conn_at_new_pool. }
    assert (p < length (pools s1) ∧ locked s1 p = false) as [Hp Hlp].
    { unfold s1 in *. destruct (pool_var s) as [q|] eqn:E; cbn in Ep; [split; [apply Hv; congruence|done]|].
      rw locked_new_pool. split; [|done]. cbn. injection Ep as <-. rw length_app. cbn. lia. }
    exists (with_conn p (run_call dial cfg c (conn_at p s1)).1 s1). split.
    + etrans; [exact Hm|]. by apply call_moves.
    + unfold current. cbn [pool_var with_conn]. rw Ep. cbn [default]. by rw conn_at_with_conn.
  - by exists s.
Qed.
End alone.

(** ** Properties *)

Section properties.
Context `{UnicodeTables}.

(** C25: The pool under concurrency.  Whatever the interleaving of any number of
    [AddDatabaseToPool] and [AddURI] calls, from [GetPool]'s test of the pointer
    on, and whether or not the pool was made before them: every connection in a
    pool is open and filed under the hash of its own DSN or under a name; every
    connection a call returns is open and filed in a pool under the hash of its
    DSN, and for a database name that is the DSN of this database; and calls
    for one database share one connection when the pool was there before (as
    start-up leaves it), and otherwise unless two first calls made two pools. *)
Theorem pool_safety dial cfg made cs s ts :
  rtc (interleave (pool_step dial cfg)) (init_pools made, start <$> cs) (s, ts) →
  (∀ p k h, db p s !! k = Some h → (h ∉ shut s) ∧
     ∃ dsn, handles s !! h = Some dsn ∧ (k = poolKey dsn ∨ ∃ n, k = nameKey n)) ∧
  (∀ i c h, ts !! i = Some (TRet c (Val h)) → (h ∉ shut s) ∧
     ∃ p dsn, handles s !! h = Some dsn ∧ db p s !! poolKey dsn = Some h ∧
       match c with CAdd name => poolKey dsn = poolKey (GetURI cfg name) | CURI _ _ => True end) ∧
  (∀ i j n1 n2 h1 h2, ts !! i = Some (TRet (CAdd n1) (Val h1)) → ts !! j = Some (TRet (CAdd n2) (Val h2)) →
     GetURI cfg n1 = GetURI cfg n2 → h1 = h2 ∨ (made = false ∧ 1 < length (pools s))).
Proof.
  intros Hr. destruct (pools_inv_reached _ _ _ _ _ Hr) as [_ Hok Hts _]. cbn in *.
  assert (∀ i c h, ts !! i = Some (TRet c (Val h)) → answers cfg s c h) as Hret
    by (intros i c h Hi; exact (proj2 (Forall_lookup_1 _ _ _ _ Hts Hi))).
  split_and!.
  - intros p k h Hk. destruct (ok_filed _ Hok _ _ _ Hk) as (? & d & ? & _ & ?). eauto.
  - intros i c h Hi%Hret. split; [|exact Hi]. destruct Hi as (p & d & _ & Hd & _). by apply (ok_filed _ Hok) in Hd as [? _].
  - intros i j n1 n2 h1 h2 (p1 & d1 & _ & Hd1 & E1)%Hret (p2 & d2 & _ & Hd2 & E2)%Hret E.
    assert (poolKey d2 = poolKey d1) as Ed by (rw E1 E2; by apply (f_equal poolKey)).
    rw Ed in Hd2. destruct (decide (p1 = p2)) as [->|Hne]; [left; congruence|right].
    assert (∀ p k h, db p s !! k = Some h → p < length (pools s)) as Hlt.
    { intros p k h. unfold db, conn_at. cbn. destruct (pools s !! p) as [o|] eqn:Ho; [intros _; by eapply lookup_lt_Some|].
      cbn. by rw lookup_empty. }
    apply Hlt in Hd1, Hd2. assert (1 < length (pools s)) as Hl by lia. split; [|done].
    destruct made; [|done]. apply single_reached in Hr as [Hone _]. cbn in Hone. lia.
Qed.

(** C30: The lock of the pool.  However the goroutines are scheduled, at most one is in
    the critical sections of a pool; n calls take at most 12n steps; and as long
    as a call has not returned and is not waiting for a server, some goroutine
    that is not waiting for a server can move: servers that never answer hold up
    their own callers only. *)
Theorem pool_calls_return dial cfg made cs n s ts :
  nsteps (interleave (pool_step dial cfg)) n (init_pools made, start <$> cs) (s, ts) →
  n ≤ 12 * length cs ∧
  (∀ i j t t' p, ts !! i = Some t → ts !! j = Some t' → inside t = Some p → inside t' = Some p → i = j) ∧
  ((∀ i t, ts !! i = Some t → away t = false → pool_step dial cfg s t = None) →
   Forall (λ t, away t = true) ts).
Proof.
  intros Hn. assert (rtc (interleave (pool_step dial cfg)) (init_pools made, start <$> cs) (s, ts)) as Hr by by eapply rtc_nsteps_2.
  destruct (pool_inv_discipline dial cfg _ (pools_inv_reached _ _ _ _ _ Hr)) as [Hm Hd]. cbn in *. split_and!.
  - apply (steps_ranked _ rank (pool_step_rank dial cfg)) in Hn. cbn in Hn.
    pose proof (sum_list_with_bound rank 12 (start <$> cs)) as Hb. rw length_fmap in Hb.
    assert (∀ t, rank t ≤ 12) as H12 by (intros [[] ?|? ?|? ?|? ? ?|? ?|? ? ?|? ? ?|? ? ?|? ? ?|? ? ?|? ? ? ?|? ? ? ?|? ?]; cbn; lia).
    specialize (Hb H12). lia.
  - intros i j t t' p Hi Hj Hp Hp'. by eapply (one_inside locked inside s ts).
  - by apply (no_deadlock _ _ _ _ s ts Hd Hm).
Qed.

(** The sequential call is what the concurrent code does without interference:
    from any reachable state in which nobody is in a critical section, a call
    that runs alone ends with the state and the result of [run_call]. *)
Theorem run_call_is_interleaving dial cfg made cs s ts i c :
  rtc (interleave (pool_step dial cfg)) (init_pools made, start <$> cs) (s, ts) →
  ts !! i = Some (start c) → (∀ p, locked s p = false) →
  ∃ s', rtc (interleave (pool_step dial cfg)) (s, ts) (s', <[i := TRet c (run_call dial cfg c (current s)).2]> ts) ∧
    current s' = (run_call dial cfg c (current s)).1.
Proof.
  intros Hr Hi Hl. destruct (pools_inv_reached _ _ _ _ _ Hr) as [_ Hok _ _].
  destruct (run_moves dial cfg s c Hl (ok_var _ Hok)) as (s' & Hm & Es). exists s'. split; [|done].
  exact (moves_interleave _ _ _ _ _ Hm Hi).
Qed.
End properties.

(** ** What the races do *)

#[local] Existing Instance ascii_tables.

(** A server that accepts every connection. *)
Definition always_up : string → gores unit := λ _, Val tt.

(** Goroutines [n] times in a row, as an order for [schedule]. *)
Definition turns (l : list (nat * nat)) : list nat := l ≫= λ '(i, n), replicate n i.

(** [GetPool] tests the pointer without a lock: two first calls can both make a
    pool.  They then return different connections to one database, each open,
    and the one in the first pool is lost to every later call. *)
Theorem first_calls_make_two_pools :
  ∃ s, rtc (interleave (pool_step always_up zero_Prest)) (init_pools false, start <$> [CAdd "db"; CAdd "db"])
         (s, [TRet (CAdd "db") (Val 0); TRet (CAdd "db") (Val 1)]) ∧
    length (pools s) = 2 ∧ shut s = ∅ ∧
    (run_call always_up zero_Prest (CAdd "db") (current s)).2 = Val 1.
Proof.
  eexists. split_and!.
  - apply (schedule_sound _ (turns [(0, 1); (1, 1); (0, 10); (1, 10)])). vm_compute. reflexivity.
  - done.
  - done.
  - by vm_compute.
Qed.

(** [AddURI] does not check the name again before storing it: two
    goroutines that register different DSNs under one name both succeed with
    different connections, the name ends up on the second, while run one after
    the other the second call returns the first connection. *)
Theorem AddURI_race_overwrites_name :
  ∃ s, rtc (interleave (pool_step always_up zero_Prest)) (init_pools true, start <$> [CURI "a" "dsn1"; CURI "a" "dsn2"])
         (s, [TRet (CURI "a" "dsn1") (Val 0); TRet (CURI "a" "dsn2") (Val 1)]) ∧
    db 0 s !! nameKey "a" = Some 1 ∧
    let '(st1, r1) := AddURI always_up zero_Prest "a" "dsn1" init_conn in
    (AddURI always_up zero_Prest "a" "dsn2" st1).2 = r1.
Proof.
  eexists. split_and!.
  - apply (schedule_sound _ (turns [(0, 5); (1, 5); (0, 6); (1, 6)])). vm_compute. reflexivity.
  - by vm_compute.
  - by vm_compute.
Qed.

(** ** Witnesses *)

(** Two calls for one database connect side by side; the second closes its
    connection. *)
Definition pool_calls : list call := [CAdd "db"; CAdd "db"].
Definition pool_order : list nat := turns [(0, 5); (1, 5); (0, 5); (1, 5)].

Definition pool_run : option (Pools * list thread) :=
  schedule (pool_step always_up zero_Prest) pool_order (init_pools true, start <$> pool_calls).
Definition pool_end : Pools := from_option fst nil_pools pool_run.

Lemma pool_run_end :
  pool_run = Some (pool_end, [TRet (CAdd "db") (Val 0); TRet (CAdd "db") (Val 0)]).
Proof. vm_compute. reflexivity. Qed.

Lemma pool_safety_witness : (0 ∉ shut pool_end) ∧ length pool_order = 20 ∧ 1 ∈ shut pool_end.
Proof.
  split; [|split; [reflexivity|by apply (bool_decide_unpack _); vm_compute]].
  exact (proj1 (proj1 (proj2 (pool_safety always_up zero_Prest true pool_calls _ _
    (schedule_sound _ _ _ _ pool_run_end))) 0 (CAdd "db") 0 eq_refl)).
Defined.

Lemma pool_calls_return_witness : 20 ≤ 12 * length pool_calls.
Proof.
  exact (proj1 (pool_calls_return always_up zero_Prest true pool_calls _ _ _ (schedule_nsteps _ _ _ _ pool_run_end))).
Defined.

Lemma run_call_witness :
  ∃ s', rtc (interleave (pool_step always_up zero_Prest)) (init_pools true, start <$> pool_calls)
          (s', <[0 := TRet (CAdd "db") (Val 0)]> (start <$> pool_calls)) ∧
    DB (pool (current s')) !! poolKey (GetURI zero_Prest "db") = Some 0.
Proof.
  destruct (run_call_is_interleaving always_up zero_Prest true pool_calls (init_pools true) (start <$> pool_calls) 0 (CAdd "db"))
    as (s' & Hr & Hc); [apply rtc_refl | reflexivity | by intros [|[]] |].
  exists s'. split; [exact Hr|]. rw Hc. by vm_compute.
Defined.
