(* ===== verification/Queries.v ===== *)
(** * Statement texts: adapters/postgres/statements/queries.go

    The fixed texts of the statements.  A text with holes is a function of what
    goes into them. *)

From S2P Require Import Prelude GoStrings.

Definition FieldDatabaseName : string := "datname".
Definition FieldSchemaName : string := "schema_name".
Definition FieldCountDatabaseName : string := "COUNT(datname)".
Definition FieldCountSchemaName : string := "COUNT(schema_name)".

Definition DatabasesSelect (x1 : string) : string :=
  "
SELECT
	" +:+ x1 +:+ "
FROM
	pg_database".

Definition DatabasesWhere : string := "
WHERE
	NOT datistemplate".

Definition DatabasesOrderBy (x1 : string) : string :=
  "
ORDER BY
	" +:+ x1 +:+ " ASC".

Definition SchemasSelect (x1 : string) : string :=
  "
SELECT
	" +:+ x1 +:+ "
FROM
	information_schema.schemata".

Definition SchemasGroupBy (x1 : string) : string :=
  "
GROUP BY
	" +:+ x1.

Definition SchemasOrderBy (x1 : string) : string :=
  "
ORDER BY
	" +:+ x1 +:+ " ASC".

Definition TablesSelect : string := requote "
SELECT
	n.nspname as `schema`,
	c.relname as `name`,
	CASE c.relkind
		WHEN 'r' THEN 'table'
		WHEN 'v' THEN 'view'
		WHEN 'm' THEN 'materialized_view'
		WHEN 'i' THEN 'index'
		WHEN 'S' THEN 'sequence'
		WHEN 's' THEN 'special'
		WHEN 'f' THEN 'foreign_table'
	END as `type`,
	pg_catalog.pg_get_userbyid(c.relowner) as `owner`
FROM
	pg_catalog.pg_class c
LEFT JOIN
	pg_catalog.pg_namespace n ON n.oid = c.relnamespace ".

Definition TablesWhere : string := "
WHERE
	c.relkind IN ('r','v','m','S','s','') AND
	n.nspname !~ '^pg_toast' AND
	n.nspname NOT IN ('information_schema', 'pg_catalog') AND
	has_schema_privilege(n.nspname, 'USAGE') ".

Definition TablesOrderBy : string := "
ORDER BY 1, 2".

Definition SchemaTablesSelect : string := requote "
SELECT
	t.tablename as `name`,
	t.schemaname as `schema`,
	sc.catalog_name as `database`
FROM
	pg_catalog.pg_tables t
INNER JOIN
	information_schema.schemata sc ON sc.schema_name = t.schemaname".

Definition SchemaTablesWhere : string := "
WHERE
	sc.catalog_name = $1 AND
	t.schemaname = $2".

Definition SchemaTablesOrderBy : string := "
ORDER BY
	t.tablename ASC".

Definition SelectInTable : string := "
SELECT
	*
FROM".

Definition InsertQuery (x1 x2 x3 x4 x5 : string) : string :=
  (requote "INSERT INTO `") +:+ x1 +:+ (requote "`.`") +:+ x2 +:+ (requote "`.`") +:+ x3 +:+ (requote "`(") +:+ x4 +:+ ") VALUES" +:+ x5.

Definition DeleteQuery (x1 x2 x3 : string) : string :=
  (requote "DELETE FROM `") +:+ x1 +:+ (requote "`.`") +:+ x2 +:+ (requote "`.`") +:+ x3 +:+ (requote "`").

Definition UpdateQuery (x1 x2 x3 x4 : string) : string :=
  (requote "UPDATE `") +:+ x1 +:+ (requote "`.`") +:+ x2 +:+ (requote "`.`") +:+ x3 +:+ (requote "` SET ") +:+ x4.

Definition GroupBy (x1 : string) : string :=
  "GROUP BY " +:+ x1.

Definition Having (x1 x2 x3 : string) : string :=
  "HAVING " +:+ x1 +:+ " " +:+ x2 +:+ " " +:+ x3.
