(* ===== verification/Statements.v ===== *)
(** * Statements: the functions of postgres.go that fill in the texts of [Queries] *)

From S2P Require Import Prelude GoStrings SqlLex Ident Config Http Connection Queries.

(** ** Listing databases, schemas and tables *)

Definition DatabaseClause (req : Request) : string * bool :=
  if negb (String.eqb (QueryGet req "_count") "")
  then (Queries.DatabasesSelect Queries.FieldCountDatabaseName, true)
  else (Queries.DatabasesSelect Queries.FieldDatabaseName, false).

Definition SchemaClause (req : Request) : string * bool :=
  if negb (String.eqb (QueryGet req "_count") "")
  then (Queries.SchemasSelect Queries.FieldCountSchemaName, true)
  else (Queries.SchemasSelect Queries.FieldSchemaName, false).

(** A fixed condition with the request's own behind it. *)
Definition and_where (fixed requestWhere : string) : string :=
  if String.eqb requestWhere "" then fixed else fixed +:+ " AND " +:+ requestWhere.

Definition DatabaseWhere (requestWhere : string) : string := and_where Queries.DatabasesWhere requestWhere.
Definition TableWhere (requestWhere : string) : string := and_where Queries.TablesWhere requestWhere.
Definition SchemaTablesWhere (requestWhere : string) : string :=
  and_where Queries.SchemaTablesWhere requestWhere.

Definition DatabaseOrderBy (order : string) (hasCount : bool) : string :=
  if negb (String.eqb order "") then order
  else if negb hasCount then Queries.DatabasesOrderBy Queries.FieldDatabaseName else "".

Definition SchemaOrderBy (order : string) (hasCount : bool) : string :=
  if negb (String.eqb order "") then order
  else if negb hasCount then Queries.SchemasOrderBy Queries.FieldSchemaName else "".

Definition TableClause : string := Queries.TablesSelect.
Definition TableOrderBy (order : string) : string :=
  if negb (String.eqb order "") then order else Queries.TablesOrderBy.

Definition SchemaTablesClause : string := Queries.SchemaTablesSelect.
Definition SchemaTablesOrderBy (order : string) : string :=
  if negb (String.eqb order "") then order else Queries.SchemaTablesOrderBy.

Definition show_table_query : string :=
"SELECT table_schema, table_name, ordinal_position as position, column_name,data_type,
			  	CASE WHEN character_maximum_length is not null
					THEN character_maximum_length
					ELSE numeric_precision end as max_length,
			  	is_nullable,
			  	is_generated,
			  	is_updatable,
			  	column_default as default_value
			 FROM information_schema.columns
			 WHERE table_name=$1 AND table_schema=$2
			 ORDER BY table_schema, table_name, ordinal_position".

(** ** Statements on one table *)

Section sql.
Variable PrestConf : Prest.
Variable st : ConnState.

Definition SelectSQL (selectStr database schema table : string) : string :=
  selectStr +:+ " " +:+ dq +:+ ResolveDBName PrestConf st database +:+ dq +:+ "." +:+ dq +:+ schema
  +:+ dq +:+ "." +:+ dq +:+ table +:+ dq.

Definition InsertSQL (database schema table names placeholders : string) : string :=
  Queries.InsertQuery (ResolveDBName PrestConf st database) schema table names placeholders.

Definition DeleteSQL (database schema table : string) : string :=
  Queries.DeleteQuery (ResolveDBName PrestConf st database) schema table.

Definition UpdateSQL (database schema table setSyntax : string) : string :=
  Queries.UpdateQuery (ResolveDBName PrestConf st database) schema table setSyntax.
End sql.
