(* ===== verification/Clauses.v ===== *)
(** * The other clauses of a query: adapters/postgres/postgres.go, statements/queries.go

    RETURNING, JOIN, the field list, ORDER BY, COUNT, paging, DISTINCT and
    GROUP BY, each from one query parameter, and the statement templates. *)

From S2P Require Import Prelude GoStrings Regexp SqlLex GoStd Ident Config Http Formatters Filters Where Connection Queries Statements.

(** ** The regex for quoted text, a lazy run between double quotes *)

Definition groupRegex : regex :=
  RCat (lit 34) (RCat (RGrp 1 (RPlus false any_rune)) (lit 34)).

(** ** Clauses *)

Definition ReturningByRequest (r : Request) : gores string :=
  cols ← mapE (λ q, if String.eqb q "*" then Val "*"
                    else if negb (IsValid q) then Err (Wrapf ErrInvalidIdentifier "Returning")
                    else Val (quoted q)) (QueryAll r "_returning");
  Val (Join cols ", ").

Section clauses.
Context `{UnicodeTables}.

Definition join_types : list string := ["INNER"; "LEFT"; "RIGHT"; "FULL"; "CROSS"].

Definition JoinByRequest (r : Request) : gores (list string) :=
  if String.eqb (QueryGet r "_join") "" then Val []
  else match Split (QueryGet r "_join") ":" with
  | [a0; a1; a2; a3; a4] =>
      let jt := ToUpper a0 in
      if negb (existsb (String.eqb jt) join_types) then Err ErrInvalidJoinClause
      else if negb (IsValid a1) || negb (IsValid a2) || negb (IsValid a4) then Err ErrInvalidIdentifier
      else
        op ← GetQueryOperator a3;
        let a1 := match Split a1 "." with
                  | [s; t] => s +:+ dq +:+ "." +:+ dq +:+ t
                  | _ => a1
                  end in
        match Split a2 ".", Split a4 "." with
        | [l1; l2], [r1; r2] =>
            Val [" " +:+ jt +:+ " JOIN " +:+ dq +:+ a1 +:+ dq +:+ " ON "
                 +:+ dq +:+ l1 +:+ dq +:+ "." +:+ dq +:+ l2 +:+ dq +:+ " " +:+ op +:+ " "
                 +:+ dq +:+ r1 +:+ dq +:+ "." +:+ dq +:+ r2 +:+ dq +:+ " "]
        | _, _ => Err ErrInvalidJoinClause
        end
  | _ => Err ErrJoinInvalidNumberOfArgs
  end.

Definition group_functions : list string := ["SUM"; "AVG"; "MAX"; "MIN"; "STDDEV"; "VARIANCE"].

(** [values[1]] is read before its presence is checked: a function name with
    nothing behind it is a run-time panic. *)
Definition NormalizeGroupFunction (paramValue : string) : gores string :=
  let values := Split paramValue ":" in
  let groupFunc := ToUpper (default "" (values !! 0)) in
  if existsb (String.eqb groupFunc) group_functions then
    match values with
    | _ :: v :: rest =>
        if negb (String.eqb v "*") && negb (IsValid v) then Err ErrInvalidIdentifier
        else
          let v := if String.eqb v "*" then v else quoted v in
          let groupFuncSQL := groupFunc +:+ "(" +:+ v +:+ ")" in
          match rest with
          | [alias] =>
              if negb (IsValid alias) || Contains alias "." then Err ErrInvalidIdentifier
              else Val (groupFuncSQL +:+ " AS " +:+ dq +:+ alias +:+ dq)
          | _ => Val groupFuncSQL
          end
    | _ => Panic "index out of range [1] with length 1"
    end
  else Err (Wrapf ErrInvalidGroupFn groupFunc).

(** One field of the list. *)
Definition select_field (field : string) : gores string :=
  let plain_field :=
    if negb (String.eqb field "*") then
      if MatchString groupRegex field then Val field
      else if negb (IsValid field) then Err (Wrapf ErrInvalidIdentifier field)
      else Val (quoted field)
    else Val "*" in
  match NormalizeGroupFunction field with
  | Panic w => Panic w
  | Val groupFunc => if negb (String.eqb groupFunc "") then Val groupFunc else plain_field
  | Err _ => plain_field
  end.

Definition SelectFields (fields : list string) : gores string :=
  match fields with
  | [] => Err ErrMustSelectOneField
  | _ => aux ← mapE select_field fields; Val ("SELECT " +:+ Join aux "," +:+ " FROM")
  end.

(** The loop of [OrderByRequest]; the separator goes behind every field but
    the last. *)
Fixpoint order_fields (values : string) (flds : list string) : gores string :=
  match flds with
  | [] => Val values
  | fld :: rest =>
      let desc := HasPrefix fld "-" in
      let field := if desc then drop_bytes 1 fld else fld in
      if negb (IsValid field) then Err ErrInvalidIdentifier
      else
        let q := if desc then quoted field +:+ " DESC" else quoted field in
        let values := values +:+ " " +:+ q in
        let values := match rest with [] => values | _ => values +:+ " ," end in
        order_fields values rest
  end.

Definition OrderByRequest (r : Request) : gores string :=
  let reqOrder := QueryGet r "_order" in
  if String.eqb reqOrder "" then Val ""
  else order_fields " ORDER BY " (Split reqOrder ",").

(** The value of [_select] goes into the statement as it is. *)
Definition CountByRequest (r : Request) : gores string :=
  let countFields := QueryGet r "_count" in
  let selectFields := QueryGet r "_select" in
  if String.eqb countFields "" then Val ""
  else
    let selectFields := if String.eqb selectFields "" then "" else ", " +:+ selectFields in
    fields ← mapE (λ field,
      if negb (String.eqb field "*") && negb (IsValid field) then Err ErrInvalidIdentifier
      else Val (if String.eqb field "*" then field else quoted field)) (Split countFields ",");
    Val ("SELECT COUNT(" +:+ Join fields "," +:+ ")" +:+ selectFields +:+ " FROM").

Definition DistinctClause (r : Request) : gores string :=
  if String.eqb (QueryGet r "_distinct") "true" then Val "SELECT DISTINCT" else Val "".

(** ** Paging: template.LimitOffset *)

Definition LimitOffset (pageNumberStr pageSizeStr : string) : gores string :=
  pageNumber ← Atoi pageNumberStr;
  pageSize ← Atoi pageSizeStr;
  let pageNumber := if (wrap64 (pageNumber - 1) <? 0)%Z then 1%Z else pageNumber in
  Val ("LIMIT " +:+ Itoa pageSize +:+ " OFFSET(" +:+ Itoa pageNumber +:+ " - 1) * " +:+ Itoa pageSize).

Definition pageNumberKey : string := "_page".
Definition pageSizeKey : string := "_page_size".
Definition defaultPageSize : Z := 10.

(** [values[key][0]]; a present key has at least one value in a parsed query. *)
Definition first_value (vs : list string) : gores string :=
  match vs with [] => Panic "index out of range [0] with length 0" | v :: _ => Val v end.

Definition PaginateIfPossible (r : Request) : gores string :=
  match Query r !! pageNumberKey with
  | None => Val ""
  | Some ns =>
      n ← first_value ns;
      pageNumber ← Atoi n;
      pageSize ← match Query r !! pageSizeKey with
                 | Some sz => s ← first_value sz; Atoi s
                 | None => Val defaultPageSize
                 end;
      LimitOffset (Itoa pageNumber) (Itoa pageSize)
  end.

(** ** GROUP BY and HAVING *)

(** The validated and quoted fields; [None] when one is not valid. *)
Definition group_fields (s : string) : option string :=
  let fields := Split s "," in
  if forallb IsValid fields then Some (Join (quoted <$> fields) ",") else None.

Definition GroupByClause (r : Request) : gores string :=
  let groupQuery := QueryGet r "_groupby" in
  if String.eqb groupQuery "" then Val ""
  else if Contains groupQuery "->>having" then
    let params := Split groupQuery ":" in
    match group_fields (default "" (Split groupQuery "->>having" !! 0)) with
    | None => Val ""
    | Some fields =>
        match params with
        | [_; f; field; cond; val] =>
            match NormalizeGroupFunction (f +:+ ":" +:+ field) with
            | Panic w => Panic w
            | Err _ => Val (Queries.GroupBy fields)
            | Val groupFunc =>
                match GetQueryOperator cond with
                | Val operator =>
                    let v := if ParseFloat_ok val then val
                             else "'" +:+ ReplaceAll val "'" "''" +:+ "'" in
                    Val (Queries.GroupBy fields +:+ " " +:+ Queries.Having groupFunc operator v)
                | _ => Val (Queries.GroupBy fields)
                end
            end
        | _ => Val (Queries.GroupBy fields)
        end
    end
  else match group_fields groupQuery with
       | None => Val ""
       | Some fields => Val (Queries.GroupBy fields)
       end.
End clauses.
