(* ===== verification/ClausesSpec.v ===== *)
(** * Properties of the clauses

    The clauses of [Clauses] read back in SQL as what the parameter asked for,
    and cannot change the reading of the statement around them; two of them
    insert unchecked text, which the counterexamples show. *)

From S2P Require Import Prelude GoStrings Regexp SqlLex GoStd Ident Config Http Formatters Filters Where WhereSpec Connection Queries Statements Clauses.

(** ** Lemmas *)

Lemma clean_op op : op ∈ operators → template op = true.
Proof.
  assert (Forall (λ op, template op = true) operators) as H by (repeat constructor).
  rw Forall_forall in H. apply H.
Qed.

Lemma existsb_elem s l : existsb (String.eqb s) l = true ↔ s ∈ l.
Proof.
  rw existsb_exists list_elem_of_In. split.
  - intros (x & Hx & ->%String.eqb_eq). done.
  - intros Hs. exists s. by rw String.eqb_refl.
Qed.

Lemma elem_template l s : Forall (λ s, template s = true) l → s ∈ l → template s = true.
Proof. intros H. rw Forall_forall in H. apply H. Qed.

Lemma join_type_template s : s ∈ join_types → template s = true.
Proof. apply elem_template. repeat constructor. Qed.
Lemma group_function_template s : s ∈ group_functions → template s = true.
Proof. apply elem_template. repeat constructor. Qed.

Lemma quoted_sep s : IsValid s = true → starts_sep (quoted s) = false.
Proof. by intros [r ->]%quoted_cons. Qed.

Lemma mapE_clean {A} (f : A → gores string) l bs :
  (∀ a b, f a = Val b → clean b) → mapE f l = Val bs → Forall clean bs.
Proof.
  intros Hf. rw mapE_Forall2. induction 1; constructor; [by eapply Hf|done].
Qed.

Lemma clean_star : clean "*".
Proof. by apply clean_template. Qed.
#[export] Hint Resolve clean_star : sql.

Lemma Split1_parts_no_quote s d :
  no_byte dqc s = true → Forall (λ p, no_byte dqc p = true) (Split s (String d "")).
Proof.
  unfold no_byte; induction s as [|c s IH]; [by repeat constructor|].
  cbn [string_forall]. rw andb_true_iff; intros [Hc Hs]. rw Split_cons1.
  destruct (Ascii.eqb d c); [constructor; auto|].
  destruct (IH Hs) as [|h t Hh Ht]; [constructor; [|done]|constructor; [|done]]; cbn [cons_head string_forall]; by rw Hc ?Hh.
Qed.

Section lemmas.
Context `{UnicodeTables}.

(** A group function is a call on a quoted field or a star, with a quoted
    alias. *)
Lemma NormalizeGroupFunction_clean v w : NormalizeGroupFunction v = Val w → clean w ∧ w ≠ "".
Proof.
  unfold NormalizeGroupFunction. set (f := ToUpper _).
  destruct (existsb (String.eqb f) group_functions) eqn:Hf; [|done].
  apply existsb_elem in Hf. assert (f ≠ "") as Hne.
  { intros E. rw E in Hf. by apply existsb_elem in Hf. }
  apply group_function_template in Hf.
  destruct (Split v ":") as [|f0 [|fld rest]]; [done..|].
  destruct (_ && _) eqn:Hv; [done|].
  set (fq := if String.eqb fld "*" then fld else quoted fld).
  assert (clean fq) as Hfq.
  { subst fq. destruct (String.eqb_spec fld "*") as [->|_]; [auto with sql|].
    cbn in Hv. apply clean_quoted. by destruct (IsValid fld). }
  assert (clean (f +:+ "(" +:+ fq +:+ ")")) as Hcall by (by apply clean_template_app; auto with sql).
  assert (f +:+ "(" +:+ fq +:+ ")" ≠ "") as Hcne by by destruct f.
  destruct rest as [|alias [|]]; [by intros [= <-]| |by intros [= <-]].
  destruct (_ || _) eqn:Ha; [done|]. intros [= <-].
  apply orb_false_iff in Ha as [Ha _]. apply negb_false_iff in Ha.
  split; [|by destruct f].
  apply clean_app; [done| |done]. apply (clean_template_app " AS "); [done|].
  by apply clean_ident, IsValid_no_quote.
Qed.

Lemma group_fields_clean s fs : group_fields s = Some fs → clean fs.
Proof.
  unfold group_fields. destruct (forallb IsValid (Split s ",")) eqn:E; [|done]. intros [= <-].
  apply clean_Join; [done..|]. rw Forall_fmap. rw forallb_forall in E.
  apply List.Forall_forall. intros x Hx. by apply clean_quoted, E.
Qed.

Lemma clean_spaced a b : clean a → clean (" " +:+ b) → clean (a +:+ " " +:+ b).
Proof. intros. by apply clean_app. Qed.

Lemma GroupByClause_clean r w : GroupByClause r = Val w → clean w.
Proof.
  assert (∀ fs, clean fs → clean (Queries.GroupBy fs)) as Hg by (intros; by apply clean_template_app).
  unfold GroupByClause. destruct (String.eqb _ ""); [intros [= <-]; by apply clean_template|].
  destruct (Contains _ _).
  - destruct (group_fields _) as [fs|] eqn:Hfs; [|intros [= <-]; by apply clean_template].
    apply group_fields_clean, Hg in Hfs.
    destruct (Split (QueryGet r "_groupby") ":") as [|p0 [|f [|fld [|cond [|val [|]]]]]];
      try by intros [= <-].
    destruct (NormalizeGroupFunction _) as [gf|e|] eqn:Hgf; [|by intros [= <-]|done].
    apply NormalizeGroupFunction_clean in Hgf as [Hgf _].
    destruct (GetQueryOperator cond) as [op| |] eqn:Hop; [|by intros [= <-]..].
    apply GetQueryOperator_ok, clean_op in Hop. intros <-%Val_inj.
    set (v := if ParseFloat_ok val then val else _). assert (clean v) as Hv.
    { subst v. destruct (ParseFloat_ok val) eqn:Hp; [|apply clean_quoted_str].
      apply ParseFloat_text in Hp as [Hl Hs]%float_text_lex. exists (chars val).
      split; [done|]. split; [done|]. apply placeholders_chars. }
    apply clean_spaced; [done|]. apply (clean_template_app " "); [done|]. unfold Queries.Having.
    apply (clean_template_app "HAVING "); [done|]. apply clean_spaced; [done|].
    rw -!(sapp_assoc " "). apply clean_template_app; [by rw template_app Hop|].
    by apply (clean_template_app " ").
  - destruct (group_fields _) as [fs|] eqn:Hfs; [|intros [= <-]; by apply clean_template].
    intros [= <-]. by eapply Hg, group_fields_clean.
Qed.

Lemma ReturningByRequest_clean r w : ReturningByRequest r = Val w → clean w.
Proof.
  unfold ReturningByRequest. rw bind_Val; intros (cols & Hc & <-%Val_inj).
  apply clean_Join; [done..|]. eapply mapE_clean, Hc. cbn beta. intros q b.
  destruct (String.eqb q "*"); [intros <-%Val_inj; auto with sql|].
  destruct (IsValid q) eqn:Hq; cbn [negb]; [|done]. intros <-%Val_inj. auto with sql.
Qed.

Lemma clean_spaced_quoted v b : no_byte dqc v = true → clean b → starts_sep b = true → clean (dq +:+ v +:+ dq +:+ b).
Proof.
  intros Hv Hb Hs. rw (_ : dq +:+ v +:+ dq +:+ b = (dq +:+ v +:+ dq) +:+ b); [by rw !sapp_assoc|].
  by apply clean_app; [apply clean_ident| |].
Qed.

Lemma clean_dotted a b rest :
  no_byte dqc a = true → no_byte dqc b = true → clean rest → starts_sep rest = true →
  clean (dq +:+ a +:+ dq +:+ "." +:+ dq +:+ b +:+ dq +:+ rest).
Proof.
  intros Ha Hb Hr Hs. apply clean_spaced_quoted; [done| |done].
  apply (clean_template_app "."); [done|]. by apply clean_spaced_quoted.
Qed.

Lemma JoinByRequest_clean r ws : JoinByRequest r = Val ws → Forall clean ws.
Proof.
  unfold JoinByRequest. destruct (String.eqb _ ""); [intros <-%Val_inj; constructor|].
  destruct (Split _ ":") as [|a0 [|a1 [|a2 [|a3 [|a4 [|]]]]]]; try done.
  destruct (existsb _ join_types) eqn:Hj; cbn [negb]; [|done].
  apply existsb_elem, join_type_template in Hj.
  destruct (IsValid a1) eqn:H1, (IsValid a2) eqn:H2, (IsValid a4) eqn:H4; cbn [negb orb]; try done.
  rw bind_Val; intros (op & Hop%GetQueryOperator_ok%clean_op & Hw).
  apply IsValid_no_quote in H1, H2, H4.
  set (jn := match Split a1 "." with [s; t] => _ | _ => _ end) in Hw.
  pose proof (Split1_parts_no_quote _ "." H1) as P1.
  pose proof (Split1_parts_no_quote _ "." H2) as P2. pose proof (Split1_parts_no_quote _ "." H4) as P4.
  destruct (Split a2 ".") as [|l1 [|l2 [|]]]; try done.
  destruct (Split a4 ".") as [|r1 [|r2 [|]]]; try done. apply Val_inj in Hw as <-.
  inversion P2 as [|?? Hl1 P2']; subst. inversion P2' as [|?? Hl2 _]; subst.
  inversion P4 as [|?? Hr1 P4']; subst. inversion P4' as [|?? Hr2 _]; subst.
  constructor; [|constructor].
  set (tail := " ON " +:+ _). assert (clean tail) as Ht.
  { subst tail. apply (clean_template_app " ON "); [done|]. apply clean_dotted; [done..| |done].
    rw -!(sapp_assoc " "). apply clean_template_app; [by rw template_app Hop|].
    apply (clean_template_app " "); [done|]. apply clean_dotted; [done..| |done]. by apply clean_template. }
  rw -!(sapp_assoc " "). apply clean_template_app; [by rw template_app Hj|].
  apply (clean_template_app " JOIN "); [done|].
  subst jn. destruct (Split a1 ".") as [|s [|t [|]]]; try by apply clean_spaced_quoted.
  inversion P1 as [|?? Hs P1']; subst. inversion P1' as [|?? Hp _]; subst.
  rw !sapp_assoc. by apply clean_dotted.
Qed.

(** *** ORDER BY *)

(** A field of [_order] and whether it is descending. *)
Definition order_item (fld : string) : string * bool :=
  if HasPrefix fld "-" then (drop_bytes 1 fld, true) else (fld, false).

Definition order_text (fld : string) : string :=
  let '(f, desc) := order_item fld in " " +:+ quoted f +:+ (if desc then " DESC" else "").

Definition order_item_tokens (fld : string) : list token :=
  let '(f, desc) := order_item fld in
  chars " " ++ dotted (Split f ".") ++ chars (if desc then " DESC" else "").

Lemma order_fields_text values flds :
  order_fields values flds =
  if forallb (λ f, IsValid (order_item f).1) flds then Val (values +:+ Join (order_text <$> flds) " ,")
  else Err ErrInvalidIdentifier.
Proof.
  revert values; induction flds as [|fld rest IH]; intros values; [cbn; by rw sapp_nil_r|].
  cbn [order_fields forallb fmap list_fmap]. unfold order_text at 1, order_item at 1 3.
  destruct (HasPrefix fld "-"); cbn [fst].
  all: destruct (IsValid _); cbn [negb andb]; [|done]; rw IH.
  all: destruct (forallb _ rest); [|by destruct rest].
  all: f_equal; destruct rest as [|fld' rest]; cbn [fmap list_fmap]; [cbn; by rw !sapp_nil_r|].
  all: rw (Join_cons _ (_ :: _)); [done|]; by rw ?sapp_nil_r !sapp_assoc.
Qed.

Lemma order_text_lex fld :
  IsValid (order_item fld).1 = true → lex (order_text fld) = Some (order_item_tokens fld).
Proof.
  unfold order_text, order_item_tokens. destruct (order_item fld) as [f d]; cbn [fst]. intros Hf.
  apply lex_plain_app; [done|]. apply lex_app; [by apply lex_quoted|by destruct d|by destruct d].
Qed.

Lemma order_item_sealed fld : sealed (order_item_tokens fld) ∧ placeholders (order_item_tokens fld) = [].
Proof.
  unfold order_item_tokens. destruct (order_item fld) as [f d]. split.
  - repeat apply sealed_app; auto with sql. by destruct d; apply sealed_chars.
  - by rw !placeholders_app !placeholders_chars placeholders_dotted.
Qed.

Lemma placeholders_sep_nil sep l :
  Forall (λ ts, placeholders ts = []) l → placeholders (sep_tokens sep l) = [].
Proof.
  rw placeholders_sep. induction 1 as [|t l Ht _ IH]; [done|]. by rw bind_cons Ht IH.
Qed.

Definition order_tokens (flds : list string) : list token :=
  chars " ORDER BY " ++ sep_tokens " ," (order_item_tokens <$> flds).

Lemma order_tokens_clean flds : sealed (order_tokens flds) ∧ placeholders (order_tokens flds) = [].
Proof.
  unfold order_tokens. split.
  - apply sealed_app; [by apply sealed_chars|]. apply sep_tokens_sealed; [done|].
    apply Forall_fmap, List.Forall_forall. intros x _. by apply order_item_sealed.
  - rw placeholders_app placeholders_chars placeholders_sep_nil; [|done].
    apply Forall_fmap, List.Forall_forall. intros x _. by apply order_item_sealed.
Qed.

Lemma OrderByRequest_lex r :
  QueryGet r "_order" ≠ "" →
  let flds := Split (QueryGet r "_order") "," in
  if forallb (λ f, IsValid (order_item f).1) flds then
    ∃ w, OrderByRequest r = Val w ∧ lex w = Some (order_tokens flds)
  else OrderByRequest r = Err ErrInvalidIdentifier.
Proof.
  intros Hne%String.eqb_neq. cbn zeta. unfold OrderByRequest. rw Hne order_fields_text.
  destruct (forallb _ _) eqn:Hall; [|done]. eexists; split; [done|].
  apply lex_plain_app; [done|]. apply lex_Join; [done..|].
  rw forallb_forall in Hall.
  assert (Forall (λ f, IsValid (order_item f).1 = true) (Split (QueryGet r "_order") ",")) as Hv
    by (by apply List.Forall_forall).
  induction Hv as [|f fs Hf _ IH]; [constructor|]. constructor; [by apply order_text_lex|].
  apply IH. intros x Hx. apply Hall. by right.
Qed.

Lemma OrderByRequest_clean r w : OrderByRequest r = Val w → clean w.
Proof.
  destruct (String.eqb_spec (QueryGet r "_order") "") as [He|Hne].
  - unfold OrderByRequest. rw He. intros <-%Val_inj. by apply clean_template.
  - pose proof (OrderByRequest_lex r Hne) as H1. cbn zeta in H1. destruct (forallb _ _).
    + destruct H1 as (w' & -> & Hl). intros <-%Val_inj. eexists; split; [exact Hl|]. apply order_tokens_clean.
    + by rw H1.
Qed.

(** *** The field list *)

Lemma select_field_clean f w :
  MatchString groupRegex f = false → select_field f = Val w → clean w.
Proof.
  intros Hm. unfold select_field. rw Hm.
  assert ((if negb (String.eqb f "*") then
      if negb (IsValid f) then Err (Wrapf ErrInvalidIdentifier f) else Val (quoted f) else Val "*")
      = Val w → clean w) as Hplain.
  { destruct (String.eqb f "*"); [intros <-%Val_inj; auto with sql|].
    destruct (IsValid f) eqn:Hv; cbn [negb]; [|done]. intros <-%Val_inj. auto with sql. }
  destruct (NormalizeGroupFunction f) as [g| |] eqn:Hg; [|done..].
  apply NormalizeGroupFunction_clean in Hg as [Hg Hne%String.eqb_neq]. rw Hne.
  by intros <-%Val_inj.
Qed.

Lemma Split1_two d s t : 2 ≤ length (Split (s +:+ String d t) (String d "")).
Proof.
  induction s as [|c s IH]; cbn [String.append]; rw Split_cons1.
  - rw Ascii.eqb_refl. pose proof (Split_nonempty t (String d "")) as Hne.
    destruct (Split t _); [done|]. cbn. lia.
  - destruct (Ascii.eqb d c); [cbn; lia|]. destruct (Split _ _); cbn in *; lia.
Qed.

Lemma no_panic_function f x : is_panic (NormalizeGroupFunction (f +:+ ":" +:+ x)) = false.
Proof.
  unfold NormalizeGroupFunction. pose proof (Split1_two ":" f x) as Hl. cbn [String.append] in Hl |- *.
  destruct (Split _ _) as [|? [|? ?]]; cbn in Hl; [lia..|]. by repeat case_match.
Qed.

Lemma no_panic_group r : is_panic (GroupByClause r) = false.
Proof.
  unfold GroupByClause. repeat case_match; try done.
  match goal with H : NormalizeGroupFunction (?f +:+ ":" +:+ ?x) = _ |- _ =>
    pose proof (no_panic_function f x) as Hp; by rw H in Hp end.
Qed.
End lemmas.

(** ** Properties *)

Section properties.
Context `{UnicodeTables}.

(** C31: whatever the request, the RETURNING list, the JOIN, the ORDER BY, the
    GROUP BY with its HAVING and the DISTINCT clause it yields are clean SQL:
    every quote is closed, parentheses balance, no comment, statement separator
    or positional parameter occurs outside quotes. *)
Theorem clauses_clean r w :
  ReturningByRequest r = Val w ∨ (∃ ws, JoinByRequest r = Val ws ∧ w ∈ ws) ∨
  OrderByRequest r = Val w ∨ GroupByClause r = Val w ∨ DistinctClause r = Val w → clean w.
Proof.
  intros [Hw|[(ws & Hw & Hin)|[Hw|[Hw|Hw]]]].
  - by eapply ReturningByRequest_clean.
  - apply JoinByRequest_clean in Hw. rw Forall_forall in Hw. by apply Hw.
  - by eapply OrderByRequest_clean.
  - by eapply GroupByClause_clean.
  - unfold DistinctClause in Hw. destruct (String.eqb _ _); apply Val_inj in Hw as <-; by apply clean_template.
Qed.

(** [_order] reads back as the list it names: each comma-separated field,
    quoted along its dots, followed by DESC exactly when it was written with a
    dash; one invalid field makes the clause an error. *)
Theorem OrderByRequest_reads_back r :
  QueryGet r "_order" ≠ "" →
  let flds := Split (QueryGet r "_order") "," in
  if forallb (λ f, IsValid (order_item f).1) flds then
    ∃ w, OrderByRequest r = Val w ∧ lex w = Some (order_tokens flds)
  else OrderByRequest r = Err ErrInvalidIdentifier.
Proof. apply OrderByRequest_lex. Qed.

(** A field list none of whose fields contains a double-quoted run is clean
    SQL. *)
Theorem SelectFields_clean fields w :
  Forall (λ f, MatchString groupRegex f = false) fields → SelectFields fields = Val w → clean w.
Proof.
  intros Hf. unfold SelectFields. destruct fields as [|f0 fs]; [done|].
  generalize dependent (f0 :: fs). intros fields Hf. rw bind_Val; intros (aux & Ha & <-%Val_inj).
  apply (clean_template_app "SELECT "); [done|]. apply clean_app_template; [|done..].
  apply clean_Join; [done..|]. rw mapE_Forall2 in Ha.
  induction Ha as [|f a fs' aux Hfa _ IH]; [constructor|]. inversion Hf; subst.
  constructor; [by eapply select_field_clean|auto].
Qed.

(** A field with a double-quoted run anywhere in it is copied into the
    statement as it is: a field exists that ends the field list and starts
    another statement. *)
Theorem SelectFields_injection :
  let field := requote "`a` FROM x; DROP TABLE y --" in
  SelectFields [field] = Val ("SELECT " +:+ field +:+ " FROM") ∧
  ∃ ts, lex ("SELECT " +:+ field +:+ " FROM") = Some ts ∧ harmless ts = false.
Proof. split; [by vm_compute|]. eexists; split; [by vm_compute|]. by vm_compute. Qed.

(** [_count] with a valid field copies the value of [_select] into the
    statement as it is, whatever it is. *)
Theorem CountByRequest_copies_select r f :
  QueryGet r "_count" = f → IsValid f = true → QueryGet r "_select" ≠ "" →
  CountByRequest r = Val ("SELECT COUNT(" +:+ quoted f +:+ "), " +:+ QueryGet r "_select" +:+ " FROM").
Proof.
  intros Hc Hf Hs%String.eqb_neq. unfold CountByRequest. rw Hc Hs.
  pose proof (IsValid_nonempty f Hf) as Hne%String.eqb_neq. rw Hne valid_single; [done..|].
  cbn [mapE]. rw Hf andb_false_r.
  assert (String.eqb f "*" = false) as -> by (apply String.eqb_neq; by intros ->).
  reflexivity.
Qed.

(** A field that is the bare name of a group function, in any case, is a
    run-time panic of the handler, although every other field that is not an
    identifier is an error; GROUP BY never panics. *)
Theorem group_function_without_field f fs r :
  existsb (String.eqb (ToUpper f)) group_functions = true → no_byte ":" f = true →
  is_panic (SelectFields (f :: fs)) = true ∧ is_panic (GroupByClause r) = false.
Proof.
  intros Hf Hn. split; [|apply no_panic_group].
  cbn [SelectFields mapE]. unfold select_field, NormalizeGroupFunction.
  rw Split1_single; [done|]. cbn [lookup list_lookup default from_option id]. by rw Hf.
Qed.

(** Paging.  With integer [_page] and [_page_size] the clause is LIMIT
    size OFFSET(page - 1) * size, a page of zero or less meaning the first one;
    except that the smallest integer wraps around and is kept.  A page or a size
    that is not an integer is an error, and no default is used for it. *)
Theorem PaginateIfPossible_spec r p s :
  (MinInt64 ≤ p ≤ MaxInt64)%Z → (MinInt64 ≤ s ≤ MaxInt64)%Z →
  (Query r !! pageNumberKey = Some [Itoa p] → Query r !! pageSizeKey = Some [Itoa s] →
   let p' := if bool_decide (MinInt64 < p ≤ 0)%Z then 1%Z else p in
   PaginateIfPossible r
   = Val ("LIMIT " +:+ Itoa s +:+ " OFFSET(" +:+ Itoa p' +:+ " - 1) * " +:+ Itoa s)) ∧
  (∀ v vs e, Query r !! pageNumberKey = Some (v :: vs) → Atoi v = Err e → PaginateIfPossible r = Err e) ∧
  (Query r !! pageNumberKey = None → PaginateIfPossible r = Val "").
Proof.
  intros Hp Hs. unfold PaginateIfPossible. split_and!.
  - intros -> ->. cbn [first_value mbind gores_bind]. rw !Atoi_Itoa; [done..|].
    cbn [mbind gores_bind]. unfold LimitOffset. rw !Atoi_Itoa; [done..|]. cbn [mbind gores_bind].
    do 3 f_equal. unfold wrap64, MinInt64, MaxInt64 in *.
    case_bool_decide as Hd; destruct (Z.ltb_spec ((p - 1 + 9223372036854775808) mod 18446744073709551616
      - 9223372036854775808) 0) as [Hlt|Hge]; try done.
    + rw Z.mod_small in Hge; lia.
    + destruct (decide (p = -9223372036854775808)%Z) as [->|]; [done|].
      rw Z.mod_small in Hlt; lia.
  - intros v vs e -> Hv. cbn [first_value mbind gores_bind]. by rw Hv.
  - by intros ->.
Qed.
End properties.

#[local] Existing Instance ascii_tables.

(** A request with the given query parameters. *)
Definition query_req (q : gmap string (list string)) : Request :=
  MkRequest "GET" "/d/s/t" "/d/s/t" q ∅ empty_context ∅.

Definition group_req : Request :=
  query_req {[ "_groupby" := ["a,b->>having:sum:c:$gt:1' OR 1"] ]}.

Lemma clauses_clean_witness :
  GroupByClause group_req
    = Val (requote "GROUP BY `a`,`b` HAVING SUM(`c`) > '1'' OR 1'") ∧
  clean (requote "GROUP BY `a`,`b` HAVING SUM(`c`) > '1'' OR 1'").
Proof.
  split; [by vm_compute|]. apply (clauses_clean group_req). do 3 right. left. by vm_compute.
Defined.

Definition order_req : Request := query_req {[ "_order" := ["-a.b,c"] ]}.

Lemma order_req_set : QueryGet order_req "_order" ≠ "".
Proof. by vm_compute. Qed.

Lemma OrderByRequest_witness :
  QueryGet order_req "_order" ≠ "" ∧
  ∃ w, OrderByRequest order_req = Val w ∧ lex w = Some (order_tokens (Split "-a.b,c" ",")).
Proof. split; [exact order_req_set|]. exact (OrderByRequest_reads_back order_req order_req_set). Defined.

Lemma SelectFields_clean_witness :
  SelectFields ["a"; "sum:b:total"; "*"] = Val (requote "SELECT `a`,SUM(`b`) AS `total`,* FROM") ∧
  clean (requote "SELECT `a`,SUM(`b`) AS `total`,* FROM").
Proof.
  split; [by vm_compute|]. apply (SelectFields_clean ["a"; "sum:b:total"; "*"]); [|by vm_compute].
  repeat constructor.
Defined.

Definition count_req : Request :=
  query_req (<["_count" := ["id"]]> {[ "_select" := ["1; DROP TABLE x"] ]}).

Lemma CountByRequest_witness :
  QueryGet count_req "_select" = "1; DROP TABLE x" ∧
  CountByRequest count_req
    = Val ("SELECT COUNT(" +:+ quoted "id" +:+ "), " +:+ QueryGet count_req "_select" +:+ " FROM").
Proof. split; [by vm_compute|]. apply (CountByRequest_copies_select count_req "id"); by vm_compute. Defined.

Lemma group_function_witness :
  is_panic (SelectFields ["Sum"]) = true ∧ is_panic (GroupByClause group_req) = false.
Proof. apply (group_function_without_field "Sum" [] group_req); by vm_compute. Defined.

Lemma PaginateIfPossible_witness :
  PaginateIfPossible (query_req (<["_page" := ["3"]]> {[ "_page_size" := ["20"] ]}))
  = Val "LIMIT 20 OFFSET(3 - 1) * 20".
Proof.
  apply (proj1 (PaginateIfPossible_spec
    (query_req (<["_page" := ["3"]]> {[ "_page_size" := ["20"] ]})) 3 20 ltac:(done) ltac:(done)));
    by vm_compute.
Defined.
