(* ===== verification/Permissions.v ===== *)
(** * Access rules: TablePermissions and FieldsPermissions of adapters/postgres/postgres.go

    Whether a user may run an operation on a table, and which of the fields it
    asks for it gets, according to the [access] section of the configuration. *)

From S2P Require Import Prelude GoStrings Regexp SqlLex GoStd Ident Config Http Formatters Filters Where Connection Queries Statements Clauses.

(** [slices.Contains] *)
Definition contains (l : list string) (s : string) : bool := existsb (String.eqb s) l.

Section permissions.
Variable PrestConf : Prest.

(** The rule of a user for a table: the first table of that name among the
    entries of that name, in order. *)
Fixpoint table_rule (table : string) (ts : list TablesConf) : option TablesConf :=
  match ts with
  | [] => None
  | t :: ts' => if String.eqb (tbl_Name t) table then Some t else table_rule table ts'
  end.

Fixpoint user_rule (userName table : string) (us : list UsersConf) : option TablesConf :=
  match us with
  | [] => None
  | u :: us' =>
      if String.eqb (usr_Name u) userName then
        match table_rule table (usr_Tables u) with
        | Some t => Some t
        | None => user_rule userName table us'
        end
      else user_rule userName table us'
  end.

Definition TablePermissions (table op userName : string) : bool :=
  if negb (ac_Restrict (Access PrestConf)) then true
  else if existsb (λ i, String.eqb i table) (ac_IgnoreTable (Access PrestConf)) then true
  else
    let access := match table_rule table (ac_Tables (Access PrestConf)) with
                  | Some t => contains (tbl_Permissions t) op
                  | None => false
                  end in
    if String.eqb userName "" then access
    else match user_rule userName table (ac_Users (Access PrestConf)) with
         | Some t => contains (tbl_Permissions t) op
         | None => access
         end.

(** The loops of [fieldsByPermission] run to the end: the last rule that
    matches wins. *)
Definition fields_from (table operation : string) (fields : list string) (ts : list TablesConf) : list string :=
  foldl (λ fields t,
    if String.eqb (tbl_Name t) table && contains (tbl_Permissions t) operation
    then tbl_Fields t else fields) fields ts.

Definition fieldsByPermission (table operation userName : string) : list string :=
  let fields := fields_from table operation ["*"] (ac_Tables (Access PrestConf)) in
  if String.eqb userName "" then fields
  else foldl (λ fields u,
         if String.eqb (usr_Name u) userName then fields_from table operation fields (usr_Tables u)
         else fields) fields (ac_Users (Access PrestConf)).

Definition containsAsterisk (arr : list string) : bool := existsb (λ e, String.eqb e "*") arr.

(** The text between the first pair of double quotes, when there is any. *)
Definition quoted_field (col : string) : option string :=
  caps ← FindSubmatch groupRegex col; group 1 caps.

Definition checkField (col : string) (fields : list string) : string :=
  if existsb (λ f, match quoted_field col with Some n => String.eqb n f | None => false end
                   || String.eqb col f) fields
  then col else "".

Definition intersection (set other : list string) : list string :=
  filter (λ p, Is_true (negb (String.eqb p ""))) ((λ f, checkField f other) <$> set).

Context `{UnicodeTables}.

Definition normalizeColumn (col : string) : gores string :=
  if Contains col ":" then NormalizeGroupFunction col else Val col.

Definition normalizeAll (cols : list string) : gores (list string) := mapE normalizeColumn cols.

(** The fields named by the values of [_select]. *)
Definition select_columns (columnsArr : list string) : list string :=
  columnsArr ≫= λ j, filter (λ f, Is_true (negb (String.eqb f ""))) (TrimSpace <$> Split j ",").

Definition columnsByRequest (r : Request) : gores (list string) :=
  let columns := select_columns (QueryAll r "_select") in
  if negb (String.eqb (QueryGet r "_groupby") "") then normalizeAll columns else Val columns.

Definition FieldsPermissions (r : Request) (table op userName : string) : gores (list string) :=
  match columnsByRequest r with
  | Panic w => Panic w
  | Err e => Err ("error on parse columns from request: " +:+ e)
  | Val cols =>
      let or_all := match cols with [] => ["*"] | _ => cols end in
      if negb (ac_Restrict (Access PrestConf)) || String.eqb op "delete" then Val or_all
      else
        let allowedFields := fieldsByPermission table op userName in
        if containsAsterisk allowedFields then Val or_all
        else Val (match cols, allowedFields with
                  | [], _ :: _ => allowedFields
                  | _, _ => intersection cols allowedFields
                  end)
  end.
End permissions.

(** ** Lemmas *)

Lemma checkField_spec col fields :
  checkField col fields = col ∧ (col ∈ fields ∨ ∃ n, quoted_field col = Some n ∧ n ∈ fields) ∨
  checkField col fields = "" ∧ col ∉ fields ∧ ∀ n, quoted_field col = Some n → n ∉ fields.
Proof.
  unfold checkField. destruct (existsb _ fields) eqn:E; [left|right]; (split; [done|]).
  - apply existsb_exists in E as (f & Hin & Hf). rw -list_elem_of_In in Hin.
    apply orb_true_iff in Hf as [Hf| ->%String.eqb_eq]; [|by left]. right.
    destruct (quoted_field col) as [n|]; [|done]. apply String.eqb_eq in Hf as ->. eauto.
  - assert (∀ f, f ∈ fields → (match quoted_field col with Some n => String.eqb n f | None => false end
      || String.eqb col f) = false) as Hall.
    { intros f Hf. apply not_true_is_false. intros Ht. apply not_true_iff_false in E. apply E.
      apply existsb_exists. exists f. by rw -list_elem_of_In. }
    split.
    + intros Hin. apply Hall in Hin. by rw String.eqb_refl orb_true_r in Hin.
    + intros n Hn Hin. apply Hall in Hin. by rw Hn String.eqb_refl in Hin.
Qed.

Lemma intersection_elem f set other :
  f ∈ intersection set other ↔ f ≠ "" ∧ f ∈ set ∧ (f ∈ other ∨ ∃ n, quoted_field f = Some n ∧ n ∈ other).
Proof.
  unfold intersection. rw list_elem_of_filter list_elem_of_fmap. split.
  - intros (Hne & g & -> & Hg). destruct (checkField_spec g other) as [[E Ho]|[E _]]; rw E in Hne |- *; [|done].
    split; [|done]. intros ->. done.
  - intros (Hne & Hset & Ho). apply String.eqb_neq in Hne as Hne'. split; [by rw Hne'|].
    exists f. split; [|done].
    destruct (checkField_spec f other) as [[E _]|(_ & Hn & Hq)]; [done|]. exfalso.
    destruct Ho as [|(n & Hn' & Hin)]; [done|by eapply Hq].
Qed.

Lemma table_rule_find table ts : table_rule table ts = find (λ t, String.eqb (tbl_Name t) table) ts.
Proof. induction ts as [|t ts IH]; [done|]. cbn. by rw IH. Qed.

(** All the rules of a user, entries of the same name in order. *)
Definition rules_of (userName : string) (us : list UsersConf) : list TablesConf :=
  us ≫= λ u, if String.eqb (usr_Name u) userName then usr_Tables u else [].

Lemma find_app {A} (f : A → bool) l1 l2 :
  find f (l1 ++ l2) = match find f l1 with Some x => Some x | None => find f l2 end.
Proof. induction l1 as [|a l1 IH]; [done|]. cbn. by destruct (f a). Qed.

Lemma user_rule_find userName table us :
  user_rule userName table us = find (λ t, String.eqb (tbl_Name t) table) (rules_of userName us).
Proof.
  induction us as [|u us IH]; [done|]. cbn [user_rule]. unfold rules_of. rw bind_cons find_app.
  destruct (String.eqb (usr_Name u) userName); [|exact IH].
  rw table_rule_find. destruct (find _ (usr_Tables u)); [done|exact IH].
Qed.

(** ** Properties *)

(** The rule that decides for a user and a table: the user's own first rule for
    the table when the user is named and has one, the table's first rule
    otherwise. *)
Definition deciding_rule (cfg : Prest) (table userName : string) : option TablesConf :=
  let here t := String.eqb (tbl_Name t) table in
  match (if String.eqb userName "" then None
         else find here (rules_of userName (ac_Users (Access cfg)))) with
  | Some t => Some t
  | None => find here (ac_Tables (Access cfg))
  end.

(** [TablePermissions] grants an operation exactly when access is not
    restricted, the table is ignored, or the deciding rule lists the operation;
    a user's own rule for the table overrides the table's, whatever it says. *)
Theorem TablePermissions_spec cfg table op userName :
  TablePermissions cfg table op userName = true ↔
  ac_Restrict (Access cfg) = false ∨ table ∈ ac_IgnoreTable (Access cfg) ∨
  ∃ t, deciding_rule cfg table userName = Some t ∧ op ∈ tbl_Permissions t.
Proof.
  assert (∀ t, contains (tbl_Permissions t) op = true ↔ op ∈ tbl_Permissions t) as Hc.
  { intros t. unfold contains. rw existsb_exists list_elem_of_In. split.
    - intros (x & Hx & ->%String.eqb_eq). done.
    - intros Hin. exists op. by rw String.eqb_refl. }
  assert (∀ o, match o with Some t => contains (tbl_Permissions t) op | None => false end = true ↔
    ∃ t, o = Some t ∧ op ∈ tbl_Permissions t) as Ho.
  { intros [t|]; [rw Hc|]; split; [eauto|by intros (? & [= <-] & ?)|done|by intros (? & ? & ?)]. }
  unfold TablePermissions, deciding_rule. destruct (ac_Restrict (Access cfg)); cbn [negb]; [|by split; auto].
  destruct (existsb _ (ac_IgnoreTable (Access cfg))) eqn:Hi.
  { apply existsb_exists in Hi as (x & Hx & ->%String.eqb_eq). split; [|done]. intros _. right. left.
    by rw list_elem_of_In. }
  assert (table ∉ ac_IgnoreTable (Access cfg)) as Hni.
  { intros Hin. apply not_true_iff_false in Hi. apply Hi, existsb_exists. exists table.
    by rw -list_elem_of_In String.eqb_refl. }
  rw table_rule_find user_rule_find.
  assert (∀ P, P ↔ (true = false ∨ table ∈ ac_IgnoreTable (Access cfg) ∨ P)) as Hdrop.
  { intros P. split; [by auto|]. by intros [?|[?|?]]. }
  rw -Hdrop -Ho. destruct (String.eqb userName ""); [done|]. by destruct (find _ (rules_of _ _)).
Qed.

Section properties.
Context `{UnicodeTables}.

(** C32: field restrictions.  When access is restricted and the allowed fields
    do not include the star, every field [FieldsPermissions] returns is an
    allowed one, or a text whose first double-quoted run is; without [_select]
    the result is the allowed fields; and an allowed field asked for is kept. *)
Theorem FieldsPermissions_restricted cfg r table op userName fs :
  ac_Restrict (Access cfg) = true → op ≠ "delete" →
  "*" ∉ fieldsByPermission cfg table op userName →
  FieldsPermissions cfg r table op userName = Val fs →
  let allowed := fieldsByPermission cfg table op userName in
  (∀ f, f ∈ fs → f ∈ allowed ∨ ∃ n, quoted_field f = Some n ∧ n ∈ allowed) ∧
  (columnsByRequest r = Val [] → fs = allowed) ∧
  (∀ cols f, columnsByRequest r = Val cols → f ∈ cols → f ≠ "" → f ∈ allowed → f ∈ fs).
Proof.
  intros Hr Hop%String.eqb_neq Hs. unfold FieldsPermissions. rw Hr Hop. cbn [negb orb].
  assert (containsAsterisk (fieldsByPermission cfg table op userName) = false) as ->.
  { apply not_true_is_false. intros (x & Hx & ->%String.eqb_eq)%existsb_exists.
    by rw -list_elem_of_In in Hx. }
  destruct (columnsByRequest r) as [cols| |]; [|done..]. intros <-%Val_inj.
  set (allowed := fieldsByPermission cfg table op userName). cbn zeta.
  assert (∀ f, f ∈ intersection cols allowed → f ∈ allowed ∨ ∃ n, quoted_field f = Some n ∧ n ∈ allowed)
    as Hint by (by intros f (_ & _ & ?)%intersection_elem).
  split_and!.
  - destruct cols, allowed; auto.
  - intros [= ->]. by destruct allowed.
  - intros cols' f [= <-] Hf Hne Ha.
    assert (f ∈ intersection cols allowed) as Hin by (apply intersection_elem; auto).
    by destruct cols, allowed.
Qed.

(** That exception is a bypass.  A user restricted to the field [id] reads
    another column by asking for an expression whose first quoted run is [id]:
    the permission check returns it and the field list copies it. *)
Theorem fields_permission_bypass :
  ∃ cfg r f, ac_Restrict (Access cfg) = true ∧ fieldsByPermission cfg "users" "read" "" = ["id"] ∧
    columnsByRequest r = Val [f] ∧ FieldsPermissions cfg r "users" "read" "" = Val [f] ∧
    SelectFields [f] = Val (requote "SELECT password||`id` FROM").
Proof.
  exists (set_Access (MkAccessConf true [] [MkTablesConf "users" ["read"] ["id"]] []) zero_Prest),
    (MkRequest "GET" "/d/s/users" "" {[ "_select" := [requote "password||`id`"] ]} ∅ empty_context ∅),
    (requote "password||`id`").
  split_and!; by vm_compute.
Qed.
End properties.

#[local] Existing Instance ascii_tables.

Definition restricted_cfg : Prest :=
  set_Access (MkAccessConf true [] [MkTablesConf "users" ["read"] ["id"; "name"]] []) zero_Prest.
Definition fields_req : Request :=
  MkRequest "GET" "/d/s/users" "" {[ "_select" := ["name, secret"] ]} ∅ empty_context ∅.

Lemma FieldsPermissions_witness :
  FieldsPermissions restricted_cfg fields_req "users" "read" "" = Val ["name"] ∧
  (∀ f, f ∈ ["name"] → f ∈ fieldsByPermission restricted_cfg "users" "read" "" ∨
     ∃ n, quoted_field f = Some n ∧ n ∈ fieldsByPermission restricted_cfg "users" "read" "").
Proof.
  split; [by vm_compute|].
  apply (FieldsPermissions_restricted restricted_cfg fields_req "users" "read" "" ["name"]);
    [done|done| |by vm_compute].
  by apply (bool_decide_unpack _).
Defined.
