(* ===== verification/Bodies.v ===== *)
(** * Request bodies: inserts, batch inserts and updates (adapters/postgres/postgres.go)

    The decoded body of a request is an argument: the result of the JSON
    decoder, an object as a finite map, a batch as a list of them. *)

From S2P Require Import Prelude GoStrings Regexp SqlLex Ident Config Http Json Formatters Filters Where.

Section bodies.
Context `{UnicodeTables}.

(** ** chkInvalidIdentifier *)

(** [unicode.Quotation_Mark] below U+0100. *)
Definition quotation_mark (v : N) : bool :=
  existsb (N.eqb v) [34; 39; 171; 187]%N.

Definition identifier_rune (v : N) : bool :=
  IsLetter v || IsDigit v || existsb (N.eqb v) [40; 41; 95; 46; 45; 42; 91; 93; 34]%N.

Definition invalid_one (ival : string) : bool :=
  match runes ival with
  | [] => true
  | r0 :: _ =>
      if IsDigit r0 then true
      else
        let ivalSplit := Split ival "." in
        if match ivalSplit with [_; l] => Nat.ltb 63 (slen l) | _ => false end then true
        else if negb (Contains ival ".") && Nat.ltb 63 (slen ival) then true
        else if negb (forallb identifier_rune (runes ival)) then true
        else Nat.odd (length (filter (λ v, Is_true (quotation_mark v)) (runes ival)))
  end.

Definition chkInvalidIdentifier (identifier : list string) : bool := existsb invalid_one identifier.

(** ** Values *)

(** [sliceToJSONList] of a slice: numbers as printed, everything else between
    double quotes, unescaped. *)
Definition slice_item (v : iface) : string :=
  match v with
  | IInt z => Itoa z
  | IFloat f => Sprint_float f
  | _ => dq +:+ Sprintf_s v +:+ dq
  end.

Definition sliceToJSONList (ifaceSlice : iface) : gores string :=
  match ifaceSlice with
  | INil => Err ErrEmptyOrInvalidSlice
  | ISlice l => Val ("[" +:+ Join (slice_item <$> l) ", " +:+ "]")
  | _ => Panic "reflect: call of reflect.Value.Len on a value that is not a slice"
  end.

(** The parameter bound for a value of an update: objects as JSON, arrays as
    the list above. *)
Definition set_value (value : iface) : gores iface :=
  match value with
  | IMap _ => Val (IStr (json_marshal value))
  | ISlice _ => s ← sliceToJSONList value; Val (IStr s)
  | _ => Val value
  end.

(** The parameter bound for a value of an insert. *)
Definition insert_value (value : iface) : iface :=
  match value with ISlice _ => IStr (FormatArray value) | _ => value end.

(** ** Updates *)

(** One field of the SET list: fields, values and the next placeholder. *)
Definition set_field (st : list string * list iface * Z) (kv : string * iface)
  : gores (list string * list iface * Z) :=
  let '(fields, values, pid) := st in
  let '(key, value) := kv in
  if negb (IsValid key) then Err (Wrapf ErrInvalidIdentifier "Set")
  else
    v ← set_value value;
    Val (fields ++ [quote_path key +:+ "=" +:+ ph pid], values ++ [v], (pid + 1)%Z).

Context `{MapRange}.

Definition SetByRequest (body : gores (gmap string iface)) (initialPlaceholderID : Z)
  : gores (string * list iface) :=
  body ← body;
  if decide (body = ∅) then Err ErrBodyEmpty
  else
    '(fields, values, _) ← foldE set_field ([], [], initialPlaceholderID) (map_range body);
    Val (Join fields ", ", values).

(** ** Inserts *)

Definition createPlaceholders (initial lenValues : Z) : string :=
  "(" +:+ Join (ph_list initial (Z.to_nat (lenValues - initial + 1))) "," +:+ ")".

(** The body of an insert with the ownership columns forced to the identity of
    the context. *)
Definition force_identity (PrestConf : Prest) (r : Request) (body : gmap string iface)
  : gmap string iface :=
  let uid := UserIDFromContext r in
  if String.eqb uid "" then body
  else match ResolveTenantCompat PrestConf r with
  | Some compat =>
      let body := <[tc_UserColumn compat := IStr uid]> body in
      let ws := TenantIDActiveFromContext r in
      <[tc_TenantColumn compat := if String.eqb ws "" then INil else IStr ws]> body
  | None =>
      let col := ResolveUserIDColumn PrestConf r in
      if String.eqb col "" then body else <[col := IStr uid]> body
  end.

Definition insert_field (st : list string * list iface) (kv : string * iface)
  : gores (list string * list iface) :=
  let '(key, value) := kv in
  if negb (IsValid key) then Err (Wrapf ErrInvalidIdentifier "Insert")
  else Val (st.1 ++ [dq +:+ key +:+ dq], st.2 ++ [insert_value value]).

Definition ParseInsertRequest (PrestConf : Prest) (r : Request) (body : gores (gmap string iface))
  : gores (string * string * list iface) :=
  body ← body;
  if decide (body = ∅) then Err ErrBodyEmpty
  else
    '(fields, values) ← foldE insert_field ([], []) (map_range (force_identity PrestConf r body));
    Val (Join fields ", ", createPlaceholders 1 (Z.of_nat (length values)), values).

(** ** Batch inserts *)

Definition tableKeys (json : gmap string iface) : list string :=
  sort_strings (strconv_Quote <$> (map_range json).*1).

(** A missing key reads as nil. *)
Definition record_value (record : gmap string iface) (key : string) : gores iface :=
  key ← strconv_Unquote key;
  Val (insert_value (default INil (record !! key))).

(** The loop over the records: the values so far and the placeholder groups. *)
Fixpoint operation_loop (recordKeys : list string) (values : list iface) (placeholders : option string)
    (recordSet : list (gmap string iface)) : gores (list iface * string) :=
  match recordSet with
  | [] => Val (values, default "" placeholders)
  | record :: rest =>
      let initPH := (Z.of_nat (length values) + 1)%Z in
      vs ← mapE (record_value record) recordKeys;
      let values := values ++ vs in
      let pl := createPlaceholders initPH (Z.of_nat (length values)) in
      operation_loop recordKeys values
        (Some (match placeholders with None => pl | Some p => p +:+ "," +:+ pl end)) rest
  end.

Definition operationValues (recordSet : list (gmap string iface)) (recordKeys : list string)
  : gores (list iface * string) :=
  operation_loop recordKeys [] None recordSet.

Definition ParseBatchInsertRequest (recordSet : gores (list (gmap string iface)))
  : gores (string * string * list iface) :=
  recordSet ← recordSet;
  match recordSet with
  | [] => Err ErrBodyEmpty
  | first :: _ =>
      let recordKeys := tableKeys first in
      '(values, placeholders) ← operationValues recordSet recordKeys;
      Val (Join recordKeys ",", placeholders, values)
  end.

(** ** COPY *)

Definition clean_key (k : string) : gores string :=
  if HasPrefix k dq then strconv_Unquote k else Val k.

(** Rows of [nCols] values; an incomplete last row is dropped. *)
Fixpoint chunk_rows (fuel nCols : nat) (values : list iface) : list (list iface) :=
  match fuel with
  | O => []
  | S f => if Nat.leb nCols (length values)
           then take nCols values :: chunk_rows f nCols (drop nCols values) else []
  end.

Definition copyRows (keys : list string) (values : list iface) : gores (list (list iface) * list string) :=
  keys ← mapE clean_key keys;
  match keys with
  | [] => Panic "runtime error: integer divide by zero"
  | _ => Val (chunk_rows (length values) (length keys) values, keys)
  end.
End bodies.
