(* ===== verification/BodiesSpec.v ===== *)
(** * Properties of the request bodies

    What reaches the database: the columns of an insert or an update are quoted
    identifiers, value [i] is bound to parameter [i], the ownership columns of
    an insert carry the identity of the request, and a batch is its rows in
    order.  The batch and update paths lack the checks of the insert path,
    which the counterexamples show. *)

From S2P Require Import Prelude GoStrings Regexp SqlLex Ident Config Http Json Formatters Filters Where WhereSpec Bodies.

(** ** strconv.Quote and strconv.Unquote *)

Section quoting.
Context `{UnicodeTables}.

Lemma unquote_seg c f rest :
  is_ascii_byte c = true →
  unquote_body (S f) (quote_seg (bval c, String c "") +:+ rest)
  = t ← unquote_body f rest; Some (String c t).
Proof.
  destruct c as [[] [] [] [] [] [] [] []]; try done; intros _; cbv -[unquote_body mbind];
    cbn [unquote_body]; cbv -[unquote_body mbind option_bind]; try reflexivity.
Qed.

Lemma quote_segs_length s :
  string_forall is_ascii_byte s = true →
  slen s ≤ slen (String.concat "" (quote_seg <$> rune_segs s)).
Proof.
  intros Hs. rw rune_segs_ascii; [done|]. clear Hs. induction s as [|c s IH]; [done|].
  cbn [String.list_ascii_of_string fmap list_fmap] in *.
  set (l := quote_seg <$> _) in *.
  assert (1 ≤ slen (quote_seg (bval c, String c ""))) as H1.
  { unfold quote_seg. repeat case_match; rw ?slen_app; cbn; lia. }
  destruct l as [|x l]; cbn [String.concat] in *; rw ?slen_app; cbn [slen String.length] in *; lia.
Qed.

Lemma unquote_quote_segs s f :
  string_forall is_ascii_byte s = true → slen s < f →
  unquote_body f (String.concat "" (quote_seg <$> rune_segs s) +:+ dq) = Some s.
Proof.
  intros Hs. rw rune_segs_ascii; [done|]. revert f; induction s as [|c s IH]; intros f Hf.
  { destruct f; [lia|]. done. }
  cbn [string_forall] in Hs. apply andb_true_iff in Hs as [Hc Hs].
  destruct f as [|f]; [cbn in Hf; lia|].
  cbn [String.list_ascii_of_string fmap list_fmap] in *.
  assert (∀ x l t, String.concat "" (x :: l) +:+ t = x +:+ (String.concat "" l +:+ t)) as Hcat.
  { intros x [|y l] t; cbn; by rw ?sapp_nil_r ?sapp_assoc. }
  rw Hcat unquote_seg; [done|]. rw IH; [done|cbn in Hf; lia|done].
Qed.

(** Unquoting a quoted ASCII string gives it back. *)
Lemma Unquote_Quote s :
  string_forall is_ascii_byte s = true → strconv_Unquote (strconv_Quote s) = Val s.
Proof.
  intros Hs. unfold strconv_Quote, strconv_Unquote. cbn [String.append byte_str ascii_of_N].
  change (ascii_of_pos 34) with dqc.
  change (String dqc "") with dq. rw Ascii.eqb_refl.
  rw unquote_quote_segs; [done| |done]. pose proof (quote_segs_length s Hs).
  rw slen_app. cbn [slen String.length dq]. lia.
Qed.
End quoting.

(** ** Lemmas: inserts *)

Section inserts.
Context `{UnicodeTables}.

Definition valid_key (kv : string * iface) : bool := IsValid kv.1.

Lemma insert_fields_spec a b kvs :
  foldE insert_field (a, b) kvs =
  if forallb valid_key kvs
  then Val (a ++ ((λ kv, dq +:+ kv.1 +:+ dq) <$> kvs), b ++ (insert_value ∘ snd <$> kvs))
  else Err (Wrapf ErrInvalidIdentifier "Insert").
Proof.
  revert a b; induction kvs as [|[k v] kvs IH]; intros a b; [by cbn; rw !app_nil_r|].
  cbn [foldE insert_field forallb valid_key fst snd]. unfold valid_key at 1. cbn [fst].
  destruct (IsValid k); cbn [negb andb mbind gores_bind]; [|done].
  rw IH. cbn [fmap list_fmap]. by rw -!app_assoc.
Qed.

Lemma idents_lex kvs :
  forallb valid_key kvs = true →
  lex (Join ((λ kv : string * iface, dq +:+ kv.1 +:+ dq) <$> kvs) ", ")
  = Some (sep_tokens ", " ((λ kv : string * iface, [TIdent kv.1]) <$> kvs)).
Proof.
  intros Hv. apply lex_Join; [done..|]. induction kvs as [|[k v] kvs IH]; [constructor|].
  cbn [forallb] in Hv. apply andb_true_iff in Hv as [Hk Hv]. constructor; [|by apply IH].
  by apply lex_plain_id, IsValid_no_quote.
Qed.

Lemma createPlaceholders_lex a n :
  (0 ≤ a)%Z → lex (createPlaceholders a (a + Z.of_nat n - 1))
  = Some (TCh "(" :: commas (ids (Z.to_N a) n) ++ [TCh ")"%char]).
Proof.
  intros Ha. unfold createPlaceholders.
  rw (_ : Z.to_nat (a + Z.of_nat n - 1 - a + 1) = n); [lia|]. by apply lex_paren, lex_commas.
Qed.

Lemma forallb_Forall {A} (p : A → bool) l : forallb p l = true ↔ Forall (λ x, p x = true) l.
Proof. rw forallb_forall List.Forall_forall. done. Qed.

Lemma forallb_false {A} (p : A → bool) l : forallb p l = false → ∃ x, x ∈ l ∧ p x = false.
Proof.
  induction l as [|x l IH]; [done|]. cbn. destruct (p x) eqn:E; cbn.
  - intros (y & ? & ?)%IH. exists y. split; [by right|done].
  - intros _. exists x. split; [by left|done].
Qed.

(** ** Lemmas: updates *)

Definition set_val (v : iface) : iface :=
  match v with
  | IMap _ => IStr (json_marshal v)
  | ISlice l => IStr ("[" +:+ Join (slice_item <$> l) ", " +:+ "]")
  | _ => v
  end.

Lemma set_value_val v : set_value v = Val (set_val v).
Proof. by destruct v. Qed.

(** The SET list with its parameters numbered from [pid]. *)
Fixpoint set_texts (pid : Z) (kvs : list (string * iface)) : list string :=
  match kvs with
  | [] => []
  | kv :: kvs' => (quote_path kv.1 +:+ "=" +:+ ph pid) :: set_texts (pid + 1) kvs'
  end.

Fixpoint set_tokens (pid : N) (kvs : list (string * iface)) : list (list token) :=
  match kvs with
  | [] => []
  | kv :: kvs' => (dotted (Split kv.1 ".") ++ [TCh "="%char; TPh pid]) :: set_tokens (pid + 1) kvs'
  end.

Lemma set_fields_spec a b pid kvs :
  foldE set_field (a, b, pid) kvs =
  if forallb valid_key kvs
  then Val (a ++ set_texts pid kvs, b ++ (set_val ∘ snd <$> kvs), (pid + Z.of_nat (length kvs))%Z)
  else Err (Wrapf ErrInvalidIdentifier "Set").
Proof.
  revert a b pid; induction kvs as [|[k v] kvs IH]; intros a b pid;
    [by cbn; rw !app_nil_r Z.add_0_r|].
  cbn [foldE set_field forallb]. unfold valid_key at 1. cbn [fst].
  destruct (IsValid k); cbn [negb andb mbind gores_bind]; [|done].
  rw set_value_val. cbn [mbind gores_bind]. rw IH. cbn [fmap list_fmap set_texts length fst].
  destruct (forallb valid_key kvs); [|done]. rw -!app_assoc. cbn [app]. do 2 f_equal. cbn [length List.length]. lia.
Qed.

Lemma set_texts_lex pid kvs :
  (0 ≤ pid)%Z → forallb valid_key kvs = true →
  Forall2 (λ s t, lex s = Some t) (set_texts pid kvs) (set_tokens (Z.to_N pid) kvs).
Proof.
  intros Hp Hv. revert pid Hp; induction kvs as [|[k v] kvs IH]; intros pid Hp; [constructor|].
  cbn [forallb] in Hv. apply andb_true_iff in Hv as [Hk Hv]. cbn [set_texts set_tokens].
  rw (_ : (Z.to_N pid + 1 = Z.to_N (pid + 1))%N); [lia|].
  constructor; [|apply IH; [done|lia]]. cbn [fst]. unfold valid_key in Hk; cbn [fst] in Hk.
  unfold quote_path. apply lex_app; [| |done].
  - apply lex_dotted; [by apply IsValid_idents|apply Split_nonempty].
  - change [TCh "="%char; TPh (Z.to_N pid)] with (chars "=" ++ [TPh (Z.to_N pid)]).
    by apply lex_plain_app; [|apply lex_ph_Z].
Qed.
End inserts.

(** ** Lemmas: batches *)

Section batch.
Context `{UnicodeTables}.

Definition ascii_keys (ks : list string) : Prop := Forall (λ k, string_forall is_ascii_byte k = true) ks.

Definition row_of (ks : list string) (record : gmap string iface) : list iface :=
  (λ k, insert_value (default INil (record !! k))) <$> ks.

Lemma record_values_row ks record :
  ascii_keys ks → mapE (record_value record) (strconv_Quote <$> ks) = Val (row_of ks record).
Proof.
  intros Hks. apply mapE_Forall2. apply Forall2_fmap. induction Hks as [|k ks Hk _ IH]; constructor; [|done].
  unfold record_value. by rw Unquote_Quote.
Qed.

(** The placeholder groups of [rows] rows of [n] columns from number [start]. *)
Fixpoint groups (start : N) (n rows : nat) : list (list token) :=
  match rows with
  | O => []
  | S r => (TCh "(" :: commas (ids start n) ++ [TCh ")"%char]) :: groups (start + N.of_nat n) n r
  end.

Lemma operation_loop_spec ks values done_ tdone rs :
  ascii_keys ks → lex done_ = Some tdone →
  ∃ pls, operation_loop (strconv_Quote <$> ks) values (Some done_) rs
         = Val (values ++ (rs ≫= row_of ks), pls) ∧
    lex pls = Some (sep_tokens "," (tdone :: groups (N.of_nat (length values) + 1) (length ks) (length rs))).
Proof.
  intros Hks. revert values done_ tdone; induction rs as [|rec rs IH]; intros values done_ tdone Hd.
  - eexists; split; [cbn; by rw app_nil_r|done].
  - cbn [operation_loop]. rw record_values_row; [done|]. cbn [mbind gores_bind].
    assert (length (row_of ks rec) = length ks) as Hlen by by unfold row_of; rw length_fmap.
    set (pl := createPlaceholders _ _).
    assert (lex pl = Some (TCh "(" :: commas (ids (N.of_nat (length values) + 1) (length ks)) ++ [TCh ")"%char])) as Hpl.
    { subst pl. rw length_app Hlen.
      rw (_ : Z.of_nat (length values + length ks) = Z.of_nat (length values) + 1 + Z.of_nat (length ks) - 1)%Z; [lia|].
      rw createPlaceholders_lex; [lia|]. do 5 f_equal. lia. }
    destruct (IH (values ++ row_of ks rec) (done_ +:+ "," +:+ pl)
      (tdone ++ chars "," ++ (TCh "(" :: commas (ids (N.of_nat (length values) + 1) (length ks)) ++ [TCh ")"%char])))
      as (pls & Hp & Hl).
    { apply lex_app; [done| |done]. by apply lex_plain_app. }
    exists pls. split.
    + etrans; [exact Hp|]. by rw -app_assoc.
    + rw Hl. cbn [groups length List.length]. rw length_app Hlen.
      rw (_ : (N.of_nat (length values + length ks) + 1 = N.of_nat (length values) + 1 + N.of_nat (length ks))%N); [lia|].
      f_equal. generalize (groups (N.of_nat (length values) + 1 + N.of_nat (length ks)) (length ks) (length rs)).
      intros [|g gs]; cbn [sep_tokens]; by rw -?app_assoc.
Qed.

Lemma operationValues_spec ks rec rs :
  ascii_keys ks →
  ∃ pls, operationValues (rec :: rs) (strconv_Quote <$> ks) = Val ((rec :: rs) ≫= row_of ks, pls) ∧
    lex pls = Some (sep_tokens "," (groups 1 (length ks) (S (length rs)))).
Proof.
  intros Hks. unfold operationValues. cbn [operation_loop]. rw record_values_row; [done|].
  cbn [mbind gores_bind app].
  assert (length (row_of ks rec) = length ks) as Hlen by by unfold row_of; rw length_fmap.
  destruct (operation_loop_spec ks (row_of ks rec) (createPlaceholders 1 (Z.of_nat (length (row_of ks rec))))
    (TCh "(" :: commas (ids 1 (length ks)) ++ [TCh ")"%char]) rs Hks) as (pls & Hp & Hl).
  { rw Hlen. rw (_ : Z.of_nat (length ks) = 1 + Z.of_nat (length ks) - 1)%Z; [lia|]. by apply createPlaceholders_lex. }
  exists pls. split.
  - exact Hp.
  - rw Hl. cbn [groups]. rw Hlen. do 4 f_equal. lia.
Qed.

Lemma sort_strings_perm l : sort_strings l ≡ₚ l.
Proof. apply merge_sort_Permutation. Qed.

Lemma tableKeys_perm `{MapRange} (m : gmap string iface) :
  ∃ ks, tableKeys m = strconv_Quote <$> ks ∧ ks ≡ₚ (map_to_list m).*1.
Proof.
  unfold tableKeys. pose proof (sort_strings_perm (strconv_Quote <$> (map_range m).*1)) as Hp.
  apply Permutation_map_inv in Hp as (ks & Hks & Hperm). exists ks. split; [done|].
  rw -Hperm. by rw map_range_perm.
Qed.

(** ** Lemmas: COPY *)

Lemma clean_key_Quote k : string_forall is_ascii_byte k = true → clean_key (strconv_Quote k) = Val k.
Proof.
  intros Hk. unfold clean_key. rw (_ : HasPrefix (strconv_Quote k) dq = true); [apply (prefix_app dq)|].
  by apply Unquote_Quote.
Qed.

Lemma chunk_rows_spec f n rows :
  0 < n → Forall (λ r : list iface, length r = n) rows → length (mjoin rows) ≤ f →
  chunk_rows f n (mjoin rows) = rows.
Proof.
  intros Hn Hr. revert f; induction Hr as [|r rows Hr _ IH]; intros f Hf.
  - destruct f; [done|]. cbn. destruct n; [lia|done].
  - change (mjoin (r :: rows)) with (r ++ mjoin rows) in Hf |- *. rw length_app in Hf. destruct f as [|f]; [lia|]. cbn [chunk_rows].
    rw length_app. rw (proj2 (Nat.leb_le _ _)); [lia|].
    rw take_app_length' // drop_app_length' //. rw IH; [lia|done].
Qed.
End batch.

Lemma ParseInsert_eq `{UnicodeTables} `{MapRange} cfg r body :
  body ≠ ∅ →
  ParseInsertRequest cfg r (Val body) =
  let kvs := map_range (force_identity cfg r body) in
  if forallb valid_key kvs
  then Val (Join ((λ kv, dq +:+ kv.1 +:+ dq) <$> kvs) ", ", createPlaceholders 1 (Z.of_nat (length kvs)),
            insert_value ∘ snd <$> kvs)
  else Err (Wrapf ErrInvalidIdentifier "Insert").
Proof.
  intros Hb. unfold ParseInsertRequest. cbn [mbind gores_bind]. rw decide_False; [done|].
  rw insert_fields_spec. cbn zeta. destruct (forallb _ _); [|done].
  cbn [mbind gores_bind app]. by rw length_fmap.
Qed.

(** ** Properties *)

Section properties.
Context `{UnicodeTables} `{MapRange}.

(** Inserts.  A body with an invalid column name is refused; otherwise, for
    every order of the map, column [i] of the list is the quoted name of the
    [i]th entry of the body (with the identity forced), the placeholder list
    reads [$1, ..., $n], and value [i] is the value of that entry. *)
Theorem ParseInsertRequest_spec cfg r body :
  body ≠ ∅ →
  let m := force_identity cfg r body in
  match ParseInsertRequest cfg r (Val body) with
  | Val (cols, phs, vals) => ∃ kvs, kvs ≡ₚ map_to_list m ∧ vals = (insert_value ∘ snd <$> kvs) ∧
      lex cols = Some (sep_tokens ", " ((λ kv : string * iface, [TIdent kv.1]) <$> kvs)) ∧
      lex phs = Some (TCh "(" :: commas (ids 1 (length kvs)) ++ [TCh ")"%char])
  | Err e => e = Wrapf ErrInvalidIdentifier "Insert" ∧ ∃ k v, m !! k = Some v ∧ IsValid k = false
  | Panic _ => False
  end.
Proof.
  intros Hb. cbn zeta. rw ParseInsert_eq //. cbn zeta. destruct (forallb valid_key _) eqn:E.
  - exists (map_range (force_identity cfg r body)). split; [apply map_range_perm|]. split; [done|].
    split; [by apply idents_lex|].
    rw (_ : Z.of_nat ?[n] = 1 + Z.of_nat ?n - 1)%Z; [lia|]. by apply createPlaceholders_lex.
  - split; [done|]. apply forallb_false in E as ([k v] & Hin%map_range_lookup & Hv). eauto.
Qed.

(** C23: an authenticated insert carries the identity.  Whatever the body says,
    an insert accepted from a request with user id [uid] sets the user column
    of the table's rule to [uid] and, on a tenant table, the tenant column to
    the active tenant or to NULL; each of them once. *)
Theorem insert_forces_identity cfg r body cols phs vals :
  let uid := UserIDFromContext r in
  let ws := TenantIDActiveFromContext r in
  body ≠ ∅ → uid ≠ "" → ParseInsertRequest cfg r (Val body) = Val (cols, phs, vals) →
  ∃ kvs : list (string * iface), NoDup kvs.*1 ∧ vals = (insert_value ∘ snd <$> kvs) ∧
    lex cols = Some (sep_tokens ", " ((λ kv : string * iface, [TIdent kv.1]) <$> kvs)) ∧
    match ResolveTenantCompat cfg r with
    | Some f =>
        (tc_TenantColumn f, if String.eqb ws "" then INil else IStr ws) ∈ kvs ∧
        (tc_UserColumn f ≠ tc_TenantColumn f → (tc_UserColumn f, IStr uid) ∈ kvs)
    | None => ResolveUserIDColumn cfg r ≠ "" → (ResolveUserIDColumn cfg r, IStr uid) ∈ kvs
    end.
Proof.
  cbn zeta. intros Hb Hu%String.eqb_neq. rw ParseInsert_eq //. cbn zeta.
  destruct (forallb valid_key _) eqn:E; [|done]. intros Hv%Val_inj.
  injection Hv as <- _ <-. exists (map_range (force_identity cfg r body)).
  split; [apply map_range_NoDup|]. split; [done|]. split; [by apply idents_lex|].
  unfold force_identity. rw Hu. destruct (ResolveTenantCompat cfg r) as [f|].
  - rw !map_range_lookup. split; [by rw lookup_insert decide_True|].
    intros Hne. rw lookup_insert_ne; [done|]. by rw lookup_insert decide_True.
  - intros Hc%String.eqb_neq. rw Hc map_range_lookup. by rw lookup_insert decide_True.
Qed.

(** Updates.  A SET list is read back as the quoted columns of the body,
    each equated with its own parameter, numbered from the given placeholder
    in the order of the values; objects and arrays are bound as text. *)
Theorem SetByRequest_spec body n :
  body ≠ ∅ → (0 ≤ n)%Z →
  match SetByRequest (Val body) n with
  | Val (s, vals) => ∃ kvs, kvs ≡ₚ map_to_list body ∧ vals = (set_val ∘ snd <$> kvs) ∧
      lex s = Some (sep_tokens ", " (set_tokens (Z.to_N n) kvs))
  | Err e => e = Wrapf ErrInvalidIdentifier "Set" ∧ ∃ k v, body !! k = Some v ∧ IsValid k = false
  | Panic _ => False
  end.
Proof.
  intros Hb Hn. unfold SetByRequest. cbn [mbind gores_bind]. rw decide_False; [done|].
  rw set_fields_spec. destruct (forallb valid_key _) eqn:E; cbn [mbind gores_bind].
  - exists (map_range body). split; [apply map_range_perm|]. split; [done|].
    apply lex_Join; [done..|]. by apply set_texts_lex.
  - split; [done|]. apply forallb_false in E as ([k v] & Hin%map_range_lookup & Hv). eauto.
Qed.

(** Batches.  With ASCII keys in the first record, the result is the table
    of its columns: one group of placeholders per record, numbered through, and
    for every record the values of those columns in the order of the column
    list, NULL where a record lacks one. *)
Theorem ParseBatchInsertRequest_rows rec rs :
  ascii_keys (map_to_list rec).*1 →
  ∃ ks pls, ks ≡ₚ (map_to_list rec).*1 ∧
    ParseBatchInsertRequest (Val (rec :: rs))
    = Val (Join (strconv_Quote <$> ks) ",", pls, (rec :: rs) ≫= row_of ks) ∧
    lex pls = Some (sep_tokens "," (groups 1 (length ks) (S (length rs)))).
Proof.
  intros Hk. destruct (tableKeys_perm rec) as (ks & Hks & Hp).
  assert (ascii_keys ks) as Hka by (unfold ascii_keys in *; by rw Hp).
  destruct (operationValues_spec ks rec rs Hka) as (pls & Ho & Hl).
  exists ks, pls. split; [done|]. split; [|done].
  unfold ParseBatchInsertRequest. cbn [mbind gores_bind]. rw Hks Ho. done.
Qed.

(** [copyRows] undoes the flattening of a batch: from the quoted names of
    [ks] and the concatenation of rows of that width it returns the rows and
    the bare names. *)
Theorem copyRows_rows ks rows :
  ascii_keys ks → ks ≠ [] → Forall (λ r : list iface, length r = length ks) rows →
  copyRows (strconv_Quote <$> ks) (mjoin rows) = Val (rows, ks).
Proof.
  intros Hk Hne Hr. unfold copyRows.
  rw (_ : mapE clean_key (strconv_Quote <$> ks) = Val ks).
  { apply mapE_Forall2, Forall2_fmap_l. clear Hne Hr. induction Hk; constructor; [|done].
    by apply clean_key_Quote. }
  cbn [mbind gores_bind]. destruct ks as [|k ks]; [done|].
  rw chunk_rows_spec; [cbn; lia|done..].
Qed.
End properties.

(** ** Counterexamples *)

Section counterexamples.
Context `{UnicodeTables} `{MapRange}.

(** A batch does not check its column names: a key with a double quote in
    it ends the quoted name, because Go quotes it with a backslash, and the
    rest of the key is read as SQL. *)
Theorem batch_insert_injection :
  ∃ key cols phs vals ts,
    ParseBatchInsertRequest (Val [{[ key := IInt 1 ]}]) = Val (cols, phs, vals) ∧
    lex ("(" +:+ cols +:+ ")") = Some ts ∧ harmless ts = false ∧ IsValid key = false.
Proof.
  set (key := requote "x`) VALUES (1); DROP TABLE y; SELECT `z").
  assert (map_range {[ key := IInt 1 ]} = [(key, IInt 1)]) as Hm.
  { apply Permutation_singleton_r. by rw map_range_perm map_to_list_singleton. }
  assert (tableKeys {[ key := IInt 1 ]} = [strconv_Quote key]) as Hk.
  { unfold tableKeys. rw Hm. by vm_compute. }
  destruct (operationValues_spec [key] {[ key := IInt 1 ]} []) as (pls & Ho & _).
  { by repeat constructor. }
  exists key, (strconv_Quote key), pls, ([{[ key := IInt 1 ]}] ≫= row_of [key]).
  eexists. split.
  - unfold ParseBatchInsertRequest. cbn [mbind gores_bind]. rw Hk.
    change [strconv_Quote key] with (strconv_Quote <$> [key]). by rw Ho.
  - split; [by vm_compute|]. split; by vm_compute.
Qed.

(** Only the single insert forces the identity.  On a table with a user-id
    rule, an authenticated single insert of a foreign owner is rewritten to the
    caller, while the same record in a batch, and the same field in an update,
    bind the foreign owner: a caller can insert rows as another user and give
    its rows away. *)
Theorem batch_and_update_keep_foreign_owner uid other :
  uid ≠ "" → other ≠ uid →
  let r := sample_req "/db/public/files" (with_UserID uid empty_context) in
  let body : gmap string iface := {[ "user_id" := IStr other ]} in
  ResolveUserIDColumn sample_cfg r = "user_id" ∧
  ParseInsertRequest sample_cfg r (Val body) = Val (requote "`user_id`", "($1)", [IStr uid]) ∧
  ParseBatchInsertRequest (Val [body]) = Val (requote "`user_id`", "($1)", [IStr other]) ∧
  SetByRequest (Val body) 1 = Val (requote "`user_id`=$1", [IStr other]).
Proof.
  intros Hu%String.eqb_neq _. cbn zeta.
  set (r := sample_req _ _). assert (ResolveUserIDColumn sample_cfg r = "user_id") as Hc by by vm_compute.
  assert (∀ v : iface, map_range {[ "user_id" := v ]} = [("user_id", v)]) as Hm.
  { intros v. apply Permutation_singleton_r. by rw map_range_perm map_to_list_singleton. }
  assert (∀ v : iface, ({[ "user_id" := v ]} : gmap string iface) ≠ ∅) as Hne by by intros v ?%(f_equal (lookup "user_id")).
  split; [done|]. split; [|split].
  - rw ParseInsert_eq //. unfold force_identity.
    rw (_ : UserIDFromContext r = uid) // Hu (_ : ResolveTenantCompat sample_cfg r = None); [by vm_compute|].
    rw Hc. cbn [String.eqb Ascii.eqb]. rw insert_singleton_eq Hm. by vm_compute.
  - unfold ParseBatchInsertRequest, tableKeys. cbn [mbind gores_bind]. rw Hm. by vm_compute.
  - unfold SetByRequest. cbn [mbind gores_bind]. case_decide as E; [by apply Hne in E|]. rw Hm. by vm_compute.
Qed.
End counterexamples.

#[local] Existing Instance ascii_tables.

Definition notes_body : gmap string iface :=
  <["title" := IStr "t"]> (<["user_id" := IStr "mallory"]> ∅).
Definition owner_req : Request :=
  sample_req "/db/public/notes" (with_TenantIDActive "t1" (with_UserID "alice" empty_context)).

Lemma ParseInsertRequest_witness :
  notes_body ≠ ∅ ∧
  match ParseInsertRequest sample_cfg owner_req (Val notes_body) with
  | Val (cols, phs, vals) => ∃ kvs, kvs ≡ₚ map_to_list (force_identity sample_cfg owner_req notes_body) ∧
      vals = (insert_value ∘ snd <$> kvs) ∧
      lex cols = Some (sep_tokens ", " ((λ kv : string * iface, [TIdent kv.1]) <$> kvs)) ∧
      lex phs = Some (TCh "(" :: commas (ids 1 (length kvs)) ++ [TCh ")"%char])
  | Err e => e = Wrapf ErrInvalidIdentifier "Insert" ∧
      ∃ k v, force_identity sample_cfg owner_req notes_body !! k = Some v ∧ IsValid k = false
  | Panic _ => False
  end.
Proof. split; [done|]. apply (ParseInsertRequest_spec sample_cfg owner_req notes_body). done. Defined.

Lemma insert_forces_identity_witness :
  ParseInsertRequest sample_cfg owner_req (Val notes_body)
    = Val (requote "`user_id`, `tenant_id`, `title`", "($1,$2,$3)", [IStr "alice"; IStr "t1"; IStr "t"]) ∧
  ∃ kvs : list (string * iface), NoDup kvs.*1 ∧
    [IStr "alice"; IStr "t1"; IStr "t"] = (insert_value ∘ snd <$> kvs) ∧
    lex (requote "`user_id`, `tenant_id`, `title`")
      = Some (sep_tokens ", " ((λ kv : string * iface, [TIdent kv.1]) <$> kvs)) ∧
    ("tenant_id", IStr "t1") ∈ kvs ∧ ("user_id" ≠ "tenant_id" → ("user_id", IStr "alice") ∈ kvs).
Proof.
  split; [by vm_compute|].
  apply (insert_forces_identity sample_cfg owner_req notes_body (requote "`user_id`, `tenant_id`, `title`")
    "($1,$2,$3)" [IStr "alice"; IStr "t1"; IStr "t"]); by vm_compute.
Defined.

Lemma SetByRequest_witness :
  match SetByRequest (Val notes_body) 2 with
  | Val (s, vals) => ∃ kvs, kvs ≡ₚ map_to_list notes_body ∧ vals = (set_val ∘ snd <$> kvs) ∧
      lex s = Some (sep_tokens ", " (set_tokens (Z.to_N 2) kvs))
  | Err e => e = Wrapf ErrInvalidIdentifier "Set" ∧ ∃ k v, notes_body !! k = Some v ∧ IsValid k = false
  | Panic _ => False
  end.
Proof. by apply (SetByRequest_spec notes_body 2). Defined.

Lemma ParseBatchInsertRequest_witness :
  ∃ ks pls, ks ≡ₚ (map_to_list notes_body).*1 ∧
    ParseBatchInsertRequest (Val [notes_body; ∅])
    = Val (Join (strconv_Quote <$> ks) ",", pls, [notes_body; ∅] ≫= row_of ks) ∧
    lex pls = Some (sep_tokens "," (groups 1 (length ks) 2)).
Proof. apply (ParseBatchInsertRequest_rows notes_body [∅]). vm_compute. repeat constructor. Defined.

Lemma copyRows_witness :
  copyRows [requote "`a`"; requote "`b`"] [IInt 1; IInt 2; IInt 3; IInt 4]
  = Val ([[IInt 1; IInt 2]; [IInt 3; IInt 4]], ["a"; "b"]).
Proof.
  apply (copyRows_rows ["a"; "b"] [[IInt 1; IInt 2]; [IInt 3; IInt 4]]); [|done|by repeat constructor].
  by repeat constructor.
Defined.

Lemma keep_foreign_owner_witness :
  "alice" ≠ "" ∧ "mallory" ≠ "alice" ∧
  ParseBatchInsertRequest (Val [{[ "user_id" := IStr "mallory" ]}])
    = Val (requote "`user_id`", "($1)", [IStr "mallory"]).
Proof.
  split; [done|]. split; [done|].
  apply (batch_and_update_keep_foreign_owner "alice" "mallory"); done.
Defined.
