(* ===== verification/Exec.v ===== *)
(** * Running statements: adapters/postgres/postgres.go, scanner/scanner.go

    How a statement text reaches the database and how its result comes back:
    the cache of prepared statements, queries, counts, inserts, batch inserts,
    deletes and updates.  The database driver is an interface, [Backend]; the
    functions are programs of a state monad over the connection pool, the
    statement cache and the driver's own state. *)

From S2P Require Import Prelude GoStrings Regexp SqlLex GoStd Config Http Json Where Bodies Connection Statements.

(** ** The driver *)

(** What a statement is prepared on: a connection or a transaction. *)
Inductive target := OnDB (h : nat) | OnTx (t : nat).

Record Stmt := MkStmt { stmt_on : target; stmt_sql : string }.

#[export] Instance target_eq_dec : EqDecision target.
Proof. solve_decision. Defined.
#[export] Instance Stmt_eq_dec : EqDecision Stmt.
Proof. solve_decision. Defined.

(** The rows of a result, and the error that ended them, if one did. *)
Record Rows := MkRows {
  rows_cols : list string;
  rows_data : list (list iface);
  rows_err : option error
}.

(** database/sql and the driver behind it: every call may change the state of
    the database and may fail. [be_copy] is pgx's [CopyFrom], with the handle,
    the deadline in seconds, the schema, the table, the columns and the rows. *)
Class Backend (D : Type) := {
  be_dial : string → gores unit;
  be_prepare : D → target → string → D * gores unit;
  be_query : D → Stmt → list iface → D * gores Rows;
  be_exec : D → Stmt → list iface → D * gores (gores Z);
  be_copy : D → nat → option Z → string → string → list string → list (list iface) → D * gores Z
}.

(** ** The state of the adapter, and its monad *)

Record World (D : Type) := MkWorld {
  w_conn : ConnState;
  w_stmts : gmap string Stmt;      (* stmts.PrepareMap *)
  w_db : D
}.
Arguments MkWorld {D} _ _ _.
Arguments w_conn {D} _.
Arguments w_stmts {D} _.
Arguments w_db {D} _.

Definition M (D A : Type) : Type := World D → World D * gores A.

#[export] Instance M_ret D : MRet (M D) := λ A a w, (w, Val a).
#[export] Instance M_bind D : MBind (M D) := λ A B f m w,
  match m w with
  | (w, Val a) => f a w
  | (w, Err e) => (w, Err e)
  | (w, Panic p) => (w, Panic p)
  end.

Definition lift {D A} (r : gores A) : M D A := λ w, (w, r).
Definition with_conn {D A} (f : ConnState → ConnState * gores A) : M D A :=
  λ w, let '(c, r) := f (w_conn w) in (MkWorld c (w_stmts w) (w_db w), r).
Definition with_db {D A} (f : D → D * gores A) : M D A :=
  λ w, let '(d, r) := f (w_db w) in (MkWorld (w_conn w) (w_stmts w) d, r).
Definition lookup_stmt {D} (SQL : string) : M D (option Stmt) := λ w, (w, Val (w_stmts w !! SQL)).
Definition store_stmt {D} (SQL : string) (s : Stmt) : M D unit :=
  λ w, (MkWorld (w_conn w) (<[SQL := s]> (w_stmts w)) (w_db w), Val tt).
(** An error as a value, for the code that goes on after it. *)
Definition try {D A} (m : M D A) : M D (gores A) :=
  λ w, match m w with
       | (w, Panic p) => (w, Panic p)
       | (w, r) => (w, Val r)
       end.

(** ** Scanners: adapters/scanner/scanner.go *)

Record PrestScanner := MkScanner { Buff : option string; Error : option error; IsQuery : bool }.

Definition Bytes (p : PrestScanner) : string := default "" (Buff p).
(** [sc.Err() != nil] and the bytes, as a result. *)
Definition sc_result (p : PrestScanner) : gores string :=
  match Error p with Some e => Err e | None => Val (Bytes p) end.

Definition ErrScanner (e : error) : PrestScanner := MkScanner None (Some e) false.
Definition BuffScanner (b : string) : PrestScanner := MkScanner (Some b) None false.

(** [if err != nil { return &PrestScanner{Error: err} }] around a body whose
    errors are its early returns. *)
Definition catching {D} (m : M D PrestScanner) : M D PrestScanner :=
  λ w, match m w with
       | (w, Err e) => (w, Val (ErrScanner e))
       | r => r
       end.

(** ** database/sql: scanning a column *)

Section scan.
Context `{UnicodeTables}.

(** The text of a driver value, in the conversions to bytes and integers. *)
Definition as_text (v : iface) : string :=
  match v with
  | IBool b => if b then "true" else "false"
  | IInt z => Itoa z
  | IFloat f => Sprint_float f
  | IStr s => s
  | _ => ""
  end.

Definition type_name (v : iface) : string :=
  match v with
  | INil => "nil" | IBool _ => "bool" | IInt _ => "int64" | IFloat _ => "float64" | IStr _ => "string"
  | _ => "interface {}"
  end.

(** Into a [[]byte]: NULL is the nil slice. *)
Definition scan_bytes (v : iface) : gores string := Val (as_text v).

Definition scan_int64 (v : iface) : gores Z :=
  match v with
  | INil => Err "converting NULL to int64 is unsupported"
  | IInt z => Val z
  | _ =>
      match Atoi (as_text v) with
      | Err e =>
          Err ("converting driver.Value type " +:+ type_name v +:+ " (" +:+ strconv_Quote (as_text v)
               +:+ ") to a int64: "
               +:+ (if HasSuffix e "value out of range" then "value out of range" else "invalid syntax"))
      | r => r
      end
  end.

(** [rows.Scan] with one destination. *)
Definition scan_one {A} (dest : iface → gores A) (cols : list string) (row : list iface) : gores A :=
  match row with
  | [v] =>
      match dest v with
      | Err e => Err ("sql: Scan error on column index 0, name " +:+ strconv_Quote (default "" (head cols))
                      +:+ ": " +:+ e)
      | r => r
      end
  | _ => Err ("sql: expected " +:+ Itoa (Z.of_nat (length row)) +:+ " destination arguments in Scan, not 1")
  end.

(** [QueryRow(...).Scan(&dest)] *)
Definition scan_row {A} (dest : iface → gores A) (rows : Rows) : gores A :=
  match rows_data rows with
  | [] => Err (default "sql: no rows in result set" (rows_err rows))
  | row :: _ => scan_one dest (rows_cols rows) row
  end.
End scan.

(** ** Statements *)

(** The regexes that find the table of an INSERT; with the flag [i] the class
    [\w] also holds the two runes that fold to ASCII letters. *)
Definition word_fold (n : N) : bool := word_rune n || (n =? 383)%N || (n =? 8490)%N.
Definition either (a b n : N) : bool := (n =? a)%N || (n =? b)%N.
Definition re_into : regex :=
  RCat (RSet (either 105 73)) (RCat (RSet (either 110 78)) (RCat (RSet (either 116 84))
    (RCat (RSet (either 111 79)) (RPlus true (RSet ws_rune))))).
Definition name_rune (n : N) : bool := word_fold n || either 124 45 n.                  (* [\w|-] *)
Definition path_rune (n : N) : bool := name_rune n || (n =? 46)%N.                      (* [\w|\.|-] *)
Definition quoted_path_rune (n : N) : bool := path_rune n || (n =? 34)%N.
Definition re_open : regex := RCat (RStar true (RSet ws_rune)) (lit 40).
Definition re_name : regex := RGrp 2 (RPlus true (RSet name_rune)).

Definition insertTableNameRegex : regex :=
  RCat re_into (RCat (re_dotted path_rune)
    (RCat re_name re_open)).
Definition insertTableNameQuotesRegex : regex :=
  RCat re_into (RCat (re_dotted quoted_path_rune)
    (RCat (lit 34) (RCat re_name (RCat (lit 34) re_open)))).

(** The text an insert is prepared with. *)
Definition returning_insert (SQL : string) : gores string :=
  match FindSubmatch insertTableNameQuotesRegex SQL with
  | Some caps => Val (SQL +:+ requote " RETURNING row_to_json(`" +:+ default "" (group 2 caps) +:+ requote "`)")
  | None =>
      match FindSubmatch insertTableNameRegex SQL with
      | Some caps => Val (SQL +:+ requote " RETURNING row_to_json(`" +:+ default "" (group 2 caps) +:+ requote "`)")
      | None => Err ErrNoTableName
      end
  end.

Section exec.
Context {D : Type} `{Backend D} `{UnicodeTables}.
Variable PrestConf : Prest.

(** [Stmt.Prepare]: the cache is keyed by the text alone and is only used
    outside transactions. *)
Definition Prepare (t : target) (SQL : string) : M D Stmt :=
  let cached := PGCache PrestConf && match t with OnDB _ => true | OnTx _ => false end in
  hit ← if cached then lookup_stmt SQL else mret None;
  match hit with
  | Some statement => mret statement
  | None =>
      with_db (λ d, be_prepare d t SQL) ≫= λ _,
      let statement := MkStmt t SQL in
      (if cached then store_stmt SQL statement else mret tt) ≫= λ _,
      mret statement
  end.

(** [connection.Get] and [getDBFromCtx]. *)
Definition get_db : M D nat := with_conn (Connection.Get be_dial PrestConf).
Definition get_db_ctx (c : Context) : M D nat := with_conn (getDBFromCtx be_dial PrestConf c).

Definition stmt_Query (s : Stmt) (params : list iface) : M D Rows := with_db (λ d, be_query d s params).
Definition stmt_Exec (s : Stmt) (params : list iface) : M D (gores Z) := with_db (λ d, be_exec d s params).

(** ** Queries *)

Definition aggregate (SQL : string) : string :=
  "SELECT " +:+ JSONAggType PrestConf +:+ "(s) FROM (" +:+ SQL +:+ ") s".

Definition queryImpl (db : nat) (SQL : string) (params : list iface) : M D PrestScanner :=
  catching (
    p ← Prepare (OnDB db) (aggregate SQL);
    r ← try (stmt_Query p params);
    let scanned := rows ← r; scan_row scan_bytes rows in
    let jsonData := match scanned with Val b => b | _ => "" end in
    mret (MkScanner (Some (if String.eqb jsonData "" then "[]" else jsonData))
                    (match scanned with Err e => Some e | _ => None end) true)).

Definition QueryCtx (c : Context) (SQL : string) (params : list iface) : M D PrestScanner :=
  catching (db ← get_db_ctx c; queryImpl db SQL params).
Definition Query (SQL : string) (params : list iface) : M D PrestScanner :=
  catching (db ← get_db; queryImpl db SQL params).

Definition queryCountImpl (db : nat) (SQL : string) (params : list iface) : M D PrestScanner :=
  catching (
    p ← Prepare (OnDB db) SQL;
    rows ← stmt_Query p params;
    count ← lift (scan_row scan_int64 rows);
    mret (BuffScanner (json_object [("count", Itoa count)]))).

Definition QueryCount (SQL : string) (params : list iface) : M D PrestScanner :=
  catching (db ← get_db; queryCountImpl db SQL params).
Definition QueryCountCtx (c : Context) (SQL : string) (params : list iface) : M D PrestScanner :=
  catching (db ← get_db_ctx c; queryCountImpl db SQL params).

Definition ShowTable (schema table : string) : M D PrestScanner :=
  Query show_table_query [IStr table; IStr schema].
Definition ShowTableCtx (c : Context) (schema table : string) : M D PrestScanner :=
  QueryCtx c show_table_query [IStr table; IStr schema].

(** ** Inserts *)

Definition fullInsert (t : target) (SQL : string) : M D Stmt :=
  SQL ← lift (returning_insert SQL); Prepare t SQL.

Definition insert (t : target) (SQL : string) (params : list iface) : M D PrestScanner :=
  catching (
    stmt ← fullInsert t SQL;
    r ← try (stmt_Query stmt params);
    let scanned := rows ← r; scan_row scan_bytes rows in
    mret (MkScanner (Some (match scanned with Val b => b | _ => "" end))
                    (match scanned with Err e => Some e | _ => None end) false)).

Definition Insert (SQL : string) (params : list iface) : M D PrestScanner :=
  catching (db ← get_db; insert (OnDB db) SQL params).
Definition InsertCtx (c : Context) (SQL : string) (params : list iface) : M D PrestScanner :=
  catching (db ← get_db_ctx c; insert (OnDB db) SQL params).
Definition InsertWithTransaction (tx : nat) (SQL : string) (params : list iface) : M D PrestScanner :=
  insert (OnTx tx) SQL params.

(** The loop over the rows of a batch insert; [rows.Err] is nil after a
    successful [rows.Next], and what ended the rows is not looked at. *)
Fixpoint batch_loop (cols : list string) (jsonData : string) (rows : list (list iface)) : gores string :=
  match rows with
  | [] => Val jsonData
  | row :: rest =>
      data ← scan_one scan_bytes cols row;
      batch_loop cols (if negb (String.eqb jsonData "[") then jsonData +:+ "," +:+ data
                       else jsonData +:+ data) rest
  end.

Definition batchInsertValuesImpl (db : nat) (SQL : string) (values : list iface) : M D PrestScanner :=
  catching (
    stmt ← fullInsert (OnDB db) SQL;
    rows ← stmt_Query stmt values;
    jsonData ← lift (batch_loop (rows_cols rows) "[" (rows_data rows));
    mret (MkScanner (Some (jsonData +:+ "]")) None true)).

Definition BatchInsertValues (SQL : string) (values : list iface) : M D PrestScanner :=
  catching (db ← get_db; batchInsertValuesImpl db SQL values).
Definition BatchInsertValuesCtx (c : Context) (SQL : string) (values : list iface) : M D PrestScanner :=
  catching (db ← get_db_ctx c; batchInsertValuesImpl db SQL values).

Definition rows_affected (n : Z) : string := json_object [("rows_affected", Itoa n)].

(** COPY: [deadline] is the one of the context, none for [context.Background]. *)
Definition batchInsertCopyImpl (db : nat) (deadline : option Z) (schema table : string)
    (keys : list string) (values : list iface) : M D PrestScanner :=
  catching (
    '(rows, cleanKeys) ← lift (copyRows keys values);
    copied ← with_db (λ d, be_copy d db deadline schema table cleanKeys rows);
    mret (BuffScanner (rows_affected copied))).

Definition BatchInsertCopy (schema table : string) (keys : list string) (values : list iface)
  : M D PrestScanner :=
  catching (db ← get_db; batchInsertCopyImpl db None schema table keys values).
Definition BatchInsertCopyCtx (c : Context) (deadline : Z) (schema table : string)
    (keys : list string) (values : list iface) : M D PrestScanner :=
  catching (db ← get_db_ctx c; batchInsertCopyImpl db (Some deadline) schema table keys values).

(** ** Deletes and updates *)

(** One returned row, as a JSON object: of two columns with the same name the
    last one stays. *)
Definition row_object (cols : list string) (row : list iface) : iface :=
  IMap (map_to_list (foldl (λ (m : gmap string iface) kv, <[kv.1 := kv.2]> m) ∅ (zip cols row))).

(** [row.Scan] of a row with another number of columns ends the process. *)
Definition scan_object (cols : list string) (row : list iface) : gores iface :=
  if Nat.eqb (length row) (length cols) then Val (row_object cols row) else Panic "exit status 1".

(** [json.Marshal] of a slice of objects that starts as the nil slice. *)
Definition marshal_rows (data : list iface) : string :=
  match data with [] => "null" | _ => json_marshal (ISlice data) end.

Definition nil_rows : string := "runtime error: invalid memory address or nil pointer dereference".

(** The error of [stmt.Query] is dropped: its rows are then the nil pointer. *)
Definition execReturningOrAffected (stmt : Stmt) (SQL : string) (params : list iface)
  : M D PrestScanner :=
  if Contains SQL "RETURNING" then
    r ← try (stmt_Query stmt params);
    match r with
    | Val rows =>
        data ← lift (mapE (scan_object (rows_cols rows)) (rows_data rows));
        mret (BuffScanner (marshal_rows data))
    | _ => lift (Panic nil_rows)
    end
  else
    catching (
      result ← stmt_Exec stmt params;
      rowsAffected ← lift result;
      mret (BuffScanner (rows_affected rowsAffected))).

Definition delete_ (t : target) (SQL : string) (params : list iface) : M D PrestScanner :=
  catching (stmt ← Prepare t SQL; execReturningOrAffected stmt SQL params).
Definition Delete (SQL : string) (params : list iface) : M D PrestScanner :=
  catching (db ← get_db; delete_ (OnDB db) SQL params).
Definition DeleteCtx (c : Context) (SQL : string) (params : list iface) : M D PrestScanner :=
  catching (db ← get_db_ctx c; delete_ (OnDB db) SQL params).
Definition DeleteWithTransaction (tx : nat) (SQL : string) (params : list iface) : M D PrestScanner :=
  delete_ (OnTx tx) SQL params.

Definition update (t : target) (SQL : string) (params : list iface) : M D PrestScanner :=
  catching (stmt ← Prepare t SQL; execReturningOrAffected stmt SQL params).
Definition Update (SQL : string) (params : list iface) : M D PrestScanner :=
  catching (db ← get_db; update (OnDB db) SQL params).
Definition UpdateCtx (c : Context) (SQL : string) (params : list iface) : M D PrestScanner :=
  catching (db ← get_db_ctx c; update (OnDB db) SQL params).
Definition UpdateWithTransaction (tx : nat) (SQL : string) (params : list iface) : M D PrestScanner :=
  update (OnTx tx) SQL params.

(** ** Scripts: adapters/postgres/queries.go *)

(** An error with a text in front of it. *)
Definition annotate {A} (text : string) (m : M D A) : M D A :=
  λ w, match m w with
       | (w, Err e) => (w, Err (text +:+ ": " +:+ e))
       | r => r
       end.

Definition writeSQLImpl (db : nat) (sql : string) (values : list iface) : M D PrestScanner :=
  catching (
    stmt ← annotate "could not prepare sql" (Prepare (OnDB db) sql);
    result ← annotate "could not peform sql" (stmt_Exec stmt values);
    rowsAffected ← annotate "could not rows affected" (lift result);
    mret (BuffScanner (rows_affected rowsAffected))).

Definition WriteSQL (sql : string) (values : list iface) : M D PrestScanner :=
  catching (db ← annotate "connection get error" get_db; writeSQLImpl db sql values).
Definition WriteSQLCtx (c : Context) (sql : string) (values : list iface) : M D PrestScanner :=
  catching (db ← annotate "connection get error" (get_db_ctx c); writeSQLImpl db sql values).

Definition is_write_method (method : string) : bool :=
  existsb (String.eqb method) ["POST"; "PUT"; "PATCH"; "DELETE"].

Definition ExecuteScripts (method sql : string) (values : list iface) : M D PrestScanner :=
  if String.eqb method "GET" then Query sql values
  else if is_write_method method then WriteSQL sql values
  else mret (ErrScanner ("invalid method " +:+ method)).
Definition ExecuteScriptsCtx (c : Context) (method sql : string) (values : list iface) : M D PrestScanner :=
  if String.eqb method "GET" then QueryCtx c sql values
  else if is_write_method method then WriteSQLCtx c sql values
  else mret (ErrScanner ("invalid method " +:+ method)).
End exec.
