(* ===== verification/ExecSpec.v ===== *)
(** * What running statements guarantees

    The statement cache as an invariant of every operation, the functional
    behaviour of queries, inserts, batch inserts, deletes and updates over an
    arbitrary driver, and what keying the cache by the text alone leads to. *)

From S2P Require Import Prelude GoStrings Regexp SqlLex GoStd Ident Config Http Json Where Bodies Connection Queries Statements Exec.

(** ** Triples

    [triple I m Q]: [m] keeps the invariant [I] of the world, however it ends,
    and what it returns satisfies [Q]. *)

Section triple.
Context {D : Type} (I : World D → Prop).

Definition triple {A} (m : M D A) (Q : A → Prop) : Prop :=
  ∀ w, I w → I (m w).1 ∧ ∀ a, (m w).2 = Val a → Q a.

Lemma triple_ret {A} (a : A) (Q : A → Prop) : Q a → triple (mret a) Q.
Proof. intros Ha w Hw. split; [done|]. by intros ? [= <-]. Qed.

Lemma triple_lift {A} (r : gores A) : triple (lift r) (λ a, r = Val a).
Proof. by intros w Hw. Qed.

Lemma triple_bind {A B} (m : M D A) (f : A → M D B) Q R :
  triple m Q → (∀ a, Q a → triple (f a) R) → triple (m ≫= f) R.
Proof.
  intros Hm Hf w Hw. specialize (Hm w Hw) as [Hi Hq]. cbv [mbind M_bind].
  destruct (m w) as [w' [a|e|p]]; cbn in *; [|done..]. by apply Hf; [apply Hq|].
Qed.

Lemma triple_weaken {A} (m : M D A) (Q R : A → Prop) : triple m Q → (∀ a, Q a → R a) → triple m R.
Proof. intros Hm HR w Hw. destruct (Hm w Hw) as [? HQ]. split; [done|]. intros a E. by apply HR, HQ. Qed.

Lemma triple_try {A} (m : M D A) Q : triple m Q → triple (try m) (λ r, ∀ a, r = Val a → Q a).
Proof.
  intros Hm w Hw. specialize (Hm w Hw) as [Hi Hq]. unfold try. destruct (m w) as [w' [a|e|p]]; cbn in *.
  - split; [done|]. intros r [= <-] a' [= <-]. by apply Hq.
  - split; [done|]. by intros r [= <-].
  - done.
Qed.

Lemma triple_catching (m : M D PrestScanner) Q : triple m Q → triple (catching m) (λ _, True).
Proof. intros Hm w Hw. specialize (Hm w Hw) as [Hi _]. unfold catching. by destruct (m w) as [w' [a|e|p]]. Qed.

Lemma triple_annotate {A} t (m : M D A) Q : triple m Q → triple (annotate t m) Q.
Proof.
  intros Hm w Hw. specialize (Hm w Hw) as [Hi Hq]. unfold annotate.
  destruct (m w) as [w' [a|e|p]]; cbn in *; by split.
Qed.

Lemma triple_if {A} (b : bool) (m n : M D A) Q : triple m Q → triple n Q → triple (if b then m else n) Q.
Proof. by destruct b. Qed.
End triple.

(** Go through a program of the adapter; [leaf] proves the triples of its
    primitive calls. *)
Ltac triple_steps leaf :=
  repeat lazymatch goal with
    | |- triple _ (catching _) _ => eapply triple_catching
    | |- triple _ (try _) _ => eapply triple_try
    | |- triple _ (annotate _ _) _ => eapply triple_annotate
    | |- triple _ (lift _) (λ _ : PrestScanner, True) => eapply triple_weaken; [eapply triple_lift | done]
    | |- triple _ (lift _) _ => eapply triple_lift
    | |- triple _ (mret _) _ => apply (triple_ret _ _ (λ _, True)); exact Logic.I
    | |- triple _ (_ ≫= _) _ => eapply triple_bind; [|intros ? ?]
    | |- triple _ (match ?x with _ => _ end) _ => destruct x
    | |- _ => leaf
    end.

(** ** What every operation is made of

    An invariant that preparing a statement on the targets [T], running the
    statements [S] so obtained and copying into the connections of [T] keeps,
    is kept by every operation on a target of [T]. *)

Section operations.
Context {D : Type} `{Backend D} `{UnicodeTables}.
Variable cfg : Prest.
Variables (I : World D → Prop) (T : target → Prop) (S : Stmt → Prop).
Hypothesis Prepare_ok : ∀ t SQL, T t → triple I (Prepare cfg t SQL) S.
Hypothesis Query_ok : ∀ s ps, S s → triple I (stmt_Query s ps) (λ _, True).
Hypothesis Exec_ok : ∀ s ps, S s → triple I (stmt_Exec s ps) (λ _, True).
Hypothesis copy_ok : ∀ h dl schema table keys rows, T (OnDB h) →
  triple I (with_db (λ d, be_copy d h dl schema table keys rows)) (λ _, True).

Ltac leaf :=
  first [ by apply Prepare_ok | by eapply Query_ok; eauto | by eapply Exec_ok; eauto | by apply copy_ok ].

Definition kept (m : M D PrestScanner) : Prop := triple I m (λ _, True).

Lemma queryImpl_kept h SQL ps : T (OnDB h) → kept (queryImpl cfg h SQL ps).
Proof using Prepare_ok Query_ok. intros. unfold kept, queryImpl. triple_steps leaf. Qed.

Lemma queryCountImpl_kept h SQL ps : T (OnDB h) → kept (queryCountImpl cfg h SQL ps).
Proof using Prepare_ok Query_ok. intros. unfold kept, queryCountImpl. triple_steps leaf. Qed.

Lemma fullInsert_kept t SQL : T t → triple I (fullInsert cfg t SQL) S.
Proof using Prepare_ok. intros. unfold fullInsert. triple_steps leaf. Qed.

Lemma insert_kept t SQL ps : T t → kept (insert cfg t SQL ps).
Proof using Prepare_ok Query_ok.
  intros. unfold kept, insert. triple_steps ltac:(first [by apply fullInsert_kept | leaf]).
Qed.

Lemma batchInsertValuesImpl_kept h SQL ps : T (OnDB h) → kept (batchInsertValuesImpl cfg h SQL ps).
Proof using Prepare_ok Query_ok.
  intros. unfold kept, batchInsertValuesImpl. triple_steps ltac:(first [by apply fullInsert_kept | leaf]).
Qed.

Lemma batchInsertCopyImpl_kept h dl schema table keys ps :
  T (OnDB h) → kept (batchInsertCopyImpl h dl schema table keys ps).
Proof using copy_ok. intros. unfold kept, batchInsertCopyImpl. triple_steps leaf. Qed.

Lemma execReturningOrAffected_kept s SQL ps : S s → kept (execReturningOrAffected s SQL ps).
Proof using Query_ok Exec_ok. intros. unfold kept, execReturningOrAffected. triple_steps leaf. Qed.

Lemma delete_kept t SQL ps : T t → kept (delete_ cfg t SQL ps).
Proof using Prepare_ok Query_ok Exec_ok.
  intros. unfold kept, delete_. triple_steps ltac:(first [by apply execReturningOrAffected_kept | leaf]).
Qed.

Lemma update_kept t SQL ps : T t → kept (update cfg t SQL ps).
Proof using Prepare_ok Query_ok Exec_ok.
  intros. unfold kept, update. triple_steps ltac:(first [by apply execReturningOrAffected_kept | leaf]).
Qed.

Lemma writeSQLImpl_kept h SQL ps : T (OnDB h) → kept (writeSQLImpl cfg h SQL ps).
Proof using Prepare_ok Exec_ok. intros. unfold kept, writeSQLImpl. triple_steps leaf. Qed.
End operations.

(** ** The calls of the adapter

    The calls of the adapter that reach the database, and what runs them. *)
Inductive operation :=
| OQuery (SQL : string) (ps : list iface) | OQueryCtx (c : Context) (SQL : string) (ps : list iface)
| OQueryCount (SQL : string) (ps : list iface) | OQueryCountCtx (c : Context) (SQL : string) (ps : list iface)
| OInsert (SQL : string) (ps : list iface) | OInsertCtx (c : Context) (SQL : string) (ps : list iface)
| OInsertTx (tx : nat) (SQL : string) (ps : list iface)
| OBatch (SQL : string) (ps : list iface) | OBatchCtx (c : Context) (SQL : string) (ps : list iface)
| OCopy (schema table : string) (keys : list string) (ps : list iface)
| OCopyCtx (c : Context) (deadline : Z) (schema table : string) (keys : list string) (ps : list iface)
| ODelete (SQL : string) (ps : list iface) | ODeleteCtx (c : Context) (SQL : string) (ps : list iface)
| ODeleteTx (tx : nat) (SQL : string) (ps : list iface)
| OUpdate (SQL : string) (ps : list iface) | OUpdateCtx (c : Context) (SQL : string) (ps : list iface)
| OUpdateTx (tx : nat) (SQL : string) (ps : list iface)
| OShow (schema table : string) | OShowCtx (c : Context) (schema table : string)
| OScript (method SQL : string) (ps : list iface)
| OScriptCtx (c : Context) (method SQL : string) (ps : list iface).

Section run.
Context {D : Type} `{Backend D} `{UnicodeTables}.
Variable cfg : Prest.

Definition run_operation (o : operation) : M D PrestScanner :=
  match o with
  | OQuery q ps => Query cfg q ps | OQueryCtx c q ps => QueryCtx cfg c q ps
  | OQueryCount q ps => QueryCount cfg q ps | OQueryCountCtx c q ps => QueryCountCtx cfg c q ps
  | OInsert q ps => Insert cfg q ps | OInsertCtx c q ps => InsertCtx cfg c q ps
  | OInsertTx t q ps => InsertWithTransaction cfg t q ps
  | OBatch q ps => BatchInsertValues cfg q ps | OBatchCtx c q ps => BatchInsertValuesCtx cfg c q ps
  | OCopy s t ks ps => BatchInsertCopy cfg s t ks ps
  | OCopyCtx c d s t ks ps => BatchInsertCopyCtx cfg c d s t ks ps
  | ODelete q ps => Delete cfg q ps | ODeleteCtx c q ps => DeleteCtx cfg c q ps
  | ODeleteTx t q ps => DeleteWithTransaction cfg t q ps
  | OUpdate q ps => Update cfg q ps | OUpdateCtx c q ps => UpdateCtx cfg c q ps
  | OUpdateTx t q ps => UpdateWithTransaction cfg t q ps
  | OShow s t => ShowTable cfg s t | OShowCtx c s t => ShowTableCtx cfg c s t
  | OScript m q ps => ExecuteScripts cfg m q ps | OScriptCtx c m q ps => ExecuteScriptsCtx cfg c m q ps
  end.

End run.

(** What an operation says about where it runs: in a transaction, on the
    database of a context, or on the current one. *)
Definition op_scope (o : operation) : option Context + nat :=
  match o with
  | OInsertTx t _ _ | ODeleteTx t _ _ | OUpdateTx t _ _ => inr t
  | OQueryCtx c _ _ | OQueryCountCtx c _ _ | OInsertCtx c _ _ | OBatchCtx c _ _ | OCopyCtx c _ _ _ _ _
  | ODeleteCtx c _ _ | OUpdateCtx c _ _ | OShowCtx c _ _ | OScriptCtx c _ _ _ => inl (Some c)
  | _ => inl None
  end.

Section kept.
Context {D : Type} `{Backend D} `{UnicodeTables}.
Variable cfg : Prest.

(** The connection looked up, from the pool the operation finds. *)
Definition scope_db (s : option Context) : ConnState → ConnState * gores nat :=
  match s with None => Connection.Get be_dial cfg | Some c => getDBFromCtx be_dial cfg c end.

Definition target_of (o : operation) (w : World D) (t : target) : Prop :=
  match op_scope o with
  | inr tx => t = OnTx tx
  | inl s => ∃ h, (scope_db s (w_conn w)).2 = Val h ∧ t = OnDB h
  end.

Variables (I : World D → Prop) (T : target → Prop) (S : Stmt → Prop).
Hypothesis Prepare_ok : ∀ t SQL, T t → triple I (Prepare cfg t SQL) S.
Hypothesis Query_ok : ∀ s ps, S s → triple I (stmt_Query s ps) (λ _, True).
Hypothesis Exec_ok : ∀ s ps, S s → triple I (stmt_Exec s ps) (λ _, True).
Hypothesis copy_ok : ∀ h dl schema table keys rows, T (OnDB h) →
  triple I (with_db (λ d, be_copy d h dl schema table keys rows)) (λ _, True).
Hypothesis conn_ok : ∀ w c, I w → I (MkWorld c (w_stmts w) (w_db w)).

Lemma on_db_kept (lookup : M D nat) f (body : nat → M D PrestScanner) w :
  (∀ w, (lookup w).1 = (with_conn f w).1 ∧ ∀ h, (lookup w).2 = Val h → (with_conn f w).2 = Val h) →
  (∀ h, (f (w_conn w)).2 = Val h → kept I (body h)) → I w → I (catching (lookup ≫= body) w).1.
Proof using conn_ok.
  intros Hl Hb Hw. destruct (Hl w) as [H1 H2]. unfold catching, mbind, M_bind.
  unfold with_conn in *. destruct (f (w_conn w)) as [c r] eqn:E. cbn in *.
  destruct (lookup w) as [w' [h|e|p]]; cbn in *; subst; [|by apply conn_ok..].
  pose proof (Hb h (H2 h eq_refl) _ (conn_ok w c Hw)) as [HI _].
  by destruct (body h _) as [? [?|?|?]].
Qed.

Lemma plain_lookup {A} (f : ConnState → ConnState * gores A) w :
  (with_conn (D:=D) f w).1 = (with_conn f w).1
  ∧ ∀ h, (with_conn (D:=D) f w).2 = Val h → (with_conn (D:=D) f w).2 = Val h.
Proof. done. Qed.

Lemma annotated_lookup {A} t (f : ConnState → ConnState * gores A) w :
  (annotate (D:=D) t (with_conn f) w).1 = (with_conn f w).1
  ∧ ∀ h, (annotate (D:=D) t (with_conn f) w).2 = Val h → (with_conn (D:=D) f w).2 = Val h.
Proof. unfold annotate. by destruct (with_conn f w) as [w' [a|e|p]]. Qed.

Lemma run_kept m w : kept I m → I w → I (m w).1.
Proof. intros Hm Hw. by apply Hm. Qed.

Ltac impl :=
  first [ eapply queryImpl_kept | eapply queryCountImpl_kept | eapply insert_kept
        | eapply batchInsertValuesImpl_kept | eapply batchInsertCopyImpl_kept | eapply delete_kept
        | eapply update_kept | eapply writeSQLImpl_kept ]; try done.

Ltac on_db HT :=
  eapply on_db_kept;
  [ first [apply plain_lookup | apply annotated_lookup] | intros h Hh; impl; apply HT; by exists h | done ].

Lemma run_operation_kept o w :
  (∀ t, target_of o w t → T t) → I w → I (run_operation cfg o w).1.
Proof using Prepare_ok Query_ok Exec_ok copy_ok conn_ok.
  intros HT Hw. unfold target_of in HT.
  destruct o; cbn [op_scope scope_db] in HT; cbn [run_operation];
    try (by apply run_kept; [impl; by apply HT | done]);
    unfold ShowTable, ShowTableCtx, ExecuteScripts, ExecuteScriptsCtx; repeat case_match; try done;
    unfold Query, QueryCtx, QueryCount, QueryCountCtx, Insert, InsertCtx, BatchInsertValues,
      BatchInsertValuesCtx, BatchInsertCopy, BatchInsertCopyCtx, Delete, DeleteCtx, Update, UpdateCtx,
      WriteSQL, WriteSQLCtx, get_db, get_db_ctx; on_db HT.
Qed.
End kept.

(** ** The statement cache *)

Section cache.
Context {D : Type} `{Backend D} `{UnicodeTables}.
Variable cfg : Prest.

(** Every cached statement was prepared from the text it is stored under, on a
    database and not on a transaction; nothing is cached when caching is off. *)
Definition stmts_wf (w : World D) : Prop :=
  map_Forall (λ SQL s, stmt_sql s = SQL ∧ (∃ h, stmt_on s = OnDB h) ∧ PGCache cfg = true) (w_stmts w).

Lemma wf_with_db {A} (f : D → D * gores A) : triple stmts_wf (with_db f) (λ _, True).
Proof. intros w Hw. unfold with_db. by destruct (f (w_db w)). Qed.

Lemma wf_store SQL s :
  stmt_sql s = SQL → (∃ h, stmt_on s = OnDB h) → PGCache cfg = true →
  triple stmts_wf (store_stmt SQL s) (λ _, True).
Proof. intros ??? w Hw. split; [by apply map_Forall_insert_2 | done]. Qed.

Lemma wf_lookup SQL : triple stmts_wf (lookup_stmt SQL) (λ _, True).
Proof. by intros w Hw. Qed.

Lemma wf_Prepare t SQL : triple stmts_wf (Prepare cfg t SQL) (λ _, True).
Proof.
  unfold Prepare. eapply triple_bind; [by apply triple_if; [apply wf_lookup | apply triple_ret]|].
  intros [s|] _; [by apply triple_ret|].
  eapply triple_bind; [apply wf_with_db|]. intros _ _.
  eapply triple_bind; [|intros; by apply triple_ret].
  destruct t as [h|t]; destruct (PGCache cfg) eqn:E; cbn [andb]; [|by apply (triple_ret _ _ (λ _, True))..].
  apply wf_store; [done | by exists h | done].
Qed.

(** The worlds a server goes through: any operations, and any changes others
    make to the pool and the database in between. *)
Inductive reachable : World D → Prop :=
| reach_init c d : reachable (MkWorld c ∅ d)
| reach_op w o : reachable w → reachable (run_operation cfg o w).1
| reach_env w c d : reachable w → reachable (MkWorld c (w_stmts w) d).

Lemma reachable_wf w : reachable w → stmts_wf w.
Proof.
  induction 1 as [c d | w o _ IH | w c d _ IH]; [apply map_Forall_empty | | done].
  apply (run_operation_kept cfg stmts_wf (λ _, True) (λ _, True)); try done; intros;
    first [apply wf_Prepare | apply wf_with_db].
Qed.
End cache.

(** C29: In every world a server can reach, a statement taken from the cache was
    prepared from exactly the text it is looked up by, on a database and never
    inside a transaction, and with [pg.cache] off the cache stays empty. *)
Theorem statement_cache_invariant {D} `{Backend D} `{UnicodeTables} cfg (w : World D) :
  reachable cfg w →
  (∀ SQL s, w_stmts w !! SQL = Some s → stmt_sql s = SQL ∧ ∃ h, stmt_on s = OnDB h)
  ∧ (PGCache cfg = false → w_stmts w = ∅).
Proof.
  intros Hw%reachable_wf. split.
  - intros SQL s E. destruct (Hw SQL s E) as (? & ? & _). by split.
  - intros E. apply map_empty. intros SQL. destruct (w_stmts w !! SQL) as [s|] eqn:Es; [|done].
    destruct (Hw SQL s Es) as (_ & _ & ?). congruence.
Qed.

(** ** Where statements run

    A driver that also records the target of every call made to it. *)
Section routing.
Context {D : Type} `{Backend D} `{UnicodeTables}.

#[local] Instance traced : Backend (D * list target) := {
  be_dial := be_dial;
  be_prepare d t SQL := let '(d', r) := be_prepare d.1 t SQL in ((d', t :: d.2), r);
  be_query d s ps := let '(d', r) := be_query d.1 s ps in ((d', stmt_on s :: d.2), r);
  be_exec d s ps := let '(d', r) := be_exec d.1 s ps in ((d', stmt_on s :: d.2), r);
  be_copy d h dl sc tb ks rows := let '(d', r) := be_copy d.1 h dl sc tb ks rows in ((d', OnDB h :: d.2), r)
}.

Definition calls_in (T : target → Prop) (w : World (D * list target)) : Prop := Forall T (w_db w).2.

Variable cfg : Prest.
Variable T : target → Prop.

Lemma calls_Prepare t SQL :
  PGCache cfg = false → T t → triple (calls_in T) (Prepare cfg t SQL) (λ s, T (stmt_on s)).
Proof.
  intros Hc Ht w Hw. unfold Prepare. rw Hc. cbv [mbind M_bind mret M_ret andb]. unfold with_db.
  cbn [be_prepare traced]. destruct (be_prepare (w_db w).1 t SQL) as [d' [?|?|?]]; cbn.
  - split; [by constructor|]. by intros s [= <-].
  - split; [by constructor | done].
  - split; [by constructor | done].
Qed.

Lemma calls_with_db {A} (f : D * list target → (D * list target) * gores A) t :
  T t → (∀ d, (f d).1.2 = t :: d.2) → triple (calls_in T) (with_db f) (λ _, True).
Proof.
  intros Ht Hf w Hw. unfold with_db. specialize (Hf (w_db w)).
  destruct (f (w_db w)) as [d' r]. cbn in *. split; [|done]. unfold calls_in. cbn. rw Hf. by constructor.
Qed.
End routing.

Lemma operations_targets {D} `{Backend D} `{UnicodeTables} cfg o
    (w : World (D * list target)) :
  PGCache cfg = false → (w_db w).2 = [] →
  ∀ t, t ∈ (w_db (run_operation (H:=traced) cfg o w).1).2 → target_of (H:=traced) cfg o w t.
Proof.
  intros Hc Hw. apply Forall_forall.
  apply (run_operation_kept (H:=traced) cfg (calls_in (target_of (H:=traced) cfg o w))
           (target_of (H:=traced) cfg o w) (λ s, target_of (H:=traced) cfg o w (stmt_on s))).
  - intros t SQL Ht. by apply calls_Prepare.
  - intros s ps Hs. eapply calls_with_db; [exact Hs|]. intros d. cbn. by destruct (be_query d.1 s ps).
  - intros s ps Hs. eapply calls_with_db; [exact Hs|]. intros d. cbn. by destruct (be_exec d.1 s ps).
  - intros h dl sc tb ks rows Hs. eapply calls_with_db; [exact Hs|]. intros d. cbn.
    by destruct (be_copy d.1 h dl sc tb ks rows).
  - done.
  - done.
  - unfold calls_in. rw Hw. constructor.
Qed.

(** Without the statement cache every call an operation makes to the
    database goes to the one target its scope names: the transaction it was
    given, or the connection the pool resolves for the database name of its
    context (for the current database, when it has no context). *)
Theorem operations_stay_on_their_database {D} `{Backend D} `{UnicodeTables} cfg o
    (w : World (D * list target)) :
  PGCache cfg = false → (w_db w).2 = [] →
  ∀ t, t ∈ (w_db (run_operation (H:=traced) cfg o w).1).2 → target_of (H:=traced) cfg o w t.
Proof. apply operations_targets. Qed.

(** ** Preparing and scanning, step by step *)

Section steps.
Context {D : Type} `{Backend D} `{UnicodeTables}.
Variable cfg : Prest.

Lemma Prepare_hit h SQL s w :
  PGCache cfg = true → w_stmts w !! SQL = Some s → Prepare cfg (OnDB h) SQL w = (w, Val s).
Proof. intros Hc Hs. unfold Prepare. rw Hc. cbn [andb]. cbv [mbind M_bind lookup_stmt]. by rw Hs. Qed.

(** A statement that is not cached is prepared, and then cached when it may be. *)
Definition after_Prepare (t : target) (SQL : string) (d : D) (w : World D) : World D :=
  MkWorld (w_conn w)
    (match t with OnDB _ => if PGCache cfg then <[SQL := MkStmt t SQL]> (w_stmts w) else w_stmts w
                | OnTx _ => w_stmts w end) d.

Definition cacheable (t : target) : bool :=
  PGCache cfg && match t with OnDB _ => true | OnTx _ => false end.

Lemma Prepare_miss t SQL w d u :
  (cacheable t = true → w_stmts w !! SQL = None) → be_prepare (w_db w) t SQL = (d, Val u) →
  Prepare cfg t SQL w = (after_Prepare t SQL d w, Val (MkStmt t SQL)).
Proof.
  intros Hn Hp. unfold Prepare, after_Prepare. fold (cacheable t).
  cbv [mbind M_bind mret M_ret lookup_stmt with_db store_stmt].
  destruct (cacheable t) eqn:E.
  - rw (Hn eq_refl) Hp. cbn. unfold cacheable in E. destruct (PGCache cfg), t; done.
  - rw Hp. unfold cacheable in E. cbn. destruct (PGCache cfg), t; done.
Qed.

Lemma Prepare_fails t SQL w d e :
  (cacheable t = true → w_stmts w !! SQL = None) → be_prepare (w_db w) t SQL = (d, Err e) →
  Prepare cfg t SQL w = (MkWorld (w_conn w) (w_stmts w) d, Err e).
Proof.
  intros Hn Hp. unfold Prepare. fold (cacheable t).
  cbv [mbind M_bind mret M_ret lookup_stmt with_db].
  destruct (cacheable t) eqn:E; [rw (Hn eq_refl)|]; by rw Hp.
Qed.

Lemma getDBFromCtx_hit c n h st :
  DBNameKey c = Some n → GetFromPool cfg st n = Val h →
  getDBFromCtx be_dial cfg c st = (st, Val h).
Proof. intros Hc Hp. unfold getDBFromCtx. by rw Hc Hp. Qed.
End steps.

(** With [pg.cache] on the catalogue of the wrong database is shown: after
    one database has been asked for the columns of some table, asking another
    one runs the cached statement on the connection of the first, whatever the
    context of the request says, because the statement texts are equal. *)
Theorem cached_statement_crosses_databases {D} `{Backend D} `{UnicodeTables} cfg
    (w : World (D * list target)) n1 n2 h1 h2 d c schema table :
  let show n := ShowTableCtx (H:=traced) cfg (with_DBName n c) schema table in
  PGCache cfg = true → w_stmts w = ∅ →
  GetFromPool cfg (w_conn w) n1 = Val h1 → GetFromPool cfg (w_conn w) n2 = Val h2 →
  be_prepare (w_db w).1 (OnDB h1) (aggregate cfg show_table_query) = (d, Val tt) →
  let w1 := (show n1 w).1 in
  target_of (H:=traced) cfg (OShowCtx (with_DBName n2 c) schema table) w1 (OnDB h2)
  ∧ (w_db (show n2 w1).1).2 = OnDB h1 :: (w_db w1).2.
Proof.
  intros show Hc Hs H1 H2 Hp w1.
  pose (s := MkStmt (OnDB h1) (aggregate cfg show_table_query)).
  assert (w_conn w1 = w_conn w ∧ w_stmts w1 !! aggregate cfg show_table_query = Some s) as [Ec Es].
  { subst w1 show. cbv beta. unfold ShowTableCtx, QueryCtx, get_db_ctx, queryImpl.
    cbv [catching mbind M_bind with_conn].
    rw (getDBFromCtx_hit (H:=traced) cfg _ n1 h1); [done | done |].
    rw (Prepare_miss (H:=traced) cfg _ _ _ (d, OnDB h1 :: (w_db w).2) tt).
    - intros _. cbn. by rw Hs.
    - cbn. by rw Hp.
    - unfold after_Prepare, try, stmt_Query, with_db. rw Hc. cbn.
      destruct (be_query _ _ _) as [d' [r|e|p]]; cbn; by rw lookup_insert_eq. }
  split.
  - exists h2. split; [|done]. cbn [scope_db]. by rw (getDBFromCtx_hit (H:=traced) cfg _ n2 h2) // Ec.
  - unfold show, ShowTableCtx, QueryCtx, get_db_ctx, queryImpl. cbv [catching mbind M_bind with_conn].
    rw (getDBFromCtx_hit (H:=traced) cfg _ n2 h2); [done | by rw Ec |].
    rw (Prepare_hit (H:=traced) cfg _ _ s); [done | done |].
    unfold try, stmt_Query, with_db. cbn. by destruct (be_query _ _ _) as [d' [r|e|p]].
Qed.

(** ** The table of an insert *)

(** A segment the regexes can read: ASCII letters, digits, underscores and
    dashes. *)
Definition name_segment (s : string) : Prop := s ≠ "" ∧ string_forall (in_class name_rune) s = true.

Lemma name_in_path s :
  string_forall (in_class name_rune) s = true → string_forall (in_class quoted_path_rune) s = true.
Proof. apply string_forall_impl. intros c. ascii_cases c. Qed.

Lemma name_no_dot s : string_forall (in_class name_rune) s = true → no_byte "." s = true.
Proof. apply string_forall_impl. intros c. ascii_cases c. Qed.

Lemma re_into_here rest k caps c :
  (bval c < 128)%N → ws_rune (bval c) = false →
  ReMatch re_into ("INTO " +:+ String c rest) caps k = k (String c rest) caps.
Proof.
  intros Hc Hw. unfold re_into, RPlus. rw !ReMatch_cat.
  do 4 (cbn [String.append]; rw ?ReMatch_cat ReMatch_set //). rw ReMatch_cat. rw ReMatch_set //.
  by rw star_set_stop.
Qed.

Lemma no_into_first c s caps k :
  (bval c < 128)%N → either 105 73 (bval c) = false → ReMatch re_into (String c s) caps k = None.
Proof. intros Hc Hn. unfold re_into. rw ReMatch_cat. cbn [ReMatch]. by rw decode_rune_ascii // Hn. Qed.

Lemma find_from_skip r c s :
  (bval c < 128)%N → MatchHere r (String c s) = None → find_from r 0 (String c s) = find_from r 0 s.
Proof. intros Hc Hm. cbn [find_from]. rw Hm decode_rune_ascii //. Qed.

Lemma find_from_here r s n caps : MatchHere r s = Some (n, caps) → find_from r 0 s = Some (take_bytes n s, caps).
Proof. intros E. destruct s; cbn [find_from]; by rw E. Qed.

Lemma find_after_insert r rest :
  find_from (RCat re_into r) 0 ("INSERT INTO " +:+ rest) = find_from (RCat re_into r) 0 ("INTO " +:+ rest).
Proof.
  cbn [String.append]. rw find_from_skip; [done| |].
  { unfold MatchHere, re_into. rw !ReMatch_cat. rw ReMatch_set // ReMatch_cat ReMatch_set //. }
  do 6 (rw find_from_skip; [done | unfold MatchHere; by rw ReMatch_cat no_into_first |]). done.
Qed.

Lemma insert_text_dotted db schema table names ph :
  InsertQuery db schema table names ph =
  "INSERT INTO " +:+ ((dq +:+ db +:+ dq +:+ "." +:+ dq +:+ schema +:+ dq)
    +:+ String "." ((dq +:+ table +:+ dq) +:+ String "(" (names +:+ ") VALUES" +:+ ph))).
Proof. unfold InsertQuery. cbn. rw !sapp_assoc. cbn. by rw !sapp_assoc. Qed.

Lemma quoted_name_path s :
  string_forall (in_class name_rune) s = true →
  string_forall (in_class quoted_path_rune) (dq +:+ s +:+ dq) = true.
Proof. intros Hs%name_in_path. rw !string_forall_app. by rw Hs. Qed.

Lemma quoted_name_no_dot s :
  string_forall (in_class name_rune) s = true → no_byte "." (dq +:+ s +:+ dq) = true.
Proof. intros Hs. unfold no_byte. rw !string_forall_app. apply name_no_dot in Hs. unfold no_byte in Hs. by rw Hs. Qed.

(** The name, its closing quote and the parenthesis. *)
Lemma ReMatch_name table tail caps :
  name_segment table →
  ReMatch (RCat (lit 34) (RCat re_name (RCat (lit 34) re_open)))
    ((dq +:+ table +:+ dq) +:+ String "(" tail) caps (λ s' caps', Some (s', caps'))
  = Some (tail, (2, table) :: caps).
Proof.
  intros [Hne Ht]. rw ReMatch_cat. rw !sapp_assoc. cbn [String.append dq]. rw ReMatch_set //.
  rw ReMatch_cat. unfold re_name, RPlus. rw ReMatch_grp ReMatch_cat.
  destruct table as [|c t]; [done|]. cbn [string_forall] in Ht. apply andb_true_iff in Ht as [Hc Ht].
  apply in_class_true in Hc as [Hcp Hc]. cbn [String.append]. rw ReMatch_set //.
  apply star_set_run; [done|]. rw star_set_stop //. rw ReMatch_cat ReMatch_set //.
  unfold re_open. rw ReMatch_cat star_set_stop // ReMatch_set //. do 3 f_equal.
  rw (_ : slen _ - slen _ = slen (String c t)).
  { cbn [String.length]. rw slen_app. cbn [String.length]. lia. }
  f_equal. apply (take_bytes_app (String c t)).
Qed.

Lemma FindSubmatch_insert db schema table names ph :
  string_forall (in_class name_rune) db = true → string_forall (in_class name_rune) schema = true →
  name_segment table →
  ∃ caps, FindSubmatch insertTableNameQuotesRegex (InsertQuery db schema table names ph) = Some caps
          ∧ group 2 caps = Some table.
Proof.
  intros Hdb Hs Hn. rw insert_text_dotted. unfold FindSubmatch, insertTableNameQuotesRegex.
  rw find_after_insert. set (tail := names +:+ ") VALUES" +:+ ph). destruct Hn as [Hne Ht].
  destruct (ReMatch_dotted quoted_path_rune (dq +:+ db +:+ dq +:+ "." +:+ dq +:+ schema +:+ dq)
    (dq +:+ table +:+ dq) "(" tail [] (λ s' caps', ReMatch (RCat (lit 34) (RCat re_name (RCat (lit 34) re_open)))
       s' caps' (λ s' caps', Some (s', caps'))) (λ g, (tail, [(2, table); (1, g)]))) as [g Hg]; try done.
  - rw !string_forall_app. by rw (name_in_path db) // (name_in_path schema).
  - by apply quoted_name_path.
  - by apply quoted_name_no_dot.
  - intros g. by apply ReMatch_name.
  - exists [(2, table); (1, g)]. split; [|done]. erewrite find_from_here; [reflexivity|].
    unfold MatchHere. match goal with |- match ?x with _ => _ end = _ => assert (x = Some (tail, [(2, table); (1, g)])) as -> end.
    { rw ReMatch_cat. etrans; [by apply (re_into_here _ _ _ dqc) | exact Hg]. }
    reflexivity.
Qed.

(** What an insert is run as: on the statement text the program builds, for
    a database, schema and table of ASCII letters, digits, underscores and
    dashes, the regexes find the table, whatever the column list and the
    placeholders are, and the text is prepared with [RETURNING row_to_json] of
    that table behind it. *)
Theorem insert_returns_its_row db schema table names ph :
  string_forall (in_class name_rune) db = true → string_forall (in_class name_rune) schema = true →
  name_segment table →
  returning_insert (InsertQuery db schema table names ph) =
  Val (InsertQuery db schema table names ph
       +:+ requote " RETURNING row_to_json(`" +:+ table +:+ requote "`)").
Proof.
  intros Hdb Hs Ht. unfold returning_insert.
  destruct (FindSubmatch_insert db schema table names ph Hdb Hs Ht) as (caps & -> & ->). done.
Qed.

Lemma insert_returns_its_row_witness :
  returning_insert (InsertQuery "prest" "public" "a_b-1" (requote "`x`, `y`") "($1,$2)")
  = Val (requote ("INSERT INTO `prest`.`public`.`a_b-1`(`x`, `y`) VALUES($1,$2)"
                  +:+ " RETURNING row_to_json(`a_b-1`)")).
Proof. apply insert_returns_its_row; [reflexivity | reflexivity | split; [discriminate | reflexivity]]. Defined.

(** The regexes only know ASCII letters, while a path segment may hold any
    letter: an insert into a table with another one in its name passes the
    check of the path and then fails, whatever the request. *)
Theorem insert_needs_ascii_table `{UnicodeTables} :
  let table := "caf" +:+ byte_str 195 +:+ byte_str 169 in
  IsSafeSegment table = true
  ∧ returning_insert (InsertQuery "prest" "public" table (dq +:+ "x" +:+ dq) "($1)") = Err ErrNoTableName.
Proof. split; by vm_compute. Qed.

(** ** Batch inserts *)

Lemma batch_loop_rest `{UnicodeTables} cols acc texts :
  acc ≠ "[" →
  batch_loop cols acc ((λ t, [IStr t]) <$> texts) = Val (acc +:+ String.concat "" ((λ t, "," +:+ t) <$> texts)).
Proof.
  revert acc; induction texts as [|t texts IH]; intros acc Ha.
  { cbn. by rw sapp_nil_r. }
  cbn [fmap list_fmap batch_loop scan_one scan_bytes as_text mbind gores_bind].
  rw (_ : String.eqb acc "[" = false); [by apply String.eqb_neq|]. cbn [negb]. rw IH.
  - intros E. destruct acc as [|c acc]; [done|]. cbn in E. by destruct acc.
  - rw sapp_assoc. do 2 f_equal. by destruct texts; cbn; rw ?sapp_nil_r ?sapp_assoc.
Qed.

Lemma concat_Join t texts : t +:+ String.concat "" ((λ t, "," +:+ t) <$> texts) = Join (t :: texts) ",".
Proof.
  revert t; induction texts as [|t' texts IH]; intros t; [by rw /= sapp_nil_r|].
  rw Join_cons //. rw -IH. cbn. by destruct texts; cbn; rw ?sapp_nil_r.
Qed.

Lemma batch_loop_texts `{UnicodeTables} cols texts :
  Forall (λ t, t ≠ "") texts → batch_loop cols "[" ((λ t, [IStr t]) <$> texts) = Val ("[" +:+ Join texts ",").
Proof.
  intros Ht. destruct texts as [|t texts]; [done|]. inversion Ht as [|? ? Hne _]; subst.
  cbn [fmap list_fmap batch_loop scan_one scan_bytes as_text mbind gores_bind].
  rw String.eqb_refl. cbn [negb]. rw batch_loop_rest.
  - intros E. cbn in E. by destruct t.
  - rw sapp_assoc. by rw concat_Join.
Qed.

Lemma fullInsert_miss {D} `{Backend D} `{UnicodeTables} cfg t SQL full w d u :
  returning_insert SQL = Val full → (cacheable cfg t = true → w_stmts w !! full = None) →
  be_prepare (w_db w) t full = (d, Val u) →
  fullInsert cfg t SQL w = (after_Prepare cfg t full d w, Val (MkStmt t full)).
Proof.
  intros Hr Hn Hp. unfold fullInsert. cbv [mbind M_bind lift]. rw Hr. by eapply Prepare_miss.
Qed.

(** A batch insert answers with the JSON array of the rows the database
    returned, in their order.  What ended the rows is not looked at: rows cut
    short by an error are answered as a success. *)
Theorem batch_insert_body {D} `{Backend D} `{UnicodeTables} cfg h SQL full values w d u d' cols texts err :
  returning_insert SQL = Val full → (PGCache cfg = true → w_stmts w !! full = None) →
  be_prepare (w_db w) (OnDB h) full = (d, Val u) →
  be_query d (MkStmt (OnDB h) full) values = (d', Val (MkRows cols ((λ t, [IStr t]) <$> texts) err)) →
  Forall (λ t, t ≠ "") texts →
  (batchInsertValuesImpl cfg h SQL values w).2 = Val (MkScanner (Some ("[" +:+ Join texts "," +:+ "]")) None true).
Proof.
  intros Hr Hn Hp Hq Ht. unfold batchInsertValuesImpl. cbv [catching mbind M_bind].
  rw (fullInsert_miss cfg _ _ full _ d u); [done | | done |].
  { unfold cacheable. rw andb_true_r. exact Hn. }
  unfold stmt_Query, with_db. cbn [w_db after_Prepare]. rw Hq. cbn [rows_cols rows_data].
  unfold lift. by rw batch_loop_texts.
Qed.

(** ** Deletes and updates *)

Lemma mapE_objects cols rows :
  Forall (λ row, length row = length cols) rows →
  mapE (scan_object cols) rows = Val (row_object cols <$> rows).
Proof.
  intros Hr. apply mapE_Forall2. induction Hr as [|row rows Hl _ IH]; cbn; [constructor|].
  constructor; [|done]. unfold scan_object. by rw (proj2 (Nat.eqb_eq _ _) Hl).
Qed.

(** How a delete or an update answers.  With RETURNING anywhere in its text
    it answers with one object per returned row, [null] and not the empty
    array when there is none, and a statement the database rejects is a nil
    pointer dereference; without it, it answers with the number of rows and
    reports the error of the database. *)
Theorem execReturningOrAffected_spec {D} `{Backend D} `{UnicodeTables} s SQL ps (w : World D) :
  let after d := MkWorld (w_conn w) (w_stmts w) d in
  let run := execReturningOrAffected s SQL ps w in
  (Contains SQL "RETURNING" = true →
     (∀ d cols rows err, be_query (w_db w) s ps = (d, Val (MkRows cols rows err)) →
        Forall (λ row, length row = length cols) rows →
        run = (after d, Val (BuffScanner match rows with
                                         | [] => "null"
                                         | _ => json_marshal (ISlice (row_object cols <$> rows))
                                         end)))
     ∧ (∀ d e, be_query (w_db w) s ps = (d, Err e) → run = (after d, Panic nil_rows)))
  ∧ (Contains SQL "RETURNING" = false →
     (∀ d n, be_exec (w_db w) s ps = (d, Val (Val n)) → run = (after d, Val (BuffScanner (rows_affected n))))
     ∧ (∀ d e, be_exec (w_db w) s ps = (d, Err e) → run = (after d, Val (ErrScanner e)))).
Proof.
  intros after run. unfold run, execReturningOrAffected.
  split; intros Hc; rw Hc; cbv [mbind M_bind try catching stmt_Query stmt_Exec with_db lift]; split.
  - intros d cols rows err Hq Hr. rw Hq. cbn [rows_cols rows_data]. rw mapE_objects //.
    by destruct rows.
  - intros d e Hq. by rw Hq.
  - intros d n Hq. by rw Hq.
  - intros d e Hq. by rw Hq.
Qed.

(** ** A concrete driver

    Every connection answers queries with one row that holds its own number,
    except that a second batch row follows for statements with [RETURNING]. *)
Definition echo_query (s : Stmt) : Rows :=
  let me := match stmt_on s with OnDB h => "db" +:+ Itoa (Z.of_nat h) | OnTx t => "tx" +:+ Itoa (Z.of_nat t) end in
  MkRows ["who"] (if Contains (stmt_sql s) "RETURNING" then [[IStr me]; [IStr (me +:+ "'")]] else [[IStr me]]) None.

#[local] Instance echo : Backend unit := {
  be_dial _ := Val tt;
  be_prepare d _ _ := (d, Val tt);
  be_query d s _ := (d, Val (echo_query s));
  be_exec d _ _ := (d, Val (Val 1%Z));
  be_copy d _ _ _ _ _ rows := (d, Val (Z.of_nat (length rows)))
}.

#[local] Existing Instance ascii_tables.

(** Two databases, registered under their names. *)
Definition two_databases : ConnState := put_DB (nameKey "a") 0 (put_DB (nameKey "b") 1 init_conn).
Definition caching_cfg : Prest := set_PGCache true zero_Prest.

Lemma statement_cache_witness :
  let w := (run_operation caching_cfg (OShowCtx (with_DBName "a" empty_context) "public" "t")
              (MkWorld two_databases ∅ tt)).1 in
  w_stmts w !! aggregate caching_cfg show_table_query =
  Some (MkStmt (OnDB 0) (aggregate caching_cfg show_table_query))
  ∧ ((∀ SQL s, w_stmts w !! SQL = Some s → stmt_sql s = SQL ∧ ∃ h, stmt_on s = OnDB h)
     ∧ (PGCache caching_cfg = false → w_stmts w = ∅)).
Proof.
  split; [by vm_compute|]. apply (statement_cache_invariant caching_cfg).
  apply reach_op, reach_init.
Defined.

Lemma own_database_witness :
  let o := OInsertCtx (with_DBName "b" empty_context) "INSERT INTO t(x) VALUES($1)" [IInt 1] in
  let w := MkWorld two_databases ∅ (tt, []) in
  ((w_db (run_operation (H:=traced) zero_Prest o w).1).2 = [OnDB 1; OnDB 1])
  ∧ ∀ t, t ∈ (w_db (run_operation (H:=traced) zero_Prest o w).1).2 → target_of (H:=traced) zero_Prest o w t.
Proof.
  split; [by vm_compute|]. apply operations_stay_on_their_database; reflexivity.
Defined.

Lemma crosses_databases_witness :
  let w := MkWorld two_databases ∅ (tt, []) in
  let show n := ShowTableCtx (H:=traced) caching_cfg (with_DBName n empty_context) "public" "t" in
  target_of (H:=traced) caching_cfg (OShowCtx (with_DBName "b" empty_context) "public" "t") (show "a" w).1 (OnDB 1)
  ∧ (w_db (show "b" (show "a" w).1).1).2 = OnDB 0 :: (w_db (show "a" w).1).2.
Proof.
  apply (cached_statement_crosses_databases caching_cfg (MkWorld two_databases ∅ (tt, [])) "a" "b" 0 1 tt
           empty_context "public" "t"); by vm_compute.
Defined.

Lemma batch_insert_body_witness :
  (batchInsertValuesImpl zero_Prest 3 "INSERT INTO t(x) VALUES($1),($2)" [IInt 1; IInt 2]
     (MkWorld init_conn ∅ tt)).2 = Val (MkScanner (Some ("[" +:+ Join ["db3"; "db3'"] "," +:+ "]")) None true).
Proof.
  apply (batch_insert_body zero_Prest 3 _
           (requote "INSERT INTO t(x) VALUES($1),($2) RETURNING row_to_json(`t`)")
           _ (MkWorld init_conn ∅ tt) tt tt tt ["who"] ["db3"; "db3'"] None);
    [by vm_compute | done | reflexivity | by vm_compute | by repeat constructor].
Defined.

Lemma execReturningOrAffected_witness :
  execReturningOrAffected (MkStmt (OnDB 0) "DELETE FROM t") "DELETE FROM t" [] (MkWorld init_conn ∅ tt)
  = (MkWorld init_conn ∅ tt, Val (BuffScanner (requote "{`rows_affected`:1}"))).
Proof.
  destruct (execReturningOrAffected_spec (MkStmt (OnDB 0) "DELETE FROM t") "DELETE FROM t" []
              (MkWorld init_conn ∅ tt)) as [_ Hn].
  destruct (Hn eq_refl) as [Hrun _]. rw (Hrun tt 1%Z eq_refl). reflexivity.
Defined.
