(* ===== verification/Prepared.v ===== *)
(** * Prepared statements shared by concurrent requests: adapters/postgres/postgres.go

    [Exec.Prepare] reads and writes the statement cache as one sequential step.
    In the code the cache is an object behind the package's pointer [stmts],
    made when it is first asked for; every request runs [GetStmt] and
    [Stmt.Prepare] in a goroutine of its own, and only the two accesses to the
    map are between [Lock] and [Unlock] of the object's mutex.  This file models
    these functions over the shared heap, as sequential functions and as the
    steps of concurrent goroutines: a read or a write of the pointer, [Lock], an
    access to the map, [Unlock], or a call of the driver, which may never come
    back.  (Go calls the unlocked accesses to [stmts] a data race; the steps take
    each of them as atomic.)

    A [*sql.Stmt] is a handle: its position in the list of all statements
    prepared so far.  No code of the adapter closes one. *)

From S2P Require Import Prelude Goroutines GoStrings Config Connection Exec ExecSpec.

(** ** The shared heap *)

Record StmtObject := MkStmtObject { Mtx : bool; PrepareMap : gmap string nat }.

Record Shared (D : Type) := MkShared {
  stmts : option nat;                (* var stmts *Stmt: nil, or an object *)
  objects : list StmtObject;   (* the Stmt objects made so far *)
  prepared : list Stmt;              (* every statement made so far *)
  driver : D
}.
Arguments MkShared {D} _ _ _ _.
Arguments stmts {D} _.
Arguments objects {D} _.
Arguments prepared {D} _.
Arguments driver {D} _.

Definition init_shared {D} (d : D) : Shared D := MkShared None [] [] d.

Section ops.
Context {D : Type}.

(** [stmts = v], and [stmts = &Stmt{...}]. *)
Definition set_stmts (v : option nat) (sh : Shared D) : Shared D :=
  MkShared v (objects sh) (prepared sh) (driver sh).
Definition new_stmts (sh : Shared D) : Shared D :=
  MkShared (Some (length (objects sh))) (objects sh ++ [MkStmtObject false ∅]) (prepared sh) (driver sh).

Definition GetStmt (sh : Shared D) : Shared D * option nat :=
  let sh := match stmts sh with None => new_stmts sh | Some _ => sh end in
  (sh, stmts sh).

Definition ClearStmt (sh : Shared D) : Shared D :=
  match stmts sh with
  | None => sh
  | Some _ => let '(sh, s) := GetStmt (set_stmts None sh) in set_stmts s sh
  end.

(** [s.Mtx.Lock()] and [s.Mtx.Unlock()]. *)
Definition set_Mtx (o : nat) (b : bool) (sh : Shared D) : Shared D :=
  MkShared (stmts sh) (alter (λ x, MkStmtObject b (PrepareMap x)) o (objects sh)) (prepared sh) (driver sh).
Definition lock (o : nat) (sh : Shared D) : option (Shared D) :=
  x ← objects sh !! o; b ← Mutex_Lock (Mtx x); Some (set_Mtx o b sh).
Definition unlock (o : nat) (sh : Shared D) : option (Shared D) :=
  x ← objects sh !! o; b ← Mutex_Unlock (Mtx x); Some (set_Mtx o b sh).

(** [s.PrepareMap[SQL]], read and written. *)
Definition find (o : nat) (SQL : string) (sh : Shared D) : option nat :=
  objects sh !! o ≫= λ x, PrepareMap x !! SQL.
Definition store (o : nat) (SQL : string) (h : nat) (sh : Shared D) : Shared D :=
  MkShared (stmts sh) (alter (λ x, MkStmtObject (Mtx x) (<[SQL := h]> (PrepareMap x))) o (objects sh))
    (prepared sh) (driver sh).

(** The two critical sections of [Stmt.Prepare], for a call that runs alone; [s]
    is its receiver. *)
Definition nil_stmt : string := "runtime error: invalid memory address or nil pointer dereference".

Definition lookup_map (s : option nat) (SQL : string) (sh : Shared D) : gores (option nat) :=
  match s with
  | None => Panic nil_stmt
  | Some o => Val (find o SQL sh)
  end.

Definition store_map (s : option nat) (SQL : string) (h : nat) (sh : Shared D) : gores (Shared D) :=
  match s with
  | None => Panic nil_stmt
  | Some o => Val (store o SQL h sh)
  end.

Context `{Backend D}.

(** [tx.Prepare] or [db.Prepare]: without the lock. *)
Definition driver_prepare (t : target) (SQL : string) (sh : Shared D) : Shared D * gores nat :=
  match be_prepare (driver sh) t SQL with
  | (d, Val _) => (MkShared (stmts sh) (objects sh) (prepared sh ++ [MkStmt t SQL]) d,
                   Val (length (prepared sh)))
  | (d, Err e) => (MkShared (stmts sh) (objects sh) (prepared sh) d, Err e)
  | (d, Panic w) => (MkShared (stmts sh) (objects sh) (prepared sh) d, Panic w)
  end.

Variable PrestConf : Prest.

Definition uses_cache (t : target) : bool :=
  PGCache PrestConf && match t with OnDB _ => true | OnTx _ => false end.

(** What follows the driver's call: the second critical section. *)
Definition finish (t : target) (SQL : string) (s : option nat) (h : nat) (sh : Shared D)
  : Shared D * gores nat :=
  if uses_cache t then
    match store_map s SQL h sh with
    | Val sh => (sh, Val h)
    | Err e => (sh, Err e)
    | Panic w => (sh, Panic w)
    end
  else (sh, Val h).

(** The first critical section: the statement to return at once, if any. *)
Definition look (t : target) (SQL : string) (s : option nat) (sh : Shared D) : gores (option nat) :=
  if uses_cache t then lookup_map s SQL sh else Val None.

Definition Stmt_Prepare (s : option nat) (t : target) (SQL : string) (sh : Shared D)
  : Shared D * gores nat :=
  match look t SQL s sh with
  | Val (Some h) => (sh, Val h)
  | Val None =>
      match driver_prepare t SQL sh with
      | (sh, Val h) => finish t SQL s h sh
      | r => r
      end
  | Err e => (sh, Err e)
  | Panic w => (sh, Panic w)
  end.

Definition prepare (t : target) (SQL : string) (sh : Shared D) : Shared D * gores nat :=
  let '(sh, s) := GetStmt sh in Stmt_Prepare s t SQL sh.
Definition Prepare (db : nat) (SQL : string) : Shared D → Shared D * gores nat := prepare (OnDB db) SQL.
Definition PrepareTx (tx : nat) (SQL : string) : Shared D → Shared D * gores nat := prepare (OnTx tx) SQL.

(** ** Concurrent calls *)

(** What a goroutine calls. *)
Inductive cache_call :=
| CPrepare (t : target) (SQL : string)    (* Prepare, PrepareTx *)
| CClear.                                 (* ClearStmt *)

Inductive goroutine :=
| PClear                                                  (* before [stmts != nil] *)
| PReset                                                  (* before [stmts = nil] *)
| PGet (g : getting) (c : cache_call)                     (* in [GetStmt] *)
| PAssign (s : option nat)                                (* before [stmts = GetStmt()] *)
| PLook (t : target) (SQL : string) (s : option nat)      (* before the first [Lock], if there is one *)
| PFind (t : target) (SQL : string) (o : nat)             (* before the lookup *)
| PUnlock (t : target) (SQL : string) (o : nat) (found : option nat)  (* before [Unlock] *)
| PDriver (t : target) (SQL : string) (s : option nat)    (* in the driver's call, without the lock *)
| PStore (t : target) (SQL : string) (s : option nat) (h : nat) (* before the second [Lock], if there is one *)
| PWrite (t : target) (SQL : string) (o : nat) (h : nat)  (* before the insertion *)
| PRet (t : target) (SQL : string) (r : gores nat)        (* [Prepare] has returned *)
| PCleared.                                               (* [ClearStmt] has *)

Definition start (c : cache_call) : goroutine :=
  match c with CPrepare _ _ => PGet GTest c | CClear => PClear end.

Definition advance (sh : Shared D) (t : goroutine) : option (Shared D * goroutine) :=
  match t with
  | PClear => Some (sh, match stmts sh with None => PCleared | Some _ => PReset end)
  | PReset => Some (set_stmts None sh, PGet GTest CClear)
  | PGet GTest c => Some (sh, PGet (match stmts sh with None => GNew | Some _ => GRead end) c)
  | PGet GNew c => Some (new_stmts sh, PGet GRead c)
  | PGet GRead (CPrepare t SQL) => Some (sh, PLook t SQL (stmts sh))
  | PGet GRead CClear => Some (sh, PAssign (stmts sh))
  | PAssign s => Some (set_stmts s sh, PCleared)
  | PLook t SQL s =>
      if uses_cache t then
        match s with
        | None => Some (sh, PRet t SQL (Panic nil_stmt))
        | Some o => sh ← lock o sh; Some (sh, PFind t SQL o)
        end
      else Some (sh, PDriver t SQL s)
  | PFind t SQL o => Some (sh, PUnlock t SQL o (find o SQL sh))
  | PUnlock t SQL o found =>
      sh ← unlock o sh;
      Some (sh, match found with Some h => PRet t SQL (Val h) | None => PDriver t SQL (Some o) end)
  | PDriver t SQL s =>
      let '(sh, r) := driver_prepare t SQL sh in
      Some (sh, match r with Val h => PStore t SQL s h | r => PRet t SQL r end)
  | PStore t SQL s h =>
      if uses_cache t then
        match s with
        | None => Some (sh, PRet t SQL (Panic nil_stmt))
        | Some o => sh ← lock o sh; Some (sh, PWrite t SQL o h)
        end
      else Some (sh, PRet t SQL (Val h))
  | PWrite t SQL o h => Some (store o SQL h sh, PUnlock t SQL o (Some h))
  | PRet _ _ _ | PCleared => None
  end.

Definition reaches (d : D) (cs : list cache_call) : Shared D * list goroutine → Prop :=
  rtc (interleave advance) (init_shared d, start <$> cs).
End ops.

(** ** The invariant of the heap *)

Section invariant.
Context {D : Type} `{Backend D}.
Variable cfg : Prest.
Implicit Types (sh : Shared D) (ts : list goroutine).

Definition in_heap (s : option nat) sh : Prop := ∀ o, s = Some o → o < length (objects sh).

(** A statement that may be shared: it is cached under its own text and is on a
    database. *)
Definition shareable (s : Stmt) : Prop := (∃ db, stmt_on s = OnDB db) ∧ PGCache cfg = true.

Record heap_ok sh : Prop := {
  ok_stmts : in_heap (stmts sh) sh;
  ok_maps o x SQL h : objects sh !! o = Some x → PrepareMap x !! SQL = Some h →
    ∃ s, prepared sh !! h = Some s ∧ stmt_sql s = SQL ∧ shareable s
}.

(** [s] may be returned for [SQL] on [t]. *)
Definition serves (t : target) (SQL : string) (s : Stmt) : Prop :=
  stmt_sql s = SQL ∧ if uses_cache cfg t then shareable s else stmt_on s = t.

(** After the first critical section, the receiver is not nil if it is used. *)
Definition usable (t : target) (s : option nat) : Prop := uses_cache cfg t = true → is_Some s.

Definition goroutine_ok sh (t : goroutine) : Prop :=
  match t with
  | PAssign s | PLook _ _ s => in_heap s sh
  | PFind t _ o => o < length (objects sh) ∧ uses_cache cfg t = true
  | PUnlock t SQL o found =>
      o < length (objects sh) ∧ uses_cache cfg t = true ∧
      ∀ h, found = Some h → ∃ s, prepared sh !! h = Some s ∧ stmt_sql s = SQL ∧ shareable s
  | PWrite t SQL o h =>
      o < length (objects sh) ∧ uses_cache cfg t = true ∧ prepared sh !! h = Some (MkStmt t SQL)
  | PDriver t _ s => in_heap s sh ∧ usable t s
  | PStore t SQL s h => in_heap s sh ∧ usable t s ∧ prepared sh !! h = Some (MkStmt t SQL)
  | PRet t SQL (Val h) => ∃ s, prepared sh !! h = Some s ∧ serves t SQL s
  | _ => True
  end.

(** What the steps of other goroutines never undo. *)
Definition heap_le sh sh' : Prop :=
  prepared sh `prefix_of` prepared sh' ∧ length (objects sh) ≤ length (objects sh').

#[local] Instance heap_le_refl : Reflexive heap_le.
Proof. by split. Qed.

Lemma in_heap_le s sh sh' : heap_le sh sh' → in_heap s sh → in_heap s sh'.
Proof. intros [_ Hl] Hs o E. specialize (Hs o E). lia. Qed.

Lemma prepared_le sh sh' h s : heap_le sh sh' → prepared sh !! h = Some s → prepared sh' !! h = Some s.
Proof. intros [Hp _] E. by eapply prefix_lookup_Some. Qed.

Lemma goroutine_le sh sh' t : heap_le sh sh' → goroutine_ok sh t → goroutine_ok sh' t.
Proof.
  intros Hle. pose proof (proj2 Hle) as Hl.
  destruct t as [| |g c|s|t SQL s|t SQL o|t SQL o f|t SQL s|t SQL s h|t SQL o h|t SQL [h|e|w]|]; cbn; try done;
    try (by apply in_heap_le).
  - intros [? ?]. split; [lia|done].
  - intros (? & ? & Hf). split_and!; [lia|done|]. intros h (s & Hs & ?)%Hf. exists s.
    split; [by eapply prepared_le|done].
  - intros [? ?]. split; [by eapply in_heap_le|done].
  - intros (? & ? & ?). split_and!; [by eapply in_heap_le|done|by eapply prepared_le].
  - intros (? & ? & ?). split_and!; [lia|done|by eapply prepared_le].
  - intros (s & Hs & ?). exists s. split; [by eapply prepared_le|done].
Qed.

(** *** Locks *)

Definition locked sh (o : nat) : bool := match objects sh !! o with Some x => Mtx x | None => false end.

Definition inside (t : goroutine) : option nat :=
  match t with PFind _ _ o | PUnlock _ _ o _ | PWrite _ _ o _ => Some o | _ => None end.

Lemma lock_Some o sh sh' : lock o sh = Some sh' → locked sh o = false ∧ sh' = set_Mtx o true sh ∧ o < length (objects sh).
Proof.
  unfold lock, locked. destruct (objects sh !! o) as [[[] m]|] eqn:E; cbn; try done.
  intros [= <-]. split_and!; [done..|]. by eapply lookup_lt_Some.
Qed.

Lemma unlock_Some o sh sh' : unlock o sh = Some sh' → locked sh o = true ∧ sh' = set_Mtx o false sh ∧ o < length (objects sh).
Proof.
  unfold unlock, locked. destruct (objects sh !! o) as [[[] m]|] eqn:E; cbn; try done.
  intros [= <-]. split_and!; [done..|]. by eapply lookup_lt_Some.
Qed.

Lemma lock_None o sh : lock o sh = None → o < length (objects sh) → locked sh o = true.
Proof.
  unfold lock, locked. intros E [x Hx]%lookup_lt_is_Some_2. rw Hx in E. rw Hx. by destruct x as [[]].
Qed.

Lemma unlock_is_Some o sh : locked sh o = true → is_Some (unlock o sh).
Proof. unfold unlock, locked. by destruct (objects sh !! o) as [[[] m]|]. Qed.

Lemma locked_set_Mtx o q b sh : o < length (objects sh) → locked (set_Mtx o b sh) q = if decide (q = o) then b else locked sh q.
Proof.
  intros Hp. unfold locked, set_Mtx. cbn. rw list_lookup_alter. case_decide as E.
  - subst q. rw decide_True //. by destruct (lookup_lt_is_Some_2 _ _ Hp) as [x ->].
  - by rw decide_False.
Qed.

Lemma locked_store o SQL h sh q : locked (store o SQL h sh) q = locked sh q.
Proof.
  unfold locked, store. cbn. rw list_lookup_alter. case_decide; [subst|done]. by destruct (objects sh !! q).
Qed.

Lemma locked_new_stmts sh q : locked (new_stmts sh) q = locked sh q.
Proof.
  unfold locked, new_stmts. cbn. destruct (decide (q < length (objects sh))) as [Hq|Hq].
  - by rw lookup_app_l.
  - rw lookup_app_r; [lia|]. rw (lookup_ge_None_2 (objects sh) q); [lia|]. by destruct (q - _) as [|[]].
Qed.

(** *** The operations *)

Lemma new_stmts_ok sh : heap_ok sh → heap_ok (new_stmts sh) ∧ heap_le sh (new_stmts sh).
Proof.
  intros [Hs Hm]. unfold new_stmts. split; [split; cbn|split; cbn; [done|rw length_app; lia]].
  - intros o [= <-]. cbn. rw length_app. cbn. lia.
  - intros o m SQL h. rw lookup_app_Some. intros [?|[_ Ho]]; [by eapply Hm|].
    apply list_lookup_singleton_Some in Ho as [_ <-]. by rw lookup_empty.
Qed.

Lemma set_stmts_ok v sh : heap_ok sh → in_heap v sh → heap_ok (set_stmts v sh) ∧ heap_le sh (set_stmts v sh).
Proof. by intros [_ Hm] Hv. Qed.

Lemma set_Mtx_ok o b sh : heap_ok sh → heap_ok (set_Mtx o b sh) ∧ heap_le sh (set_Mtx o b sh).
Proof.
  intros [Hs Hm]. split; [split; cbn|split; cbn; [done|by rw length_alter]].
  - intros o' E. unfold in_heap. cbn. rw length_alter. by apply Hs.
  - intros o' x S h Ho'. rw list_lookup_alter in Ho'. case_decide as Eo; [subst o'|by eapply Hm].
    apply fmap_Some in Ho' as (x0 & Hx0 & ->). cbn. by apply (Hm o x0 S h Hx0).
Qed.

Lemma find_ok o SQL sh h :
  heap_ok sh → find o SQL sh = Some h →
  ∃ st, prepared sh !! h = Some st ∧ stmt_sql st = SQL ∧ shareable st.
Proof.
  intros [_ Hm]. unfold find. destruct (objects sh !! o) as [x|] eqn:Ho; [|done]. by eapply Hm.
Qed.

Lemma uses_cache_shareable t SQL : uses_cache cfg t = true → shareable (MkStmt t SQL).
Proof.
  unfold uses_cache. destruct t as [db|tx]; [|by rw andb_false_r].
  rw andb_true_r. intros ?. split; [by exists db|done].
Qed.

Lemma store_ok t o SQL h sh :
  heap_ok sh → uses_cache cfg t = true → prepared sh !! h = Some (MkStmt t SQL) →
  heap_ok (store o SQL h sh) ∧ heap_le sh (store o SQL h sh).
Proof.
  intros [Hs Hm] Hu Hh. split; [split; cbn|split; cbn; [done|by rw length_alter]].
  - intros o' E. unfold in_heap. cbn. rw length_alter. by apply Hs.
  - intros o' x S h' Ho'. rw list_lookup_alter in Ho'. case_decide as Eo; [|by eapply Hm]. subst o'.
    apply fmap_Some in Ho' as (x0 & Hx0 & ->). cbn. rw lookup_insert_Some.
    intros [[<- <-]|[_ ?]]; [|by eapply Hm]. exists (MkStmt t SQL). by split_and!; [..|apply uses_cache_shareable].
Qed.

Lemma driver_prepare_ok t SQL sh sh' r :
  heap_ok sh → driver_prepare t SQL sh = (sh', r) →
  heap_ok sh' ∧ heap_le sh sh' ∧
  ∀ h, r = Val h → prepared sh' !! h = Some (MkStmt t SQL) ∧ h = length (prepared sh).
Proof.
  intros [Hs Hm]. unfold driver_prepare. destruct (be_prepare _ t SQL) as [d [u|e|w]]; intros [= <- <-];
    split; try done; cbn.
  - split; cbn; [done|]. intros o m S h Ho Eh. destruct (Hm o m S h Ho Eh) as (st & ? & ?).
    exists st. split; [by apply lookup_app_l_Some|done].
  - split; [split; cbn; [by eexists|done]|]. intros h [= <-]. split; [|done].
    by rw lookup_app_r; [|rw Nat.sub_diag].
Qed.

(** *** One step *)

(** The statement a goroutine has in its hands. *)
Definition holds (t : goroutine) (h : nat) : Prop :=
  match t with
  | PStore _ _ _ h' | PWrite _ _ _ h' | PUnlock _ _ _ (Some h') | PRet _ _ (Val h') => h' = h
  | _ => False
  end.

Lemma advance_ok sh t sh' t' :
  heap_ok sh → goroutine_ok sh t → advance cfg sh t = Some (sh', t') →
  heap_ok sh' ∧ heap_le sh sh' ∧ goroutine_ok sh' t'.
Proof.
  intros Hok Ht. destruct t as [| |[] [t SQL|]|s|t SQL s|t SQL o|t SQL o f|t SQL s|t SQL s h|t SQL o h|t SQL r|];
    cbn in Ht |- *; try done;
    try (intros [= <- <-]; split_and!; [exact Hok|done|cbn; first [apply Hok | by destruct (stmts sh)]]).
  - intros [= <- <-]. destruct (set_stmts_ok None sh Hok); [done|]. by split_and!.
  - intros [= <- <-]. destruct (new_stmts_ok sh Hok). by split_and!.
  - intros [= <- <-]. destruct (new_stmts_ok sh Hok). by split_and!.
  - intros [= <- <-]. destruct (set_stmts_ok s sh Hok Ht). by split_and!.
  - destruct (uses_cache cfg t) eqn:Hu; [|intros [= <- <-]; split_and!; [done..|]; split; [done|by rw /usable Hu]].
    destruct s as [o|]; [|by intros [= <- <-]]. destruct (lock o sh) as [sh1|] eqn:El; [|done].
    apply lock_Some in El as (_ & -> & Hl). intros [= <- <-].
    destruct (set_Mtx_ok o true sh Hok) as [Hok' Hle]. split_and!; [done..|]. cbn. by rw length_alter.
  - destruct Ht as [Hl Hu]. intros [= <- <-]. split_and!; [done..|]. cbn. split_and!; [done..|].
    intros h. by apply find_ok.
  - destruct Ht as (Hl & Hu & Hf). destruct (unlock o sh) as [sh1|] eqn:El; [|done].
    apply unlock_Some in El as (_ & -> & _). intros [= <- <-].
    destruct (set_Mtx_ok o false sh Hok) as [Hok' Hle]. split_and!; [done..|]. destruct f as [h|]; cbn.
    + destruct (Hf h eq_refl) as (st & ? & ? & ?). exists st. split; [done|]. unfold serves. by rw Hu.
    + split; [|by eexists]. intros ? [= <-]. cbn. by rw length_alter.
  - destruct Ht as [Hs Hus]. destruct (driver_prepare t SQL sh) as [sh0 r] eqn:Ed. intros [= <- <-].
    apply driver_prepare_ok in Ed as (? & Hle & Hr); [|done]. split_and!; [done..|].
    destruct r as [h|e|w]; cbn; [|done..]. split_and!; [by eapply in_heap_le|done|by apply Hr].
  - destruct Ht as (Hs & Hus & Hh). destruct (uses_cache cfg t) eqn:Hu.
    + destruct (Hus Hu) as [o ->]. destruct (lock o sh) as [sh1|] eqn:El; [|done].
      apply lock_Some in El as (_ & -> & Hl). intros [= <- <-].
      destruct (set_Mtx_ok o true sh Hok) as [Hok' Hle]. split_and!; [done..|]. cbn. by rw length_alter.
    + intros [= <- <-]. split_and!; [done..|]. exists (MkStmt t SQL). split; [done|]. unfold serves. by rw Hu.
  - destruct Ht as (Hl & Hu & Hh). intros [= <- <-].
    destruct (store_ok t o SQL h sh Hok Hu Hh) as [Hok' Hle]. split_and!; [done..|]. cbn. rw length_alter.
    split_and!; [done..|]. intros ? [= <-]. exists (MkStmt t SQL). by split_and!; [..|apply uses_cache_shareable].
Qed.

(** A statement that comes into a goroutine's hands is new, or may be shared. *)
Lemma advance_holds sh t sh' t' h :
  heap_ok sh → goroutine_ok sh t → advance cfg sh t = Some (sh', t') → holds t' h →
  holds t h ∨ h = length (prepared sh) ∨ ∃ s, prepared sh !! h = Some s ∧ shareable s.
Proof.
  intros Hok Ht. destruct t as [| |[] [t SQL|]|s|t SQL s|t SQL o|t SQL o f|t SQL s|t SQL s h0|t SQL o h0|t SQL r|];
    cbn in Ht |- *; try done; try (intros [= <- <-]; cbn; by repeat case_match).
  - destruct (uses_cache cfg t); [|by intros [= <- <-]]. destruct s as [o|]; [|by intros [= <- <-]].
    destruct (lock o sh); [|done]. by intros [= <- <-].
  - intros [= <- <-]. cbn. destruct (find o SQL sh) as [h0|] eqn:Ef; [|done]. intros ->.
    apply find_ok in Ef as (st & ? & _ & ?); [|done]. right; right. by exists st.
  - destruct (unlock o sh) as [sh1|]; [|done]. intros [= <- <-]. destruct f as [h0|]; [|done]. by left.
  - destruct (driver_prepare t SQL sh) as [sh0 r] eqn:Ed. intros [= <- <-].
    apply driver_prepare_ok in Ed as (_ & _ & Hr); [|done].
    destruct r as [h0|e|w]; cbn; [|done..]. intros ->. right; left. by apply Hr.
  - destruct (uses_cache cfg t); [|intros [= <- <-]; by left]. destruct s as [o|]; [|by intros [= <- <-]].
    destruct (lock o sh); [|done]. intros [= <- <-]. by left.
  - intros [= <- <-]. by left.
Qed.

Lemma holds_prepared sh t h : goroutine_ok sh t → holds t h → is_Some (prepared sh !! h).
Proof.
  destruct t as [| |g c|s|t SQL s|t SQL o|t SQL o [h'|]|t SQL s|t SQL s h'|t SQL o h'|t SQL [h'|e|w]|]; cbn; try done.
  - intros (_ & _ & Hf) ->. destruct (Hf h eq_refl) as (s & ? & _). by exists s.
  - intros (_ & _ & ?) ->. by eexists.
  - intros (_ & _ & ?) ->. by eexists.
  - intros (s & ? & _) ->. by exists s.
Qed.

(** *** What a step does to the locks *)

Lemma advance_locks : locks_follow_sections (advance cfg) locked inside.
Proof.
  intros sh t sh' t' Ha _.
  assert (∀ o y sh1, lock o sh = Some sh1 → inside t = None → inside y = Some o → ∀ q,
    in_section inside q y + (if locked sh q then 1 else 0) = in_section inside q t + if locked sh1 q then 1 else 0) as Htake.
  { intros o y sh1 (El & -> & Hp)%lock_Some. apply lock_step; [done|]. intros q. by rw locked_set_Mtx. }
  destruct t as [| |[] [t SQL|]|s|t SQL s|t SQL o|t SQL o f|t SQL s|t SQL s h|t SQL o h|t SQL r|]; cbn in Ha; try done.
  all: try (injection Ha as <- <-; apply quiet_step; [intros q; by rw ?locked_store ?locked_new_stmts|cbn; by destruct (stmts sh)]).
  - destruct (uses_cache cfg t); [|by injection Ha as <- <-]. destruct s as [o|]; [|by injection Ha as <- <-].
    destruct (lock o sh) as [sh1|] eqn:El; [|done]. injection Ha as <- <-. by apply (Htake o).
  - destruct (unlock o sh) as [sh1|] eqn:El; [|done]. apply unlock_Some in El as (El & -> & Hp). injection Ha as <- <-.
    apply (unlock_step _ _ _ _ _ _ o El); [intros q; by rw locked_set_Mtx|done|by destruct f].
  - unfold driver_prepare in Ha. destruct (be_prepare _ t SQL) as [d [u|e|w]]; by injection Ha as <- <-.
  - destruct (uses_cache cfg t); [|by injection Ha as <- <-]. destruct s as [o|]; [|by injection Ha as <- <-].
    destruct (lock o sh) as [sh1|] eqn:El; [|done]. injection Ha as <- <-. by apply (Htake o).
Qed.

(** ** The invariant of the whole system *)

Record cache_inv sh ts : Prop := {
  inv_mutex : mutual_exclusion locked inside sh ts;
  inv_heap : heap_ok sh;
  inv_threads : Forall (goroutine_ok sh) ts;
  inv_shared i j ti tj h : i ≠ j → ts !! i = Some ti → ts !! j = Some tj → holds ti h → holds tj h →
    ∃ s, prepared sh !! h = Some s ∧ shareable s
}.

Lemma cache_inv_step c c' : interleave (advance cfg) c c' → cache_inv c.1 c.2 → cache_inv c'.1 c'.2.
Proof.
  intros Hs [Hm Hok Hts Hsh]. pose proof (mutual_exclusion_step _ _ _ _ _ advance_locks Hs Hm) as Hm'.
  destruct Hs as [sh sh' ts i t t' Hi Ha]. cbn in *.
  pose proof (Forall_lookup_1 _ _ _ _ Hts Hi) as Ht.
  destruct (advance_ok _ _ _ _ Hok Ht Ha) as (Hok' & Hle & Ht').
  assert (∀ j tj h, j ≠ i → ts !! j = Some tj → holds t' h → holds tj h →
    ∃ s, prepared sh' !! h = Some s ∧ shareable s) as Hnew.
  { intros j tj h Hne Hj Hh Hhj.
    destruct (advance_holds _ _ _ _ h Hok Ht Ha Hh) as [Hold|[->|(s & Hs & ?)]].
    - destruct (Hsh j i tj t h) as (s & Hs & ?); [done..|]. exists s. split; [by eapply prepared_le|done].
    - destruct (holds_prepared sh tj _ (Forall_lookup_1 _ _ _ _ Hts Hj) Hhj) as [s Hs].
      apply lookup_lt_Some in Hs. lia.
    - exists s. split; [by eapply prepared_le|done]. }
  split; [done..| |].
  - apply Forall_insert; [|done]. eapply Forall_impl; [exact Hts|]. intros x Hx. by eapply goroutine_le.
  - intros j k tj tk h Hjk [[-> ->]|[Hji Hj]]%lookup_insert_cases [[-> ->]|[Hki Hk]]%lookup_insert_cases Hhj Hhk;
      [done|by eapply Hnew|by eapply Hnew|].
    destruct (Hsh j k tj tk h) as (s & Hs & ?); [done..|]. exists s. split; [by eapply prepared_le|done].
Qed.

Lemma cache_inv_init d cs : cache_inv (init_shared d) (start <$> cs).
Proof.
  split.
  - intros o. cbn. induction cs as [|[t SQL|] cs IH]; [done|exact IH..].
  - by split.
  - apply Forall_forall. intros t [c [-> _]]%list_elem_of_fmap. by destruct c.
  - intros i j ti tj h _ (c & -> & _)%list_lookup_fmap_Some _. by destruct c.
Qed.

Lemma reaches_inv d cs sh ts : reaches cfg d cs (sh, ts) → cache_inv sh ts.
Proof.
  intros Hr. apply (rtc_invariant (interleave (advance cfg)) (λ c, cache_inv c.1 c.2) _ (sh, ts) cache_inv_step Hr).
  apply cache_inv_init.
Qed.
End invariant.

(** ** Progress: every schedule ends with every call answered *)

Section progress.
Context {D : Type} `{Backend D}.
Variable cfg : Prest.
Implicit Types (sh : Shared D) (ts : list goroutine).

(** The steps a goroutine has left, at most. *)
Definition rank (t : goroutine) : nat :=
  match t with
  | PClear => 6
  | PReset => 5
  | PGet g (CPrepare _ _) => match g with GTest => 10 | GNew => 9 | GRead => 8 end
  | PGet g CClear => match g with GTest => 4 | GNew => 3 | GRead => 2 end
  | PLook _ _ _ => 7
  | PFind _ _ _ => 6
  | PUnlock _ _ _ None => 5
  | PDriver _ _ _ => 4
  | PStore _ _ _ _ => 3
  | PWrite _ _ _ _ => 2
  | PAssign _ | PUnlock _ _ _ (Some _) => 1
  | PRet _ _ _ | PCleared => 0
  end.

Definition answered (t : goroutine) : bool :=
  match t with PRet _ _ _ | PCleared => true | _ => false end.

(** The goroutines that have returned, and those the driver keeps. *)
Definition away (t : goroutine) : bool := match t with PDriver _ _ _ => true | t => answered t end.

Lemma advance_rank sh t sh' t' : advance cfg sh t = Some (sh', t') → rank t' < rank t.
Proof.
  destruct t as [| |[] [t SQL|]|s|t SQL s|t SQL o|t SQL o f|t SQL s|t SQL s h|t SQL o h|t SQL r|]; cbn; try done;
    try (intros [= <- <-]; try destruct (stmts sh); cbn; lia).
  - destruct (uses_cache cfg t); [|intros [= <- <-]; cbn; lia]. destruct s as [o|]; [|intros [= <- <-]; cbn; lia].
    destruct (lock o sh); [|done]. intros [= <- <-]. cbn. lia.
  - intros [= <- <-]. destruct (find o SQL sh); cbn; lia.
  - destruct (unlock o sh); [|done]. intros [= <- <-]. destruct f; cbn; lia.
  - destruct (driver_prepare t SQL sh) as [sh0 [h|e|w]]; intros [= <- <-]; cbn; lia.
  - destruct (uses_cache cfg t); [|intros [= <- <-]; cbn; lia]. destruct s as [o|]; [|intros [= <- <-]; cbn; lia].
    destruct (lock o sh); [|done]. intros [= <- <-]. cbn. lia.
Qed.

Lemma advance_discipline sh t : goroutine_ok cfg sh t → lock_discipline (advance cfg) locked inside away sh t.
Proof.
  intros Ht. split.
  - destruct t as [| |[] [t SQL|]|s|t SQL s|t SQL o|t SQL o f|t SQL s|t SQL s h|t SQL o h|t SQL r|]; cbn in *; try done.
    all: intros _ _; destruct (uses_cache cfg t); [|done]; destruct s as [o|]; [|done].
    all: destruct (lock o sh) as [sh1|] eqn:El; [done|]; intros _; exists o; apply lock_None; [done|].
    + by apply Ht.
    + by apply (proj1 Ht).
  - intros q. destruct t as [| |[] [t SQL|]|s|t SQL s|t SQL o|t SQL o f|t SQL s|t SQL s h|t SQL o h|t SQL r|];
      cbn in *; try done; intros [= ->] Hl; split; try done.
    destruct (unlock_is_Some q sh Hl) as [sh1 ->]. by eexists.
Qed.

Lemma inv_discipline sh ts :
  cache_inv cfg sh ts → mutual_exclusion locked inside sh ts ∧ Forall (lock_discipline (advance cfg) locked inside away sh) ts.
Proof.
  intros [Hm _ Hts _]. split; [done|]. eapply Forall_impl; [exact Hts|]. intros t. apply advance_discipline.
Qed.

(** ** The number of statements *)

(** 1 for a call of [Prepare] that has made no statement (yet). *)
Definition no_statement (t : goroutine) : nat :=
  match t with
  | PGet _ (CPrepare _ _) | PLook _ _ _ | PFind _ _ _ | PUnlock _ _ _ None | PDriver _ _ _
  | PRet _ _ (Err _) | PRet _ _ (Panic _) => 1
  | _ => 0
  end.

Definition is_prepare (c : cache_call) : bool := match c with CPrepare _ _ => true | CClear => false end.

(** Without the cache a statement is only returned by the call that made it. *)
Definition never_cached (t : goroutine) : Prop :=
  match t with
  | PGet _ (CPrepare t _) | PLook t _ _ | PDriver t _ _ | PStore t _ _ _ | PRet t _ _ =>
      uses_cache cfg t = false
  | PFind _ _ _ | PUnlock _ _ _ _ | PWrite _ _ _ _ => False
  | _ => True
  end.

Lemma advance_count sh t sh' t' :
  goroutine_ok cfg sh t → advance cfg sh t = Some (sh', t') →
  (length (prepared sh') + no_statement t' ≤ length (prepared sh) + no_statement t) ∧
  (never_cached t → never_cached t' ∧
     length (prepared sh') + no_statement t' = length (prepared sh) + no_statement t).
Proof.
  intros Ht. destruct t as [| |[] [t SQL|]|s|t SQL s|t SQL o|t SQL o f|t SQL s|t SQL s h|t SQL o h|t SQL r|];
    cbn in Ht |- *; try done; try (intros [= <- <-]; try destruct (stmts sh); cbn; by split_and?).
  - destruct (uses_cache cfg t) eqn:Hu; [|intros [= <- <-]; cbn; by rw Hu].
    destruct s as [o|]; [|by intros [= <- <-]].
    destruct (lock o sh) as [sh1|] eqn:El; [|done]. apply lock_Some in El as (_ & -> & _). by intros [= <- <-].
  - intros [= <- <-]. cbn. split; [destruct (find o SQL sh); lia|done].
  - destruct (unlock o sh) as [sh1|] eqn:El; [|done]. apply unlock_Some in El as (_ & -> & _). intros [= <- <-].
    split; [by destruct f|done].
  - unfold driver_prepare. destruct (be_prepare _ t SQL) as [d [u|e|w]]; intros [= <- <-]; cbn;
      rw ?length_app; cbn; split; try done; try lia; intros; split; try done; lia.
  - destruct Ht as (_ & Hus & _). destruct (uses_cache cfg t) eqn:Hu; [|intros [= <- <-]; cbn; by rw Hu].
    destruct (Hus Hu) as [o ->].
    destruct (lock o sh) as [sh1|] eqn:El; [|done]. apply lock_Some in El as (_ & -> & _). by intros [= <- <-].
Qed.

(** The statements made, and the calls that made none, are at most the calls of
    [Prepare]; without the cache they are exactly these. *)
Definition counted (n : nat) (c : Shared D * list goroutine) : Prop :=
  cache_inv cfg c.1 c.2 ∧
  length (prepared c.1) + sum_list_with no_statement c.2 ≤ n ∧
  (PGCache cfg = false → Forall never_cached c.2 ∧
     length (prepared c.1) + sum_list_with no_statement c.2 = n).

Lemma counted_step n c1 c2 : interleave (advance cfg) c1 c2 → counted n c1 → counted n c2.
Proof.
  intros Hs (Hinv & Hle & Heq). pose proof (cache_inv_step _ _ _ Hs Hinv) as Hinv'. split; [done|].
  destruct Hs as [sh sh' ts i t t' Hi Ha]. cbn in *.
  destruct (advance_count _ _ _ _ (Forall_lookup_1 _ _ _ _ (inv_threads _ _ _ Hinv) Hi) Ha) as [Hc Hoff].
  pose proof (sum_list_with_insert no_statement ts i t t' Hi). split; [lia|].
  intros E. destruct (Heq E) as [Hn Hl]. destruct (Hoff (Forall_lookup_1 _ _ _ _ Hn Hi)) as [Hn' ?].
  split; [by apply Forall_insert|lia].
Qed.

Lemma counted_init d cs : counted (length (filter is_prepare cs)) (init_shared d, start <$> cs).
Proof.
  assert (sum_list_with no_statement (start <$> cs) = length (filter is_prepare cs)) as Hinit.
  { induction cs as [|[t SQL|] cs IH]; [done| |]; cbn; by rw ?IH. }
  split; [apply cache_inv_init|]. cbn. rw Hinit. split; [done|]. intros Hoff. split; [|done].
  apply Forall_forall. intros t [[t0 SQL|] [-> _]]%list_elem_of_fmap; cbn; [|done].
  unfold uses_cache. by rw Hoff.
Qed.

(** ** Without [ClearStmt] nothing panics *)

Definition settled sh (t : goroutine) : Prop :=
  match t with
  | PGet GRead (CPrepare _ _) => is_Some (stmts sh)
  | PGet _ (CPrepare _ _) | PFind _ _ _ | PUnlock _ _ _ _ | PWrite _ _ _ _ => True
  | PLook _ _ s | PDriver _ _ s | PStore _ _ s _ => is_Some s
  | PRet _ _ (Panic _) => False
  | PRet _ _ _ => True
  | _ => False
  end.

Lemma settled_mono sh sh' t :
  (is_Some (stmts sh) → is_Some (stmts sh')) → settled sh t → settled sh' t.
Proof.
  intros Hs. destruct t as [| |[] [t SQL|]|s|t SQL s|t SQL o|t SQL o f|t SQL s|t SQL s h|t SQL o h|t SQL [h|e|w]|]; cbn; auto.
Qed.

Lemma advance_settled sh t sh' t' :
  (∀ d t SQL w, (be_prepare d t SQL).2 ≠ Panic w) →
  settled sh t → advance cfg sh t = Some (sh', t') →
  settled sh' t' ∧ (is_Some (stmts sh) → is_Some (stmts sh')).
Proof.
  intros Hd Ht. destruct t as [| |[] [t SQL|]|s|t SQL s|t SQL o|t SQL o f|t SQL s|t SQL s h|t SQL o h|t SQL r|];
    cbn in Ht |- *; try done.
  - intros [= <- <-]. destruct (stmts sh) as [o|] eqn:E; cbn; [|done]. rw E. by split; [exists o|].
  - intros [= <- <-]. by split; [eexists|].
  - intros [= <- <-]. by split.
  - destruct Ht as [o ->]. destruct (uses_cache cfg t); [|intros [= <- <-]; by split; [exists o|]].
    destruct (lock o sh) as [sh1|] eqn:El; [|done]. apply lock_Some in El as (_ & -> & _). by intros [= <- <-].
  - by intros [= <- <-].
  - destruct (unlock o sh) as [sh1|] eqn:El; [|done]. apply unlock_Some in El as (_ & -> & _). intros [= <- <-].
    split; [|done]. destruct f; [done|by exists o].
  - unfold driver_prepare. specialize (Hd (driver sh) t SQL).
    destruct (be_prepare _ t SQL) as [d [u|e|w]]; intros [= <- <-]; cbn; [by split..|]. by destruct (Hd w).
  - destruct Ht as [o ->]. destruct (uses_cache cfg t); [|by intros [= <- <-]].
    destruct (lock o sh) as [sh1|] eqn:El; [|done]. apply lock_Some in El as (_ & -> & _). by intros [= <- <-].
  - by intros [= <- <-].
Qed.

Lemma steps_settled d cs c :
  (∀ d t SQL w, (be_prepare d t SQL).2 ≠ Panic w) → forallb is_prepare cs = true →
  rtc (interleave (advance cfg)) (init_shared d, start <$> cs) c → Forall (settled c.1) c.2.
Proof.
  intros Hd Hcs Hr.
  apply (rtc_invariant (interleave (advance cfg)) (λ c, Forall (settled c.1) c.2) _ c) in Hr; [done| |].
  - intros c1 c2 [sh sh' ts i t t' Hi Ha] Hts. cbn in *.
    destruct (advance_settled _ _ _ _ Hd (Forall_lookup_1 _ _ _ _ Hts Hi) Ha) as [Ht' Hs].
    apply Forall_insert; [|done]. eapply Forall_impl; [exact Hts|]. intros x. by apply settled_mono.
  - apply Forall_forall. intros t [c0 [-> Hc]]%list_elem_of_fmap. rw forallb_forall in Hcs.
    apply list_elem_of_In in Hc. specialize (Hcs c0 Hc). by destruct c0.
Qed.
End progress.

(** ** Running alone *)

Section alone.
Context {D : Type} `{Backend D}.
Variable cfg : Prest.
Implicit Types (sh : Shared D) (ts : list goroutine).

#[local] Abbreviation moves := (Goroutines.moves (advance cfg)).

Lemma GetStmt_moves sh c :
  rtc moves (sh, PGet GTest c)
    ((GetStmt sh).1, match c with CPrepare t SQL => PLook t SQL (GetStmt sh).2 | CClear => PAssign (GetStmt sh).2 end).
Proof.
  unfold GetStmt. eapply rtc_l; [done|]. destruct (stmts sh) as [o|] eqn:E; cbn.
  - apply rtc_once. unfold Goroutines.moves. cbn. rw E. by destruct c.
  - rw E. eapply rtc_l; [done|]. apply rtc_once. by destruct c.
Qed.

(** The critical sections, when the mutex is free. *)
Lemma lock_free o sh : o < length (objects sh) → locked sh o = false → lock o sh = Some (set_Mtx o true sh).
Proof. unfold lock, locked. intros [x Hx]%lookup_lt_is_Some_2. rw Hx. by destruct x as [[]]. Qed.

Lemma shared_eq sh sh' :
  stmts sh = stmts sh' → prepared sh = prepared sh' → driver sh = driver sh' →
  (∀ o, objects sh !! o = objects sh' !! o) → sh = sh'.
Proof. destruct sh, sh'. cbn. intros -> -> -> E. f_equal. by apply list_eq. Qed.

Lemma leave_find o sh : o < length (objects sh) → locked sh o = false → unlock o (set_Mtx o true sh) = Some sh.
Proof.
  intros Hp Hl. destruct (lookup_lt_is_Some_2 _ _ Hp) as [[b m] Ho]. unfold locked in Hl. rw Ho in Hl. cbn in Hl. subst b.
  unfold unlock, set_Mtx. cbn. rw list_lookup_alter_eq Ho. cbn. f_equal. apply shared_eq; try done.
  intros q. cbn. destruct (decide (q = o)) as [->|Hne]; [by rw !list_lookup_alter_eq Ho|by rw !list_lookup_alter_ne].
Qed.

Lemma leave_store o SQL h sh :
  o < length (objects sh) → locked sh o = false → unlock o (store o SQL h (set_Mtx o true sh)) = Some (store o SQL h sh).
Proof.
  intros Hp Hl. destruct (lookup_lt_is_Some_2 _ _ Hp) as [[b m] Ho]. unfold locked in Hl. rw Ho in Hl. cbn in Hl. subst b.
  unfold unlock, set_Mtx, store. cbn. rw !list_lookup_alter_eq Ho. cbn. f_equal. apply shared_eq; try done.
  intros q. cbn. destruct (decide (q = o)) as [->|Hne]; [by rw !list_lookup_alter_eq Ho|by rw !list_lookup_alter_ne].
Qed.

Lemma find_set_Mtx o b q SQL sh : find q SQL (set_Mtx o b sh) = find q SQL sh.
Proof. unfold find, set_Mtx. cbn. rw list_lookup_alter. case_decide; [subst|done]. by destruct (objects sh !! q). Qed.

Definition unlocked sh : Prop := ∀ o, locked sh o = false.

Lemma unlocked_driver t SQL sh : unlocked sh → unlocked (driver_prepare t SQL sh).1.
Proof. unfold driver_prepare. by destruct (be_prepare _ t SQL) as [d [u|e|w]]. Qed.

Lemma Stmt_Prepare_moves s t SQL sh :
  unlocked sh → in_heap s sh →
  rtc moves (sh, PLook t SQL s) ((Stmt_Prepare cfg s t SQL sh).1, PRet t SQL (Stmt_Prepare cfg s t SQL sh).2).
Proof.
  intros Hf Hs. unfold Stmt_Prepare, look.
  assert (∀ sh1 h, sh1 = (driver_prepare t SQL sh).1 →
    (uses_cache cfg t = true → is_Some s) →
    rtc moves (sh1, PStore t SQL s h) ((finish cfg t SQL s h sh1).1, PRet t SQL (finish cfg t SQL s h sh1).2)) as Hfin.
  { intros sh1 h -> Hus. pose proof (unlocked_driver t SQL sh Hf) as Hf1. set (sh1 := (driver_prepare t SQL sh).1) in *.
    assert (length (objects sh1) = length (objects sh)) as El.
    { unfold sh1, driver_prepare. by destruct (be_prepare _ t SQL) as [d [u|e|w]]. }
    unfold finish. destruct (uses_cache cfg t) eqn:Hu.
    - destruct (Hus eq_refl) as [o ->]. assert (o < length (objects sh1)) as Ho by (rw El; by apply Hs).
      eapply rtc_l; [unfold Goroutines.moves; cbn; by rw Hu lock_free|].
      eapply rtc_l; [done|]. apply rtc_once. unfold Goroutines.moves. cbn [fst snd advance]. by rw leave_store.
    - apply rtc_once. unfold Goroutines.moves. cbn. by rw Hu. }
  assert ((uses_cache cfg t = true → is_Some s) →
    rtc moves (sh, PDriver t SQL s)
      ((match driver_prepare t SQL sh with (sh, Val h) => finish cfg t SQL s h sh | r => r end).1,
       PRet t SQL (match driver_prepare t SQL sh with (sh, Val h) => finish cfg t SQL s h sh | r => r end).2)) as Hdrv.
  { intros Hus. destruct (driver_prepare t SQL sh) as [sh1 [h|e|w]] eqn:Ed;
      (eapply rtc_l; [unfold Goroutines.moves; cbn; by rw Ed|]); [|done..]. by apply Hfin. }
  destruct (uses_cache cfg t) eqn:Hu.
  - destruct s as [o|]; cbn [lookup_map]; [|apply rtc_once; unfold Goroutines.moves; cbn; by rw Hu].
    assert (o < length (objects sh)) as Ho by by apply Hs.
    eapply rtc_l; [unfold Goroutines.moves; cbn; by rw Hu lock_free|].
    eapply rtc_l; [done|]. cbn [fst snd]. rw find_set_Mtx.
    eapply rtc_l; [unfold Goroutines.moves; cbn [fst snd advance]; by rw leave_find|].
    destruct (find o SQL sh) as [h|]; [done|]. apply Hdrv. by eexists.
  - eapply rtc_l; [unfold Goroutines.moves; cbn; by rw Hu|]. by apply Hdrv.
Qed.

Lemma GetStmt_free sh : unlocked sh → in_heap (stmts sh) sh → unlocked (GetStmt sh).1 ∧ in_heap (GetStmt sh).2 (GetStmt sh).1.
Proof.
  intros Hf Hs. unfold GetStmt. destruct (stmts sh) as [o|] eqn:E; cbn; [by rw E|]. split.
  - intros q. by rw locked_new_stmts.
  - intros o [= <-]. cbn. rw length_app. cbn. lia.
Qed.

Lemma prepare_moves t SQL sh :
  unlocked sh → in_heap (stmts sh) sh →
  rtc moves (sh, start (CPrepare t SQL)) ((prepare cfg t SQL sh).1, PRet t SQL (prepare cfg t SQL sh).2).
Proof.
  intros Hf Hs. unfold prepare. etrans; [apply (GetStmt_moves sh (CPrepare t SQL))|].
  destruct (GetStmt_free sh Hf Hs) as [Hf' Hs'].
  destruct (GetStmt sh) as [sh' s]. by apply Stmt_Prepare_moves.
Qed.

Lemma ClearStmt_moves sh : rtc moves (sh, start CClear) (ClearStmt sh, PCleared).
Proof.
  unfold ClearStmt. eapply rtc_l; [done|]. cbn [fst snd]. destruct (stmts sh); [|done].
  eapply rtc_l; [done|]. cbn [fst snd]. etrans; [apply (GetStmt_moves _ CClear)|].
  destruct (GetStmt (set_stmts None sh)) as [sh' s]. by apply rtc_once.
Qed.

(** ** The world of [Exec] *)

(** The map of the object [stmts] points to. *)
Definition current sh : gmap string nat :=
  match stmts sh with Some o => default ∅ (PrepareMap <$> objects sh !! o) | None => ∅ end.

Definition world_of (c : ConnState) sh : World D :=
  MkWorld c (omap (λ h, prepared sh !! h) (current sh)) (driver sh).

(** A result of [Prepare] and the one of [Exec.Prepare]. *)
Definition same_result sh (r : gores nat) (r' : gores Stmt) : Prop :=
  match r with
  | Val h => ∃ s, prepared sh !! h = Some s ∧ r' = Val s
  | Err e => r' = Err e
  | Panic w => r' = Panic w
  end.

Lemma GetStmt_current sh :
  heap_ok cfg sh → ∃ o x, (GetStmt sh).2 = Some o ∧ objects (GetStmt sh).1 !! o = Some x ∧
    stmts (GetStmt sh).1 = Some o ∧ PrepareMap x = current sh ∧ prepared (GetStmt sh).1 = prepared sh ∧
    driver (GetStmt sh).1 = driver sh.
Proof.
  intros [Hs _]. unfold GetStmt, current. destruct (stmts sh) as [o|] eqn:E; cbn.
  - destruct (lookup_lt_is_Some_2 (objects sh) o (Hs o eq_refl)) as [x Hx].
    exists o, x. by rw Hx E.
  - exists (length (objects sh)), (MkStmtObject false ∅). split_and!; try done. by rw lookup_app_r; [|rw Nat.sub_diag].
Qed.

Lemma heap_ok_current sh SQL h :
  heap_ok cfg sh → current sh !! SQL = Some h →
  ∃ s, prepared sh !! h = Some s ∧ stmt_sql s = SQL ∧ shareable cfg s.
Proof.
  intros [_ Hm]. unfold current. destruct (stmts sh) as [o|]; [|by rw lookup_empty].
  destruct (objects sh !! o) as [x|] eqn:Ho; cbn; [by eapply Hm|by rw lookup_empty].
Qed.

Lemma current_object sh o x : stmts sh = Some o → objects sh !! o = Some x → current sh = PrepareMap x.
Proof. intros Ho Hm. unfold current. by rw Ho Hm. Qed.

Lemma world_of_grow c sh new d :
  heap_ok cfg sh →
  world_of c (MkShared (stmts sh) (objects sh) (prepared sh ++ new) d) = MkWorld c (w_stmts (world_of c sh)) d.
Proof.
  intros Hok. unfold world_of. f_equal. cbn. apply map_eq. intros k.
  rw (_ : current (MkShared _ _ _ d) = current sh) // !lookup_omap.
  destruct (current sh !! k) as [h|] eqn:Ek; [|done]. cbn.
  destruct (heap_ok_current sh k h Hok Ek) as (s & Hs & _). rw Hs. by apply lookup_app_l_Some.
Qed.

Lemma world_of_store c sh o m SQL h s :
  stmts sh = Some o → objects sh !! o = Some m → prepared sh !! h = Some s →
  world_of c (store o SQL h sh) = MkWorld c (<[SQL := s]> (w_stmts (world_of c sh))) (driver sh).
Proof.
  intros Ho Hm Hs. unfold world_of. cbn.
  rw (current_object _ o (MkStmtObject (Mtx m) (<[SQL := h]> (PrepareMap m)))); [done|by rw /= list_lookup_alter_eq Hm|].
  by rw (current_object sh o m) // (omap_insert_Some (λ h, prepared sh !! h) (PrepareMap m) SQL h s Hs).
Qed.

Lemma prepare_hit t SQL sh o h :
  uses_cache cfg t = true → stmts sh = Some o → find o SQL sh = Some h →
  prepare cfg t SQL sh = (sh, Val h).
Proof.
  intros Hu Ho Hh. unfold prepare, GetStmt. rw Ho. cbn. rw Ho. unfold Stmt_Prepare, look.
  by rw Hu /= Hh.
Qed.

(** One whole call, seen from the world of [Exec]. *)
Lemma Stmt_Prepare_refines c o m t SQL sh :
  heap_ok cfg sh → stmts sh = Some o → objects sh !! o = Some m →
  let run := Stmt_Prepare cfg (Some o) t SQL sh in
  let spec := Exec.Prepare cfg t SQL (world_of c sh) in
  spec.1 = world_of c run.1 ∧ same_result run.1 run.2 spec.2.
Proof.
  intros Hok Ho Hm run spec. unfold run, spec, Stmt_Prepare, look, finish, Exec.Prepare. fold (uses_cache cfg t).
  assert ((if uses_cache cfg t then lookup_stmt SQL else mret None) (world_of c sh)
          = (world_of c sh, Val (if uses_cache cfg t then PrepareMap m !! SQL ≫= (prepared sh !!.) else None))) as Hlook.
  { destruct (uses_cache cfg t); [|done]. unfold lookup_stmt. cbn. by rw lookup_omap (current_object sh o m). }
  cbv [mbind M_bind]. rw Hlook. clear Hlook.
  assert ((if uses_cache cfg t then lookup_map (Some o) SQL sh else Val None)
          = Val (if uses_cache cfg t then PrepareMap m !! SQL else None)) as ->.
  { cbn. unfold find. rw Hm. by destruct (uses_cache cfg t). }
  destruct (uses_cache cfg t) eqn:Hu; [destruct (PrepareMap m !! SQL) as [h|] eqn:Eh; cbn [option_bind]|].
  { rw -(current_object sh o m) // in Eh. destruct (heap_ok_current sh SQL h Hok Eh) as (s & Hs & _).
    cbn. rw Hs. split; [done|by exists s]. }
  all: unfold with_db, driver_prepare; cbn; destruct (be_prepare (driver sh) t SQL) as [d [u|e|w]]; cbn; try done.
  all: pose proof (world_of_grow c sh [MkStmt t SQL] d Hok) as Hgrow.
  all: assert ((prepared sh ++ [MkStmt t SQL]) !! length (prepared sh) = Some (MkStmt t SQL)) as Hnew
    by (by rw lookup_app_r; [|rw Nat.sub_diag]).
  - pose proof (world_of_store c (MkShared (stmts sh) (objects sh) (prepared sh ++ [MkStmt t SQL]) d)
                  o m SQL _ _ Ho Hm Hnew) as Hs.
    apply (f_equal w_stmts) in Hgrow. cbn in Hs, Hgrow. rw Hs Hgrow. split; [done|by eexists].
  - rw Hgrow. split; [done|by eexists].
Qed.

Lemma prepare_refines c t SQL sh :
  heap_ok cfg sh →
  let run := prepare cfg t SQL sh in
  let spec := Exec.Prepare cfg t SQL (world_of c sh) in
  spec.1 = world_of c run.1 ∧ same_result run.1 run.2 spec.2.
Proof.
  intros Hok run spec. unfold run, spec, prepare.
  destruct (GetStmt_current sh Hok) as (o & m & Es & Eo & Et & Em & Ep & Ed).
  destruct (GetStmt sh) as [sh1 s] eqn:Eg. cbn in *. subst s.
  assert (heap_ok cfg sh1) as Hok1.
  { unfold GetStmt in Eg. destruct (stmts sh); [by injection Eg as <-|].
    injection Eg as <- _. by apply new_stmts_ok. }
  assert (world_of c sh = world_of c sh1) as ->.
  { unfold world_of. by rw Ep Ed (current_object sh1 o m Et Eo) Em. }
  by eapply Stmt_Prepare_refines.
Qed.
End alone.

(** ** Properties *)

Section properties.
Context {D : Type} `{Backend D}.
Implicit Types (sh : Shared D) (ts : list goroutine).

(** C26: The statement cache under concurrency.  Whatever the interleaving of any
    number of [Prepare], [PrepareTx] and [ClearStmt] calls, a call returns a
    statement made from its own text, on its own transaction when it names one,
    on its own database when the cache is off and on some database otherwise;
    two calls share a statement only through the cache, never one of a
    transaction; and the cache holds each statement under its own text, on a
    database. *)
Theorem prepared_statements_safe cfg d cs sh ts :
  reaches cfg d cs (sh, ts) →
  (∀ i t SQL h, ts !! i = Some (PRet t SQL (Val h)) →
     ∃ s, prepared sh !! h = Some s ∧ stmt_sql s = SQL ∧
       (stmt_on s = t ∨ ∃ db db', t = OnDB db ∧ stmt_on s = OnDB db' ∧ PGCache cfg = true)) ∧
  (∀ i j t t' SQL SQL' h, i ≠ j →
     ts !! i = Some (PRet t SQL (Val h)) → ts !! j = Some (PRet t' SQL' (Val h)) →
     SQL = SQL' ∧ PGCache cfg = true ∧ ∃ db, prepared sh !! h = Some (MkStmt (OnDB db) SQL)) ∧
  (∀ SQL h, current sh !! SQL = Some h → ∃ db, prepared sh !! h = Some (MkStmt (OnDB db) SQL)).
Proof.
  intros [_ Hok Hts Hsh]%reaches_inv.
  assert (∀ i t SQL h, ts !! i = Some (PRet t SQL (Val h)) → ∃ s, prepared sh !! h = Some s ∧ serves cfg t SQL s)
    as Hret by (intros i t SQL h Hi; exact (Forall_lookup_1 _ _ _ _ Hts Hi)).
  split_and!.
  - intros i t SQL h (s & Hs & E & Hu)%Hret. exists s. split_and!; [done..|].
    unfold uses_cache, shareable in Hu. destruct t as [db|tx]; [|rw andb_false_r in Hu; by left].
    destruct (PGCache cfg); [|by left]. right. destruct Hu as [[db' ?] _]. by exists db, db'.
  - intros i j t t' SQL SQL' h Hne Hi Hj.
    destruct (Hsh _ _ _ _ h Hne Hi Hj) as ([on sql] & Hs & [db Hdb] & ?); [done..|].
    destruct (Hret _ _ _ _ Hi) as (s1 & E1 & <- & _). destruct (Hret _ _ _ _ Hj) as (s2 & E2 & <- & _).
    rw Hs in E1. rw Hs in E2. simplify_eq/=. by split_and!; [..|exists db].
  - intros SQL h Hc. destruct (heap_ok_current cfg sh SQL h Hok Hc) as ([on sql] & Hs & <- & [db Hdb] & _).
    exists db. cbn in *. by subst.
Qed.

(** C28: The lock of the statement cache.  However the goroutines are scheduled,
    at most one is between [Lock] and [Unlock] of a cache; n calls take at most
    10n steps; and as long as a call has not returned and is not in the driver's
    hands, some goroutine that is not in the driver's hands can move: a driver
    that never answers a call holds up no other.  So when no goroutine at all can
    move, every call has returned. *)
Theorem prepare_calls_return cfg d cs n sh ts :
  nsteps (interleave (advance cfg)) n (init_shared d, start <$> cs) (sh, ts) →
  n ≤ 10 * length cs ∧
  (∀ i j t t' o, ts !! i = Some t → ts !! j = Some t' → inside t = Some o → inside t' = Some o → i = j) ∧
  ((∀ i t, ts !! i = Some t → away t = false → advance cfg sh t = None) → Forall (λ t, away t = true) ts) ∧
  ((∀ c, ¬ interleave (advance cfg) (sh, ts) c) → forallb answered ts = true).
Proof.
  intros Hn. assert (cache_inv cfg sh ts) as Hinv by (eapply reaches_inv, rtc_nsteps_2; exact Hn).
  destruct (inv_discipline cfg sh ts Hinv) as [Hm Hd]. split_and!.
  - apply (steps_ranked _ rank (advance_rank cfg)) in Hn. cbn in Hn.
    pose proof (sum_list_with_bound rank 10 (start <$> cs)) as Hb. rw length_fmap in Hb.
    assert (∀ t, rank t ≤ 10) as H10 by (intros [| |[] [|]| | | | ? ? ? []| | | | |]; cbn; lia).
    specialize (Hb H10). lia.
  - intros i j t t' o Hi Hj Ho Ho'. by eapply (one_inside locked inside sh ts).
  - by apply (no_deadlock _ _ _ _ sh ts Hd Hm).
  - intros Hstuck.
    assert (∀ i t, ts !! i = Some t → advance cfg sh t = None) as Hnone.
    { intros i t Hi. destruct (advance cfg sh t) as [[sh' t']|] eqn:Ha; [|done].
      destruct (Hstuck (sh', <[i := t']> ts)). by eapply interleave_one. }
    assert (Forall (λ t, away t = true) ts) as Haway by (apply (no_deadlock _ _ _ _ sh ts Hd Hm); eauto).
    apply forallb_forall. intros t Ht. apply list_elem_of_In, list_elem_of_lookup in Ht as [i Hi].
    pose proof (Forall_lookup_1 _ _ _ _ Haway Hi) as Ht. specialize (Hnone i t Hi).
    destruct t; try done. cbn in Hnone. by destruct (driver_prepare _ _ sh).
Qed.

(** C27: The concurrent code implements the sequential model.  From any state the
    goroutines can reach, once those that are between [Lock] and [Unlock] have
    gone on to [Unlock] (which they can whatever the others do), a call of
    [Prepare] that runs without interference ends with the result and the state
    of [Exec.Prepare]: the same statement, error or panic, and the same cache. *)
Theorem prepare_alone_is_Exec_Prepare cfg d cs sh ts i t SQL :
  reaches cfg d cs (sh, ts) → ts !! i = Some (start (CPrepare t SQL)) →
  ∃ sh0 ts0, rtc (interleave (advance cfg)) (sh, ts) (sh0, ts0) ∧ ts0 !! i = Some (start (CPrepare t SQL)) ∧
    ((∀ o, locked sh o = false) → sh0 = sh ∧ ts0 = ts) ∧
    ∃ sh' r, rtc (interleave (advance cfg)) (sh0, ts0) (sh', <[i := PRet t SQL r]> ts0) ∧
    ∀ c, (Exec.Prepare cfg t SQL (world_of c sh0)).1 = world_of c sh' ∧
         same_result sh' r (Exec.Prepare cfg t SQL (world_of c sh0)).2.
Proof.
  intros Hr Hi. pose proof (reaches_inv cfg d cs sh ts Hr) as Hinv.
  destruct (leave_sections (advance cfg) locked inside away rank (advance_rank cfg) (λ c, cache_inv cfg c.1 c.2)
    (cache_inv_step cfg) (λ c, inv_discipline cfg c.1 c.2) sh ts i (start (CPrepare t SQL)) Hinv Hi eq_refl)
    as (sh0 & ts0 & Hr0 & Hi0 & Hf & Hsame).
  assert (cache_inv cfg sh0 ts0) as [_ Hok _ _] by (eapply reaches_inv; unfold reaches in *; by etrans).
  exists sh0, ts0. split_and!; [done..|].
  exists (prepare cfg t SQL sh0).1, (prepare cfg t SQL sh0).2. split.
  - exact (moves_interleave _ _ _ _ _ (prepare_moves cfg t SQL sh0 Hf (ok_stmts _ _ Hok)) Hi0).
  - intros c. by apply prepare_refines.
Qed.

(** [ClearStmt] run alone, too. *)
Theorem ClearStmt_alone cfg sh ts i :
  ts !! i = Some (start CClear) →
  rtc (interleave (advance cfg)) (sh, ts) (ClearStmt sh, <[i := PCleared]> ts) ∧
  current (ClearStmt sh) = ∅ ∧ (stmts sh = None → ClearStmt sh = sh).
Proof.
  intros Hi. split; [exact (moves_interleave _ _ _ _ _ (ClearStmt_moves cfg sh) Hi)|].
  unfold ClearStmt, current. destruct (stmts sh) as [o|] eqn:E; cbn; [|by rw E].
  split; [|done]. by rw lookup_app_r; [|rw Nat.sub_diag].
Qed.

(** No call panics, unless the driver does or [ClearStmt] runs beside it. *)
Theorem prepare_never_panics cfg d cs sh ts i t SQL w :
  (∀ d t SQL w, (be_prepare d t SQL).2 ≠ Panic w) → forallb is_prepare cs = true →
  reaches cfg d cs (sh, ts) → ts !! i ≠ Some (PRet t SQL (Panic w)).
Proof. intros Hd Hcs Hr Hi. exact (Forall_lookup_1 _ _ _ _ (steps_settled cfg d cs _ Hd Hcs Hr) Hi). Qed.

(** The statements: never more than calls; and as nothing closes a statement,
    with the cache off every call that succeeds leaves one behind. *)
Theorem statements_are_counted cfg d cs sh ts :
  reaches cfg d cs (sh, ts) →
  length (prepared sh) ≤ length (filter is_prepare cs) ∧
  (PGCache cfg = false → Forall (λ t, ∃ t0 SQL h, t = PRet t0 SQL (Val h)) ts →
     length (prepared sh) = length (filter is_prepare cs)).
Proof.
  intros Hr. apply (rtc_invariant _ (counted cfg (length (filter is_prepare cs))) _ _ (counted_step cfg _)) in Hr;
    [|apply counted_init]. destruct Hr as (_ & Hle & Heq). cbn in *. split; [lia|].
  intros Hoff Hts. destruct (Heq Hoff) as [_ <-].
  assert (sum_list_with no_statement ts = 0) as ->; [|lia].
  clear -Hts. induction Hts as [|t ts (t0 & SQL & h & ->) _ IH]; [done|exact IH].
Qed.

(** With the cache on, the second call for a text returns the statement of the
    first one, whatever its database, and asks the driver nothing. *)
Theorem prepare_twice cfg d cs ts sh sh' db db' SQL h :
  reaches cfg d cs (sh, ts) → PGCache cfg = true →
  Prepare cfg db SQL sh = (sh', Val h) → Prepare cfg db' SQL sh' = (sh', Val h).
Proof.
  intros [_ Hok _ _]%reaches_inv Hon E. unfold Prepare, prepare in E.
  destruct (GetStmt_current cfg sh Hok) as (o & m & Es & Eo & Et & _).
  destruct (GetStmt sh) as [sh1 s]. cbn in Es, Eo, Et. subst s.
  unfold Stmt_Prepare, look, uses_cache, finish in E. rw Hon in E. cbn in E. unfold find in E. rw Eo in E. cbn in E.
  destruct (PrepareMap m !! SQL) as [h0|] eqn:Em.
  - injection E as <- <-. apply (prepare_hit cfg _ _ _ o); [by rw /uses_cache Hon|done|by rw /find Eo].
  - unfold driver_prepare in E. destruct (be_prepare _ _ SQL) as [d0 [u|e|w]]; [|done..].
    rw {1}/uses_cache Hon in E. injection E as <- <-. apply (prepare_hit cfg _ _ _ o); [by rw /uses_cache Hon|done|].
    unfold find. cbn. rw list_lookup_alter_eq Eo. cbn. by rw lookup_insert_eq.
Qed.
End properties.

(** ** What the races do *)

#[local] Existing Instance echo.

Definition one_text : string := "SELECT 1".
Definition other_text : string := "SELECT 2".

(** The lookup and the insertion are two critical sections, and nothing looks
    again: two calls for one text that run side by side both ask the driver.
    They return different statements, the second overwrites the first in the
    cache, and the first stays prepared on the server with no cache that knows
    it; run one after the other, both return the same. *)
Theorem concurrent_calls_prepare_twice :
  ∃ sh, reaches caching_cfg tt [CPrepare (OnDB 0) one_text; CPrepare (OnDB 0) one_text]
          (sh, [PRet (OnDB 0) one_text (Val 0); PRet (OnDB 0) one_text (Val 1)]) ∧
    current sh !! one_text = Some 1 ∧
    Forall (map_Forall (λ _ h, h ≠ 0)) (PrepareMap <$> objects sh) ∧
    let '(sh1, r) := Prepare caching_cfg 0 one_text (init_shared tt) in
    (Prepare caching_cfg 0 one_text sh1).2 = r.
Proof.
  eexists. split_and!.
  - apply (schedule_sound (advance caching_cfg) (replicate 6 0 ++ replicate 5 1 ++ [0; 1] ++ replicate 3 0 ++ replicate 3 1)). vm_compute. reflexivity.
  - by vm_compute.
  - apply (bool_decide_unpack (Forall (map_Forall (λ _ h, h ≠ 0)) _)). by vm_compute.
  - by vm_compute.
Qed.

(** [GetStmt] tests the pointer without a lock: two first calls can both make a
    cache.  The statement stored in the first one is lost to every later call. *)
Theorem first_calls_lose_a_cache :
  ∃ sh, reaches caching_cfg tt [CPrepare (OnDB 0) one_text; CPrepare (OnDB 0) other_text]
          (sh, [PRet (OnDB 0) one_text (Val 0); PRet (OnDB 0) other_text (Val 1)]) ∧
    length (objects sh) = 2 ∧ current sh !! one_text = None ∧
    (Prepare caching_cfg 0 one_text sh).2 = Val 2.
Proof.
  eexists. split_and!.
  - apply (schedule_sound (advance caching_cfg) ([0; 1] ++ replicate 9 0 ++ replicate 9 1)). vm_compute. reflexivity.
  - done.
  - by vm_compute.
  - by vm_compute.
Qed.

(** [ClearStmt] sets the pointer to nil for a moment: a call that has passed the
    test of [GetStmt] then reads nil and panics. *)
Theorem ClearStmt_race_panics :
  ∃ sh, reaches caching_cfg tt [CPrepare (OnDB 0) one_text; CPrepare (OnDB 0) one_text; CClear]
          (sh, [PRet (OnDB 0) one_text (Val 0); PRet (OnDB 0) one_text (Panic nil_stmt); PCleared]).
Proof.
  eexists. apply (schedule_sound (advance caching_cfg) (replicate 10 0 ++ [1; 2; 2; 1; 1] ++ replicate 4 2)).
  vm_compute. reflexivity.
Qed.

(** ** Witnesses *)

Definition two_calls : list cache_call := [CPrepare (OnDB 0) one_text; CPrepare (OnTx 0) one_text].
(** The first caller looks, the second prepares in its transaction, the first
    prepares and stores. *)
Definition two_calls_order : list nat := replicate 6 0 ++ replicate 5 1 ++ replicate 4 0.
Definition two_calls_heap : Shared unit :=
  MkShared (Some 0) [MkStmtObject false {[one_text := 1]}] [MkStmt (OnTx 0) one_text; MkStmt (OnDB 0) one_text] tt.
Definition two_calls_end : list goroutine := [PRet (OnDB 0) one_text (Val 1); PRet (OnTx 0) one_text (Val 0)].

Lemma two_calls_run :
  schedule (advance caching_cfg) two_calls_order (init_shared tt, start <$> two_calls) = Some (two_calls_heap, two_calls_end).
Proof. vm_compute. reflexivity. Qed.

Lemma prepared_safe_witness :
  reaches caching_cfg tt two_calls (two_calls_heap, two_calls_end) ∧
  ∃ s, prepared two_calls_heap !! 0 = Some s ∧ stmt_sql s = one_text ∧
    (stmt_on s = OnTx 0 ∨ ∃ db db', OnTx 0 = OnDB db ∧ stmt_on s = OnDB db' ∧ PGCache caching_cfg = true).
Proof.
  assert (reaches caching_cfg tt two_calls (two_calls_heap, two_calls_end)) as Hr
    by exact (schedule_sound _ _ _ _ two_calls_run).
  split; [exact Hr|].
  exact (proj1 (prepared_statements_safe caching_cfg tt two_calls _ _ Hr) 1 (OnTx 0) one_text 0 eq_refl).
Defined.

Lemma calls_return_witness : forallb answered two_calls_end = true ∧ 15 ≤ 10 * length two_calls.
Proof.
  destruct (prepare_calls_return caching_cfg tt two_calls _ _ _ (schedule_nsteps _ _ _ _ two_calls_run)) as (Hn & _ & _ & Hd).
  split; [|exact Hn]. apply Hd. intros c Hs. inversion Hs as [sh sh' ts i t t' Hi Ha]; subst.
  destruct i as [|[|i]]; [injection Hi as <- | injection Hi as <- | done]; discriminate Ha.
Defined.

Lemma prepare_alone_witness :
  ∃ sh' r,
    rtc (interleave (advance caching_cfg)) (init_shared tt, start <$> two_calls) (sh', <[0 := PRet (OnDB 0) one_text r]> (start <$> two_calls)) ∧
    ∀ c, (Exec.Prepare caching_cfg (OnDB 0) one_text (world_of c (init_shared tt))).1 = world_of c sh' ∧
         same_result sh' r (Exec.Prepare caching_cfg (OnDB 0) one_text (world_of c (init_shared tt))).2.
Proof.
  destruct (prepare_alone_is_Exec_Prepare caching_cfg tt two_calls (init_shared tt) (start <$> two_calls) 0 (OnDB 0) one_text)
    as (sh0 & ts0 & _ & _ & Hsame & Hrun); [apply rtc_refl | reflexivity |].
  destruct Hsame as [-> ->]; [done | exact Hrun].
Defined.
