(* ===== verification/Scanner.v ===== *)
(** * Reading results into Go values: adapters/scanner/scanner.go

    [PrestScanner.Scan] puts the JSON of a result into the value behind a
    pointer.  The scanner itself is the record of [Exec]; the
    reflected value is its kind and an abstract content; package
    encoding/json is the class [JSON]. *)

From S2P Require Import Prelude GoStrings Exec.

(** ** Values *)

(** The kinds of [reflect] the code tells apart. *)
Inductive Kind := KSlice | KStruct | KMap | KOther.
#[export] Instance Kind_eq_dec : EqDecision Kind.
Proof. solve_decision. Defined.

(** What is passed to [Scan]: a value that is no pointer, or a pointer to a
    value of a kind. *)
Inductive scan_item (V : Type) := Direct (v : V) | Pointer (k : Kind) (v : V).
Arguments Direct {V} _.
Arguments Pointer {V} _ _.

(** [Decode] reads the next JSON value of a buffer into a value and leaves the
    rest; [DecodeRows] reads it as a list of objects. *)
Class JSON := {
  value : Type;
  row : Type;
  Len : value → Z;
  Decode : string → value → string * value * option error;
  DecodeRows : string → string * list row * option error;
  Marshal : row → string + error;
  Unmarshal : string → value → value * option error
}.

(** ** [Scan] *)

Definition errPtr : error := "item to input data is not a pointer".
Definition errUnsupTyp : error := "item to input data has an unsupported type".
Definition errLength : error := "rows returned is not 1".

Definition supType (k : Kind) : bool := match k with KOther => false | _ => true end.

Definition validateType {V} (i : scan_item V) : option error :=
  match i with
  | Direct _ => Some errPtr
  | Pointer k _ => if supType k then None else Some errUnsupTyp
  end.

Definition with_Buff (s : string) (p : PrestScanner) : PrestScanner := MkScanner (Some s) (Error p) (IsQuery p).

Section scan.
Context `{JSON}.

(** The scanner and the item afterwards, the number of rows, and the error. *)
Definition scan_result : Type := PrestScanner * scan_item value * Z * option error.

(** The text of the buffer; a decoder panics over a nil one. *)
Definition read_buff (p : PrestScanner) : gores string :=
  match Buff p with Some buff => Val buff | None => Panic "runtime error: invalid memory address or nil pointer dereference" end.

Definition scanQuery (p : PrestScanner) (k : Kind) (v : value) : gores scan_result :=
  buff ← read_buff p;
  if decide (k = KSlice) then
    let '(rest, v, err) := Decode buff v in Val (with_Buff rest p, Pointer k v, Len v, err)
  else
    match DecodeRows buff with
    | (rest, _, Some err) => Val (with_Buff rest p, Pointer k v, 0%Z, Some err)
    | (rest, ret, None) =>
        let p := with_Buff rest p in
        let l := Z.of_nat (length ret) in
        match ret with
        | [] => Val (p, Pointer k v, l, None)
        | [r] =>
            match Marshal r with
            | inr err => Val (p, Pointer k v, l, Some err)
            | inl byt => let '(v, err) := Unmarshal byt v in Val (p, Pointer k v, l, err)
            end
        | _ => Val (p, Pointer k v, l, Some errLength)
        end
    end.

Definition scanNotQuery (p : PrestScanner) (k : Kind) (v : value) : gores scan_result :=
  if decide (k = KSlice) then Val (p, Pointer k v, 1%Z, Some errUnsupTyp)
  else buff ← read_buff p; let '(rest, v, err) := Decode buff v in Val (with_Buff rest p, Pointer k v, 1%Z, err).

Definition Scan (p : PrestScanner) (i : scan_item value) : gores scan_result :=
  match i with
  | Pointer k v =>
      match validateType i with
      | Some err => Val (p, i, 0%Z, Some err)
      | None => if IsQuery p then scanQuery p k v else scanNotQuery p k v
      end
  | Direct _ => Val (p, i, 0%Z, validateType i)
  end.

(** ** Properties *)

Definition item_value (i : scan_item value) : value := match i with Direct v => v | Pointer _ v => v end.

(** Scanning the rows of a query into a struct or a map fills it from the
    row when there is exactly one; it is left as it was, and the number of rows
    told, when there is none (without an error) or more than one (an error), and
    when the rows cannot be read. *)
Theorem scan_one_row buff err k v rest rows derr :
  k ≠ KSlice → k ≠ KOther → DecodeRows buff = (rest, rows, derr) →
  Scan (MkScanner (Some buff) err true) (Pointer k v) =
  Val (MkScanner (Some rest) err true,
    Pointer k (match derr, rows with
               | None, [r] => match Marshal r with inl byt => (Unmarshal byt v).1 | inr _ => v end
               | _, _ => v end),
    match derr with None => Z.of_nat (length rows) | Some _ => 0%Z end,
    match derr, rows with
    | Some e, _ => Some e
    | None, [] => None
    | None, [r] => match Marshal r with inl byt => (Unmarshal byt v).2 | inr e => Some e end
    | None, _ => Some errLength
    end).
Proof.
  intros Hs Ho HD. unfold Scan, validateType. assert (supType k = true) as -> by by destruct k.
  cbn [IsQuery]. unfold scanQuery, read_buff. cbn [Buff mbind gores_bind]. rw decide_False // HD.
  destruct derr as [e|]; [done|]. destruct rows as [|r [|r' rows]]; [done| |done].
  destruct (Marshal r) as [byt|e]; [|done]. by destruct (Unmarshal byt v).
Qed.

(** A value that cannot be scanned into is refused before the result is read. *)
Theorem scan_refuses p i :
  validateType i ≠ None ∨ (∃ v, i = Pointer KSlice v ∧ IsQuery p = false) →
  ∃ l e, Scan p i = Val (p, i, l, Some e) ∧ (e = errPtr ∨ e = errUnsupTyp).
Proof.
  unfold Scan. intros [Hv|(v & -> & Hq)].
  - destruct i as [v|k v]; [by exists 0%Z, errPtr; auto|]. unfold validateType in *. destruct (supType k); [done|].
    by exists 0%Z, errUnsupTyp; auto.
  - cbn [validateType supType]. rw Hq. by exists 1%Z, errUnsupTyp; auto.
Qed.

(** The scanner of an error has no buffer: scanning it, without looking at
    [Err] first, panics. *)
Theorem scan_of_error_panics err q k v :
  validateType (Pointer k v) = None → q = true ∨ k ≠ KSlice → is_panic (Scan (MkScanner None err q) (Pointer k v)) = true.
Proof.
  intros Hv Hq. unfold Scan. rw Hv. destruct q; [done|]. destruct Hq as [|Hq]; [done|]. unfold scanNotQuery. by rw decide_False.
Qed.
End scan.

(** ** Witnesses *)

#[local] Instance number_json : JSON := {|
  value := Z; row := Z; Len v := v;
  Decode s v := ("", Z.of_nat (slen s), None);
  DecodeRows s := ("", Z.of_nat <$> seq 1 (slen s), None);
  Marshal r := inl (Itoa r);
  Unmarshal s v := (Z.of_nat (slen s), None)
|}.

#[local] Definition num (z : Z) : @value number_json := z.
#[local] Definition one : @row number_json := 1%Z.
#[local] Definition two : @row number_json := 2%Z.

Lemma scan_one_row_witness :
  Scan (MkScanner (Some "x") None true) (Pointer KStruct (num 5))
  = Val (MkScanner (Some "") None true, Pointer KStruct (num 1), 1%Z, None) ∧
  Scan (MkScanner (Some "xy") None true) (Pointer KMap (num 5))
  = Val (MkScanner (Some "") None true, Pointer KMap (num 5), 2%Z, Some errLength).
Proof.
  split.
  - by rw (scan_one_row "x" None KStruct (num 5) "" [one] None) //.
  - by rw (scan_one_row "xy" None KMap (num 5) "" [one; two] None) //.
Defined.
