(* ===== verification/Tables.v ===== *)
(** * The table endpoints: controllers/tables.go, databases.go, schemas.go, healthcheck.go

    Each handler builds one statement from the request and runs it.  The part
    that builds the statement is a function of its own, whose errors are the
    handler's 400 responses; the handler checks the path, routes the statement
    to the database of the path and turns the result into a response. *)

From S2P Require Import Prelude GoStrings Regexp SqlLex Ident Cache Config Http Json Where Connection Queries Statements Clauses Permissions Bodies Exec.

(** ** Replies

    A response, and the call of [Cache.BuntSet] that goes with it. *)
Record Reply := MkReply { rp_response : Response; rp_cached : option (string * string) }.

Definition reply (s : Response) : Reply := MkReply s None.
Definition bad_request (e : error) : Reply := reply (jsonError e StatusBadRequest).

(** [err = fmt.Errorf("text: %v", err)] *)
Definition prefixed {A} (text : string) (x : gores A) : gores A :=
  match x with Err e => Err (text +:+ ": " +:+ e) | _ => x end.

(** An error of [x] is the handler's response. *)
Definition or_bad {D A} (x : gores A) (k : A → M D Reply) : M D Reply :=
  match x with
  | Val a => k a
  | Err e => mret (bad_request e)
  | Panic p => lift (Panic p)
  end.

(** [strings.Replace(sql, "SELECT", distinct, 1)] under its condition. *)
Definition put_distinct (distinct sql : string) : string :=
  if String.eqb distinct "" then sql else ReplaceFirst sql "SELECT" distinct.

(** The lookup of the missing relation in an error of the database. *)
Definition missing_relation (e : error) (schema table : string) : bool :=
  Contains e (requote "pq: relation `" +:+ schema +:+ "." +:+ table +:+ requote "` does not exist").

Section tables.
Context {D : Type} `{Backend D} `{UnicodeTables} `{MapRange}.
Variable PrestConf : Prest.

(** [time.Duration] of the request, zero when the context has none. *)
Definition request_timeout (r : Request) : Z := default 0%Z (HTTPTimeoutKey (Ctx r)).

Definition world : M D (World D) := λ w, (w, Val w).
Definition conn_state : M D ConnState := λ w, (w, Val (w_conn w)).

(** ** Listing *)

(** The clauses the three listings share: the condition with its values, the
    ordering, the distinct clause and the page, evaluated in each handler's own
    order and under its own error texts. *)
Definition databases_statement (r : Request) : gores (string * list iface) :=
  '(requestWhere, values) ← WhereByRequest PrestConf r 1;
  let requestWhere := DatabaseWhere requestWhere in
  let '(query, hasCount) := DatabaseClause r in
  distinct ← DistinctClause r;
  let sqlDatabases := put_distinct distinct (query +:+ requestWhere) in
  order ← OrderByRequest r;
  let order := DatabaseOrderBy order hasCount in
  page ← PaginateIfPossible r;
  Val (sqlDatabases +:+ order +:+ " " +:+ page, values).

Definition schemas_statement (r : Request) : gores (string * list iface) :=
  '(requestWhere, values) ← WhereByRequest PrestConf r 1;
  let '(sqlSchemas, hasCount) := SchemaClause r in
  let sqlSchemas := if String.eqb requestWhere "" then sqlSchemas
                    else sqlSchemas +:+ " WHERE " +:+ requestWhere in
  distinct ← DistinctClause r;
  let sqlSchemas := put_distinct distinct sqlSchemas in
  order ← OrderByRequest r;
  let order := SchemaOrderBy order hasCount in
  page ← PaginateIfPossible r;
  Val (sqlSchemas +:+ order +:+ " " +:+ page, values).

Definition tables_statement (r : Request) : gores (string * list iface) :=
  '(requestWhere, values) ← prefixed "could not perform WhereByRequest" (WhereByRequest PrestConf r 1);
  let requestWhere := TableWhere requestWhere in
  order ← prefixed "could not perform OrderByRequest" (OrderByRequest r);
  let order := TableOrderBy order in
  distinct ← prefixed "could not perform Distinct" (DistinctClause r);
  let sqlTables := put_distinct distinct TableClause in
  page ← prefixed "could not perform PaginateIfPossible" (PaginateIfPossible r);
  Val (Join [sqlTables; requestWhere; order; page] " ", values).

(** A listing, run on the current database. *)
Definition listing (statement : gores (string * list iface)) : M D Reply :=
  or_bad statement (λ '(sql, values),
    sc ← Query PrestConf sql values;
    or_bad (sc_result sc) (λ b, mret (reply (ok_bytes b)))).

Definition GetDatabases (r : Request) : M D Reply := listing (databases_statement r).
Definition GetSchemas (r : Request) : M D Reply := listing (schemas_statement r).
Definition GetTables (r : Request) : M D Reply := listing (tables_statement r).

(** ** Path parameters *)

Definition validateTableParams (st : ConnState) (r : Request) : gores (string * string * string) :=
  let database := VarsGet r "database" in
  let schema := VarsGet r "schema" in
  let table := VarsGet r "table" in
  if SingleDB PrestConf && negb (String.eqb (GetDatabase st) database)
  then Err ("database not registered: " +:+ database)
  else if negb (IsSafeSegment database) || negb (IsSafeSegment schema) || negb (IsSafeSegment table)
  then Err "invalid identifier in path"
  else Val (database, schema, table).

(** The context of the statement: the database of the path. *)
Definition table_ctx (r : Request) (database : string) : Context := with_DBName database (Ctx r).

Definition schema_tables_statement (r : Request) (database schema : string) : gores (string * list iface) :=
  '(requestWhere, values) ← prefixed "could not perform WhereByRequest" (WhereByRequest PrestConf r 3);
  let requestWhere := SchemaTablesWhere requestWhere in
  order ← prefixed "could not perform OrderByRequest" (OrderByRequest r);
  let order := SchemaTablesOrderBy order in
  page ← prefixed "could not perform PaginateIfPossible" (PaginateIfPossible r);
  Val (SchemaTablesClause +:+ requestWhere +:+ order +:+ " " +:+ page,
       [IStr database; IStr schema] ++ values).

Definition GetTablesByDatabaseAndSchema (r : Request) : M D Reply :=
  st ← conn_state;
  or_bad (validateTableParams st r) (λ '(database, schema, _),
  or_bad (schema_tables_statement r database schema) (λ '(sql, values),
    sc ← QueryCtx PrestConf (table_ctx r database) sql values;
    or_bad (sc_result sc) (λ b, mret (reply (ok_bytes b))))).

Definition ShowTable_handler (r : Request) : M D Reply :=
  st ← conn_state;
  or_bad (validateTableParams st r) (λ '(database, schema, table),
    sc ← ShowTableCtx PrestConf (table_ctx r database) schema table;
    match sc_result sc with
    | Err e => mret (bad_request ("error to execute query, schema error " +:+ e))
    | res => or_bad res (λ b, mret (reply (ok_bytes b)))
    end).

(** ** Reading *)

Definition no_permission : error :=
  "you don't have permission for this action, please check the permitted fields for this table".

(** The statement of a select, and whether its first row alone is wanted. *)
Definition select_statement (st : ConnState) (r : Request) (database schema table : string)
  : gores (string * list iface * bool) :=
  cols ← FieldsPermissions PrestConf r table "read" "";
  if Nat.eqb (length cols) 0 then Err no_permission
  else
    selectStr ← SelectFields cols;
    let query := SelectSQL PrestConf st selectStr database schema table in
    distinct ← prefixed "could not perform Distinct" (DistinctClause r);
    let query := put_distinct distinct query in
    countQuery ← prefixed "could not perform CountByRequest" (CountByRequest r);
    let counting := negb (String.eqb countQuery "") in
    let query := if counting then SelectSQL PrestConf st countQuery database schema table else query in
    let countFirst := counting && negb (String.eqb (QueryGet r "_count_first") "") in
    joinValues ← prefixed "could not perform JoinByRequest" (JoinByRequest r);
    let query := foldl String.append query joinValues in
    '(requestWhere, values) ← prefixed "could not perform WhereByRequest" (WhereByRequest PrestConf r 1);
    let sqlSelect := if String.eqb requestWhere "" then query else query +:+ " WHERE " +:+ requestWhere in
    groupBySQL ← GroupByClause r;
    let sqlSelect := if String.eqb groupBySQL "" then sqlSelect else sqlSelect +:+ " " +:+ groupBySQL in
    order ← prefixed "could not perform OrderByRequest" (OrderByRequest r);
    let sqlSelect := if String.eqb order "" then sqlSelect else sqlSelect +:+ " " +:+ order in
    page ← prefixed "could not perform PaginateIfPossible" (PaginateIfPossible r);
    Val (sqlSelect +:+ " " +:+ page, values, countFirst).

(** The response of a statement on a table: a missing relation is a 404; the
    texts before the two kinds of errors are the handler's own. *)
Definition table_response (schema table not_found failed : string) (status : Z) (res : gores string)
  : M D Reply :=
  match res with
  | Val b => mret (reply (MkResponse status b))
  | Err e =>
      if missing_relation e schema table
      then mret (reply (jsonError (not_found +:+ e) StatusNotFound))
      else mret (bad_request (failed +:+ e))
  | Panic p => lift (Panic p)
  end.

Definition SelectFromTables (r : Request) : M D Reply :=
  st ← conn_state;
  or_bad (validateTableParams st r) (λ '(database, schema, table),
  or_bad (select_statement st r database schema table) (λ '(sqlSelect, values, countFirst),
    let ctx := table_ctx r database in
    sc ← (if countFirst : bool then QueryCountCtx PrestConf ctx sqlSelect values
          else QueryCtx PrestConf ctx sqlSelect values);
    rep ← table_response schema table "" "" StatusOK (sc_result sc);
    mret (match sc_result sc with
          | Val b => if String.eqb (Method r) "GET" then MkReply (rp_response rep) (Some (URL r, b)) else rep
          | _ => rep
          end))).

(** ** Inserting *)

Definition insert_statement (st : ConnState) (r : Request) (body : gores (gmap string iface))
    (database schema table : string) : gores (string * list iface) :=
  '(names, placeholders, values) ← prefixed "could not perform InsertInTables" (ParseInsertRequest PrestConf r body);
  Val (InsertSQL PrestConf st database schema table names placeholders, values).

Definition InsertInTables (r : Request) (body : gores (gmap string iface)) : M D Reply :=
  st ← conn_state;
  or_bad (validateTableParams st r) (λ '(database, schema, table),
  or_bad (insert_statement st r body database schema table) (λ '(sql, values),
    sc ← InsertCtx PrestConf (table_ctx r database) sql values;
    table_response schema table "relation does not exist: " "could not perform InsertInTables: "
      StatusCreated (sc_result sc))).

Definition BatchInsertInTables (r : Request) (body : gores (list (gmap string iface))) : M D Reply :=
  st ← conn_state;
  or_bad (validateTableParams st r) (λ '(database, schema, table),
  or_bad (prefixed "could not perform BatchInsertInTables" (ParseBatchInsertRequest body))
    (λ '(names, placeholders, values),
    let ctx := table_ctx r database in
    sc ← (if negb (String.eqb (ToLower (HeaderGet r "Prest-Batch-Method")) "copy")
          then BatchInsertValuesCtx PrestConf ctx
                 (InsertSQL PrestConf st database schema table names placeholders) values
          else BatchInsertCopyCtx PrestConf ctx (request_timeout r) schema table (Split names ",") values);
    table_response schema table "relation does not exist: " "could not perform BatchInsertInTables: "
      StatusCreated (sc_result sc))).

(** ** Deleting and updating *)

Definition with_returning (returningSyntax sql : string) : string :=
  if String.eqb returningSyntax "" then sql else sql +:+ " RETURNING " +:+ returningSyntax.

Definition delete_statement (st : ConnState) (r : Request) (database schema table : string)
  : gores (string * list iface) :=
  '(where_, values) ← prefixed "could not perform WhereByRequest" (WhereByRequest PrestConf r 1);
  let sql := DeleteSQL PrestConf st database schema table in
  let sql := if String.eqb where_ "" then sql else sql +:+ " WHERE " +:+ where_ in
  returningSyntax ← prefixed "could not perform ReturningByRequest" (ReturningByRequest r);
  Val (with_returning returningSyntax sql, values).

Definition DeleteFromTable (r : Request) : M D Reply :=
  st ← conn_state;
  or_bad (validateTableParams st r) (λ '(database, schema, table),
  or_bad (delete_statement st r database schema table) (λ '(sql, values),
    sc ← DeleteCtx PrestConf (table_ctx r database) sql values;
    table_response schema table "relation does not exist: " "could not perform DeleteFromTable: "
      StatusOK (sc_result sc))).

(** The values of the condition follow those of the SET list, and so do its
    placeholders. *)
Definition update_statement (st : ConnState) (r : Request) (body : gores (gmap string iface))
    (database schema table : string) : gores (string * list iface) :=
  '(setSyntax, values) ← prefixed "could not perform UPDATE" (SetByRequest body 1);
  let sql := UpdateSQL PrestConf st database schema table setSyntax in
  let pid := (Z.of_nat (length values) + 1)%Z in
  '(where_, whereValues) ← prefixed "could not perform WhereByRequest" (WhereByRequest PrestConf r pid);
  let sql' := if String.eqb where_ "" then sql else sql +:+ " WHERE " +:+ where_ in
  let values' := if String.eqb where_ "" then values else values ++ whereValues in
  returningSyntax ← prefixed "could not perform ReturningByRequest" (ReturningByRequest r);
  Val (with_returning returningSyntax sql', values').

Definition UpdateTable (r : Request) (body : gores (gmap string iface)) : M D Reply :=
  st ← conn_state;
  or_bad (validateTableParams st r) (λ '(database, schema, table),
  or_bad (update_statement st r body database schema table) (λ '(sql, values),
    sc ← UpdateCtx PrestConf (table_ctx r database) sql values;
    table_response schema table "" "" StatusOK (sc_result sc))).

(** ** Health: controllers/healthcheck.go *)

(** [db.Ping]: whether a connection answers. *)
Variable ping : D → nat → gores unit.
(** [conn.ExecContext(ctx, ";")] on a connection. *)
Variable probe : D → nat → gores unit.

(** adapters/postgres/connection.go *)
Definition GetByName (st : ConnState) (name : string) : gores nat := GetFromPool PrestConf st name.

Fixpoint ping_all (d : D) (st : ConnState) (urls : list PGURLConfig) : gores unit :=
  match urls with
  | [] => Val tt
  | u :: rest =>
      match GetByName st (pu_Name u) with
      | Val db =>
          match ping d db with
          | Val _ => ping_all d st rest
          | Err e => Err ("health: ping " +:+ strconv_Quote (pu_Name u) +:+ " failed: " +:+ e)
          | Panic p => Panic p
          end
      | Err e => Err ("health: db " +:+ strconv_Quote (pu_Name u) +:+ " not in pool: " +:+ e)
      | Panic p => Panic p
      end
  end.

Definition CheckDBHealth : M D unit :=
  if negb (SingleDB PrestConf) && negb (Nat.eqb (length (PGNamedURLs PrestConf)) 0)
  then
    w ← world;
    lift (ping_all (w_db w) (w_conn w) (PGNamedURLs PrestConf))
  else
    conn ← get_db PrestConf;
    w ← world;
    lift (probe (w_db w) conn).

Fixpoint WrappedHealthCheck (checks : list (M D unit)) : M D Z :=
  match checks with
  | [] => mret StatusOK
  | check :: rest =>
      res ← try check;
      match res with Val _ => WrappedHealthCheck rest | _ => mret StatusServiceUnavailable end
  end.
End tables.
