(* ===== verification/Panics.v ===== *)
(** * Which requests can panic: controllers/tables.go and below

    A Go function that panics unwinds to the recovery middleware, which answers
    500.  This file bounds the panics of the table endpoints: the code that reads
    a request panics for a group function without a field only, the code that
    runs statements when the driver does, or when the rows of a RETURNING
    statement cannot be read. *)

From S2P Require Import Prelude GoStrings Regexp SqlLex GoStd Ident Config Http Json Where Connection Queries Statements Clauses Permissions Bodies Exec Tables.

(** ** Computations *)

Definition panics_only {A} (P : string → Prop) (x : gores A) : Prop := ∀ p, x = Panic p → P p.
Abbreviation calm := (panics_only (λ _, False)).

Lemma panics_weaken {A} (P Q : string → Prop) (x : gores A) : panics_only P x → (∀ p, P p → Q p) → panics_only Q x.
Proof. unfold panics_only. auto. Qed.

Lemma calm_any {A} P (x : gores A) : calm x → panics_only P x.
Proof. intros Hx. by eapply panics_weaken. Qed.

Lemma panics_val {A} P (a : A) : panics_only P (Val a).
Proof. done. Qed.

Lemma panics_err {A} P e : panics_only P (Err e : gores A).
Proof. done. Qed.

Lemma panics_bind {A B} P (x : gores A) (f : A → gores B) :
  panics_only P x → (∀ a, panics_only P (f a)) → panics_only P (x ≫= f).
Proof. intros Hx Hf p. destruct x as [a|e|w]; cbn; [by apply Hf|done|]. intros [= ->]. by apply Hx. Qed.

Lemma panics_prefixed {A} P t (x : gores A) : panics_only P x → panics_only P (prefixed t x).
Proof. unfold prefixed. by destruct x. Qed.

Lemma panics_mapE {A B} P (f : A → gores B) l :
  (∀ a, a ∈ l → panics_only P (f a)) → panics_only P (mapE f l).
Proof.
  induction l as [|a l IH]; intros Hf; [apply panics_val|]. cbn [mapE].
  apply panics_bind; [apply Hf; by left|]. intros b. apply panics_bind; [|by intros; apply panics_val].
  apply IH. intros x Hx. apply Hf. by right.
Qed.

Lemma panics_foldE {A S} P (f : S → A → gores S) l s :
  (∀ s a, panics_only P (f s a)) → panics_only P (foldE f s l).
Proof.
  intros Hf. revert s; induction l as [|a l IH]; intros s; [apply panics_val|]. cbn [foldE].
  apply panics_bind; [apply Hf|intros; apply IH].
Qed.

Create HintDb calm.
#[export] Hint Resolve panics_val panics_err : calm.
#[export] Hint Extern 2 (panics_only _ (_ ≫= _)) => apply panics_bind; [|intros ?] : calm.
#[export] Hint Extern 2 (panics_only _ (prefixed _ _)) => apply panics_prefixed : calm.
#[export] Hint Extern 2 (panics_only _ (mapE _ _)) => apply panics_mapE; intros ? ? : calm.
#[export] Hint Extern 2 (panics_only _ (foldE _ _ _)) => apply panics_foldE; intros ? ? : calm.

(** Cases first, then the rules. *)
Ltac calm_step :=
  match goal with
  | |- panics_only _ (if ?b then _ else _) => destruct b eqn:?
  | |- panics_only _ (let '(_, _) := ?x in _) => destruct x
  | |- panics_only _ (match ?x with _ => _ end) => destruct x eqn:?
  | |- panics_only _ _ => solve [eauto 3 with calm]
  | |- panics_only _ (_ ≫= _) => apply panics_bind; [|intros ?]
  | |- panics_only _ (prefixed _ _) => apply panics_prefixed
  | |- panics_only _ (mapE _ _) => apply panics_mapE; intros ? ?
  | |- panics_only _ (foldE _ _ _) => apply panics_foldE; intros ? ?
  end; cbv zeta.
Ltac calm := cbv zeta; repeat calm_step.

(** *** Reading a request *)

Lemma Atoi_calm `{UnicodeTables} s : calm (Atoi s).
Proof. unfold Atoi. calm. Qed.
#[export] Hint Resolve Atoi_calm : calm.

Lemma GetQueryOperator_calm op : calm (GetQueryOperator op).
Proof. unfold GetQueryOperator. calm. Qed.
#[export] Hint Resolve GetQueryOperator_calm : calm.

Lemma whereKeyAndValue_calm k v pid : calm (whereKeyAndValue k v pid).
Proof. unfold whereKeyAndValue, json_condition, tsquery_condition. calm. Qed.
#[export] Hint Resolve whereKeyAndValue_calm : calm.

Lemma where_entry_calm st kv : calm (where_entry st kv).
Proof. unfold where_entry, where_value, or_value, or_part. calm. Qed.
#[export] Hint Resolve where_entry_calm : calm.

Lemma WhereByRequest_calm `{MapRange} cfg r n : calm (WhereByRequest cfg r n).
Proof. unfold WhereByRequest. calm. Qed.
#[export] Hint Resolve WhereByRequest_calm : calm.

Lemma ReturningByRequest_calm r : calm (ReturningByRequest r).
Proof. unfold ReturningByRequest. calm. Qed.
#[export] Hint Resolve ReturningByRequest_calm : calm.

Lemma DistinctClause_calm r : calm (DistinctClause r).
Proof. unfold DistinctClause. calm. Qed.
#[export] Hint Resolve DistinctClause_calm : calm.

Lemma CountByRequest_calm r : calm (CountByRequest r).
Proof. unfold CountByRequest. calm. Qed.
#[export] Hint Resolve CountByRequest_calm : calm.

Lemma order_fields_calm vs flds : calm (order_fields vs flds).
Proof. revert vs; induction flds as [|f flds IH]; intros vs; cbn [order_fields]; calm; apply IH. Qed.
#[export] Hint Resolve order_fields_calm : calm.

Lemma OrderByRequest_calm r : calm (OrderByRequest r).
Proof. unfold OrderByRequest. calm. Qed.
#[export] Hint Resolve OrderByRequest_calm : calm.

Lemma JoinByRequest_calm `{UnicodeTables} r : calm (JoinByRequest r).
Proof. unfold JoinByRequest. calm. Qed.
#[export] Hint Resolve JoinByRequest_calm : calm.

(** A function name with a colon behind it has a field. *)
Lemma NormalizeGroupFunction_calm `{UnicodeTables} s : no_byte ":" s = false → calm (NormalizeGroupFunction s).
Proof.
  intros Hs. unfold NormalizeGroupFunction. cbv zeta. destruct (existsb _ _); [|apply panics_err].
  destruct (Split s ":") as [|a [|b l]] eqn:E; [by apply Split_nonempty in E| |calm].
  exfalso. pose proof (Join_Split s ":" ltac:(done)) as Hj. pose proof (Split1_no_byte ":" s) as Hf.
  rw E in Hj. rw E in Hf. cbn in Hj. subst a. apply Forall_cons in Hf as [Hf _]. cbn beta in Hf. by rw Hf in Hs.
Qed.

(** A bare one has none. *)
Definition bare_function `{UnicodeTables} (f : string) : Prop :=
  no_byte ":" f = true ∧ existsb (String.eqb (ToUpper f)) group_functions = true.

Lemma NormalizeGroupFunction_panics `{UnicodeTables} s : panics_only (λ _, bare_function s) (NormalizeGroupFunction s).
Proof.
  intros p Hp. split.
  - destruct (no_byte ":" s) eqn:E; [done|]. by apply NormalizeGroupFunction_calm in Hp.
  - revert Hp. unfold NormalizeGroupFunction. cbv zeta.
    destruct (existsb (String.eqb (ToUpper (default "" (Split s ":" !! 0)))) group_functions) eqn:E; [|done]. intros Hp.
    destruct (no_byte ":" s) eqn:Hn; [by rw Split1_single // in E|].
    exfalso. apply (NormalizeGroupFunction_calm s Hn p). unfold NormalizeGroupFunction. cbv zeta. by rw E.
Qed.

Lemma select_field_panics `{UnicodeTables} f : panics_only (λ _, bare_function f) (select_field f).
Proof.
  unfold select_field. cbv zeta. destruct (NormalizeGroupFunction f) as [g|e|w] eqn:E; calm.
  intros p _. by eapply NormalizeGroupFunction_panics.
Qed.

Lemma SelectFields_panics `{UnicodeTables} cols :
  panics_only (λ _, Exists bare_function cols) (SelectFields cols).
Proof.
  unfold SelectFields. destruct cols as [|c cols]; [apply panics_err|]. apply panics_bind; [|by calm].
  apply panics_mapE. intros f Hf. eapply panics_weaken; [apply select_field_panics|]. intros ? Hb.
  apply Exists_exists. by exists f.
Qed.

Lemma FieldsPermissions_calm `{UnicodeTables} cfg r t op u : calm (FieldsPermissions cfg r t op u).
Proof.
  unfold FieldsPermissions. assert (calm (columnsByRequest r)) as Hc.
  { unfold columnsByRequest, normalizeAll, normalizeColumn. cbv zeta. calm.
    apply NormalizeGroupFunction_calm. destruct (no_byte ":" a) eqn:Hn; [|done].
    by rw Contains_none // in Heqb0. }
  destruct (columnsByRequest r) as [cols|e|w]; calm.
Qed.
#[export] Hint Resolve FieldsPermissions_calm : calm.

Lemma GroupByClause_calm `{UnicodeTables} r : calm (GroupByClause r).
Proof.
  unfold GroupByClause. cbv zeta. calm. exfalso.
  match goal with Hp : NormalizeGroupFunction (?a +:+ ":" +:+ ?b) = Panic _ |- _ =>
    revert Hp; apply NormalizeGroupFunction_calm end.
  unfold no_byte. rw string_forall_app. cbn. by rw andb_false_r.
Qed.
#[export] Hint Resolve GroupByClause_calm : calm.

(** A parsed query has a value for each of its keys. *)
Definition parsed_query (r : Request) : Prop := ∀ k, Http.Query r !! k ≠ Some [].

Lemma PaginateIfPossible_calm `{UnicodeTables} r : parsed_query r → calm (PaginateIfPossible r).
Proof.
  intros Hr. assert (∀ k vs, Http.Query r !! k = Some vs → calm (first_value vs)) as Hv.
  { intros k [|v vs] E; [by apply Hr in E|apply panics_val]. }
  unfold PaginateIfPossible, LimitOffset. calm; by eapply Hv.
Qed.
#[export] Hint Resolve PaginateIfPossible_calm : calm.

(** *** Reading a body *)

Lemma SetByRequest_calm `{UnicodeTables} `{MapRange} body n : calm body → calm (SetByRequest body n).
Proof. intros Hb. unfold SetByRequest, set_field, set_value, sliceToJSONList. calm. Qed.
#[export] Hint Resolve SetByRequest_calm : calm.

Lemma ParseInsertRequest_calm `{UnicodeTables} `{MapRange} cfg r body : calm body → calm (ParseInsertRequest cfg r body).
Proof. intros Hb. unfold ParseInsertRequest, insert_field. calm. Qed.
#[export] Hint Resolve ParseInsertRequest_calm : calm.

Lemma strconv_Unquote_calm s : calm (strconv_Unquote s).
Proof. unfold strconv_Unquote. calm. Qed.
#[export] Hint Resolve strconv_Unquote_calm : calm.

Lemma operation_loop_calm ks vs ps l : calm (operation_loop ks vs ps l).
Proof. revert vs ps; induction l as [|x l IH]; intros vs ps; cbn [operation_loop]; unfold record_value; calm; apply IH. Qed.
#[export] Hint Resolve operation_loop_calm : calm.

Lemma ParseBatchInsertRequest_calm `{UnicodeTables} `{MapRange} body : calm body → calm (ParseBatchInsertRequest body).
Proof. intros Hb. unfold ParseBatchInsertRequest, operationValues. calm. Qed.
#[export] Hint Resolve ParseBatchInsertRequest_calm : calm.

(** A list split at its commas is not empty. *)
Lemma copyRows_calm `{UnicodeTables} keys vs : keys ≠ [] → calm (copyRows keys vs).
Proof.
  intros Hk. unfold copyRows. destruct (mapE clean_key keys) as [l|e|w] eqn:E; cbn.
  - apply mapE_length in E. destruct l; [by destruct keys|apply panics_val].
  - apply panics_err.
  - assert (calm (mapE clean_key keys)) as Hc by (unfold clean_key; calm). by apply Hc in E.
Qed.

(** ** Programs *)

(** The driver panics with this text, in one of its calls. *)
Inductive driver_panics {D} `{Backend D} (p : string) : Prop :=
| dial_panics dsn : be_dial (D := D) dsn = Panic p → driver_panics p
| prepare_panics (d : D) t SQL : (be_prepare d t SQL).2 = Panic p → driver_panics p
| query_panics (d : D) s ps : (be_query d s ps).2 = Panic p → driver_panics p
| exec_panics (d : D) s ps : (be_exec d s ps).2 = Panic p → driver_panics p
| affected_panics (d : D) s ps : (be_exec d s ps).2 = Val (Panic p) → driver_panics p
| copy_panics (d : D) h t schema table cols rows :
    (be_copy d h t schema table cols rows).2 = Panic p → driver_panics p.

Section programs.
Context {D : Type} `{Backend D} `{UnicodeTables} `{MapRange}.
Variable cfg : Prest.
Abbreviation by_driver := (driver_panics (D := D)).

Definition mpanics {A} (P : string → Prop) (m : M D A) : Prop := ∀ w, panics_only P (m w).2.

Lemma mpanics_weaken {A} (P Q : string → Prop) (m : M D A) : mpanics P m → (∀ p, P p → Q p) → mpanics Q m.
Proof. intros Hm HPQ w. by eapply panics_weaken. Qed.

Lemma mpanics_ret {A} P (a : A) : mpanics P (mret a).
Proof. done. Qed.

Lemma mpanics_lift {A} P (x : gores A) : panics_only P x → mpanics P (lift x).
Proof. by intros Hx w. Qed.

Lemma mpanics_bind {A B} P (m : M D A) (f : A → M D B) :
  mpanics P m → (∀ a, mpanics P (f a)) → mpanics P (m ≫= f).
Proof.
  intros Hm Hf w p. cbv [mbind M_bind]. specialize (Hm w). destruct (m w) as [w' [a|e|v]]; cbn in *.
  - apply Hf.
  - done.
  - intros [= ->]. by apply Hm.
Qed.

Lemma mpanics_try {A} P (m : M D A) : mpanics P m → mpanics P (try m).
Proof. intros Hm w p. specialize (Hm w). unfold try. destruct (m w) as [w' [a|e|v]]; cbn in *; try done. intros [= ->]. by apply Hm. Qed.

Lemma mpanics_catching P (m : M D PrestScanner) : mpanics P m → mpanics P (catching m).
Proof. intros Hm w p. specialize (Hm w). unfold catching. destruct (m w) as [w' [a|e|v]]; cbn in *; try done. intros [= ->]. by apply Hm. Qed.

Lemma mpanics_with_db {A} P (f : D → D * gores A) : (∀ d, panics_only P (f d).2) → mpanics P (with_db f).
Proof. intros Hf w p. unfold with_db. specialize (Hf (w_db w)). destruct (f (w_db w)) as [d r]. apply Hf. Qed.

Lemma mpanics_if {A} P (b : bool) (m n : M D A) : mpanics P m → mpanics P n → mpanics P (if b then m else n).
Proof. by destruct b. Qed.

Lemma or_bad_panics {A} P (x : gores A) (k : A → M D Reply) :
  panics_only P x → (∀ a, x = Val a → mpanics P (k a)) → mpanics P (or_bad x k).
Proof. intros Hx Hk. destruct x as [a|e|w]; cbn; [by apply Hk|apply mpanics_ret|]. intros w' p [= <-]. by apply Hx. Qed.

(** *** Connections and statements *)

Lemma run_call_panics c st : panics_only by_driver (run_call be_dial cfg c st).2.
Proof.
  assert (panics_only by_driver (match lookup_call cfg c st with
      | Some h => (st, Val h)
      | None => match openAndPing be_dial (call_dsn cfg c) st with
          | (st, Val h) => let '(st, h) := store_call cfg c h st in (st, Val h)
          | (st, Err e) => (st, Err (connect_error c e))
          | (st, Panic w) => (st, Panic w)
          end end).2) as Hrun.
  { destruct (lookup_call cfg c st); [done|]. unfold openAndPing.
    destruct (be_dial (call_dsn cfg c)) as [u|e|w] eqn:E; cbn; [by destruct (store_call _ _ _ _)|done|].
    intros p [= ->]. by eapply dial_panics. }
  destruct c as [name|name [|]]; [exact Hrun|done|exact Hrun].
Qed.

Lemma get_db_ctx_panics c : mpanics by_driver (get_db_ctx cfg c).
Proof.
  intros w p. unfold get_db_ctx, with_conn, getDBFromCtx, Connection.Get, AddDatabaseToPool.
  destruct (DBNameKey c) as [n|].
  - destruct (GetFromPool cfg (w_conn w) n); [done|..]; pose proof (run_call_panics (CAdd n) (w_conn w)) as Hr;
      destruct (run_call _ _ _ _); apply Hr.
  - destruct (getDatabaseFromPool _ _ _); [done|].
    pose proof (run_call_panics (CAdd (GetDatabase (w_conn w))) (w_conn w)) as Hr. destruct (run_call _ _ _ _); apply Hr.
Qed.

Lemma Prepare_panics t SQL : mpanics by_driver (Prepare cfg t SQL).
Proof.
  unfold Prepare. cbv zeta. apply mpanics_bind; [by case_match|]. intros [s|]; [done|].
  apply mpanics_bind; [apply mpanics_with_db; intros d p Hp; by eapply prepare_panics|]. intros _.
  apply mpanics_bind; [by case_match|done].
Qed.

Lemma stmt_Query_panics s ps : mpanics by_driver (stmt_Query s ps).
Proof. apply mpanics_with_db. intros d p Hp. by eapply query_panics. Qed.

Lemma scan_one_calm {A} (dest : iface → gores A) cols row : (∀ v, calm (dest v)) → calm (scan_one dest cols row).
Proof. intros Hd. unfold scan_one. destruct row as [|v [|]]; try done. specialize (Hd v). by destruct (dest v). Qed.

Lemma scan_row_calm {A} (dest : iface → gores A) rows : (∀ v, calm (dest v)) → calm (scan_row dest rows).
Proof. intros Hd. unfold scan_row. destruct (rows_data rows); [done|]. by apply scan_one_calm. Qed.

Lemma scan_int64_calm v : calm (scan_int64 v).
Proof. pose proof (Atoi_calm (as_text v)) as Ha. unfold scan_int64. destruct v; try done; by destruct (Atoi _). Qed.

Lemma QueryCtx_panics c SQL ps : mpanics by_driver (QueryCtx cfg c SQL ps).
Proof.
  unfold QueryCtx, queryImpl. apply mpanics_catching, mpanics_bind; [apply get_db_ctx_panics|]. intros db.
  apply mpanics_catching, mpanics_bind; [apply Prepare_panics|]. intros s.
  apply mpanics_bind; [apply mpanics_try, stmt_Query_panics|done].
Qed.

Lemma QueryCountCtx_panics c SQL ps : mpanics by_driver (QueryCountCtx cfg c SQL ps).
Proof.
  unfold QueryCountCtx, queryCountImpl. apply mpanics_catching, mpanics_bind; [apply get_db_ctx_panics|]. intros db.
  apply mpanics_catching, mpanics_bind; [apply Prepare_panics|]. intros s.
  apply mpanics_bind; [apply stmt_Query_panics|]. intros rows. apply mpanics_bind; [|done].
  apply mpanics_lift, calm_any, scan_row_calm, scan_int64_calm.
Qed.

Lemma returning_insert_calm SQL : calm (returning_insert SQL).
Proof. unfold returning_insert. calm. Qed.

Lemma fullInsert_panics t SQL : mpanics by_driver (fullInsert cfg t SQL).
Proof.
  unfold fullInsert. apply mpanics_bind; [by apply mpanics_lift, calm_any, returning_insert_calm|]. intros s. apply Prepare_panics.
Qed.

Lemma InsertCtx_panics c SQL ps : mpanics by_driver (InsertCtx cfg c SQL ps).
Proof.
  unfold InsertCtx, insert. apply mpanics_catching, mpanics_bind; [apply get_db_ctx_panics|]. intros db.
  apply mpanics_catching, mpanics_bind; [apply fullInsert_panics|]. intros s.
  apply mpanics_bind; [apply mpanics_try, stmt_Query_panics|done].
Qed.

Lemma batch_loop_calm cols j rows : calm (batch_loop cols j rows).
Proof.
  revert j; induction rows as [|row rows IH]; intros j; [done|]. cbn [batch_loop].
  apply panics_bind; [by apply scan_one_calm|]. intros; apply IH.
Qed.

Lemma BatchInsertValuesCtx_panics c SQL vs : mpanics by_driver (BatchInsertValuesCtx cfg c SQL vs).
Proof.
  unfold BatchInsertValuesCtx, batchInsertValuesImpl. apply mpanics_catching, mpanics_bind; [apply get_db_ctx_panics|]. intros db.
  apply mpanics_catching, mpanics_bind; [apply fullInsert_panics|]. intros s.
  apply mpanics_bind; [apply stmt_Query_panics|]. intros rows. apply mpanics_bind; [|done].
  apply mpanics_lift, calm_any, batch_loop_calm.
Qed.

Lemma BatchInsertCopyCtx_panics c dl schema table ks vs :
  ks ≠ [] → mpanics by_driver (BatchInsertCopyCtx cfg c dl schema table ks vs).
Proof.
  intros Hk. unfold BatchInsertCopyCtx, batchInsertCopyImpl.
  apply mpanics_catching, mpanics_bind; [apply get_db_ctx_panics|]. intros db.
  apply mpanics_catching, mpanics_bind; [by apply mpanics_lift, calm_any, copyRows_calm|]. intros [rows keys].
  apply mpanics_bind; [|done]. apply mpanics_with_db. intros d p Hp. by eapply copy_panics.
Qed.

(** The rows of a RETURNING statement that cannot be read: the query was refused,
    or a row has another number of columns, which ends the process. *)
Definition unread_rows (SQL p : string) : Prop := Contains SQL "RETURNING" = true ∧ p ∈ [nil_rows; "exit status 1"].

Lemma execReturning_panics s SQL ps :
  mpanics (λ p, by_driver p ∨ unread_rows SQL p) (execReturningOrAffected s SQL ps).
Proof.
  unfold execReturningOrAffected. destruct (Contains SQL "RETURNING") eqn:Hr.
  - apply mpanics_bind.
    { apply mpanics_try. eapply mpanics_weaken; [apply stmt_Query_panics|by left]. }
    intros [rows|e|w]; [|apply mpanics_lift; intros p [= <-]; right; split; [done|by left]..].
    apply mpanics_bind; [|done]. apply mpanics_lift, panics_mapE. intros row _. unfold scan_object.
    destruct (Nat.eqb _ _); [done|]. intros p [= <-]. right. split; [done|]. right. by left.
  - apply mpanics_catching. intros w p. cbv [mbind M_bind stmt_Exec with_db lift].
    destruct (be_exec (w_db w) s ps) as [d [[n|e|v]|e|v]] eqn:E; cbn; try done; intros [= ->]; left.
    + eapply (affected_panics p (w_db w) s ps). by rw E.
    + eapply (exec_panics p (w_db w) s ps). by rw E.
Qed.

Lemma DeleteCtx_panics c SQL ps : mpanics (λ p, by_driver p ∨ unread_rows SQL p) (DeleteCtx cfg c SQL ps).
Proof.
  unfold DeleteCtx, delete_. apply mpanics_catching, mpanics_bind.
  { eapply mpanics_weaken; [apply get_db_ctx_panics|by left]. }
  intros db. apply mpanics_catching, mpanics_bind; [|intros s; apply execReturning_panics].
  eapply mpanics_weaken; [apply Prepare_panics|by left].
Qed.

Lemma UpdateCtx_panics c SQL ps : mpanics (λ p, by_driver p ∨ unread_rows SQL p) (UpdateCtx cfg c SQL ps).
Proof. exact (DeleteCtx_panics c SQL ps). Qed.

(** ** The handlers *)

Lemma table_response_panics P schema table nf fl st res :
  panics_only P res → mpanics P (table_response schema table nf fl st res).
Proof.
  intros Hr. unfold table_response. destruct res as [b|e|w]; [done|by case_match|].
  intros w' p [= <-]. by apply Hr.
Qed.

Lemma sc_result_calm sc : calm (sc_result sc).
Proof. unfold sc_result. by destruct (Exec.Error sc). Qed.

Lemma validateTableParams_calm st r : calm (validateTableParams cfg st r).
Proof. unfold validateTableParams. calm. Qed.

Lemma select_statement_panics st r d s t :
  parsed_query r →
  panics_only (λ _, ∃ cols, FieldsPermissions cfg r t "read" "" = Val cols ∧ Exists bare_function cols)
    (select_statement cfg st r d s t).
Proof.
  intros Hr. unfold select_statement.
  pose proof (FieldsPermissions_calm cfg r t "read" "") as Hf.
  destruct (FieldsPermissions cfg r t "read" "") as [cols|e|w] eqn:E; cbn; [|done|by destruct (Hf w)].
  destruct (Nat.eqb _ _); [apply panics_err|].
  apply panics_bind.
  - eapply panics_weaken; [apply SelectFields_panics|]. intros ? Hb. by exists cols.
  - intros sel. apply calm_any. calm.
Qed.

Lemma delete_statement_calm st r d s t : calm (delete_statement cfg st r d s t).
Proof. unfold delete_statement. calm. Qed.

Lemma update_statement_calm st r body d s t : calm body → calm (update_statement cfg st r body d s t).
Proof. intros Hb. unfold update_statement. calm. Qed.

Lemma insert_statement_calm st r body d s t : calm body → calm (insert_statement cfg st r body d s t).
Proof. intros Hb. unfold insert_statement. calm. Qed.

Lemma schema_tables_statement_calm r d s : parsed_query r → calm (schema_tables_statement cfg r d s).
Proof. intros Hr. unfold schema_tables_statement. calm. Qed.
End programs.
