(* ===== verification/TablesSpec.v ===== *)
(** * What the table endpoints guarantee

    The checks on the path, the statements the handlers build, the tenant
    filter on every read and write, the routing to the database of the path and
    the status codes. *)

From S2P Require Import Prelude GoStrings Regexp SqlLex Ident Cache Config Http Json Filters Where WhereSpec Connection Queries Statements Clauses ClausesSpec Permissions Bodies BodiesSpec Exec ExecSpec Tables Panics.

(** ** Path segments *)

Definition high_byte (c : ascii) : bool := (128 <=? bval c)%N.

(** The bytes behind the first of a rune are not ASCII. *)
Lemma decode_rune_tail c s :
  string_forall high_byte (take_bytes (pred (decode_rune (String c s)).2) s) = true.
Proof.
  assert (∀ b, cont_byte (bval b) = true → high_byte b = true) as Hcont.
  { intros b. unfold cont_byte, between, high_byte. rw andb_true_iff !N.leb_le. lia. }
  assert (∀ lo hi b, (128 ≤ lo)%N → between lo hi (bval b) = true → high_byte b = true) as Hbet.
  { intros lo hi b Hlo. unfold between, high_byte. rw andb_true_iff !N.leb_le. lia. }
  unfold decode_rune. destruct s as [|b1 [|b2 [|b3 s]]]; cbn [take_bytes bytes_of];
    repeat (case_match; cbn [snd pred take_bytes string_forall]; [|try done]); try done;
    repeat match goal with
    | H : (_ && _)%bool = true |- _ => apply andb_true_iff in H as [? ?]
    | H : (_ || _)%bool = true |- _ => apply orb_true_iff in H as [?|?]
    end; rw ?andb_true_iff; repeat split; try done; try (by apply Hcont);
    by (eapply Hbet; [|eassumption]).
Qed.

Lemma runes_ascii (q : N → bool) k s :
  forallb q (rune_segs_from k s).*1 = true → string_forall high_byte (take_bytes k s) = true →
  string_forall (λ c, high_byte c || q (bval c)) s = true.
Proof.
  revert k; induction s as [|c s IH]; intros k Hq Hk; [done|]. cbn [string_forall].
  destruct k as [|k]; cbn [rune_segs_from take_bytes string_forall] in Hq, Hk.
  - pose proof (decode_rune_tail c s) as Ht. destruct (decode_rune (String c s)) as [r w] eqn:E.
    cbn [fst fmap list_fmap forallb] in Hq. apply andb_true_iff in Hq as [Hr Hq].
    rw (IH _ Hq Ht) andb_true_r. destruct (N.ltb_spec (bval c) 128).
    + rw decode_rune_ascii // in E. injection E as <- <-. by rw Hr orb_true_r.
    + unfold high_byte. by rw (proj2 (N.leb_le _ _)).
  - apply andb_true_iff in Hk as [Hc Hk]. by rw Hc (IH k).
Qed.

Section paths.
Context `{UnicodeTables}.

Lemma IsSafeSegment_bytes s :
  IsSafeSegment s = true →
  s ≠ "" ∧ string_forall (λ c, high_byte c || IsLetter (bval c) || IsDigit (bval c) || (bval c =? 95)%N
                               || (bval c =? 45)%N) s = true.
Proof.
  unfold IsSafeSegment. destruct (Nat.eqb (slen s) 0) eqn:E0; [done|]. cbn [orb].
  destruct (Nat.ltb 63 (slen s)); [done|]. intros Hq. split; [by intros ->|].
  eapply string_forall_impl; [|by eapply (runes_ascii _ 0 s Hq)]. intros c. cbn beta. by rw !orb_assoc.
Qed.

(** A safe segment between double quotes is one identifier token. *)
Lemma IsSafeSegment_no_quote s : IsSafeSegment s = true → no_byte dqc s = true.
Proof.
  intros [_ Hs]%IsSafeSegment_bytes. unfold no_byte. eapply string_forall_impl, Hs.
  intros c. cbn beta. destruct (Ascii.eqb dqc c) eqn:E; [|done]. apply Ascii.eqb_eq in E; subst c. done.
Qed.

Lemma IsSafeSegment_no_colon s : IsSafeSegment s = true → no_byte ":" s = true.
Proof.
  intros [_ Hs]%IsSafeSegment_bytes. unfold no_byte. eapply string_forall_impl, Hs.
  intros c. cbn beta. destruct (Ascii.eqb ":" c) eqn:E; [|done]. apply Ascii.eqb_eq in E; subst c. done.
Qed.

Lemma validateTableParams_Val cfg st r d s t :
  validateTableParams cfg st r = Val (d, s, t) →
  (SingleDB cfg = true → GetDatabase st = d)
  ∧ d = VarsGet r "database" ∧ s = VarsGet r "schema" ∧ t = VarsGet r "table"
  ∧ IsSafeSegment d = true ∧ IsSafeSegment s = true ∧ IsSafeSegment t = true.
Proof.
  unfold validateTableParams. destruct (SingleDB cfg && _) eqn:Es; [done|].
  destruct (IsSafeSegment (VarsGet r "database")) eqn:?; [|done].
  destruct (IsSafeSegment (VarsGet r "schema")) eqn:?; [|done].
  destruct (IsSafeSegment (VarsGet r "table")) eqn:?; [|done].
  intros [= <- <- <-]. repeat split; try done.
  intros Hs. rw Hs in Es. cbn in Es. apply negb_false_iff, String.eqb_eq in Es. done.
Qed.

Lemma validateTableParams_total cfg st r :
  (∃ p, validateTableParams cfg st r = Val p) ∨ (∃ e, validateTableParams cfg st r = Err e).
Proof. unfold validateTableParams. repeat case_match; eauto. Qed.
End paths.

(** The handlers of a route on one table. *)
Inductive table_call :=
| TSelect | TInsert (body : gores (gmap string iface)) | TBatch (body : gores (list (gmap string iface)))
| TDelete | TUpdate (body : gores (gmap string iface)) | TShow | TTables.

Definition run_table {D} `{Backend D} `{UnicodeTables} `{MapRange} (cfg : Prest) (r : Request)
    (c : table_call) : M D Reply :=
  match c with
  | TSelect => SelectFromTables cfg r
  | TInsert b => InsertInTables cfg r b
  | TBatch b => BatchInsertInTables cfg r b
  | TDelete => DeleteFromTable cfg r
  | TUpdate b => UpdateTable cfg r b
  | TShow => ShowTable_handler cfg r
  | TTables => GetTablesByDatabaseAndSchema cfg r
  end.

Section rejections.
Context {D : Type} `{Backend D} `{UnicodeTables} `{MapRange}.

Lemma rejected_path cfg r c (w : World D) e :
  validateTableParams cfg (w_conn w) r = Err e → run_table cfg r c w = (w, Val (bad_request e)).
Proof.
  intros Hv. destruct c; cbn [run_table]; unfold SelectFromTables, InsertInTables, BatchInsertInTables,
    DeleteFromTable, UpdateTable, ShowTable_handler, GetTablesByDatabaseAndSchema, conn_state;
    cbv [mbind M_bind]; by rw Hv.
Qed.

(** A request whose database, schema or table is not a safe segment, or
    whose database is not the current one in single-database mode, is answered
    with 400 by every table endpoint before anything reaches the database or
    the connection pool. *)
Theorem unsafe_path_rejected cfg r c (w : World D) :
  IsSafeSegment (VarsGet r "database") = false ∨ IsSafeSegment (VarsGet r "schema") = false
  ∨ IsSafeSegment (VarsGet r "table") = false
  ∨ (SingleDB cfg = true ∧ currDatabase (w_conn w) ≠ VarsGet r "database") →
  ∃ e, run_table cfg r c w = (w, Val (bad_request e)).
Proof.
  intros Hbad. destruct (validateTableParams_total cfg (w_conn w) r) as [[[[d s] t] Hv]|[e He]];
    [|exists e; by apply rejected_path].
  apply validateTableParams_Val in Hv as (Hs & -> & -> & -> & Hd & Hsc & Ht).
  destruct Hbad as [E|[E|[E|[Hs' E]]]]; [congruence..|]. by destruct E; apply Hs.
Qed.

(** Listing the tables of a schema never works: the route has no table, and
    the shared check of the path refuses the empty one, so every request is
    answered with 400. *)
Theorem schema_listing_always_rejected cfg r (w : World D) :
  Vars r !! "table" = None → ∃ e, GetTablesByDatabaseAndSchema cfg r w = (w, Val (bad_request e)).
Proof.
  intros Ht. destruct (validateTableParams_total cfg (w_conn w) r) as [[[[d s] t] Hv]|[e He]].
  - apply validateTableParams_Val in Hv as (_ & _ & _ & -> & _ & _ & Hs).
    unfold VarsGet in Hs. by rw Ht in Hs.
  - exists e. by apply (rejected_path cfg r TTables).
Qed.
End rejections.

(** ** Statements, read back *)

(** A table path, in SQL text and as tokens. *)
Definition path_text (a b c : string) : string :=
  (dq +:+ a +:+ dq) +:+ "." +:+ (dq +:+ b +:+ dq) +:+ "." +:+ (dq +:+ c +:+ dq).
Definition path_tokens (a b c : string) : list token :=
  [TIdent a; TCh "."; TIdent b; TCh "."; TIdent c].

Lemma lex_path a b c :
  no_byte dqc a = true → no_byte dqc b = true → no_byte dqc c = true →
  lex (path_text a b c) = Some (path_tokens a b c).
Proof.
  intros Ha Hb Hc. unfold path_text.
  apply (lex_app _ _ [TIdent a] [TCh "."; TIdent b; TCh "."; TIdent c]%char); [by apply lex_plain_id | | done].
  apply (lex_plain_app "." _ [TIdent b; TCh "."; TIdent c]%char); [done|].
  apply (lex_app _ _ [TIdent b] [TCh "."; TIdent c]%char); [by apply lex_plain_id | | done].
  apply (lex_plain_app "." _ [TIdent c]); [done|]. by apply lex_plain_id.
Qed.

Lemma path_sealed a b c : sealed (path_tokens a b c) ∧ placeholders (path_tokens a b c) = [].
Proof. done. Qed.

(** A quoted text followed by more text that starts a token of its own. *)
Lemma lex_then base tb sep rest ts :
  lex base = Some tb → plain sep = true → starts_sep sep = true → sep ≠ "" → lex rest = Some ts →
  lex (base +:+ sep +:+ rest) = Some (tb ++ chars sep ++ ts).
Proof.
  intros Hb Hp Hs Hn Hr. apply lex_app; [done | by apply lex_plain_app |].
  by destruct sep as [|c sep].
Qed.

Section statements.
Context `{UnicodeTables} `{MapRange}.

(** What follows the table in a statement: nothing when there is no condition
    and no value, or WHERE and a conjunction of predicates whose parameters are
    the numbers from [n] on, one for each value. *)
Definition where_part (n : N) (wh : list token) (vals : list iface) : Prop :=
  (wh = [] ∧ vals = []) ∨
  ∃ cs, wh = chars " WHERE " ++ sep_tokens " AND " cs ∧ Forall (conjunct n) cs ∧ sealed wh
        ∧ placeholders wh ≡ₚ ids n (length vals).

(** The RETURNING list: no parameter, comment or separator in it. *)
Definition returning_part (ret : list token) : Prop :=
  sealed ret ∧ placeholders ret = [] ∧ (ret = [] ∨ ∃ ts, ret = chars " RETURNING " ++ ts).

Definition where_text (where_ : string) (base : string) : string :=
  if String.eqb where_ "" then base else base +:+ " WHERE " +:+ where_.

Lemma where_text_lex cfg r n w vals base tb :
  columns_valid cfg → (0 ≤ n)%Z → WhereByRequest cfg r n = Val (w, vals) → lex base = Some tb →
  ∃ wh, lex (where_text w base) = Some (tb ++ wh) ∧ where_part (Z.to_N n) wh vals.
Proof.
  intros Hv Hn Hw Hb. rw WhereByRequest_parse // in Hw. inv_bind.
  assert (Forall parsed_ok (tenant_parsed cfg r ++ a)) as Hok.
  { apply Forall_app; split; [by apply tenant_parsed_ok|by eapply parse_items_ok]. }
  set (ps := tenant_parsed cfg r ++ a) in *.
  pose proof (clause_lex n ps Hn Hok) as Hl. pose proof (clause_placeholders (Z.to_N n) ps Hok) as Hp.
  pose proof (clause_sealed (Z.to_N n) ps Hok) as Hs. unfold where_text.
  destruct (String.eqb_spec (clause_text n ps) "") as [E|Hne].
  - exists []. rw app_nil_r. split; [done|]. left. split; [done|]. rw E in Hl.
    injection Hl as Hl. rw -Hl in Hp. apply Permutation_nil in Hp. by destruct (values_of ps).
  - exists (chars " WHERE " ++ clause_tokens (Z.to_N n) ps). split; [by apply lex_then|].
    right. eexists. split; [reflexivity|]. split; [by apply clause_conjuncts|].
    split; [apply sealed_app; [by apply sealed_chars | done]|].
    by rw placeholders_app placeholders_chars.
Qed.

(** An empty condition binds no value. *)
Lemma WhereByRequest_empty cfg r n vals :
  columns_valid cfg → (0 ≤ n)%Z → WhereByRequest cfg r n = Val ("", vals) → vals = [].
Proof.
  intros Hv Hn Hw. destruct (where_text_lex cfg r n "" vals "" [] Hv Hn Hw eq_refl) as (wh & Hl & Hwp).
  injection Hl as Hl. subst wh. by destruct Hwp as [[_ ?]|(cs & ? & _)].
Qed.

Lemma with_returning_lex r ret base tb :
  ReturningByRequest r = Val ret → lex base = Some tb →
  ∃ rt, lex (with_returning ret base) = Some (tb ++ rt) ∧ returning_part rt.
Proof.
  intros (ts & Hl & Hs & Hp)%ReturningByRequest_clean Hb. unfold with_returning, returning_part.
  destruct (String.eqb_spec ret "") as [->|Hne].
  - exists []. rw app_nil_r. split; [done|]. split; [apply sealed_nil | split; [done | by left]].
  - exists (chars " RETURNING " ++ ts). split; [by apply lex_then|].
    split; [apply sealed_app; [by apply sealed_chars|done]|]. rw placeholders_app placeholders_chars Hp. eauto.
Qed.

Lemma DeleteSQL_lex cfg st d s t :
  no_byte dqc (ResolveDBName cfg st d) = true → no_byte dqc s = true → no_byte dqc t = true →
  lex (DeleteSQL cfg st d s t) = Some (chars "DELETE FROM " ++ path_tokens (ResolveDBName cfg st d) s t).
Proof.
  intros Hd Hs Ht. rw (_ : DeleteSQL cfg st d s t = "DELETE FROM " +:+ path_text (ResolveDBName cfg st d) s t).
  { unfold DeleteSQL, DeleteQuery, path_text. cbn. by rw !sapp_assoc. }
  apply lex_plain_app; [done|]. by apply lex_path.
Qed.

Lemma set_tokens_facts n kvs :
  sealed (sep_tokens ", " (set_tokens n kvs))
  ∧ placeholders (sep_tokens ", " (set_tokens n kvs)) = ids n (length kvs).
Proof.
  split.
  - apply sep_tokens_sealed; [done|]. revert n; induction kvs as [|kv kvs IH]; intros n; constructor; [|apply IH].
    apply sealed_app; [apply sealed_dotted | done].
  - rw placeholders_sep. revert n; induction kvs as [|kv kvs IH]; intros n; [done|].
    cbn [set_tokens mbind list_bind ids length]. rw placeholders_app placeholders_dotted. cbn. by rw IH.
Qed.

Lemma SetByRequest_lex body s vals :
  SetByRequest body 1 = Val (s, vals) →
  ∃ kvs, lex s = Some (sep_tokens ", " (set_tokens 1 kvs)) ∧ length vals = length kvs.
Proof.
  unfold SetByRequest. rw bind_Val; intros (m & _ & Hs). case_decide; [done|].
  rw set_fields_spec in Hs. destruct (forallb valid_key (map_range m)) eqn:E; cbn in Hs; [|done].
  injection Hs as <- <-. exists (map_range m). split; [|by rw length_fmap].
  apply lex_Join; [done..|]. by apply (set_texts_lex 1).
Qed.

Lemma UpdateSQL_lex cfg st d s t set ts :
  no_byte dqc (ResolveDBName cfg st d) = true → no_byte dqc s = true → no_byte dqc t = true →
  lex set = Some ts →
  lex (UpdateSQL cfg st d s t set) =
  Some ((chars "UPDATE " ++ path_tokens (ResolveDBName cfg st d) s t) ++ chars " SET " ++ ts).
Proof.
  intros Hd Hs Ht Hset.
  rw (_ : UpdateSQL cfg st d s t set
          = ("UPDATE " +:+ path_text (ResolveDBName cfg st d) s t) +:+ " SET " +:+ set).
  { unfold UpdateSQL, UpdateQuery, path_text. cbn. by do 4 (rw ?sapp_assoc; cbn). }
  apply lex_then; [|done..]. apply lex_plain_app; [done|]. by apply lex_path.
Qed.

Lemma where_part_placeholders n wh vals : where_part n wh vals → placeholders wh ≡ₚ ids n (length vals).
Proof. by intros [[-> ->]|(cs & _ & _ & _ & Hp)]. Qed.

(** A delete reads back as one statement on the table of the path: DELETE
    FROM the quoted database, schema and table, then at most a WHERE with a
    conjunction of well-formed predicates and at most a RETURNING list, with
    one positional parameter for each value and nothing else. *)
Theorem delete_reads_back cfg st r d s t sql vals :
  columns_valid cfg → no_byte dqc (ResolveDBName cfg st d) = true →
  validateTableParams cfg st r = Val (d, s, t) → delete_statement cfg st r d s t = Val (sql, vals) →
  ∃ wh rt, lex sql = Some ((chars "DELETE FROM " ++ path_tokens (ResolveDBName cfg st d) s t) ++ wh ++ rt)
    ∧ where_part 1 wh vals ∧ returning_part rt
    ∧ placeholders (wh ++ rt) ≡ₚ ids 1 (length vals).
Proof.
  intros Hv Hd (_ & _ & _ & _ & _ & Hs & Ht)%validateTableParams_Val Hsql.
  unfold delete_statement, prefixed in Hsql.
  destruct (WhereByRequest cfg r 1) as [[w vs]|e|p] eqn:Hw; [|done..]. cbn [mbind gores_bind] in Hsql.
  destruct (ReturningByRequest r) as [ret|e|p] eqn:Hret; [|done..]. cbn [mbind gores_bind] in Hsql.
  injection Hsql as Hsql Hvs. subst vs. fold (where_text w (DeleteSQL cfg st d s t)) in Hsql. subst sql.
  destruct (where_text_lex cfg r 1 w vals (DeleteSQL cfg st d s t) _ Hv (Z.le_0_1) Hw
    (DeleteSQL_lex cfg st d s t Hd (IsSafeSegment_no_quote s Hs) (IsSafeSegment_no_quote t Ht)))
    as (wh & Hl & Hwp).
  destruct (with_returning_lex r ret _ _ Hret Hl) as (rt & Hl' & Hrp).
  exists wh, rt. rw -app_assoc in Hl'. split; [done|]. split; [done|]. split; [done|].
  destruct Hrp as (_ & Hrp & _). rw placeholders_app Hrp app_nil_r. by apply where_part_placeholders.
Qed.

(** C22: An update reads back as one statement on the table of the path: the SET
    list binds the first parameters, one for each column of the body, the
    condition the ones that follow, and the parameters of the whole statement
    are exactly the numbers of its values. *)
Theorem update_reads_back cfg st r body d s t sql vals :
  columns_valid cfg → no_byte dqc (ResolveDBName cfg st d) = true →
  validateTableParams cfg st r = Val (d, s, t) → update_statement cfg st r body d s t = Val (sql, vals) →
  ∃ kvs wh rt wvals, length vals = length kvs + length wvals ∧ drop (length kvs) vals = wvals
    ∧ lex sql = Some (((chars "UPDATE " ++ path_tokens (ResolveDBName cfg st d) s t)
                       ++ chars " SET " ++ sep_tokens ", " (set_tokens 1 kvs)) ++ wh ++ rt)
    ∧ where_part (1 + N.of_nat (length kvs)) wh wvals ∧ returning_part rt
    ∧ placeholders (sep_tokens ", " (set_tokens 1 kvs) ++ wh ++ rt) ≡ₚ ids 1 (length vals).
Proof.
  intros Hv Hd (_ & _ & _ & _ & _ & Hs & Ht)%validateTableParams_Val Hsql.
  unfold update_statement, prefixed in Hsql.
  destruct (SetByRequest body 1) as [[set svals]|e|p] eqn:Hset; [|done..]. cbn [mbind gores_bind] in Hsql.
  destruct (WhereByRequest cfg r _) as [[w wvals]|e|p] eqn:Hw; [|done..]. cbn [mbind gores_bind] in Hsql.
  destruct (ReturningByRequest r) as [ret|e|p] eqn:Hret; [|done..]. cbn [mbind gores_bind] in Hsql.
  injection Hsql as Hsql Hvs. fold (where_text w (UpdateSQL cfg st d s t set)) in Hsql. subst sql.
  destruct (SetByRequest_lex body set svals Hset) as (kvs & Hl & Hlen).
  destruct (where_text_lex cfg r (Z.of_nat (length svals) + 1) w wvals (UpdateSQL cfg st d s t set) _ Hv ltac:(lia) Hw
    (UpdateSQL_lex cfg st d s t set _ Hd (IsSafeSegment_no_quote s Hs) (IsSafeSegment_no_quote t Ht) Hl))
    as (wh & Hl1 & Hwp).
  destruct (with_returning_lex r ret _ _ Hret Hl1) as (rt & Hl2 & Hrp).
  assert (vals = svals ++ wvals) as ->.
  { subst vals. destruct (String.eqb_spec w "") as [->|Hne]; [|done].
    by rw (WhereByRequest_empty _ _ _ _ Hv _ Hw) ?app_nil_r; [lia|]. }
  rw (_ : Z.to_N (Z.of_nat (length svals) + 1) = (1 + N.of_nat (length kvs))%N) in Hwp; [lia|].
  exists kvs, wh, rt, wvals. rw -app_assoc in Hl2. rw length_app Hlen. split; [done|]. split; [by rw -Hlen drop_app_length|].
  split; [done|]. split; [done|]. split; [done|].
  destruct (set_tokens_facts 1 kvs) as [_ Hps]. destruct Hrp as (_ & Hrp & _).
  rw !placeholders_app Hps Hrp app_nil_r ids_app. apply Permutation_app_head.
  by apply where_part_placeholders.
Qed.

(** ** The tenant filter on statements *)

(** The filter a request is subject to on its table, as the value it binds and
    the predicates, numbered from [n]: the active tenant, or in personal mode
    the user without a tenant, on a table with a tenant-compat rule; the user
    on a table with a user-id rule. *)
Definition tenant_guard (cfg : Prest) (r : Request) (n : N) : option (iface * list (list token)) :=
  let uid := UserIDFromContext r in
  let ws := TenantIDActiveFromContext r in
  let column c := CPath (Split c ".") in
  match ResolveTenantCompat cfg r with
  | Some f =>
      if String.eqb ws "" then
        if String.eqb uid "" then None
        else Some (IStr uid, [pred_tokens n (PCmp (column (tc_UserColumn f)) "=");
                              pred_tokens n (PTest (column (tc_TenantColumn f)) "IS NULL")])
      else Some (IStr ws, [pred_tokens n (PCmp (column (tc_TenantColumn f)) "=")])
  | None =>
      if String.eqb uid "" || String.eqb (ResolveUserIDColumn cfg r) "" then None
      else Some (IStr uid, [pred_tokens n (PCmp (column (ResolveUserIDColumn cfg r)) "=")])
  end.

Lemma guarded_where cfg r n w vals who fs :
  columns_valid cfg → (0 ≤ n)%Z → tenant_guard cfg r (Z.to_N n) = Some (who, fs) →
  WhereByRequest cfg r n = Val (w, vals) →
  ∃ cs vs, vals = who :: vs ∧ lex w = Some (sep_tokens " AND " (fs ++ cs))
    ∧ Forall (conjunct (Z.to_N n + 1)) cs.
Proof.
  intros Hv Hn Hg Hw. pose proof (WhereByRequest_tenant _ _ _ _ _ Hv Hn Hw) as Ht.
  cbn zeta in Ht. unfold tenant_parsed in Ht. unfold tenant_guard in Hg.
  destruct (ResolveTenantCompat cfg r) as [f|].
  - destruct (String.eqb (TenantIDActiveFromContext r) ""); [destruct (String.eqb (UserIDFromContext r) "")|];
      [done | |]; injection Hg as <- <-; exact Ht.
  - destruct (String.eqb (UserIDFromContext r) "" || String.eqb (ResolveUserIDColumn cfg r) ""); [done|].
    injection Hg as <- <-; exact Ht.
Qed.

(** A statement whose condition starts with the guard [fs]: every other
    conjunct only uses parameters from [n] on, and after the condition nothing
    but a RETURNING list follows. *)
Definition guarded (n : N) (fs : list (list token)) (sql : string) : Prop :=
  ∃ front cs rt, lex sql = Some (front ++ chars " WHERE " ++ sep_tokens " AND " (fs ++ cs) ++ rt)
    ∧ Forall (conjunct n) cs ∧ returning_part rt.

Lemma guarded_statement cfg r n w vals who fs base tb ret :
  columns_valid cfg → (0 ≤ n)%Z → tenant_guard cfg r (Z.to_N n) = Some (who, fs) →
  WhereByRequest cfg r n = Val (w, vals) → lex base = Some tb → ReturningByRequest r = Val ret →
  guarded (Z.to_N n + 1) fs (with_returning ret (where_text w base)) ∧ (∃ vs, vals = who :: vs) ∧ w ≠ "".
Proof.
  intros Hv Hn Hg Hw Hb Hret. destruct (guarded_where _ _ _ _ _ _ _ Hv Hn Hg Hw) as (cs & vs & -> & Hl & Hcs).
  assert (w ≠ "") as Hne by (intros ->; by apply WhereByRequest_empty in Hw).
  split; [|split; [by eexists|done]].
  assert (lex (where_text w base) = Some (tb ++ chars " WHERE " ++ sep_tokens " AND " (fs ++ cs))) as Hl1.
  { unfold where_text. rw (proj2 (String.eqb_neq _ _) Hne). by apply lex_then. }
  destruct (with_returning_lex r ret _ _ Hret Hl1) as (rt & Hl2 & Hrp).
  exists tb, cs, rt. rw -!app_assoc in Hl2. done.
Qed.

(** C1: Tenant isolation of writes, whole statements: on a table with an
    ownership rule, every delete and every update of a request with an identity
    carries the guard as the first conjuncts of its WHERE, bound to that
    identity, with nothing but further conjuncts on later parameters and a
    RETURNING list behind it: no parameter of the request can drop, weaken or
    rebind it.  The columns of the configured rules are identifiers
    ([columns_valid]) and the name the pool gives for the database of the path
    holds no double quote. *)
Theorem writes_carry_tenant_filter cfg st r body d s t who fs sql vals :
  columns_valid cfg → no_byte dqc (ResolveDBName cfg st d) = true →
  validateTableParams cfg st r = Val (d, s, t) →
  (tenant_guard cfg r 1 = Some (who, fs) → delete_statement cfg st r d s t = Val (sql, vals) →
     guarded 2 fs sql ∧ ∃ vs, vals = who :: vs)
  ∧ (∀ set svals, SetByRequest body 1 = Val (set, svals) →
     tenant_guard cfg r (1 + N.of_nat (length svals)) = Some (who, fs) →
     update_statement cfg st r body d s t = Val (sql, vals) →
     guarded (2 + N.of_nat (length svals)) fs sql ∧ ∃ vs, vals = svals ++ who :: vs).
Proof.
  intros Hv Hd (_ & _ & _ & _ & _ & Hs & Ht)%validateTableParams_Val.
  apply IsSafeSegment_no_quote in Hs, Ht. split.
  - intros Hg Hsql. unfold delete_statement, prefixed in Hsql.
    destruct (WhereByRequest cfg r 1) as [[w vs]|e|p] eqn:Hw; [|done..]. cbn [mbind gores_bind] in Hsql.
    destruct (ReturningByRequest r) as [ret|e|p] eqn:Hret; [|done..]. cbn [mbind gores_bind] in Hsql.
    injection Hsql as <- <-.
    by destruct (guarded_statement cfg r 1 w vs who fs _ _ ret Hv Z.le_0_1 Hg Hw
      (DeleteSQL_lex cfg st d s t Hd Hs Ht) Hret) as (? & ? & _).
  - intros set svals Hset Hg Hsql. unfold update_statement, prefixed in Hsql. rw Hset in Hsql.
    cbn [mbind gores_bind] in Hsql.
    destruct (WhereByRequest cfg r _) as [[w wvals]|e|p] eqn:Hw; [|done..]. cbn [mbind gores_bind] in Hsql.
    destruct (ReturningByRequest r) as [ret|e|p] eqn:Hret; [|done..]. cbn [mbind gores_bind] in Hsql.
    injection Hsql as <- <-. destruct (SetByRequest_lex body set svals Hset) as (kvs & Hl & Hlen).
    assert (Z.to_N (Z.of_nat (length svals) + 1) = (1 + N.of_nat (length svals))%N) as En by lia.
    rw -En in Hg.
    destruct (guarded_statement cfg r (Z.of_nat (length svals) + 1) w wvals who fs _ _ ret Hv ltac:(lia) Hg Hw
      (UpdateSQL_lex cfg st d s t set _ Hd Hs Ht Hl) Hret) as (Hgd & [vs ->] & Hne).
    rw (_ : Z.to_N (Z.of_nat (length svals) + 1) + 1 = 2 + N.of_nat (length svals))%N in Hgd; [lia|].
    split; [exact Hgd|]. exists vs. by rw (proj2 (String.eqb_neq _ _) Hne).
Qed.

(** ** Reads *)

Lemma digits_dashes s : string_forall is_digit_byte s = true → dashes_ok s = true.
Proof.
  induction s as [|c s IH]; [done|]. cbn. rw !andb_true_iff; intros [Hc Hs]. split; [|by apply IH].
  destruct (Ascii.eqb_spec c "-") as [->|]; [by destruct Hc as [Hc _]; vm_compute in Hc|done].
Qed.

Lemma clean_Itoa z : clean (Itoa z).
Proof.
  unfold Itoa. destruct (ntoa_spec (Z.to_N z)) as (_ & Hd & _). destruct (ntoa_spec (Z.to_N (- z))) as (_ & Hd' & _).
  destruct (z <? 0)%Z.
  - exists (chars ("-" +:+ ntoa (Z.to_N (- z)))). split; [|split; [|apply placeholders_chars]].
    + apply lex_plain. cbn. eapply string_forall_impl, Hd'. intros c. ascii_cases c.
    + apply sealed_dashes.
      * cbn. eapply string_forall_impl, Hd'. intros c. ascii_cases c.
      * cbn [String.append dashes_ok]. rw Ascii.eqb_refl digits_dashes // andb_true_r. destruct (ntoa_cons (Z.to_N (- z))) as (c & s & E & Hc).
        rw E. destruct (Ascii.eqb_spec c "-") as [->|]; [by vm_compute in Hc|done].
  - apply clean_template. eapply string_forall_impl, Hd. intros c. ascii_cases c.
Qed.

Lemma LimitOffset_clean a b w : LimitOffset a b = Val w → clean w.
Proof.
  unfold LimitOffset. rw bind_Val; intros (n & _ & Hw). apply bind_Val in Hw as (m & _ & <-%Val_inj).
  set (k := if (_ <? 0)%Z then _ else _).
  rw (_ : "LIMIT " +:+ Itoa m +:+ " OFFSET(" +:+ Itoa k +:+ " - 1) * " +:+ Itoa m
          = "LIMIT " +:+ Itoa m +:+ " OFFSET" +:+ ("(" +:+ (Itoa k +:+ " - 1") +:+ ")") +:+ " * " +:+ Itoa m).
  { cbn. by do 3 (rw ?sapp_assoc; cbn). }
  apply clean_template_app; [done|]. apply clean_app; [apply clean_Itoa | | done].
  apply (clean_template_app " OFFSET"); [done|]. apply clean_app.
  - apply clean_paren. apply clean_app; [apply clean_Itoa | | done]. exists (chars " - 1"). by vm_compute.
  - apply (clean_template_app " * "); [done|]. apply clean_Itoa.
  - done.
Qed.

Lemma PaginateIfPossible_clean r w : PaginateIfPossible r = Val w → clean w.
Proof.
  unfold PaginateIfPossible. destruct (Http.Query r !! pageNumberKey) as [ns|]; [|by intros [= <-]; apply clean_template].
  rw bind_Val; intros (n & _ & Hw). apply bind_Val in Hw as (m & _ & Hw). apply bind_Val in Hw as (k & _ & Hw).
  by eapply LimitOffset_clean.
Qed.

Lemma clean_after_SELECT x : clean ("SELECT" +:+ x) → clean x.
Proof.
  intros (ts & Hl & Hs & Hp). unfold lex in Hl. rw lex_run_app in Hl. cbn [lex_run] in Hl. cbn in Hl.
  destruct (lex_run LOut x) as [[t st]|] eqn:E; [|done]. cbn in Hl.
  destruct (lex_end st) as [te|] eqn:Ee; [|done]. injection Hl as <-. destruct Hs as [Hd Hh].
  exists (t ++ te). split; [unfold lex; by rw E; cbn; rw Ee|]. split; [by split|]. exact Hp.
Qed.

Lemma SelectFields_prefix fields w : SelectFields fields = Val w → ∃ x, w = "SELECT" +:+ " " +:+ x.
Proof.
  unfold SelectFields. destruct fields as [|f fs]; [done|]. rw bind_Val; intros (aux & _ & <-%Val_inj).
  eexists. reflexivity.
Qed.

Lemma DistinctClause_cases r w : DistinctClause r = Val w → w = "" ∨ w = "SELECT DISTINCT".
Proof. unfold DistinctClause. destruct (String.eqb _ _); intros <-%Val_inj; auto. Qed.

Lemma clean_SelectSQL cfg st sel d s t :
  clean sel → no_byte dqc (ResolveDBName cfg st d) = true → no_byte dqc s = true → no_byte dqc t = true →
  clean (SelectSQL cfg st sel d s t).
Proof.
  intros Hsel Hd Hs Ht.
  rw (_ : SelectSQL cfg st sel d s t = sel +:+ " " +:+ path_text (ResolveDBName cfg st d) s t).
  { unfold SelectSQL, path_text. cbn. by do 3 (rw ?sapp_assoc; cbn). }
  apply clean_app; [done | | done]. apply clean_template_app; [done|].
  eexists. split; [by apply lex_path|]. by apply path_sealed.
Qed.

Lemma put_distinct_clean r distinct x :
  DistinctClause r = Val distinct → clean ("SELECT" +:+ x) → clean (put_distinct distinct ("SELECT" +:+ x)).
Proof.
  intros [->| ->]%DistinctClause_cases Hx; [done|]. unfold put_distinct.
  assert (ReplaceFirst ("SELECT" +:+ x) "SELECT" "SELECT DISTINCT" = "SELECT DISTINCT" +:+ x) as E
    by by destruct x. rw E. cbn [String.eqb].
  apply clean_template_app; [done|]. by apply clean_after_SELECT.
Qed.

Lemma JoinByRequest_sep r ws : JoinByRequest r = Val ws → Forall (λ w, starts_sep w = true) ws.
Proof.
  unfold JoinByRequest. repeat (case_match; try done); try (by intros [= <-]; constructor).
  all: rw bind_Val; intros (op & _ & Hw); repeat (case_match; try done); try (apply Val_inj in Hw as <-); by repeat constructor.
Qed.

Lemma joins_clean query ws :
  clean query → Forall clean ws → Forall (λ w, starts_sep w = true) ws → clean (foldl String.append query ws).
Proof.
  intros Hq Hc. revert query Hq; induction Hc as [|w ws Hw _ IH]; intros query Hq Hs; [done|].
  inversion Hs; subst. apply IH; [by apply clean_app | done].
Qed.

(** The tail of a select behind its condition. *)
Definition select_tail (groupBySQL order page : string) : string :=
  (if String.eqb groupBySQL "" then "" else " " +:+ groupBySQL)
  +:+ (if String.eqb order "" then "" else " " +:+ order) +:+ " " +:+ page.

Lemma select_tail_clean g o p : clean g → clean o → clean p → clean (select_tail g o p).
Proof.
  intros Hg Ho Hp. unfold select_tail.
  assert (clean (" " +:+ p)) as Hp' by by apply clean_template_app.
  assert (clean ((if String.eqb o "" then "" else " " +:+ o) +:+ " " +:+ p)) as Ho'.
  { destruct (String.eqb o ""); [done|]. apply clean_app; [by apply clean_template_app|done|done]. }
  destruct (String.eqb g ""); [done|]. apply clean_app; [by apply clean_template_app|done|].
  by destruct (String.eqb o "").
Qed.

(** The parts of a select, in the order of its text. *)
Lemma select_statement_parts cfg st r d s t sql vals cf :
  select_statement cfg st r d s t = Val (sql, vals, cf) →
  ∃ cols sel distinct count joins w g o p,
    FieldsPermissions cfg r t "read" "" = Val cols ∧ SelectFields cols = Val sel
    ∧ DistinctClause r = Val distinct ∧ CountByRequest r = Val count ∧ JoinByRequest r = Val joins
    ∧ WhereByRequest cfg r 1 = Val (w, vals) ∧ GroupByClause r = Val g ∧ OrderByRequest r = Val o
    ∧ PaginateIfPossible r = Val p
    ∧ sql = where_text w (foldl String.append
              (if String.eqb count "" then put_distinct distinct (SelectSQL cfg st sel d s t)
               else SelectSQL cfg st count d s t) joins) +:+ select_tail g o p.
Proof.
  unfold select_statement, prefixed. intros Hsql.
  destruct (FieldsPermissions cfg r t "read" "") as [cols|e|x]; [|done..]. cbn [mbind gores_bind] in Hsql.
  destruct (Nat.eqb (length cols) 0); [done|].
  destruct (SelectFields cols) as [sel|e|x] eqn:?; [|done..]. cbn [mbind gores_bind] in Hsql.
  destruct (DistinctClause r) as [distinct|e|x]; [|done..]. cbn [mbind gores_bind] in Hsql.
  destruct (CountByRequest r) as [count|e|x]; [|done..]. cbn [mbind gores_bind] in Hsql.
  destruct (JoinByRequest r) as [joins|e|x]; [|done..]. cbn [mbind gores_bind] in Hsql.
  destruct (WhereByRequest cfg r 1) as [[w vs]|e|x]; [|done..]. cbn [mbind gores_bind] in Hsql.
  destruct (GroupByClause r) as [g|e|x]; [|done..]. cbn [mbind gores_bind] in Hsql.
  destruct (OrderByRequest r) as [o|e|x]; [|done..]. cbn [mbind gores_bind] in Hsql.
  destruct (PaginateIfPossible r) as [p|e|x]; [|done..]. cbn [mbind gores_bind] in Hsql.
  injection Hsql as <- <- _. exists cols, sel, distinct, count, joins, w, g, o, p.
  repeat (split; [done|]). unfold where_text, select_tail.
  destruct (String.eqb count ""), (String.eqb w ""), (String.eqb g ""), (String.eqb o ""); cbn [negb];
    by rw ?sapp_assoc.
Qed.

Lemma select_front_clean cfg st r d s t cols sel distinct count joins :
  no_byte dqc (ResolveDBName cfg st d) = true → no_byte dqc s = true → no_byte dqc t = true →
  SelectFields cols = Val sel → DistinctClause r = Val distinct → CountByRequest r = Val count →
  JoinByRequest r = Val joins → clean sel → clean count →
  clean (foldl String.append
    (if String.eqb count "" then put_distinct distinct (SelectSQL cfg st sel d s t)
     else SelectSQL cfg st count d s t) joins).
Proof.
  intros Hd Hs Ht Hsel Hdist Hcount Hjoin Csel Ccount.
  apply joins_clean; [|by eapply JoinByRequest_clean|by eapply JoinByRequest_sep].
  destruct (String.eqb count ""); [|by apply clean_SelectSQL].
  pose proof (clean_SelectSQL cfg st sel d s t Csel Hd Hs Ht) as Hc.
  destruct (SelectFields_prefix _ _ Hsel) as [x ->].
  assert (∃ y, SelectSQL cfg st ("SELECT" +:+ " " +:+ x) d s t = "SELECT" +:+ y) as [y Hy].
  { unfold SelectSQL. eexists. cbn. reflexivity. }
  rw Hy in Hc |- *. by eapply put_distinct_clean.
Qed.

(** C2: Tenant isolation of reads, whole statements: when the field list and the
    count of a select are clean SQL, the select of a request with an identity
    on a table with an ownership rule reads as a front without parameters,
    WHERE, the guard bound to that identity, further conjuncts on later
    parameters, and a tail without parameters; front and tail are sealed, so
    nothing before or after can change how the condition is read.  The columns of
    the configured rules are identifiers ([columns_valid]) and the name the pool
    gives for the database of the path holds no double quote. *)
Theorem reads_carry_tenant_filter cfg st r d s t who fs sql vals cf :
  columns_valid cfg → no_byte dqc (ResolveDBName cfg st d) = true →
  validateTableParams cfg st r = Val (d, s, t) →
  (∀ cols sel, FieldsPermissions cfg r t "read" "" = Val cols → SelectFields cols = Val sel → clean sel) →
  (∀ count, CountByRequest r = Val count → clean count) →
  tenant_guard cfg r 1 = Some (who, fs) → select_statement cfg st r d s t = Val (sql, vals, cf) →
  ∃ front cs tail vs, vals = who :: vs ∧ Forall (conjunct 2) cs
    ∧ lex sql = Some (front ++ (chars " WHERE " ++ sep_tokens " AND " (fs ++ cs)) ++ tail)
    ∧ sealed front ∧ placeholders front = [] ∧ sealed tail ∧ placeholders tail = [].
Proof.
  intros Hv Hd (_ & _ & _ & _ & _ & Hs & Ht)%validateTableParams_Val Hsel Hcount Hg Hsql.
  apply IsSafeSegment_no_quote in Hs, Ht.
  destruct (select_statement_parts _ _ _ _ _ _ _ _ _ Hsql)
    as (cols & sel & distinct & count & joins & w & g & o & p & Hf & Hsf & Hdi & Hco & Hj & Hw & Hgr & Ho & Hp & ->).
  destruct (select_front_clean cfg st r d s t cols sel distinct count joins Hd Hs Ht Hsf Hdi Hco Hj
    (Hsel _ _ Hf Hsf) (Hcount _ Hco)) as (front & Hl & Hfs & Hfp).
  destruct (guarded_where _ _ _ _ _ _ _ Hv Z.le_0_1 Hg Hw) as (cs & vs & -> & Hlw & Hcs).
  assert (w ≠ "") as Hne by (intros ->; by apply WhereByRequest_empty in Hw).
  destruct (select_tail_clean g o p (GroupByClause_clean _ _ Hgr) (OrderByRequest_clean _ _ Ho)
    (PaginateIfPossible_clean _ _ Hp)) as (tail & Htl & Hts & Htp).
  exists front, cs, tail, vs. split; [done|]. split; [done|]. split; [|done].
  rw (_ : ∀ a b c : list token, a ++ b ++ c = (a ++ b) ++ c); [intros; by rw app_assoc|].
  apply lex_app; [|done|].
  - unfold where_text. rw (proj2 (String.eqb_neq _ _) Hne). by apply lex_then.
  - unfold select_tail. by destruct (String.eqb g ""), (String.eqb o "").
Qed.
End statements.

(** A read of the notes of the active tenant that asks for this field. *)
Definition evil_field : string := requote "`body` FROM notes WHERE $1=$1) s --".
Definition notes_vars : gmap string string := <["database" := "db"]> (<["schema" := "public"]> (<["table" := "notes"]> ∅)).
Definition evil_req (ws : string) : Request :=
  MkRequest "GET" "/db/public/notes" "/db/public/notes" {[ "_select" := [evil_field] ]} ∅
    (with_TenantIDActive ws empty_context) notes_vars.

Definition evil_sql : string :=
  requote ("SELECT `body` FROM notes WHERE $1=$1) s -- FROM `db`.`public`.`notes` WHERE `tenant_id` = $1 ").
(** What the database runs: the text before the comment. *)
Definition evil_run : string :=
  requote "SELECT (s) FROM (SELECT `body` FROM notes WHERE $1=$1) s ".

(** Tenant isolation of reads fails without that condition: one field of
    [_select] with a quoted run in it ends the field list, names the table
    itself, uses up the bound tenant and comments out the rest of the line, so
    that what the database runs, up to the comment, is a well-formed query over
    every tenant's rows. *)
Theorem select_injection_defeats_tenant_filter `{UnicodeTables} c s :
  let ws := String c s in
  tenant_guard sample_cfg (evil_req ws) 1 = Some (IStr ws, [pred_tokens 1 (PCmp (CPath ["tenant_id"]) "=")])
  ∧ select_statement sample_cfg init_conn (evil_req ws) "db" "public" "notes" = Val (evil_sql, [IStr ws], false)
  ∧ aggregate sample_cfg evil_sql = evil_run +:+ "--" +:+ drop_bytes (slen evil_run + 2) (aggregate sample_cfg evil_sql)
  ∧ ∃ ts, lex evil_run = Some ts ∧ sealed ts ∧ placeholders ts = [1; 1]%N ∧ TIdent "tenant_id" ∉ ts.
Proof.
  split; [by vm_compute|]. split; [vm_compute; reflexivity|]. split; [vm_compute; reflexivity|].
  let ts := eval vm_compute in (default [] (lex evil_run)) in exists ts. split; [by vm_compute|]. split; [by vm_compute|]. split; [by vm_compute|].
  repeat (apply not_elem_of_cons; split; [done|]). apply not_elem_of_nil.
Qed.

(** ** Replies and routing *)

Lemma Contains_prefix s p q : Contains s (p +:+ q) = true → Contains s p = true.
Proof.
  unfold Contains. induction s as [|c s IH]; cbn [Index].
  - destruct (String.prefix (p +:+ q) "") eqn:E; [|done]. intros _.
    apply prefix_spec in E as [t E]. by destruct p.
  - destruct (String.prefix (p +:+ q) (String c s)) eqn:E.
    + apply prefix_spec in E as [t E]. rw E !sapp_assoc prefix_app. done.
    + destruct (Index s (p +:+ q)); [|done]. intros Hi. specialize (IH eq_refl).
      destruct (String.prefix p (String c s)); [done|]. by destruct (Index s p).
Qed.

Section replies.
Context {D : Type} `{Backend D} `{UnicodeTables} `{MapRange}.

Lemma triple_or_bad {A} (I : World D → Prop) (x : gores A) (k : A → M D Reply) (Q : Reply → Prop) :
  (∀ e, Q (bad_request e)) → (∀ a, triple I (k a) Q) → triple I (or_bad x k) Q.
Proof.
  intros Hb Hk. destruct x as [a|e|p]; cbn [or_bad]; [by apply Hk | by apply triple_ret|].
  eapply triple_weaken; [apply triple_lift|]. done.
Qed.

Lemma triple_any {A} (m : M D A) : triple (λ _, True) m (λ _, True).
Proof. by intros w _. Qed.

(** The status of success of an endpoint. *)
Definition success_status (c : table_call) : Z :=
  match c with TInsert _ | TBatch _ => StatusCreated | _ => StatusOK end.

Definition reply_ok (cfg : Prest) (r : Request) (c : table_call) (rep : Reply) : Prop :=
  Status (rp_response rep) ∈ [success_status c; StatusBadRequest; StatusNotFound]
  ∧ match rp_cached rep with
    | None => True
    | Some (key, value) => c = TSelect ∧ Method r = "GET" ∧ Status (rp_response rep) = StatusOK
        ∧ key = URL r ∧ value = RespBody (rp_response rep)
    end.

Lemma bad_request_ok cfg r c e : reply_ok cfg r c (bad_request e).
Proof. split; [|done]. apply elem_of_cons; right; apply elem_of_cons; by left. Qed.

Lemma table_response_ok cfg r c schema table nf fl res :
  triple (λ _ : World D, True) (table_response schema table nf fl (success_status c) res) (reply_ok cfg r c).
Proof.
  destruct res as [b|e|p]; cbn [table_response].
  - apply triple_ret. split; [by apply elem_of_cons; left | done].
  - destruct (missing_relation e schema table); apply triple_ret; [|apply bad_request_ok].
    split; [|done]. do 2 (apply elem_of_cons; right). apply elem_of_cons; by left.
  - eapply triple_weaken; [apply triple_lift|done].
Qed.

Lemma run_table_reply cfg r c :
  triple (λ _ : World D, True) (run_table cfg r c) (reply_ok cfg r c).
Proof.
  destruct c; cbn [run_table]; unfold SelectFromTables, InsertInTables, BatchInsertInTables, DeleteFromTable,
    UpdateTable, ShowTable_handler, GetTablesByDatabaseAndSchema;
    (eapply triple_bind; [apply triple_any|]; intros st _);
    (apply triple_or_bad; [apply bad_request_ok|]; intros [[d s] t]).
  6: { eapply triple_bind; [apply triple_any|]; intros sc _.
       destruct (sc_result sc) as [b|e|p]; cbn [or_bad]; [|by apply triple_ret, bad_request_ok|].
       - apply triple_ret. split; [by apply elem_of_cons; left|done].
       - eapply triple_weaken; [apply triple_lift|done]. }
  all: apply triple_or_bad; [apply bad_request_ok|].
  - intros [[sql vals] first]. eapply triple_bind; [apply triple_any|]; intros sc _.
    destruct (sc_result sc) as [b|e|p].
    + apply (triple_bind _ _ _ (λ rep, rep = reply (MkResponse StatusOK b))); [by apply triple_ret|].
      intros rep ->. apply triple_ret. split; [destruct (String.eqb (Method r) "GET"); by apply elem_of_cons; left|].
      by destruct (String.eqb_spec (Method r) "GET").
    + eapply triple_bind; [apply (table_response_ok cfg r TSelect)|]. intros rep Hrep. by apply triple_ret.
    + eapply triple_bind; [apply (table_response_ok cfg r TSelect)|]. intros rep Hrep. by apply triple_ret.
  - intros [sql vals]. eapply triple_bind; [apply triple_any|]; intros sc _.
    apply (table_response_ok cfg r (TInsert body)).
  - intros [[names phs] vals]. eapply triple_bind; [apply triple_any|]; intros sc _.
    apply (table_response_ok cfg r (TBatch body)).
  - intros [sql vals]. eapply triple_bind; [apply triple_any|]; intros sc _.
    apply (table_response_ok cfg r TDelete).
  - intros [sql vals]. eapply triple_bind; [apply triple_any|]; intros sc _.
    apply (table_response_ok cfg r (TUpdate body)).
  - intros [sql vals]. eapply triple_bind; [apply triple_any|]; intros sc _.
    apply triple_or_bad; [apply bad_request_ok|]. intros b. apply triple_ret.
    split; [by apply elem_of_cons; left|done].
Qed.

(** *** No handler ends in an error *)

Definition unerring {A} (m : M D A) : Prop := ∀ w e, (m w).2 ≠ Err e.

Lemma unerring_bind {A B} (m : M D A) (f : A → M D B) : unerring m → (∀ a, unerring (f a)) → unerring (m ≫= f).
Proof.
  intros Hm Hf w e. cbv [mbind M_bind]. specialize (Hm w). destruct (m w) as [w' [a|e'|p]]; cbn in *.
  - apply Hf.
  - intros _. by apply (Hm e').
  - done.
Qed.

Lemma unerring_catching (m : M D PrestScanner) : unerring (catching m).
Proof. intros w e. unfold catching. by destruct (m w) as [w' [a|e'|p]]. Qed.

Lemma unerring_or_bad {A} (x : gores A) (k : A → M D Reply) : (∀ a, unerring (k a)) → unerring (or_bad x k).
Proof. intros Hk. destruct x as [a|e|p]; [apply Hk|done..]. Qed.

Lemma unerring_response schema table nf fl st res : unerring (table_response schema table nf fl st res).
Proof. unfold table_response. destruct res as [b|e|p]; [done|by case_match|done]. Qed.

Lemma run_table_answers cfg r c : unerring (run_table cfg r c).
Proof.
  destruct c; cbn [run_table]; unfold SelectFromTables, InsertInTables, BatchInsertInTables, DeleteFromTable,
    UpdateTable, ShowTable_handler, GetTablesByDatabaseAndSchema;
    (apply unerring_bind; [done|]; intros st); apply unerring_or_bad; intros [[d s] t].
  6: { apply unerring_bind; [apply unerring_catching|]. intros sc. by destruct (sc_result sc). }
  all: apply unerring_or_bad.
  - intros [[sql vals] first]. apply unerring_bind; [destruct first; apply unerring_catching|]. intros sc.
    apply unerring_bind; [apply unerring_response|done].
  - intros [sql vals]. apply unerring_bind; [apply unerring_catching|intros sc; apply unerring_response].
  - intros [[names phs] vals].
    apply unerring_bind; [case_match; apply unerring_catching|intros sc; apply unerring_response].
  - intros [sql vals]. apply unerring_bind; [apply unerring_catching|intros sc; apply unerring_response].
  - intros [sql vals]. apply unerring_bind; [apply unerring_catching|intros sc; apply unerring_response].
  - intros [sql vals]. apply unerring_bind; [apply unerring_catching|intros sc].
    by apply unerring_or_bad.
Qed.

(** *** Panics *)

(** The body was decoded, or decoding it failed. *)
Definition decoded (c : table_call) : Prop :=
  match c with TInsert b | TUpdate b => panics_only (λ _, False) b | TBatch b => panics_only (λ _, False) b | _ => True end.

(** The text of the statement of a delete or an update. *)
Definition write_text cfg r c (sql : string) : Prop :=
  ∃ st d s t vals, c = TDelete ∧ delete_statement cfg st r d s t = Val (sql, vals)
                   ∨ ∃ body, c = TUpdate body ∧ update_statement cfg st r body d s t = Val (sql, vals).

(** Why a handler panics: the driver did; a field of a select is the bare name of
    a group function; the rows of a RETURNING statement could not be read. *)
Inductive panics_because cfg r c (p : string) : Prop :=
| because_driver : driver_panics (D := D) p → panics_because cfg r c p
| because_function cols :
    c = TSelect → FieldsPermissions cfg r (VarsGet r "table") "read" "" = Val cols → Exists bare_function cols →
    panics_because cfg r c p
| because_returning sql : write_text cfg r c sql → unread_rows sql p → panics_because cfg r c p.

Lemma run_table_panics cfg r c : parsed_query r → decoded c → mpanics (panics_because cfg r c) (run_table cfg r c).
Proof.
  intros Hr Hb. set (P := panics_because cfg r c).
  assert (∀ p, driver_panics (D := D) p → P p) as Hdriver by apply because_driver.
  destruct c; cbn [run_table decoded] in *; unfold SelectFromTables, InsertInTables, BatchInsertInTables, DeleteFromTable,
    UpdateTable, ShowTable_handler, GetTablesByDatabaseAndSchema;
    (apply mpanics_bind; [done|]; intros st);
    (apply or_bad_panics; [apply calm_any, validateTableParams_calm|]; intros [[d s] t] Hv).
  - apply validateTableParams_Val in Hv as (_ & _ & _ & -> & _). apply or_bad_panics.
    { eapply panics_weaken; [by apply select_statement_panics|]. intros p (cols & Hf & Hc).
      by eapply (because_function _ _ _ _ cols). }
    intros [[sql vals] first] _. apply mpanics_bind.
    { apply mpanics_if; (eapply mpanics_weaken; [first [apply QueryCountCtx_panics|apply QueryCtx_panics]|done]). }
    intros sc. apply mpanics_bind; [|by intros rep; destruct (sc_result sc)].
    apply table_response_panics, calm_any, sc_result_calm.
  - apply or_bad_panics; [by apply calm_any, insert_statement_calm|]. intros [sql vals] _.
    apply mpanics_bind; [by eapply mpanics_weaken; [apply InsertCtx_panics|]|].
    intros sc. apply table_response_panics, calm_any, sc_result_calm.
  - apply or_bad_panics; [by apply calm_any, panics_prefixed, ParseBatchInsertRequest_calm|]. intros [[names phs] vals] _.
    apply mpanics_bind; [|intros sc; apply table_response_panics, calm_any, sc_result_calm].
    apply mpanics_if; (eapply mpanics_weaken; [|exact Hdriver]);
      [apply BatchInsertValuesCtx_panics|apply BatchInsertCopyCtx_panics, Split_nonempty].
  - apply or_bad_panics; [by apply calm_any, delete_statement_calm|]. intros [sql vals] Hsql.
    apply mpanics_bind; [|intros sc; apply table_response_panics, calm_any, sc_result_calm].
    eapply mpanics_weaken; [apply DeleteCtx_panics|]. intros p [Hp|Hp]; [by apply Hdriver|].
    apply (because_returning _ _ _ _ sql); [|done]. exists st, d, s, t, vals. by left.
  - apply or_bad_panics; [by apply calm_any, update_statement_calm|]. intros [sql vals] Hsql.
    apply mpanics_bind; [|intros sc; apply table_response_panics, calm_any, sc_result_calm].
    eapply mpanics_weaken; [apply UpdateCtx_panics|]. intros p [Hp|Hp]; [by apply Hdriver|].
    apply (because_returning _ _ _ _ sql); [|done]. exists st, d, s, t, vals. right. by exists body.
  - apply mpanics_bind; [by eapply mpanics_weaken; [apply QueryCtx_panics|]|]. intros sc.
    pose proof (sc_result_calm sc) as Hc. destruct (sc_result sc) as [b|e|w]; [done..|by destruct (Hc w)].
  - apply or_bad_panics; [by apply calm_any, schema_tables_statement_calm|]. intros [sql vals] _.
    apply mpanics_bind; [by eapply mpanics_weaken; [apply QueryCtx_panics|]|]. intros sc.
    apply or_bad_panics; [apply calm_any, sc_result_calm|done].
Qed.

(** C33: What the table endpoints answer, for every request with a parsed query
    and body.  A handler that returns answers with the status of success (201
    for inserts, 200 otherwise), 400 or 404, and puts a response into the cache
    only for a successful GET of rows, under the bare URL of the request and with
    exactly the body that was sent.  Otherwise it panics, which the recovery
    middleware answers with 500, and then for one of three reasons: the driver
    panicked; a field of a select is a group function without a field; the rows
    of a RETURNING statement could not be read. *)
Theorem table_replies cfg r c (w : World D) :
  parsed_query r → decoded c →
  match (run_table cfg r c w).2 with
  | Val rep =>
      Status (rp_response rep) ∈ [success_status c; StatusBadRequest; StatusNotFound]
      ∧ (∀ key value, rp_cached rep = Some (key, value) →
           c = TSelect ∧ Method r = "GET" ∧ Status (rp_response rep) = StatusOK
           ∧ key = URL r ∧ value = RespBody (rp_response rep))
  | Err _ => False
  | Panic p => panics_because cfg r c p
  end.
Proof.
  intros Hr Hb. destruct (run_table_reply cfg r c w Logic.I) as [_ Hq].
  pose proof (run_table_panics cfg r c Hr Hb w) as Hp. pose proof (run_table_answers cfg r c w) as He.
  destruct (run_table cfg r c w) as [w' [rep|e|p]]; cbn [snd] in *; [|by destruct (He e)|by apply Hp].
  destruct (Hq rep eq_refl) as [Hs Hc]. split; [done|]. intros key value E. by rw E in Hc.
Qed.

(** A missing table is a 400, not a 404: the not-found branch looks for the
    prefix of another driver, so an error whose text does not contain [pq: ] is
    answered as a bad request, whatever it says. *)
Theorem missing_table_is_bad_request schema table nf fl st e (w : World D) :
  Contains e "pq: " = false →
  table_response schema table nf fl st (Err e) w = (w, Val (bad_request (fl +:+ e))).
Proof.
  intros He. unfold table_response, missing_relation.
  match goal with |- (if ?b then _ else _) w = _ => destruct b eqn:Ec; [|reflexivity] end.
  apply (Contains_prefix e "pq: " (requote "relation `" +:+ schema +:+ "." +:+ table +:+ requote "` does not exist")) in Ec.
  congruence.
Qed.
End replies.

Section routes.
Context {D : Type} `{Backend D} `{UnicodeTables} `{MapRange}.
Variable P : World D → Prop.

Lemma post_or_bad {A} (x : gores A) (k : A → M D Reply) w :
  P w → (∀ a, x = Val a → P (k a w).1) → P (or_bad x k w).1.
Proof. intros Hw Hk. destruct x; cbn; [by apply Hk|done..]. Qed.

(** A continuation that only looks at what it is given. *)
Definition quiet {A} (m : M D A) : Prop := ∀ w, (m w).1 = w.

Lemma post_tail {A B} (m : M D A) (f : A → M D B) w : (∀ a, quiet (f a)) → P (m w).1 → P ((m ≫= f) w).1.
Proof.
  intros Hf Hm. cbv [mbind M_bind]. destruct (m w) as [w' [a|e|p]]; cbn in *; [|done..]. by rw Hf.
Qed.

Lemma quiet_or_bad {A} (x : gores A) (k : A → M D Reply) : (∀ a, quiet (k a)) → quiet (or_bad x k).
Proof. intros Hk w. destruct x; cbn; [apply Hk|done..]. Qed.

Lemma quiet_ret {A} (a : A) : quiet (mret a).
Proof. by intros w. Qed.

Lemma quiet_response schema table nf fl st res : quiet (table_response schema table nf fl st res).
Proof. intros w. destruct res; cbn [table_response]; [done| |done]. by destruct (missing_relation _ _ _). Qed.

Lemma quiet_bind {A B} (m : M D A) (f : A → M D B) : quiet m → (∀ a, quiet (f a)) → quiet (m ≫= f).
Proof.
  intros Hm Hf w. specialize (Hm w). cbv [mbind M_bind]. destruct (m w) as [w' [a|e|p]]; cbn in *; subst; [|done..].
  apply Hf.
Qed.
End routes.

Lemma conn_state_bind {D A} (f : ConnState → M D A) w : (conn_state ≫= f) w = f (w_conn w) w.
Proof. done. Qed.

(** C19: The statements of a table endpoint run on the database of its path:
    without the statement cache every call that reaches the database goes to
    the connection the pool resolves for the database segment, which is a safe
    one, whatever the rest of the request and the context it came with say. *)
Theorem table_calls_use_path_database {D} `{Backend D} `{UnicodeTables} `{MapRange} cfg r c
    (w : World (D * list target)) :
  PGCache cfg = false → (w_db w).2 = [] →
  ∀ t, t ∈ (w_db (run_table (H:=traced) cfg r c w).1).2 →
  IsSafeSegment (VarsGet r "database") = true
  ∧ ∃ h, (getDBFromCtx be_dial cfg (with_DBName (VarsGet r "database") (Ctx r)) (w_conn w)).2 = Val h ∧ t = OnDB h.
Proof.
  intros Hc Hw.
  set (P := λ w' : World (D * list target), ∀ t, t ∈ (w_db w').2 → IsSafeSegment (VarsGet r "database") = true
    ∧ ∃ h, (getDBFromCtx be_dial cfg (with_DBName (VarsGet r "database") (Ctx r)) (w_conn w)).2 = Val h ∧ t = OnDB h).
  change (P (run_table (H:=traced) cfg r c w).1).
  assert (P w) as H0w by (intros t; rw Hw; intros []%elem_of_nil).
  assert (∀ o d, op_scope o = inl (Some (with_DBName d (Ctx r))) → d = VarsGet r "database" →
    IsSafeSegment d = true → P (run_operation (H:=traced) cfg o w).1) as Hop.
  { intros o d Ho -> Hd t Ht. split; [done|].
    pose proof (operations_targets cfg o w Hc Hw t Ht) as Ht'. unfold target_of in Ht'. by rw Ho in Ht'. }
  destruct c; cbn [run_table]; unfold SelectFromTables, InsertInTables, BatchInsertInTables, DeleteFromTable,
    UpdateTable, ShowTable_handler, GetTablesByDatabaseAndSchema; rw conn_state_bind;
    (apply post_or_bad; [done|]; intros [[d s] t] (_ & Hd & _ & _ & Hsafe & _)%validateTableParams_Val).
  6: { apply post_tail; [|exact (Hop (OShowCtx _ _ _) d eq_refl Hd Hsafe)].
       intros sc. destruct (sc_result sc); cbn [or_bad]; by intros ?. }
  all: apply post_or_bad; [done|].
  - intros [[sql vals] first] _. apply post_tail.
    + intros sc. apply quiet_bind; [apply quiet_response|]. intros rep. apply quiet_ret.
    + destruct first; [exact (Hop (OQueryCountCtx _ _ _) d eq_refl Hd Hsafe)
                      |exact (Hop (OQueryCtx _ _ _) d eq_refl Hd Hsafe)].
  - intros [sql vals] _. apply post_tail; [intros sc; apply quiet_response|].
    exact (Hop (OInsertCtx _ _ _) d eq_refl Hd Hsafe).
  - intros [[names phs] vals] _. apply post_tail; [intros sc; apply quiet_response|].
    destruct (negb _); [exact (Hop (OBatchCtx _ _ _) d eq_refl Hd Hsafe)
                       |exact (Hop (OCopyCtx _ _ _ _ _ _) d eq_refl Hd Hsafe)].
  - intros [sql vals] _. apply post_tail; [intros sc; apply quiet_response|].
    exact (Hop (ODeleteCtx _ _ _) d eq_refl Hd Hsafe).
  - intros [sql vals] _. apply post_tail; [intros sc; apply quiet_response|].
    exact (Hop (OUpdateCtx _ _ _) d eq_refl Hd Hsafe).
  - intros [sql vals] _. apply post_tail; [|exact (Hop (OQueryCtx _ _ _) d eq_refl Hd Hsafe)].
    intros sc. apply quiet_or_bad. intros b. apply quiet_ret.
Qed.

(** ** Witnesses *)

#[local] Existing Instance ascii_tables.
#[local] Existing Instance echo.

(** A request for the notes, with a filter, from a member of tenant [t1]. *)
Definition table_req (method : string) (vars : gmap string string) : Request :=
  MkRequest method "/db/public/notes" "/db/public/notes?id=1" {[ "id" := ["1"] ]} ∅
    (with_TenantIDActive "t1" (with_UserID "alice" empty_context)) vars.
Definition notes_world : World unit := MkWorld (put_DB (nameKey "db") 4 init_conn) ∅ tt.

Lemma unsafe_path_witness :
  ∃ e, run_table sample_cfg (table_req "DELETE" {[ "database" := "d;b" ]}) TDelete notes_world
       = (notes_world, Val (bad_request e)).
Proof. apply unsafe_path_rejected. left. by vm_compute. Defined.

Lemma schema_listing_witness :
  let r := table_req "GET" (<["database" := "db"]> {[ "schema" := "public" ]}) in
  ∃ e, GetTablesByDatabaseAndSchema sample_cfg r notes_world = (notes_world, Val (bad_request e)).
Proof. apply schema_listing_always_rejected. by vm_compute. Defined.

Definition deleted : string := requote "DELETE FROM `db`.`public`.`notes` WHERE `tenant_id` = $1 AND `id` = $2".

Lemma delete_reads_back_witness :
  delete_statement sample_cfg init_conn (table_req "DELETE" notes_vars) "db" "public" "notes"
    = Val (deleted, [IStr "t1"; IStr "1"])
  ∧ ∃ wh rt, lex deleted = Some ((chars "DELETE FROM " ++ path_tokens "db" "public" "notes") ++ wh ++ rt)
      ∧ where_part 1 wh [IStr "t1"; IStr "1"] ∧ returning_part rt
      ∧ placeholders (wh ++ rt) ≡ₚ ids 1 2.
Proof.
  split; [by vm_compute|].
  apply (delete_reads_back sample_cfg init_conn (table_req "DELETE" notes_vars) "db" "public" "notes");
    [apply sample_cfg_valid | by vm_compute..].
Defined.

Definition updated : string :=
  requote "UPDATE `db`.`public`.`notes` SET `title`=$1 WHERE `tenant_id` = $2 AND `id` = $3".
Definition title_body : gores (gmap string iface) := Val {[ "title" := IStr "x" ]}.

Lemma update_reads_back_witness :
  update_statement sample_cfg init_conn (table_req "PATCH" notes_vars) title_body "db" "public" "notes"
    = Val (updated, [IStr "x"; IStr "t1"; IStr "1"])
  ∧ ∃ kvs wh rt wvals, 3 = length kvs + length wvals ∧ drop (length kvs) [IStr "x"; IStr "t1"; IStr "1"] = wvals
    ∧ lex updated = Some (((chars "UPDATE " ++ path_tokens "db" "public" "notes")
                       ++ chars " SET " ++ sep_tokens ", " (set_tokens 1 kvs)) ++ wh ++ rt)
    ∧ where_part (1 + N.of_nat (length kvs)) wh wvals ∧ returning_part rt
    ∧ placeholders (sep_tokens ", " (set_tokens 1 kvs) ++ wh ++ rt) ≡ₚ ids 1 3.
Proof.
  split; [by vm_compute|].
  apply (update_reads_back sample_cfg init_conn (table_req "PATCH" notes_vars) title_body "db" "public" "notes"
           updated [IStr "x"; IStr "t1"; IStr "1"]); [apply sample_cfg_valid | by vm_compute..].
Defined.

Lemma writes_carry_witness :
  let fs := [pred_tokens 1 (PCmp (CPath ["tenant_id"]) "=")] in
  (guarded 2 fs deleted ∧ ∃ vs, [IStr "t1"; IStr "1"] = IStr "t1" :: vs)
  ∧ (guarded 3 [pred_tokens 2 (PCmp (CPath ["tenant_id"]) "=")] updated
     ∧ ∃ vs, [IStr "x"; IStr "t1"; IStr "1"] = [IStr "x"] ++ IStr "t1" :: vs).
Proof.
  split.
  - apply (writes_carry_tenant_filter sample_cfg init_conn (table_req "DELETE" notes_vars) title_body
      "db" "public" "notes"); [apply sample_cfg_valid | by vm_compute..].
  - destruct (writes_carry_tenant_filter sample_cfg init_conn (table_req "PATCH" notes_vars) title_body
      "db" "public" "notes" (IStr "t1") [pred_tokens 2 (PCmp (CPath ["tenant_id"]) "=")]
      updated [IStr "x"; IStr "t1"; IStr "1"]) as [_ Hu]; [apply sample_cfg_valid | by vm_compute.. |].
    apply (Hu (requote "`title`=$1") [IStr "x"]); by vm_compute.
Defined.

Definition selected : string :=
  requote "SELECT * FROM `db`.`public`.`notes` WHERE `tenant_id` = $1 AND `id` = $2 ".

Lemma reads_carry_witness :
  select_statement sample_cfg init_conn (table_req "GET" notes_vars) "db" "public" "notes"
    = Val (selected, [IStr "t1"; IStr "1"], false)
  ∧ ∃ front cs tail vs, [IStr "t1"; IStr "1"] = IStr "t1" :: vs ∧ Forall (conjunct 2) cs
    ∧ lex selected = Some (front ++ (chars " WHERE "
        ++ sep_tokens " AND " ([pred_tokens 1 (PCmp (CPath ["tenant_id"]) "=")] ++ cs)) ++ tail)
    ∧ sealed front ∧ placeholders front = [] ∧ sealed tail ∧ placeholders tail = [].
Proof.
  split; [by vm_compute|].
  apply (reads_carry_tenant_filter sample_cfg init_conn (table_req "GET" notes_vars) "db" "public" "notes"
           (IStr "t1") _ selected [IStr "t1"; IStr "1"] false); [apply sample_cfg_valid | by vm_compute.. | | | |].
  - intros cols sel Hc. assert (cols = ["*"]) as -> by (apply Val_inj; rw -Hc; by vm_compute).
    intros Hs. assert (sel = "SELECT * FROM") as -> by (apply Val_inj; rw -Hs; by vm_compute).
    exists (chars "SELECT * FROM"). by vm_compute.
  - intros count Hc. assert (count = "") as -> by (apply Val_inj; rw -Hc; by vm_compute).
    by apply clean_template.
  - by vm_compute.
  - by vm_compute.
Defined.

(** The driver of [notes_world] answers; the select is answered and cached. *)
Lemma table_replies_witness :
  let rep := MkReply (MkResponse 200 "db4") (Some ("/db/public/notes?id=1", "db4")) in
  (run_table sample_cfg (table_req "GET" notes_vars) TSelect notes_world).2 = Val rep
  ∧ Status (rp_response rep) ∈ [StatusOK; StatusBadRequest; StatusNotFound]
  ∧ (∀ key value, rp_cached rep = Some (key, value) →
       TSelect = TSelect ∧ Method (table_req "GET" notes_vars) = "GET" ∧ Status (rp_response rep) = StatusOK
       ∧ key = URL (table_req "GET" notes_vars) ∧ value = RespBody (rp_response rep)).
Proof.
  intros rep. assert ((run_table sample_cfg (table_req "GET" notes_vars) TSelect notes_world).2 = Val rep) as E by by vm_compute.
  split; [exact E|].
  assert (parsed_query (table_req "GET" notes_vars)) as Hq.
  { intros k. unfold table_req. cbn [Http.Query]. rw lookup_singleton. by case_decide. }
  pose proof (table_replies sample_cfg (table_req "GET" notes_vars) TSelect notes_world Hq Logic.I) as Ht.
  rw E in Ht. exact Ht.
Defined.

Definition pgx_error : error := requote "ERROR: relation `public.notes` does not exist (SQLSTATE 42P01)".

Lemma missing_table_witness :
  Contains pgx_error "pq: " = false
  ∧ table_response "public" "notes" "relation does not exist: " "could not perform: " 201 (Err pgx_error) notes_world
    = (notes_world, Val (bad_request ("could not perform: " +:+ pgx_error))).
Proof. split; [by vm_compute|]. apply missing_table_is_bad_request. by vm_compute. Defined.

Lemma table_calls_witness :
  let w := MkWorld (put_DB (nameKey "db") 4 init_conn) ∅ (tt, []) in
  let r := table_req "GET" notes_vars in
  (w_db (run_table (H:=traced) sample_cfg r TSelect w).1).2 = [OnDB 4; OnDB 4]
  ∧ ∀ t, t ∈ (w_db (run_table (H:=traced) sample_cfg r TSelect w).1).2 →
    IsSafeSegment (VarsGet r "database") = true
    ∧ ∃ h, (getDBFromCtx be_dial sample_cfg (with_DBName (VarsGet r "database") (Ctx r)) (w_conn w)).2 = Val h
           ∧ t = OnDB h.
Proof. split; [by vm_compute|]. apply table_calls_use_path_database; reflexivity. Defined.
