(* ===== verification/Scripts.v ===== *)
(** * SQL scripts: controllers/sql.go, template/funcregistry.go, adapters/postgres/queries.go

    A script is a text/template over the data of the request.  This file models
    where a script is looked up, the data it sees, the functions it can call,
    and running one.  A parsed template is a list of actions: text, calls of the
    registered functions, and conditions on them, which is the part of the
    template language scripts use; reading and parsing the file is a parameter. *)

From S2P Require Import Prelude GoStrings Regexp SqlLex GoStd Ident Cache Config Http Json Where Connection Clauses Exec Tables.

(** ** path/filepath *)

(** One element of a path on the stack of [filepath.Clean], the last one first. *)
Definition clean_elem (rooted : bool) (stack : list string) (elem : string) : list string :=
  if String.eqb elem "" || String.eqb elem "." then stack
  else if String.eqb elem ".." then
    match stack with
    | top :: rest => if String.eqb top ".." then ".." :: stack else rest
    | [] => if rooted then [] else [".."]
    end
  else elem :: stack.

Definition filepath_Clean (path : string) : string :=
  let rooted := HasPrefix path "/" in
  let out := Join (rev (foldl (clean_elem rooted) [] (Split path "/"))) "/" in
  if rooted then "/" +:+ out else if String.eqb out "" then "." else out.

Definition filepath_Join (elems : list string) : string :=
  match filter (λ e, e ≠ "") elems with
  | [] => ""
  | es => filepath_Clean (Join es "/")
  end.

(** ** Looking a script up *)

(** The result of [os.Stat]. *)
Inductive stat := StatOK | StatNotExist (e : error) | StatError (e : error).

Definition verbs : list (string * string) := [
  ("GET", ".read.sql"); ("POST", ".write.sql"); ("PATCH", ".update.sql"); ("PUT", ".update.sql");
  ("DELETE", ".delete.sql")].

Section lookup.
Variable PrestConf : Prest.
Variable env_location : string.               (* PREST_QUERIES_LOCATION *)
Variable os_stat : string → stat.

Definition script_path (folder scriptName sufix : string) : string :=
  let base := if String.eqb env_location "" then QueriesPath PrestConf else env_location in
  filepath_Join [base; folder; scriptName +:+ sufix].

(** Other errors than a missing file are returned too. *)
Definition GetScript (verb folder scriptName : string) : gores string :=
  match assoc verb verbs with
  | None => Err ("invalid http method " +:+ verb)
  | Some sufix =>
      let script := script_path folder scriptName sufix in
      match os_stat script with
      | StatOK => Val script
      | StatNotExist e => Err ("could not load script: " +:+ e)
      | StatError e => Err e
      end
  end.
End lookup.

(** ** The data of a script: controllers/sql.go *)

Definition TemplateData := gmap string iface.

(** A header or a query parameter: its value when there is exactly one. *)
Definition one_or_all (values : list string) : iface :=
  match values with [v] => IStr v | _ => IStrs values end.

Section data.
Context `{MapRange}.

Definition extractHeaders (rq : Request) (data : TemplateData) : TemplateData :=
  <["header" := IMap ((λ kv, (kv.1, one_or_all kv.2)) <$> map_range (Header rq))]> data.

Definition extractQueryParameters (rq : Request) (data : TemplateData) : TemplateData :=
  foldl (λ data kv, <[kv.1 := one_or_all kv.2]> data) data (map_range (Http.Query rq)).

Definition put_context (key : string) (value : option string) (data : TemplateData) : TemplateData :=
  match value with
  | Some id => if String.eqb id "" then data else <[key := IStr id]> data
  | None => data
  end.

Definition extractContextValues (rq : Request) (data : TemplateData) : TemplateData :=
  put_context "tenantId" (TenantIDKey (Ctx rq)) (put_context "userId" (UserIDKey (Ctx rq)) data).

Definition script_data (rq : Request) : TemplateData :=
  extractContextValues rq (extractQueryParameters rq (extractHeaders rq ∅)).
End data.

(** ** The functions of a script: template/funcregistry.go *)

Record FuncRegistry := MkRegistry { fr_data : TemplateData; Args : list iface; fr_next : Z }.

Definition fresh_registry (data : TemplateData) : FuncRegistry := MkRegistry data [] 0.

(** Bind values and number them. *)
Definition bind_values (vs : list iface) (fr : FuncRegistry) : FuncRegistry :=
  MkRegistry (fr_data fr) (Args fr ++ vs) (fr_next fr + Z.of_nat (length vs)).

Section registry.
Context `{UnicodeTables}.

Definition isSet (key : string) (fr : FuncRegistry) : bool :=
  match fr_data fr !! key with Some _ => true | None => false end.

Definition defaultOrValue (key defaultValue : string) (fr : FuncRegistry) : FuncRegistry * iface :=
  let fr := if isSet key fr then fr
            else MkRegistry (<[key := IStr defaultValue]> (fr_data fr)) (Args fr) (fr_next fr) in
  (fr, default INil (fr_data fr !! key)).

(** [fmt.Sprint] and the [%v] verb of the values a script can see. *)
Fixpoint Sprint (v : iface) : string :=
  match v with
  | INil => "<nil>"
  | IBool b => if b then "true" else "false"
  | IFloat f => Sprint_float f
  | IInt z => Itoa z
  | IStr s | IStringer s => s
  | IStrs l | IStringers l => "[" +:+ Join l " " +:+ "]"
  | IInts l => "[" +:+ Join (Itoa <$> l) " " +:+ "]"
  | ISlice l => "[" +:+ Join ((fix go (l : list iface) :=
      match l with [] => [] | v :: l' => Sprint v :: go l' end) l) " " +:+ "]"
  | IMap m => "map[" +:+ Join ((λ kv, kv.1 +:+ ":" +:+ kv.2)
      <$> foldr (λ kv, insert_key kv.1 kv.2) [] ((fix go (m : list (string * iface)) :=
      match m with [] => [] | (k, v) :: m' => (k, Sprint v) :: go m' end) m)) " " +:+ "]"
  end.

Definition inFormat (key : string) (fr : FuncRegistry) : string :=
  match fr_data fr !! key with
  | Some (IStrs items) => "('" +:+ Join items "', '" +:+ "')"
  | v => "('" +:+ Sprint (default INil v) +:+ "')"
  end.

(** The error of the conversion is dropped. *)
Definition unEscape (key : string) : string := match QueryUnescape key with Some v => v | None => "" end.

Definition split (orig sep : string) : list string := Split orig sep.

Definition limitOffset (pageNumber pageSize : string) : string :=
  match LimitOffset pageNumber pageSize with Val v => v | _ => "" end.

Definition sqlVal (key : string) (fr : FuncRegistry) : FuncRegistry * string :=
  let fr := bind_values [default INil (fr_data fr !! key)] fr in
  (fr, ph (fr_next fr)).

Definition sqlList (key : string) (fr : FuncRegistry) : FuncRegistry * string :=
  match fr_data fr !! key with
  | Some (IStrs s) =>
      (bind_values (IStr <$> s) fr, "(" +:+ Join (ph_list (fr_next fr + 1) (length s)) "," +:+ ")")
  | v => let fr := bind_values [default INil v] fr in (fr, "(" +:+ ph (fr_next fr) +:+ ")")
  end.

Definition tenantScopeIn (column : string) (fr : FuncRegistry) : FuncRegistry * string :=
  match Ident.Quote column with
  | Val quoted =>
      match fr_data fr !! "tenantIds" with
      | Some (IStrs (id :: ids)) =>
          (bind_values (IStr <$> id :: ids) fr,
           quoted +:+ " IN (" +:+ Join (ph_list (fr_next fr + 1) (length (id :: ids))) "," +:+ ")")
      | _ => (fr, "FALSE")
      end
  | _ => (fr, "FALSE")
  end.

Definition ident_ (key : string) (fr : FuncRegistry) : gores string :=
  Ident.Quote (match fr_data fr !! key with Some (IStr s) => s | _ => "" end).
End registry.

(** ** text/template, as far as scripts use it

    An expression is a string constant, a field of the data, or a call of a
    registered function or of one of the template language's own; a template is
    a sequence of texts, printed expressions and conditions.  Trimming white
    space around an action is the parser's. *)

Inductive expr :=
| EStr (s : string)
| EField (name : string)
| ECall (func : string) (args : list expr).

Inductive tmpl :=
| TEnd
| TText (text : string) (rest : tmpl)
| TEmit (e : expr) (rest : tmpl)
| TIf (cond : expr) (then_ else_ rest : tmpl).

(** The first entry of a key in an association list. *)
Definition find_key {A} (k : string) (l : list (string * A)) : option A :=
  snd <$> List.find (λ kv, String.eqb kv.1 k) l.

(** [FuncRegistry.RegistryAllFuncs]: the names, with the number of arguments. *)
Definition RegistryAllFuncs : list (string * nat) := [
  ("isSet", 1); ("defaultOrValue", 2); ("inFormat", 1); ("unEscape", 1); ("split", 2); ("limitOffset", 2);
  ("sqlVal", 1); ("sqlList", 1); ("tenantScopeIn", 1); ("ident", 1)].
Definition builtins : list string := ["and"; "or"; "not"; "eq"; "index"].

(** The type of a value, and whether it counts as true. *)
Definition reflect_type (v : iface) : string :=
  match v with
  | INil => "nil" | IBool _ => "bool" | IFloat _ => "float64" | IInt _ => "int" | IStr _ => "string"
  | ISlice _ => "[]interface {}" | IStrs _ => "[]string" | IInts _ => "[]int"
  | IMap _ => "map[string]interface {}" | IStringer _ => "fmt.Stringer" | IStringers _ => "[]fmt.Stringer"
  end.

Definition truth (v : iface) : bool :=
  match v with
  | INil => false
  | IBool b => b
  | IFloat f => negb (String.eqb (f_digits f) "")
  | IInt z => negb (z =? 0)%Z
  | IStr s => negb (String.eqb s "")
  | ISlice l => negb (Nat.eqb (length l) 0)
  | IStrs l => negb (Nat.eqb (length l) 0)
  | IInts l => negb (Nat.eqb (length l) 0)
  | IMap m => negb (Nat.eqb (length m) 0)
  | IStringer _ => true
  | IStringers l => negb (Nat.eqb (length l) 0)
  end.

(** [text/template.eq] on two values: strings and booleans compare, an absent
    value differs from everything else. *)
Definition eq_values (a b : iface) : gores bool :=
  match a, b with
  | IStr x, IStr y => Val (String.eqb x y)
  | IBool x, IBool y => Val (Bool.eqb x y)
  | INil, INil => Val true
  | INil, _ | _, INil => Val false
  | (IStr _ | IBool _), _ | _, (IStr _ | IBool _) => Err "incompatible types for comparison"
  | _, _ => Err "non-comparable types"
  end.

Fixpoint eq_any (a : iface) (bs : list iface) : gores bool :=
  match bs with
  | [] => Val false
  | b :: bs' => same ← eq_values a b; if same : bool then Val true else eq_any a bs'
  end.

(** [text/template.index] with keys: a missing key gives the nil value. *)
Definition index_value (v key : iface) : gores iface :=
  match v, key with
  | IMap m, IStr k => Val (default INil (find_key k m))
  | INil, _ => Err "index of untyped nil"
  | _, IStr _ => Err "cannot index slice/array with type string"
  | _, _ => Err "value has wrong type for index"
  end.

(** Called with as many arguments as [builtin_arity] asks for. *)
Definition call_builtin (func : string) (vs : list iface) : gores iface :=
  if String.eqb func "not" then
    Val (IBool (negb (truth (default INil (head vs)))))
  else if String.eqb func "eq" then
    match vs with
    | v :: (_ :: _) as bs => same ← eq_any v (tail bs); Val (IBool same)
    | _ => Err "missing argument for comparison"
    end
  else
    match vs with
    | v :: keys => foldl (λ acc k, v ← acc; index_value v k) (Val v) keys
    | [] => Val INil
    end.

Definition builtin_arity (func : string) (got : nat) : gores unit :=
  if String.eqb func "not" then
    if Nat.eqb got 1 then Val tt else Err ("wrong number of args for not: want 1 got " +:+ Itoa (Z.of_nat got))
  else if Nat.eqb got 0 then Err ("wrong number of args for " +:+ func +:+ ": want at least 1 got 0")
  else Val tt.

(** An argument of a registered function: all take strings. *)
Definition string_arg (v : iface) : gores string :=
  match v with
  | IStr s => Val s
  | INil => Err "invalid value; expected string"
  | v => Err ("wrong type for value; expected string; got " +:+ reflect_type v)
  end.

Section eval.
Context `{UnicodeTables}.

(** The names not listed in [RegistryAllFuncs] never get here. *)
Definition call_registered (func : string) (args : list string) (fr : FuncRegistry)
  : gores (FuncRegistry * iface) :=
  let text (p : FuncRegistry * string) := Val (p.1, IStr p.2) in
  match args with
  | [a] =>
      if String.eqb func "isSet" then Val (fr, IBool (isSet a fr))
      else if String.eqb func "inFormat" then Val (fr, IStr (inFormat a fr))
      else if String.eqb func "unEscape" then Val (fr, IStr (unEscape a))
      else if String.eqb func "sqlVal" then text (sqlVal a fr)
      else if String.eqb func "sqlList" then text (sqlList a fr)
      else if String.eqb func "tenantScopeIn" then text (tenantScopeIn a fr)
      else if String.eqb func "ident" then q ← ident_ a fr; Val (fr, IStr q)
      else Err "unknown function"
  | [a; b] =>
      if String.eqb func "defaultOrValue" then Val (defaultOrValue a b fr)
      else if String.eqb func "split" then Val (fr, IStrs (split a b))
      else if String.eqb func "limitOffset" then Val (fr, IStr (limitOffset a b))
      else Err "unknown function"
  | _ => Err "wrong number of args"
  end.

Definition wrong_arity (func : string) (want got : nat) : error :=
  "wrong number of args for " +:+ func +:+ ": want " +:+ Itoa (Z.of_nat want) +:+ " got " +:+ Itoa (Z.of_nat got).

(** Where in the file an expression stands, in front of an error. *)
Variable located : expr → error → error.

Definition locate {A} (e : expr) (x : gores A) : gores A :=
  match x with Err m => Err (located e m) | r => r end.

(** Arguments are evaluated from left to right, each checked against its type
    before the next; [and] and [or] stop at the value that decides them. *)
Section args.
Variable ev : expr → FuncRegistry → gores (FuncRegistry * iface).

Fixpoint shortcut (stop : bool) (args : list expr) (fr : FuncRegistry) (v : iface) : gores (FuncRegistry * iface) :=
  match args with
  | [] => Val (fr, v)
  | a :: rest =>
      '(fr, v) ← ev a fr;
      if Bool.eqb (truth v) stop then Val (fr, v) else shortcut stop rest fr v
  end.

Fixpoint values (args : list expr) (fr : FuncRegistry) : gores (FuncRegistry * list iface) :=
  match args with
  | [] => Val (fr, [])
  | a :: rest => '(fr, v) ← ev a fr; '(fr, vs) ← values rest fr; Val (fr, v :: vs)
  end.

Fixpoint strings (args : list expr) (fr : FuncRegistry) : gores (FuncRegistry * list string) :=
  match args with
  | [] => Val (fr, [])
  | a :: rest =>
      '(fr, v) ← ev a fr; s ← locate a (string_arg v);
      '(fr, ss) ← strings rest fr; Val (fr, s :: ss)
  end.
End args.

Fixpoint eval (e : expr) (fr : FuncRegistry) {struct e} : gores (FuncRegistry * iface) :=
  match e with
  | EStr s => Val (fr, IStr s)
  | EField name => Val (fr, default INil (fr_data fr !! name))
  | ECall func args =>
      if String.eqb func "and" || String.eqb func "or" then
        _ ← locate e (builtin_arity func (length args));
        shortcut eval (String.eqb func "or") args fr INil
      else if existsb (String.eqb func) builtins then
        _ ← locate e (builtin_arity func (length args));
        '(fr, vs) ← values eval args fr;
        match call_builtin func vs with
        | Val v => Val (fr, v)
        | Err m => Err (located e ("error calling " +:+ func +:+ ": " +:+ m))
        | Panic p => Panic p
        end
      else
        match find_key func RegistryAllFuncs with
        | None => Err (located e ("function " +:+ strconv_Quote func +:+ " not defined"))
        | Some want =>
            if negb (Nat.eqb (length args) want) then Err (located e (wrong_arity func want (length args)))
            else
              '(fr, ss) ← strings eval args fr;
              match call_registered func ss fr with
              | Err m => Err (located e ("error calling " +:+ func +:+ ": " +:+ m))
              | r => r
              end
        end
  end.

(** What a printed expression writes. *)
Definition print_value (v : iface) : string := match v with INil => "<no value>" | _ => Sprint v end.

(** [Template.Execute], with the text written. *)
Fixpoint execute (t : tmpl) (fr : FuncRegistry) : gores (FuncRegistry * string) :=
  match t with
  | TEnd => Val (fr, "")
  | TText text rest => '(fr, out) ← execute rest fr; Val (fr, text +:+ out)
  | TEmit e rest =>
      '(fr, v) ← eval e fr;
      '(fr, out) ← execute rest fr;
      Val (fr, print_value v +:+ out)
  | TIf cond then_ else_ rest =>
      '(fr, v) ← eval cond fr;
      '(fr, out) ← execute (if truth v then then_ else else_) fr;
      '(fr, out') ← execute rest fr;
      Val (fr, out +:+ out')
  end.

(** The parser's check of names: the first call, in the order of the file, of a
    function that is neither registered nor the language's own. *)
Definition known_function (func : string) : bool :=
  existsb (String.eqb func) builtins || existsb (λ kv, String.eqb func kv.1) RegistryAllFuncs.

Fixpoint undefined_in (e : expr) : option expr :=
  match e with
  | ECall func args =>
      if negb (known_function func) then Some e
      else (fix first (args : list expr) : option expr :=
              match args with
              | [] => None
              | a :: rest => match undefined_in a with Some x => Some x | None => first rest end
              end) args
  | _ => None
  end.

Definition or_else {A} (x y : option A) : option A := match x with Some _ => x | None => y end.

Fixpoint undefined (t : tmpl) : option expr :=
  match t with
  | TEnd => None
  | TText _ rest => undefined rest
  | TEmit e rest => or_else (undefined_in e) (undefined rest)
  | TIf cond then_ else_ rest =>
      or_else (undefined_in cond) (or_else (undefined then_) (or_else (undefined else_) (undefined rest)))
  end.

(** ** Parsing and running a script *)

(** The actions of a file, or why it cannot be read or parsed. *)
Variable read_template : string → gores tmpl.

Definition undefined_name (e : expr) : string := match e with ECall func _ => func | _ => "" end.

Definition parse_file (path : string) : gores tmpl :=
  t ← read_template path;
  match undefined t with
  | Some e => Err (located e ("function " +:+ strconv_Quote (undefined_name e) +:+ " not defined"))
  | None => Val t
  end.

Definition ParseScript (scriptPath : string) (templateData : TemplateData) : gores (string * list iface) :=
  t ← prefixed "could not parse file" (parse_file scriptPath);
  match execute t (fresh_registry templateData) with
  | Val (fr, out) => Val (out, Args fr)
  | Err e => Err ("could not execute template " +:+ e)
  | Panic p => Panic p
  end.
End eval.

(** ** The endpoint: controllers/sql.go *)

Section endpoint.
Context {D : Type} `{Backend D} `{UnicodeTables} `{MapRange}.
Variable PrestConf : Prest.
Variable env_location : string.
Variable os_stat : string → stat.
Variable located : expr → error → error.
Variable read_template : string → gores tmpl.

(** [fmt.Errorf("... script %s/%s, %v", ...)] around a call. *)
Definition about_script {A} (what queriesPath script : string) (x : gores A) : gores A :=
  match x with
  | Err e => Err ("could not " +:+ what +:+ " script " +:+ queriesPath +:+ "/" +:+ script +:+ ", " +:+ e)
  | r => r
  end.

Definition ExecuteScriptQuery (rq : Request) (queriesPath script : string) : M D string :=
  with_conn (λ st, (SetDatabase (PGDatabase PrestConf) st, Val tt)) ≫= λ _,
  sqlPath ← lift (about_script "get" queriesPath script
    (GetScript PrestConf env_location os_stat (Method rq) queriesPath script));
  '(sql, values) ← lift (about_script "parse" queriesPath script
    (ParseScript located read_template sqlPath (script_data rq)));
  sc ← ExecuteScriptsCtx PrestConf (Ctx rq) (Method rq) sql values;
  match sc_result sc with
  | Err _ => lift (Err "could not execute sql, check your prest logs")
  | r => lift r
  end.

Definition ExecuteFromScripts (r : Request) : M D Reply :=
  st ← conn_state;
  let database := VarsGet r "database" in
  let database := if String.eqb database "" then GetDatabase st else database in
  result ← try (ExecuteScriptQuery (with_ctx (table_ctx r database) r)
                  (VarsGet r "queriesLocation") (VarsGet r "script"));
  match result with
  | Val b => mret (MkReply (ok_bytes b) (if String.eqb (Method r) "GET" then Some (URL r, b) else None))
  | Err e => mret (bad_request e)
  | Panic p => lift (Panic p)
  end.
End endpoint.
