(* ===== verification/UrlSpec.v ===== *)
(** * Database URLs: theorems

    The URL the connection pool writes ([Connection.GetURI]) is the one
    [url.Parse] reads: the parts come back, whatever bytes the user, the password
    and the names hold. *)

From S2P Require Import Prelude GoStrings SqlLex GoStd Cache Config Connection GoUrl.

(** ** Queries *)

Lemma QueryUnescape_eq s : QueryUnescape s = url_unescape s encodeQueryComponent.
Proof.
  remember (slen s) as n eqn:Hn. assert (slen s ≤ n) as Hle by lia. clear Hn. revert s Hle.
  induction n as [|n IH]; intros [|c s] Hle; [done|cbn in Hle; lia|done|]. cbn in Hle.
  cbn [QueryUnescape url_unescape]. destruct (Ascii.eqb c "%").
  - destruct s as [|a [|b r]]; [done..|]. cbn in Hle. rw IH; [lia|done].
  - rw IH; [lia|]. by destruct (Ascii.eqb c "+").
Qed.

Lemma safe_no_byte mode d s :
  (∀ c, safe_byte mode c = true → negb (Ascii.eqb d c) = true) → no_byte d (url_escape s mode) = true.
Proof. intros Hd. apply (string_forall_impl (safe_byte mode)); [exact Hd|apply escape_safe]. Qed.

Lemma query_safe_part k v :
  no_byte ";" (url_escape k encodeQueryComponent +:+ "=" +:+ url_escape v encodeQueryComponent) = true ∧
  no_byte "&" (url_escape k encodeQueryComponent +:+ "=" +:+ url_escape v encodeQueryComponent) = true.
Proof. rw !no_byte_app !safe_no_byte //; intros c; ascii_cases c. Qed.

Lemma query_pair_written k v :
  query_pair (url_escape k encodeQueryComponent +:+ "=" +:+ url_escape v encodeQueryComponent) = Some (k, v).
Proof.
  unfold query_pair. destruct (query_safe_part k v) as [Hs _]. rw Contains_none //.
  assert (String.eqb (url_escape k encodeQueryComponent +:+ "=" +:+ url_escape v encodeQueryComponent) "" = false) as ->.
  { by destruct (url_escape k _). }
  cbn [orb]. cbn [String.append]. rw cut_app; [apply safe_no_byte; intros c; ascii_cases c|].
  by rw !QueryUnescape_eq !url_unescape_escape.
Qed.

(** The pairs of a query that was written by [url.Values.Encode]. *)
Lemma query_pairs kvs : kvs ≠ [] → omap query_pair (Split (query_encode kvs) "&") = kvs.
Proof.
  intros Hne. unfold query_encode. rw Split1_Join.
  - by destruct kvs.
  - apply Forall_fmap, Forall_true. intros [k v]. apply query_safe_part.
  - clear Hne. induction kvs as [|[k v] kvs IH]; [done|]. cbn [fmap list_fmap omap list_omap].
    rw query_pair_written. by f_equal.
Qed.

Lemma query_get u kvs key :
  u_RawQuery u = query_encode kvs → kvs ≠ [] → QueryGet u key = default "" (snd <$> head (filter (λ kv, kv.1 = key) kvs)).
Proof. intros Hq Hne. unfold QueryGet. by rw Hq query_pairs. Qed.

(** ** Hosts *)

(** The bytes of a host name. *)
Definition host_byte (c : ascii) : bool :=
  is_letter_ascii (bval c) || is_digit_ascii (bval c) || existsb (Ascii.eqb c) ["-"; "."; "_"; "~"]%char.

Definition host_port_byte (c : ascii) : bool := host_byte c || Ascii.eqb c ":".

Lemma host_escape s : string_forall host_port_byte s = true → url_escape s encodeHost = s.
Proof.
  induction s as [|c s IH]; [done|]. cbn [string_forall]. rw andb_true_iff url_escape_cons. intros [Hc Hs].
  rw (IH Hs). revert Hc. ascii_cases c.
Qed.

Lemma host_port_plain c :
  host_port_byte c = true →
  Ascii.eqb c "%" = false ∧ Ascii.eqb c "+" = false ∧ (bval c <? 128)%N && shouldEscape c encodeHost = false.
Proof. ascii_cases c. Qed.

Lemma host_unescape s : string_forall host_port_byte s = true → url_unescape s encodeHost = Some s.
Proof.
  induction s as [|c s IH]; [done|]. cbn [string_forall]. rw andb_true_iff. intros [Hc Hs].
  apply host_port_plain in Hc as (E1 & E2 & E3). cbn [url_unescape]. by rw (IH Hs) E1 E2 E3.
Qed.

Lemma no_byte_of p d s : (∀ c, p c = true → negb (Ascii.eqb d c) = true) → string_forall p s = true → no_byte d s = true.
Proof. intros Hd. apply string_forall_impl, Hd. Qed.

Lemma host_byte_not_bracket c : host_byte c = true → c ≠ "["%char.
Proof. ascii_cases c. Qed.

Lemma HasPrefix_byte d c s : c ≠ d → HasPrefix (String c s) (String d "") = false.
Proof. intros Hd. cbn. by destruct (ascii_dec d c). Qed.

Lemma no_bracket host s : string_forall host_byte host = true → HasPrefix s "[" = false → HasPrefix (host +:+ s) "[" = false.
Proof.
  destruct host as [|c host]; [done|]. cbn [string_forall]. rw andb_true_iff. intros [Hc%host_byte_not_bracket _] _.
  by apply HasPrefix_byte.
Qed.

Section parse.
Variable bracketed_host : string → option string.

(** A host and a port, as [Hostname] and [Port] find them. *)
Lemma host_port_split host port u :
  string_forall host_byte host = true → string_forall is_digit_byte port = true → u_Host u = host +:+ ":" +:+ port →
  Hostname u = host ∧ Port u = port ∧ parseHost bracketed_host (host +:+ ":" +:+ port) = Some (host +:+ ":" +:+ port).
Proof.
  intros Hh Hp Hu.
  assert (no_byte ":" host = true) as Hc by (apply (no_byte_of host_byte); [intros c; ascii_cases c|done]).
  assert (no_byte ":" port = true) as Hcp by (apply (no_byte_of is_digit_byte); [intros c; ascii_cases c|done]).
  assert (HasPrefix (host +:+ ":" +:+ port) "[" = false) as Hb by by apply no_bracket.
  assert (HasPrefix host "[" = false) as Hb' by (rw -(sapp_nil_r host); by apply no_bracket).
  assert (strip_brackets host = host) as Hsb by (unfold strip_brackets; by rw Hb').
  assert (validOptionalPort (":" +:+ port) = true) as Hv by exact Hp.
  cbn [String.append] in *. unfold Hostname, Port, splitHostPort, parseHost.
  rw Hu cut_last_app // Hv Hb cut_first_app // Hv Hsb. split_and!; [done..|]. apply host_unescape.
  rw string_forall_app. cbn [string_forall].
  rw (string_forall_impl host_byte host_port_byte host) //; [intros c; ascii_cases c|].
  rw (string_forall_impl is_digit_byte host_port_byte port) //. intros c; ascii_cases c.
Qed.
End parse.

(** ** A database URL *)

Lemma string_exists_false p s : string_forall (λ c, negb (p c)) s = true → string_exists p s = false.
Proof. induction s as [|c s IH]; [done|]. cbn. rw andb_true_iff negb_true_iff. intros [-> Hs]. by apply IH. Qed.

(** A byte that neither ends a part of a URL nor makes it invalid. *)
Definition part_byte (c : ascii) : bool :=
  negb ((bval c <? 32)%N || (bval c =? 127)%N) && negb (Ascii.eqb "#" c) && negb (Ascii.eqb "?" c).

Lemma escape_part mode s : string_forall part_byte (url_escape s mode) = true.
Proof. apply (string_forall_impl (safe_byte mode)); [intros c; destruct mode; ascii_cases c|apply escape_safe]. Qed.

Lemma query_encode_part kvs : string_forall part_byte (query_encode kvs) = true.
Proof.
  unfold query_encode. induction kvs as [|[k v] kvs IH]; [done|].
  assert (string_forall part_byte (url_escape k encodeQueryComponent +:+ "=" +:+ url_escape v encodeQueryComponent) = true) as E
    by (rw !string_forall_app !escape_part; done).
  destruct kvs as [|kv kvs]; [exact E|]. cbn [fmap list_fmap fst snd] in *. rw Join_cons; [done|].
  by rw !string_forall_app !escape_part IH.
Qed.

Lemma part_no_hash s : string_forall part_byte s = true → no_byte "#" s = true.
Proof. apply no_byte_of. intros c; ascii_cases c. Qed.
Lemma part_no_mark s : string_forall part_byte s = true → no_byte "?" s = true.
Proof. apply no_byte_of. intros c; ascii_cases c. Qed.

Definition database_url (user pass host port path query : string) : string :=
  "postgres://" +:+ url_escape user encodeUserPassword +:+ ":" +:+ url_escape pass encodeUserPassword +:+
  "@" +:+ host +:+ ":" +:+ port +:+ "/" +:+ path +:+ "?" +:+ query.

(** The user or the password, as it is written in a URL. *)
Definition credential_byte (c : ascii) : bool := userinfo_byte c && part_byte c && negb (Ascii.eqb "/" c).

Lemma credential_escape s : string_forall credential_byte (url_escape s encodeUserPassword) = true.
Proof. apply (string_forall_impl (safe_byte encodeUserPassword)); [intros c; ascii_cases c|apply escape_safe]. Qed.

Lemma credential_facts s :
  string_forall credential_byte s = true →
  string_forall userinfo_byte s = true ∧ string_forall part_byte s = true ∧ no_byte "/" s = true.
Proof. intros Hs. split_and!; revert Hs; apply string_forall_impl; intros c; ascii_cases c. Qed.

Lemma host_port_facts host port :
  string_forall host_byte host = true → string_forall is_digit_byte port = true →
  no_byte "@" (host +:+ ":" +:+ port) = true ∧ no_byte "/" (host +:+ ":" +:+ port) = true ∧
  string_forall part_byte (host +:+ ":" +:+ port) = true.
Proof.
  intros Hh Hp. rw !no_byte_app string_forall_app. cbn [String.append string_forall].
  assert (∀ p, (∀ c, host_byte c = true → p c = true) → (∀ c, is_digit_byte c = true → p c = true) →
    string_forall p host = true ∧ string_forall p port = true) as Himp.
  { intros q H1 H2. split; [by apply (string_forall_impl host_byte)|by apply (string_forall_impl is_digit_byte)]. }
  unfold no_byte. split_and!.
  - destruct (Himp (λ c, negb (Ascii.eqb "@" c))) as [-> ->]; [intros c; ascii_cases c..|done].
  - destruct (Himp (λ c, negb (Ascii.eqb "/" c))) as [-> ->]; [intros c; ascii_cases c..|done].
  - destruct (Himp part_byte) as [-> ->]; [intros c; ascii_cases c..|done].
Qed.

(** A user and a password whose texts [user] and [pass] read back as [u] and [p]. *)
Lemma parseAuthority_parts b user pass host port u p :
  string_forall host_byte host = true → string_forall is_digit_byte port = true →
  string_forall credential_byte user = true → string_forall credential_byte pass = true → no_byte ":" user = true →
  url_unescape user encodeUserPassword = Some u → url_unescape pass encodeUserPassword = Some p →
  parseAuthority b (user +:+ ":" +:+ pass +:+ "@" +:+ host +:+ ":" +:+ port) = Some (Some (u, Some p), host +:+ ":" +:+ port).
Proof.
  intros Hh Hp (Hu & _)%credential_facts (Hpw & _)%credential_facts Hcolon Eu Ep.
  destruct (host_port_split b host port (MkURL "" "" None (host +:+ ":" +:+ port) "" "") Hh Hp) as (_ & _ & Hparse); [done|].
  destruct (host_port_facts host port Hh Hp) as (Hat & _).
  set (hp := host +:+ ":" +:+ port) in *.
  assert (user +:+ ":" +:+ pass +:+ "@" +:+ hp = (user +:+ ":" +:+ pass) +:+ String "@" hp) as -> by by rw !sapp_assoc.
  unfold parseAuthority. rw cut_last_app // Hparse. cbn [mbind option_bind].
  rw !string_forall_app Hu Hpw. cbn [negb andb string_forall]. cbv iota.
  change (":" +:+ pass) with (String ":" pass). by rw cut_first_app // Eu Ep.
Qed.

Lemma url_Parse_authority b auth ui host path dbpath query :
  string_forall part_byte auth = true → no_byte "/" auth = true → parseAuthority b auth = Some (ui, host) →
  string_forall part_byte path = true → url_unescape ("/" +:+ path) encodePath = Some dbpath →
  string_forall part_byte query = true →
  url_Parse b ("postgres://" +:+ auth +:+ "/" +:+ path +:+ "?" +:+ query)
  = Some (MkURL "postgres" "" ui host dbpath query).
Proof.
  intros Ha Hslash HA Hpath Epath Hq.
  set (u := "//" +:+ auth +:+ "/" +:+ path).
  assert (string_forall part_byte u = true) as Hu by (unfold u; rw !string_forall_app Ha Hpath; done).
  set (ctl := λ c, (bval c <? 32)%N || (bval c =? 127)%N).
  assert (no_byte "#" (u +:+ "?" +:+ query) = true) as Hhash
    by (rw no_byte_app (part_no_hash u) //; cbn; by apply part_no_hash).
  assert (string_exists ctl (u +:+ "?" +:+ query) = false) as Hctl.
  { apply string_exists_false. rw string_forall_app. cbn [String.append string_forall].
    assert (∀ s, string_forall part_byte s = true → string_forall (λ c, negb (ctl c)) s = true) as Hplain
      by (intros s; apply string_forall_impl; intros c; ascii_cases c).
    by rw !Hplain. }
  assert ("postgres://" +:+ auth +:+ "/" +:+ path +:+ "?" +:+ query = "postgres:" +:+ u +:+ "?" +:+ query) as E
    by (unfold u; by rw !sapp_assoc).
  rw E. unfold url_Parse.
  rw cut_none; [by rw no_byte_app Hhash|].
  change (string_exists _ ("postgres:" +:+ u +:+ "?" +:+ query)) with (string_exists ctl (u +:+ "?" +:+ query)).
  rw Hctl. cbv iota.
  change (getScheme ("postgres:" +:+ u +:+ "?" +:+ query)) with (Some ("postgres", u +:+ "?" +:+ query)).
  change (String.eqb ("postgres:" +:+ u +:+ "?" +:+ query) "*") with false. cbn [mbind option_bind]. cbv iota.
  change (u +:+ "?" +:+ query) with (u +:+ String "?" query). rw cut_app; [by apply part_no_mark|].
  unfold u. change (String.eqb "postgres" "") with false. unfold HasPrefix.
  rw (prefix_app "/" ("/" +:+ auth +:+ "/" +:+ path)) (prefix_app "//" (auth +:+ "/" +:+ path)).
  cbn [negb andb orb]. cbv iota.
  change (drop_bytes 2 ("//" +:+ auth +:+ "/" +:+ path)) with (auth +:+ String "/" path).
  rw cut_first_app // HA. cbn [mbind option_bind]. by rw Epath.
Qed.

Lemma url_Parse_parts b user pass host port path query u p db :
  string_forall host_byte host = true → string_forall is_digit_byte port = true →
  string_forall credential_byte user = true → string_forall credential_byte pass = true → no_byte ":" user = true →
  url_unescape user encodeUserPassword = Some u → url_unescape pass encodeUserPassword = Some p →
  string_forall part_byte path = true → url_unescape path encodePath = Some db → string_forall part_byte query = true →
  url_Parse b ("postgres://" +:+ user +:+ ":" +:+ pass +:+ "@" +:+ host +:+ ":" +:+ port +:+ "/" +:+ path +:+ "?" +:+ query)
  = Some (MkURL "postgres" "" (Some (u, Some p)) (host +:+ ":" +:+ port) ("/" +:+ db) query).
Proof.
  intros Hh Hp Hu Hpw Hcolon Eu Ep Hpath Epath Hq.
  pose proof (parseAuthority_parts b user pass host port u p Hh Hp Hu Hpw Hcolon Eu Ep) as HA.
  destruct (host_port_facts host port Hh Hp) as (_ & Hslash & Hpart).
  apply credential_facts in Hu as (_ & Hu & Hus), Hpw as (_ & Hpw & Hps).
  rw -(url_Parse_authority b (user +:+ ":" +:+ pass +:+ "@" +:+ host +:+ ":" +:+ port) _ _ path) //.
  - rw 4!string_forall_app Hu Hpw Hpart. done.
  - rw 4!no_byte_app Hus Hps Hslash. done.
  - by rw (unescape_escape_byte encodePath "/") // Epath.
  - by rw !sapp_assoc.
Qed.

Lemma url_Parse_database b user pass host port db query :
  string_forall host_byte host = true → string_forall is_digit_byte port = true → string_forall part_byte query = true →
  url_Parse b (database_url user pass host port (url_escape db encodePath) query)
  = Some (MkURL "postgres" "" (Some (user, Some pass)) (host +:+ ":" +:+ port) ("/" +:+ db) query).
Proof.
  intros Hh Hp Hq. apply url_Parse_parts; auto using credential_escape, escape_part.
  - apply safe_no_byte. intros c; ascii_cases c.
  - by apply url_unescape_escape.
  - by apply url_unescape_escape.
  - by apply url_unescape_escape.
Qed.

(** ** The URL of the connection pool *)

(** A configuration whose host is a name (or an IPv4 address) and whose port is
    not negative. *)
Definition named_server (cfg : Prest) : Prop :=
  string_forall host_byte (PGHost cfg) = true ∧ (0 ≤ PGPort cfg ≤ MaxInt64)%Z.

Lemma Itoa_nonneg z : (0 ≤ z)%Z → Itoa z = ntoa (Z.to_N z).
Proof. intros Hz. unfold Itoa. by rw (proj2 (Z.ltb_ge z 0) Hz). Qed.

Lemma escape_head c db mode :
  Ascii.eqb c "/" = false → ∃ d r, url_escape (String c db) mode = String d r ∧ Ascii.eqb d "/" = false.
Proof.
  intros Hc. rw url_escape_cons. destruct (escape_byte mode c) as [|d r] eqn:E.
  - exfalso. revert E. clear. destruct mode; ascii_cases c.
  - exists d, (r +:+ url_escape db mode). split; [done|]. revert Hc E. clear.
    destruct mode; destruct c as [[] [] [] [] [] [] [] []]; vm_compute; intros; simplify_eq; done.
Qed.

(** The URL is the one of the database, under either name. *)
Definition uri_query (cfg : Prest) : list (string * string) :=
  let optional (k v : string) := match v with "" => [] | _ => [(k, v)] end in
  ("connect_timeout", Itoa (PGConnTimeout cfg))
  :: optional "sslcert" (PGSSLCert cfg) ++ optional "sslkey" (PGSSLKey cfg)
  ++ ("sslmode", PGSSLMode cfg) :: optional "sslrootcert" (PGSSLRootCert cfg).

(** What follows the slash that separates the server from the path. *)
Definition after_slash (db : string) : string :=
  match db with String c r => if Ascii.eqb c "/" then r else db | "" => "" end.

Lemma GetURI_parses b cfg db :
  named_server cfg → db ≠ "" → db ≠ "*" →
  url_Parse b (GetURI cfg db) =
  Some (MkURL "postgres" "" (Some (PGUser cfg, Some (PGPass cfg))) (PGHost cfg +:+ ":" +:+ Itoa (PGPort cfg))
          ("/" +:+ after_slash db) (query_encode (uri_query cfg))).
Proof.
  intros [Hh Hp] Hne Hstar. rw -(url_Parse_database b).
  - exact Hh.
  - rw Itoa_nonneg; [lia|]. apply ntoa_spec.
  - apply query_encode_part.
  - f_equal. unfold GetURI, database_url, uri_query. destruct db as [|c0 db0] eqn:Hdb; [done|]. rw -Hdb in Hne Hstar |- *.
    rw (proj2 (String.eqb_neq _ _) Hstar). cbv zeta.
    assert (match url_escape db encodePath with
            | "" => ""
            | String c _ => if Ascii.eqb c "/" then url_escape db encodePath else "/" +:+ url_escape db encodePath
            end = "/" +:+ url_escape (after_slash db) encodePath) as ->.
    { subst db. unfold after_slash. destruct (Ascii.eqb c0 "/") eqn:Hc.
      - apply Ascii.eqb_eq in Hc as ->. by rw url_escape_cons.
      - destruct (escape_head c0 db0 encodePath Hc) as (d & r & -> & Hd). by rw Hd. }
    rw host_escape; [|by rw !sapp_assoc].
    rw string_forall_app. cbn [String.append string_forall].
    assert (string_forall is_digit_byte (Itoa (PGPort cfg)) = true) as Hd by (rw Itoa_nonneg; [lia|]; apply ntoa_spec).
    rw (string_forall_impl host_byte host_port_byte _ ltac:(intros d; ascii_cases d) Hh).
    by rw (string_forall_impl is_digit_byte host_port_byte _ ltac:(intros d; ascii_cases d) Hd).
Qed.
