(* ===== verification/Settings.v ===== *)
(** * Loading the configuration: config/config.go

    [Load] and what it calls: the defaults, the configuration file with its
    [$VAR] placeholders, the environment, the database URL, the key set of the
    identity provider, and the cache directory.  The process can exit while it
    loads ([Exits]).

    The library viper is the class [Viper]: the calls the program makes to it
    and, in [ViperLaws], the one thing the program relies on, that a key that is
    given nowhere else has its default.  The file system is the class [Files];
    the .env file, the home directory, and the exchange with the identity
    provider are parameters. *)

From S2P Require Import Prelude GoStrings Regexp GoStd Cache Config Http Scripts GoUrl.

(** ** The process *)

(** A call that returns, or ends the process with [os.Exit]. *)
Inductive run (A : Type) := Runs (a : A) | Exits (code : Z).
Arguments Runs {A} _.
Arguments Exits {A} _.
#[export] Instance run_ret : MRet run := λ A a, Runs a.
#[export] Instance run_bind : MBind run := λ A B f m, match m with Runs a => f a | Exits n => Exits n end.

Lemma Runs_inj {A} (a b : A) : Runs a = Runs b → a = b.
Proof. by injection 1. Qed.

Lemma bind_Runs {A B} (m : run A) (f : A → run B) b : (m ≫= f) = Runs b ↔ ∃ a, m = Runs a ∧ f a = Runs b.
Proof. destruct m as [a|n]; cbn; [naive_solver|split; [done|by intros (? & ? & _)]]. Qed.

(** [os.Getenv]: the empty string when the variable is not set. *)
Definition environ := string → string.

(** ** Package path/filepath *)

(** [filepath.Split]: the text up to the last slash, and the rest. *)
Definition filepath_Split (path : string) : string * string :=
  match cut_last "/" path with Some (dir, file) => (dir +:+ "/", file) | None => ("", path) end.

(** [filepath.Ext], of a path without a slash. *)
Definition filepath_Ext (file : string) : string :=
  match cut_last "." file with Some (_, ext) => "." +:+ ext | None => "" end.

Definition TrimSuffix (s suffix : string) : string :=
  if HasSuffix s suffix then take_bytes (slen s - slen suffix) s else s.

(** ** Interfaces *)

(** The types of the values stored as defaults. *)
Inductive setting :=
| SBool (b : bool) | SInt (z : Z) | SString (s : string) | SStrings (l : list string)
| SPlugins (l : list PluginMiddleware).

(** What [viper.UnmarshalKey] decodes: lists of these. *)
Inductive shape : Type → Type :=
| UserFilters : shape UserFilterConfig
| CompatFilters : shape TenantCompatConfig
| NamedURLs : shape PGURLConfig
| AccessTables : shape TablesConf
| AccessUsers : shape UsersConf
| Middlewares_ : shape PluginMiddleware
| CacheEndpoints : shape Endpoint.

(** The error of [ReadInConfig]; a [ConfigFileNotFoundError] is told apart. *)
Inductive read_error := ConfigFileNotFound | ConfigError (e : error).

Class Files := {
  files : Type;
  ReadFile : files → string → gores string;
  IsNotExist : files → string → bool;                     (* os.IsNotExist of the error of os.Stat *)
  MkdirAll : string → files → files * option error
}.

Class Viper `{Files} := {
  viper : Type;
  SetEnvPrefix : string → viper → viper;
  AutomaticEnv : viper → viper;
  SetEnvKeyReplacer : (string → string) → viper → viper;
  AddConfigPath : string → viper → viper;
  SetConfigName : string → viper → viper;
  SetConfigType : string → viper → viper;
  SetDefault : string → setting → viper → viper;
  ReadConfig : string → viper → viper * option error;
  ReadInConfig : files → viper → viper * option read_error;
  GetString : environ → viper → string → string;
  GetBool : environ → viper → string → bool;
  GetInt : environ → viper → string → Z;
  GetStringSlice : environ → viper → string → list string;
  (** what it could decode, and the error *)
  UnmarshalKey : ∀ {A}, shape A → environ → viper → string → list A * option error
}.

(** ** [viperCfg] *)

(** The calls to [viper.SetDefault], in their order; the last one, of
    [queries.location], depends on the home directory. *)
Definition defaults : list (string * setting) := [
  ("auth.enabled", SBool false);
  ("auth.username", SString "username");
  ("auth.password", SString "password");
  ("auth.schema", SString "public");
  ("auth.table", SString "prest_users");
  ("auth.encrypt", SString "MD5");
  ("auth.type", SString "body");
  ("http.host", SString "0.0.0.0");
  ("http.port", SInt 3000);
  ("http.timeout", SInt 60);
  ("pg.host", SString "127.0.0.1");
  ("pg.port", SInt 5432);
  ("pg.database", SString "prest");
  ("pg.user", SString "postgres");
  ("pg.pass", SString "postgres");
  ("pg.maxidleconn", SInt 0);
  ("pg.maxopenconn", SInt 10);
  ("pg.conntimeout", SInt 10);
  ("pg.single", SBool true);
  ("pg.cache", SBool true);
  ("pg.ssl.mode", SString "disable");
  ("jwt.default", SBool true);
  ("jwt.algo", SString "HS256");
  ("jwt.wellknownurl", SString "");
  ("jwt.jwks", SString "");
  ("jwt.whitelist", SStrings ["^\/auth$"]);
  ("json.agg.type", SString "jsonb_agg");
  ("cors.allowheaders", SStrings ["Content-Type"]);
  ("cors.allowmethods", SStrings ["GET"; "HEAD"; "POST"; "PUT"; "DELETE"; "OPTIONS"]);
  ("cors.alloworigin", SStrings ["*"]);
  ("cors.allowcredentials", SBool true);
  ("https.mode", SBool false);
  ("https.cert", SString "/etc/certs/cert.crt");
  ("https.key", SString "/etc/certs/cert.key");
  ("cache.enabled", SBool false);
  ("cache.time", SInt 10);
  ("cache.storagepath", SString "./");
  ("cache.sufixfile", SString ".cache.prestd.db");
  ("version", SInt 1);
  ("debug", SBool false);
  ("context", SString "/");
  ("pluginpath", SString "./lib");
  ("pluginmiddlewarelist", SPlugins []);
  ("auth.tenant_filters_enabled", SBool false);
  ("expose.enabled", SBool false);
  ("expose.tables", SBool true);
  ("expose.schemas", SBool true);
  ("expose.databases", SBool true)
].

(** ** [renderConfig] *)

(** [$] and a name, the group of the name *)
Definition envVarRe : regex :=
  RCat (lit 36) (RGrp 1 (RCat (RSet alpha_us) (RStar true (RSet word_rune)))).

Definition render_match (env : environ) (m : string) : string :=
  match env (drop_bytes 1 m) with "" => m | v => v end.

(** The text of a file with its placeholders resolved; one that is not set, or
    set to nothing, is left as it is. *)
Definition render (env : environ) (data : string) : string := ReplaceAllFunc envVarRe (render_match env) data.

Example render_example :
  render (λ v, if String.eqb v "DSN" then "postgres://u:$DSN@h/db" else "") "url: $DSN # $1 $X_1 $DSNS"
  = "url: postgres://u:$DSN@h/db # $1 $X_1 $DSNS".
Proof. by vm_compute. Qed.

Section load.
Context `{UnicodeTables} `{Viper}.
Variable env : environ.

Definition renderConfig (fs : files) (path : string) : gores string :=
  match ReadFile fs path with
  | Val data => Val (render env data)
  | Err e => Err ("read config: " +:+ e)
  | Panic w => Panic w
  end.

(** The new value of the global [configFile], and of viper's state. *)
Definition viperCfg (homedir_Dir : gores string) (v : viper) : run (string * viper) :=
  let configFile := getPrestConfFile (env "PREST_CONF") in
  let '(dir, file) := filepath_Split configFile in
  let ext := filepath_Ext file in
  let file := TrimSuffix file ext in
  let v := AutomaticEnv (SetEnvPrefix "PREST" v) in
  let v := SetEnvKeyReplacer (λ s, ReplaceAll s "." "_") v in
  let v := SetConfigName file (AddConfigPath dir v) in
  let v := SetConfigType (if String.eqb ext ".yaml" || String.eqb ext ".yml" then "yaml" else "toml") v in
  let v := foldl (λ v '(k, x), SetDefault k x v) v defaults in
  match homedir_Dir with
  | Val hDir => Runs (configFile, SetDefault "queries.location" (SString (filepath_Join [hDir; "queries"])) v)
  | _ => Exits 1
  end.

(** ** The parts of [Parse] *)

Section values.
Variable v : viper.
Abbreviation get_s := (GetString env v).
Abbreviation get_b := (GetBool env v).
Abbreviation get_i := (GetInt env v).
Abbreviation get_l := (GetStringSlice env v).

Definition parseAuthConfig (cfg : Prest) : run Prest :=
  let cfg := cfg <| AuthEnabled := get_b "auth.enabled" |>
    <| AuthSchema := get_s "auth.schema" |> <| AuthTable := get_s "auth.table" |>
    <| AuthUsername := get_s "auth.username" |> <| AuthPassword := get_s "auth.password" |>
    <| AuthEncrypt := get_s "auth.encrypt" |> <| AuthMetadata := get_l "auth.metadata" |>
    <| AuthType := get_s "auth.type" |> <| UserIDHeader := get_s "auth.user_id_header" |> in
  let cfg := match UnmarshalKey UserFilters env v "auth.user_id_filters" with
             | (userFilters, None) => cfg <| UserIDFilters := userFilters |>
             | _ => cfg end in
  let cfg := match UnmarshalKey CompatFilters env v "auth.tenant_compat_filters" with
             | (compatFilters, None) => cfg <| TenantCompatFilters := compatFilters |>
             | _ => cfg end in
  let cfg := cfg <| TenantActiveHeader := get_s "auth.tenant_active_header" |> in
  match ValidateTenantCompat cfg with Val _ => Runs cfg | _ => Exits 1 end.

Definition parseHTTPConfig (cfg : Prest) : Prest :=
  cfg <| HTTPHost := get_s "http.host" |> <| HTTPPort := get_i "http.port" |>
    <| HTTPTimeout := get_i "http.timeout" |> <| HTTPSMode := get_b "https.mode" |>
    <| HTTPSCert := get_s "https.cert" |> <| HTTPSKey := get_s "https.key" |>.

(** A [PORT] that is not a number is ignored. *)
Definition portFromEnv (cfg : Prest) : Prest :=
  if String.eqb (env "PORT") "" then cfg
  else match Atoi (env "PORT") with Val HTTPPort_ => cfg <| HTTPPort := HTTPPort_ |> | _ => cfg end.

Definition loadCacheConfig (cfg : Prest) : Prest :=
  cfg <| Cache := MkCacheConfig (get_b "cache.enabled") (get_i "cache.time") (get_s "cache.storagepath")
                    (get_s "cache.sufixfile") (UnmarshalKey CacheEndpoints env v "cache.endpoints").1 |>.

(** ** The database *)

Section database.
Variable bracketed_host : string → option string.
Abbreviation url_Parse := (url_Parse bracketed_host).

(** A URL that cannot be parsed is ignored; the port, when it is out of range,
    ends the function with the host already assigned. *)
Definition parseDatabaseURL (cfg : Prest) : Prest :=
  if String.eqb (PGURL cfg) "" then cfg
  else match url_Parse (PGURL cfg) with
  | None => cfg
  | Some u =>
      let cfg := cfg <| PGHost := Hostname u |> in
      let rest cfg :=
        let cfg := cfg <| PGUser := Username u |> in
        let cfg := match Password u with Some pgPass => cfg <| PGPass := pgPass |> | None => cfg end in
        let cfg := cfg <| PGDatabase := ReplaceAll (u_Path u) "/" "" |> in
        if String.eqb (QueryGet u "sslmode") "" then cfg else cfg <| PGSSLMode := QueryGet u "sslmode" |> in
      if String.eqb (Port u) "" then rest cfg
      else match Atoi (Port u) with Val pgPort => rest (cfg <| PGPort := pgPort |>) | _ => cfg end
  end.

Definition DBNameFromURL (raw : string) : string :=
  match url_Parse raw with None => "" | Some u => TrimPrefix (u_Path u) "/" end.

(** The name a URL without one gets. *)
Definition name_url (u : PGURLConfig) : PGURLConfig :=
  if negb (String.eqb (pu_URL u) "") && String.eqb (pu_Name u) "" then MkPGURL (DBNameFromURL (pu_URL u)) (pu_URL u)
  else u.

Definition parseDBConfig (cfg : Prest) : Prest :=
  let cfg := cfg <| PGURL := get_s "pg.url" |> <| PGHost := get_s "pg.host" |> <| PGPort := get_i "pg.port" |>
    <| PGUser := get_s "pg.user" |> <| PGPass := get_s "pg.pass" |> <| PGDatabase := get_s "pg.database" |>
    <| PGSSLMode := get_s "pg.ssl.mode" |> <| PGSSLKey := get_s "pg.ssl.key" |>
    <| PGSSLCert := get_s "pg.ssl.cert" |> <| PGSSLRootCert := get_s "pg.ssl.rootcert" |> in
  let cfg := if String.eqb (env "DATABASE_URL") "" then cfg else cfg <| PGURL := env "DATABASE_URL" |> in
  let cfg := parseDatabaseURL cfg in
  let cfg := cfg <| PGMaxIdleConn := get_i "pg.maxidleconn" |> <| PGMaxOpenConn := get_i "pg.maxopenconn" |>
    <| PGConnTimeout := get_i "pg.conntimeout" |> <| PGCache := get_b "pg.cache" |> <| SingleDB := get_b "pg.single" |> in
  let namedURLs := match UnmarshalKey NamedURLs env v "pg.urls" with
                   | (urls, None) => name_url <$> urls
                   | (urls, Some _) => urls end in
  if hasNamedURLs namedURLs then cfg <| PGNamedURLs := namedURLs |> else cfg <| PGURLs := get_l "pg.urls" |>.
End database.
End values.

(** ** The key set *)

(** Package jwk, and the provider: the body of the answer to a GET, decoded as
    a JSON object, and the key set at a URI. *)
Record Provider := MkProvider {
  http_Get : string → gores string;
  decode_object : string → gores (gmap string iface);
  jwk_Set : Type;
  jwk_Fetch : string → gores jwk_Set;
  jwk_Marshal : jwk_Set → gores string
}.
Variable provider : Provider.

(** Every failure leaves the configuration as it is. *)
Definition fetch_keys (wellKnownURL : string) : option string :=
  match (body ← http_Get provider wellKnownURL; decode_object provider body) with
  | Val wellKnown =>
      match wellKnown !! "jwks_uri" with
      | Some (IStr uri) =>
          match (set ← jwk_Fetch provider uri; jwk_Marshal provider set) with Val json => Some json | _ => None end
      | _ => None
      end
  | _ => None
  end.

Definition fetchJWKS (cfg : Prest) : Prest :=
  if String.eqb (JWTWellKnownURL cfg) "" then cfg
  else if negb (String.eqb (JWTJWKS cfg) "") then cfg
  else match fetch_keys (JWTWellKnownURL cfg) with Some json => cfg <| JWTJWKS := json |> | None => cfg end.

(** ** [Parse] *)

Variable bracketed_host : string → option string.

Definition isYAML (configFile : string) : bool := HasSuffix configFile ".yaml" || HasSuffix configFile ".yml".

(** The errors of the file are only logged; the SSL mode of a configuration
    without a file is overwritten below. *)
Definition read_file (configFile : string) (fs : files) (v : viper) (cfg : Prest) : viper * Prest :=
  if isYAML configFile then
    match renderConfig fs configFile with
    | Val rendered => ((ReadConfig rendered v).1, cfg)
    | _ => (v, cfg)
    end
  else
    match ReadInConfig fs v with
    | (v, Some ConfigFileNotFound) => (v, cfg <| PGSSLMode := "disable" |>)
    | (v, _) => (v, cfg)
    end.

Definition Parse (configFile : string) (fs : files) (v : viper) (cfg : Prest) : run (viper * Prest) :=
  let '(v, cfg) := read_file configFile fs v cfg in
  cfg ← parseAuthConfig v cfg;
  let cfg := parseHTTPConfig v cfg in
  let cfg := portFromEnv cfg in
  let cfg := parseDBConfig v bracketed_host cfg in
  let cfg := cfg <| JWTKey := GetString env v "jwt.key" |> <| JWTAlgo := GetString env v "jwt.algo" |>
    <| JWTWellKnownURL := GetString env v "jwt.wellknownurl" |> <| JWTJWKS := GetString env v "jwt.jwks" |>
    <| JWTWhiteList := GetStringSlice env v "jwt.whitelist" |> in
  let cfg := fetchJWKS cfg in
  let cfg := cfg <| JSONAggType := getJSONAgg (GetString env v "json.agg.type") |>
    <| MigrationsPath := GetString env v "migrations" |> in
  let cfg := cfg <| Access := MkAccessConf (GetBool env v "access.restrict") (GetStringSlice env v "access.ignore_table")
                                (ac_Tables (Access cfg)) (ac_Users (Access cfg)) |>
    <| QueriesPath := GetString env v "queries.location" |>
    <| CORSAllowOrigin := GetStringSlice env v "cors.alloworigin" |>
    <| CORSAllowHeaders := GetStringSlice env v "cors.allowheaders" |>
    <| CORSAllowMethods := GetStringSlice env v "cors.allowmethods" |>
    <| CORSAllowCredentials := GetBool env v "cors.allowcredentials" |>
    <| Debug := GetBool env v "debug" |> <| EnableDefaultJWT := GetBool env v "jwt.default" |>
    <| ContextPath := GetString env v "context" |> <| PluginPath := GetString env v "pluginpath" |> in
  let cfg := loadCacheConfig v cfg in
  let cfg := cfg <| Expose := MkExposeConf (GetBool env v "expose.enabled") (GetBool env v "expose.databases")
                                (GetBool env v "expose.schemas") (GetBool env v "expose.tables") |> in
  let tablesconf := (UnmarshalKey AccessTables env v "access.tables").1 in
  let usersconf := (UnmarshalKey AccessUsers env v "access.users").1 in
  let cfg := cfg <| Access := MkAccessConf (ac_Restrict (Access cfg)) (ac_IgnoreTable (Access cfg)) tablesconf usersconf |> in
  Runs (v, cfg <| PluginMiddlewareList := (UnmarshalKey Middlewares_ env v "pluginmiddlewarelist").1 |>).
End load.

(** ** [Load] *)

Section Load.
Context `{UnicodeTables} `{Viper}.
Variable godotenv_Load : environ → environ.      (* the environment with the gaps filled from .env *)
Variable homedir_Dir : gores string.
Variable provider : Provider.
Variable bracketed_host : string → option string.

(** [os.Stat], and [os.MkdirAll] when the directory is missing: the file
    system, and whether making it failed. *)
Definition make_missing (path : string) (fs : files) : files * bool :=
  if IsNotExist fs path then let '(fs, err) := MkdirAll path fs in (fs, match err with Some _ => true | None => false end) else (fs, false).

(** The environment, viper's state, [PrestConf], the file system.  The logger
    that ends it is not part of the configuration. *)
Definition Load (env : environ) (v : viper) (fs : files) : run (environ * viper * Prest * files) :=
  let env := godotenv_Load env in
  '(configFile, v) ← viperCfg env homedir_Dir v;
  '(v, PrestConf) ← Parse env provider bracketed_host configFile fs v zero_Prest;
  let fs := (make_missing (QueriesPath PrestConf) fs).1 in
  if negb (cc_Enabled (Cache PrestConf)) then Runs (env, v, PrestConf, fs)
  else
    let c := Cache PrestConf in
    let '(fs, failed) := make_missing (cc_StoragePath c) fs in
    let PrestConf :=
      if failed then PrestConf <| Cache := MkCacheConfig (cc_Enabled c) (cc_Time c) "./" (cc_SufixFile c) (cc_Endpoints c) |>
      else PrestConf in
    Runs (env, v, PrestConf, fs).
End Load.
