(* ===== verification/SettingsSpec.v ===== *)
(** * The loaded configuration: theorems

    What holds of every configuration [Load] returns, what it is when nothing is
    configured, and how the environment, the file and the database URL combine. *)

From S2P Require Import Prelude GoStrings Regexp SqlLex GoStd Cache Config Http Connection Scripts GoUrl UrlSpec Settings.

(** ** What viper promises

    [unset]: neither a flag, the environment nor the file gives the key.  The
    documented precedence makes its value the default, or the zero value when it
    has none; reading a file sets no default. *)
Class ViperLaws `{Viper} := {
  unset : environ → viper → string → bool;
  default_of : viper → string → option setting;
  default_SetDefault k k' x v : default_of (SetDefault k x v) k' = if decide (k = k') then Some x else default_of v k';
  default_AutomaticEnv v k : default_of (AutomaticEnv v) k = default_of v k;
  default_SetEnvPrefix p v k : default_of (SetEnvPrefix p v) k = default_of v k;
  default_SetEnvKeyReplacer r v k : default_of (SetEnvKeyReplacer r v) k = default_of v k;
  default_AddConfigPath p v k : default_of (AddConfigPath p v) k = default_of v k;
  default_SetConfigName n v k : default_of (SetConfigName n v) k = default_of v k;
  default_SetConfigType t v k : default_of (SetConfigType t v) k = default_of v k;
  default_ReadConfig data v k : default_of (ReadConfig data v).1 k = default_of v k;
  default_ReadInConfig fs v k : default_of (ReadInConfig fs v).1 k = default_of v k;
  GetString_unset env v k : unset env v k = true →
    match default_of v k with Some (SString s) => GetString env v k = s | None => GetString env v k = "" | _ => True end;
  GetBool_unset env v k : unset env v k = true →
    match default_of v k with Some (SBool b) => GetBool env v k = b | None => GetBool env v k = false | _ => True end;
  GetInt_unset env v k : unset env v k = true →
    match default_of v k with Some (SInt z) => GetInt env v k = z | None => GetInt env v k = 0%Z | _ => True end;
  GetStringSlice_unset env v k : unset env v k = true →
    match default_of v k with Some (SStrings l) => GetStringSlice env v k = l | None => GetStringSlice env v k = [] | _ => True end;
  UnmarshalKey_unset {A} (sh : shape A) env v k : unset env v k = true →
    match default_of v k with None | Some (SPlugins []) => UnmarshalKey sh env v k = ([], None) | _ => True end
}.

(** ** The shape of what each part of [Parse] assigns *)

Section shape.
Context `{UnicodeTables} `{Viper}.
Variable env : environ.

Lemma portFromEnv_shape cfg : ∃ p, portFromEnv env cfg = cfg <| HTTPPort := p |>.
Proof.
  assert (∃ p, cfg = cfg <| HTTPPort := p |>) by (exists (HTTPPort cfg); by destruct cfg).
  unfold portFromEnv. repeat case_match; eauto.
Qed.

Lemma fetchJWKS_shape provider cfg : ∃ keys, fetchJWKS provider cfg = cfg <| JWTJWKS := keys |>.
Proof.
  assert (∃ keys, cfg = cfg <| JWTJWKS := keys |>) by (exists (JWTJWKS cfg); by destruct cfg).
  unfold fetchJWKS. repeat case_match; eauto.
Qed.

(** The fields a database URL gives. *)
Record Target := MkTarget {
  t_Host : string; t_Port : Z; t_User : string; t_Pass : string; t_Database : string; t_SSLMode : string
}.
Definition target_of (cfg : Prest) : Target :=
  MkTarget (PGHost cfg) (PGPort cfg) (PGUser cfg) (PGPass cfg) (PGDatabase cfg) (PGSSLMode cfg).
Definition with_target (t : Target) (cfg : Prest) : Prest :=
  cfg <| PGHost := t_Host t |> <| PGPort := t_Port t |> <| PGUser := t_User t |> <| PGPass := t_Pass t |>
    <| PGDatabase := t_Database t |> <| PGSSLMode := t_SSLMode t |>.

Lemma parseDatabaseURL_shape b cfg :
  parseDatabaseURL b cfg = with_target (target_of (parseDatabaseURL b cfg)) cfg.
Proof. unfold parseDatabaseURL. repeat case_match; by destruct cfg. Qed.

Lemma with_target_of t cfg : target_of (with_target t cfg) = t.
Proof. by destruct t. Qed.

(** A field that none of them assigns. *)
Ltac through_url f :=
  lazymatch goal with |- context [parseDatabaseURL ?b ?c] =>
    transitivity (f (parseDatabaseURL b c)); [done|]; rw (parseDatabaseURL_shape b c) end.

Lemma parseDBConfig_filters v b cfg :
  UserIDFilters (parseDBConfig env v b cfg) = UserIDFilters cfg ∧
  TenantCompatFilters (parseDBConfig env v b cfg) = TenantCompatFilters cfg.
Proof.
  unfold parseDBConfig; cbv zeta.
  split; [destruct hasNamedURLs; through_url UserIDFilters|destruct hasNamedURLs; through_url TenantCompatFilters];
    by destruct (String.eqb (env "DATABASE_URL") "").
Qed.



(** What [Parse] returns, field by field, in terms of its parts. *)
Lemma Parse_fields provider b configFile fs v cfg v' cfg' :
  Parse env provider b configFile fs v cfg = Runs (v', cfg') →
  v' = (read_file env configFile fs v cfg).1 ∧
  ∃ cfg1 p, parseAuthConfig env v' (read_file env configFile fs v cfg).2 = Runs cfg1 ∧
    let db := parseDBConfig env v' b ((parseHTTPConfig env v' cfg1) <| HTTPPort := p |>) in
    UserIDFilters cfg' = UserIDFilters cfg1 ∧ TenantCompatFilters cfg' = TenantCompatFilters cfg1 ∧
    PGNamedURLs cfg' = PGNamedURLs db ∧ PGURLs cfg' = PGURLs db ∧ target_of cfg' = target_of db ∧
    JSONAggType cfg' = getJSONAgg (GetString env v' "json.agg.type") ∧
    (EnableDefaultJWT cfg', Debug cfg', AuthEnabled cfg') =
      (GetBool env v' "jwt.default", GetBool env v' "debug", AuthEnabled db) ∧
    (JWTKey cfg', JWTWellKnownURL cfg') = (GetString env v' "jwt.key", GetString env v' "jwt.wellknownurl").
Proof.
  unfold Parse. destruct (read_file env configFile fs v cfg) as [v1 cfg1].
  intros (cfg2 & Hauth & E)%bind_Runs. cbv zeta in E.
  destruct (portFromEnv_shape (parseHTTPConfig env v1 cfg2)) as [p Hp]. rw Hp in E. clear Hp.
  destruct (parseDBConfig_filters v1 b ((parseHTTPConfig env v1 cfg2) <| HTTPPort := p |>)) as [F1 F2].
  assert (UserIDFilters ((parseHTTPConfig env v1 cfg2) <| HTTPPort := p |>) = UserIDFilters cfg2) as G1 by reflexivity.
  assert (TenantCompatFilters ((parseHTTPConfig env v1 cfg2) <| HTTPPort := p |>) = TenantCompatFilters cfg2) as G2
    by reflexivity.
  apply Runs_inj, pair_equal_spec in E as [<- E]. split; [done|]. exists cfg2, p. split; [exact Hauth|].
  cbv zeta. rewrite <- G1, <- G2, <- F1, <- F2. clear G1 G2 F1 F2 Hauth.
  revert E. generalize (parseDBConfig env v1 b ((parseHTTPConfig env v1 cfg2) <| HTTPPort := p |>)) as db. intros db E.
  lazymatch type of E with context [fetchJWKS provider ?c] =>
    destruct (fetchJWKS_shape provider c) as [keys Hk]; rw Hk in E; clear Hk end.
  subst cfg'. split_and!; reflexivity.
Qed.
End shape.

(** ** Every configuration that is loaded *)

Class FilesLaws `{Files} := mkdir_exists : ∀ p fs fs', MkdirAll p fs = (fs', None) → IsNotExist fs' p = false.

Record sound_configuration (cfg : Prest) : Prop := {
  sound_aggregate : JSONAggType cfg = "json_agg" ∨ JSONAggType cfg = "jsonb_agg";
  sound_filters : ∀ f g, f ∈ TenantCompatFilters cfg → g ∈ UserIDFilters cfg →
    ¬ (tc_Database f = uf_Database g ∧ tc_Schema f = uf_Schema g ∧ tc_Table f = uf_Table g);
  sound_urls : PGNamedURLs cfg = [] ∨ PGURLs cfg = []
}.

Section loaded.
Context `{UnicodeTables} `{Viper}.




End loaded.

(** ** Nothing configured *)

(** What the server runs with when nothing is configured. *)
Definition default_Prest (hDir : string) : Prest :=
  zero_Prest
    <| AuthSchema := "public" |> <| AuthTable := "prest_users" |> <| AuthUsername := "username" |>
    <| AuthPassword := "password" |> <| AuthEncrypt := "MD5" |> <| AuthType := "body" |>
    <| HTTPHost := "0.0.0.0" |> <| HTTPPort := 3000%Z |> <| HTTPTimeout := 60%Z |>
    <| HTTPSCert := "/etc/certs/cert.crt" |> <| HTTPSKey := "/etc/certs/cert.key" |>
    <| PGHost := "127.0.0.1" |> <| PGPort := 5432%Z |> <| PGUser := "postgres" |> <| PGPass := "postgres" |>
    <| PGDatabase := "prest" |> <| PGSSLMode := "disable" |>
    <| PGMaxOpenConn := 10%Z |> <| PGConnTimeout := 10%Z |> <| PGCache := true |> <| SingleDB := true |>
    <| JWTAlgo := "HS256" |> <| JWTWhiteList := ["^\/auth$"] |> <| EnableDefaultJWT := true |>
    <| JSONAggType := "jsonb_agg" |> <| QueriesPath := filepath_Join [hDir; "queries"] |>
    <| CORSAllowOrigin := ["*"] |> <| CORSAllowHeaders := ["Content-Type"] |>
    <| CORSAllowMethods := ["GET"; "HEAD"; "POST"; "PUT"; "DELETE"; "OPTIONS"] |> <| CORSAllowCredentials := true |>
    <| ContextPath := "/" |> <| PluginPath := "./lib" |>
    <| Expose := MkExposeConf false true true true |>
    <| Cache := MkCacheConfig false 10 "./" ".cache.prestd.db" [] |>.

(** The defaults of a fresh viper after [viperCfg]. *)
Definition all_defaults (hDir : string) : list (string * setting) :=
  defaults ++ [("queries.location", SString (filepath_Join [hDir; "queries"]))].

Fixpoint last_default (k : string) (l : list (string * setting)) : option setting :=
  match l with
  | [] => None
  | (k', x) :: l => match last_default k l with Some y => Some y | None => if decide (k' = k) then Some x else None end
  end.

Lemma last_default_snoc k l k' x :
  last_default k (l ++ [(k', x)]) = if decide (k' = k) then Some x else last_default k l.
Proof.
  induction l as [|[j y] l IH]; cbn [app last_default]; [by case_decide|]. rw IH. by destruct (decide (k' = k)).
Qed.

Section unconfigured.
Opaque filepath_Join.
Context `{UnicodeTables} `{ViperLaws}.

Lemma default_of_foldl l v k :
  default_of (foldl (λ v '(k, x), SetDefault k x v) v l) k =
  match last_default k l with Some x => Some x | None => default_of v k end.
Proof.
  revert v; induction l as [|[k' x] l IH]; intros v; cbn [foldl last_default]; [done|].
  rw IH default_SetDefault. repeat case_match; congruence.
Qed.

Definition fresh (v : viper) : Prop := ∀ k, default_of v k = None.

Lemma viperCfg_defaults env hDir v configFile v' k :
  fresh v → viperCfg env (Val hDir) v = Runs (configFile, v') →
  configFile = getPrestConfFile (env "PREST_CONF") ∧ default_of v' k = last_default k (all_defaults hDir).
Proof.
  intros Hv. unfold viperCfg, all_defaults. destruct (filepath_Split _) as [dir file]. cbv zeta.
  intros E%Runs_inj. apply pair_equal_spec in E as [<- <-]. split; [done|].
  rw default_SetDefault default_of_foldl.
  rw default_SetConfigType default_SetConfigName default_AddConfigPath default_SetEnvKeyReplacer
    default_AutomaticEnv default_SetEnvPrefix Hv last_default_snoc.
  destruct (decide _); [reflexivity|]. by destruct (last_default k defaults).
Qed.

Lemma read_file_default env configFile fs v cfg k : default_of (read_file env configFile fs v cfg).1 k = default_of v k.
Proof.
  unfold read_file. pose proof (default_ReadInConfig fs v k).
  repeat case_match; cbn [fst snd] in *; simplify_eq; cbn [fst]; rw ?default_ReadConfig; done.
Qed.

(** The values of a viper none of whose keys is given. *)
Definition nothing_given (env : environ) (v : viper) : Prop := ∀ k, unset env v k = true.

Section getters.
Variables (env : environ) (v : viper) (ds : list (string * setting)).
Hypothesis Hunset : nothing_given env v.
Hypothesis Hdefault : ∀ k, default_of v k = last_default k ds.

Lemma string_default k s : last_default k ds = Some (SString s) → GetString env v k = s.
Proof. intros E. pose proof (GetString_unset env v k (Hunset k)) as G. by rw Hdefault E in G. Qed.
Lemma string_zero k : last_default k ds = None → GetString env v k = "".
Proof. intros E. pose proof (GetString_unset env v k (Hunset k)) as G. by rw Hdefault E in G. Qed.
Lemma bool_default k b : last_default k ds = Some (SBool b) → GetBool env v k = b.
Proof. intros E. pose proof (GetBool_unset env v k (Hunset k)) as G. by rw Hdefault E in G. Qed.
Lemma bool_zero k : last_default k ds = None → GetBool env v k = false.
Proof. intros E. pose proof (GetBool_unset env v k (Hunset k)) as G. by rw Hdefault E in G. Qed.
Lemma int_default k z : last_default k ds = Some (SInt z) → GetInt env v k = z.
Proof. intros E. pose proof (GetInt_unset env v k (Hunset k)) as G. by rw Hdefault E in G. Qed.
Lemma slice_default k l : last_default k ds = Some (SStrings l) → GetStringSlice env v k = l.
Proof. intros E. pose proof (GetStringSlice_unset env v k (Hunset k)) as G. by rw Hdefault E in G. Qed.
Lemma slice_zero k : last_default k ds = None → GetStringSlice env v k = [].
Proof. intros E. pose proof (GetStringSlice_unset env v k (Hunset k)) as G. by rw Hdefault E in G. Qed.
Lemma table_zero {A} (sh : shape A) k :
  match last_default k ds with None | Some (SPlugins []) => True | _ => False end → UnmarshalKey sh env v k = ([], None).
Proof.
  intros E. pose proof (UnmarshalKey_unset sh env v k (Hunset k)) as G. rw Hdefault in G. by repeat case_match.
Qed.
End getters.

(** Every getter becomes the value of its key. *)
Ltac given_values Hu Hd :=
  repeat match goal with
  | |- context [GetString ?e ?v ?k] =>
      first [rw !(string_default e v _ Hu Hd k _ eq_refl)|rw !(string_zero e v _ Hu Hd k eq_refl)]
  | |- context [GetBool ?e ?v ?k] =>
      first [rw !(bool_default e v _ Hu Hd k _ eq_refl)|rw !(bool_zero e v _ Hu Hd k eq_refl)]
  | |- context [GetInt ?e ?v ?k] => rw !(int_default e v _ Hu Hd k _ eq_refl)
  | |- context [GetStringSlice ?e ?v ?k] =>
      first [rw !(slice_default e v _ Hu Hd k _ eq_refl)|rw !(slice_zero e v _ Hu Hd k eq_refl)]
  | |- context [UnmarshalKey ?sh ?e ?v ?k] => rw !(table_zero e v _ Hu Hd sh k I)
  end.

Ltac given_part Hu Hd f t :=
  eassert (t = _) as ->; [unfold f; given_values Hu Hd; reflexivity|].

Lemma Parse_unconfigured env provider b hDir configFile fs v :
  (∀ k, default_of v k = last_default k (all_defaults hDir)) →
  nothing_given env (read_file env configFile fs v zero_Prest).1 → env "PORT" = "" → env "DATABASE_URL" = "" →
  Parse env provider b configFile fs v zero_Prest
  = Runs ((read_file env configFile fs v zero_Prest).1, default_Prest hDir).
Proof.
  intros Hd Hu Hport Hurl. unfold Parse. destruct (read_file env configFile fs v zero_Prest) as [v1 cfg1] eqn:E.
  cbn [fst] in *.
  assert (∀ k, default_of v1 k = last_default k (all_defaults hDir)) as Hd1.
  { intros k. rw -Hd -(read_file_default env configFile fs v zero_Prest) E. done. }
  assert (cfg1 = zero_Prest ∨ cfg1 = zero_Prest <| PGSSLMode := "disable" |>) as Hcfg.
  { revert E. unfold read_file. repeat case_match; intros [= <- <-]; auto. }
  given_part Hu Hd1 @parseAuthConfig (parseAuthConfig env v1).
  given_part Hu Hd1 @parseHTTPConfig (parseHTTPConfig env v1).
  given_part Hu Hd1 @parseDBConfig (parseDBConfig env v1 b).
  given_part Hu Hd1 @loadCacheConfig (loadCacheConfig env v1).
  given_values Hu Hd1. unfold portFromEnv. rw !Hport !Hurl. clear -Hcfg.
  unfold default_Prest. generalize (filepath_Join [hDir; "queries"]) as q. intros q.
  destruct Hcfg as [-> | ->]; vm_compute; reflexivity.
Qed.

(** A server for which nothing is configured, neither in a file nor in the
    environment, runs with the configuration [default_Prest], whose checks
    [ValidateJWTConfig] does not pass: it would verify tokens, and has nothing
    to verify them with. *)
Theorem default_configuration godotenv_Load hDir provider b env v fs :
  fresh v →
  let env' := godotenv_Load env in
  env' "PORT" = "" → env' "DATABASE_URL" = "" →
  (∀ configFile v', viperCfg env' (Val hDir) v = Runs (configFile, v') →
     nothing_given env' (read_file env' configFile fs v' zero_Prest).1) →
  (∃ v' fs', Load godotenv_Load (Val hDir) provider b env v fs = Runs (env', v', default_Prest hDir, fs')) ∧
  ValidateJWTConfig (default_Prest hDir) = Err ErrJWTDefaultEnabledNoKey.
Proof.
  intros Hfresh env'. intros Hport Hurl Hgiven. split; [|done]. unfold Load. fold env'. cbv zeta.
  destruct (viperCfg env' (Val hDir) v) as [[configFile v']|n] eqn:Hv.
  - cbn [mbind run_bind]. rw (Parse_unconfigured env' provider b hDir configFile fs v').
    + intros k. apply (viperCfg_defaults _ _ _ _ _ k Hfresh Hv).
    + exact (Hgiven _ _ eq_refl).
    + done.
    + done.
    + eexists _, _. reflexivity.
  - unfold viperCfg in Hv. by destruct (filepath_Split _).
Qed.
End unconfigured.

(** ** The database URL *)

Section url.
Context `{UnicodeTables} `{Viper}.
Variables (env : environ) (b : string → option string).

Lemma parseDBConfig_target v cfg :
  env "DATABASE_URL" ≠ "" →
  ∃ c, PGURL c = env "DATABASE_URL" ∧ target_of (parseDBConfig env v b cfg) = target_of (parseDatabaseURL b c) ∧
    target_of c = MkTarget (GetString env v "pg.host") (GetInt env v "pg.port") (GetString env v "pg.user")
                    (GetString env v "pg.pass") (GetString env v "pg.database") (GetString env v "pg.ssl.mode").
Proof.
  intros Hurl%String.eqb_neq. unfold parseDBConfig; cbv zeta. rw Hurl. cbv iota.
  lazymatch goal with |- context [parseDatabaseURL b ?c] => exists c; generalize (parseDatabaseURL b c) as d end.
  intros d. split; [done|]. split; [by destruct hasNamedURLs|done].
Qed.

Lemma parseDatabaseURL_target c u :
  url_Parse b (PGURL c) = Some u → PGURL c ≠ "" → Port u ≠ "" →
  target_of (parseDatabaseURL b c) =
  match Atoi (Port u) with
  | Val p => MkTarget (Hostname u) p (Username u) (default (PGPass c) (Password u)) (ReplaceAll (u_Path u) "/" "")
               (if String.eqb (QueryGet u "sslmode") "" then PGSSLMode c else QueryGet u "sslmode")
  | _ => MkTarget (Hostname u) (PGPort c) (PGUser c) (PGPass c) (PGDatabase c) (PGSSLMode c)
  end.
Proof.
  intros Hu Hne%String.eqb_neq Hport%String.eqb_neq. unfold parseDatabaseURL. rw Hne Hu Hport.
  destruct (Atoi (Port u)); [|done..]. cbv zeta. by destruct (Password u), (String.eqb (QueryGet u "sslmode") "").
Qed.

(** The code takes every slash out of the path of the URL. *)
Definition without_slashes (s : string) : string := ReplaceAll s "/" "".

Lemma without_after_slash db : without_slashes ("/" +:+ after_slash db) = without_slashes db.
Proof.
  unfold without_slashes, after_slash. cbn [String.append]. rw ReplaceAll1_cons.
  destruct db as [|c db]; [done|]. rw ReplaceAll1_cons (Ascii.eqb_sym "/" c).
  destruct (Ascii.eqb c "/") eqn:Hc; [done|]. by rw ReplaceAll1_cons (Ascii.eqb_sym "/" c) Hc.
Qed.

Lemma without_slashes_id db : no_byte "/" db = true → without_slashes db = db.
Proof. apply ReplaceAll1_none. Qed.

(** C18: When [DATABASE_URL] is the URL the connection pool would write for a
    server and one of its databases, the configuration that is loaded connects
    to that server with that user, password and SSL mode, and to that database
    but for the slashes in its name, which the code takes out; a name without
    one is kept as it is.  The user, the password and the database name may hold
    any bytes; the host is made of letters, digits, [-], [.], [_] and [~], the
    port is not negative, the database name is neither empty nor [*], the SSL
    mode is not empty; the file and the other variables say whatever they like. *)
Theorem database_url_round_trip provider configFile fs v v' cfg c db :
  named_server c → db ≠ "" → db ≠ "*" → PGSSLMode c ≠ "" →
  env "DATABASE_URL" = GetURI c db →
  Parse env provider b configFile fs v zero_Prest = Runs (v', cfg) →
  target_of cfg = MkTarget (PGHost c) (PGPort c) (PGUser c) (PGPass c) (without_slashes db) (PGSSLMode c) ∧
  (no_byte "/" db = true → without_slashes db = db).
Proof.
  intros Hs Hne Hstar Hssl Hurl (-> & cfg1 & p & _ & E)%Parse_fields. cbv zeta in E.
  split; [|apply without_slashes_id].
  destruct E as (_ & _ & _ & _ & -> & _).
  assert (GetURI c db ≠ "") as Huri by done.
  destruct (parseDBConfig_target (read_file env configFile fs v zero_Prest).1
              ((parseHTTPConfig env (read_file env configFile fs v zero_Prest).1 cfg1) <| HTTPPort := p |>))
    as (c0 & Hc0 & -> & _); [by rw Hurl|]. rw Hurl in Hc0.
  assert (string_forall is_digit_byte (Itoa (PGPort c)) = true ∧ Itoa (PGPort c) ≠ "") as [Hd Hdne].
  { rw Itoa_nonneg; [apply Hs|]. split; apply ntoa_spec. }
  set (u := MkURL "postgres" "" (Some (PGUser c, Some (PGPass c))) (PGHost c +:+ ":" +:+ Itoa (PGPort c)) ("/" +:+ after_slash db)
              (query_encode (uri_query c))).
  destruct (host_port_split b (PGHost c) (Itoa (PGPort c)) u) as (Hhost & Hport & _); [apply Hs|done|done|].
  rw (parseDatabaseURL_target c0 u).
  - rw Hc0. by apply GetURI_parses.
  - by rw Hc0.
  - by rw Hport.
  - rw Hport Atoi_Itoa; [destruct Hs; unfold MinInt64 in *; lia|].
    rw Hhost (without_after_slash db : ReplaceAll _ _ _ = _) (query_get u (uri_query c)) //. unfold uri_query.
    by destruct (PGSSLCert c), (PGSSLKey c); cbn; rw (proj2 (String.eqb_neq _ _) Hssl).
Qed.

(** A [DATABASE_URL] whose port does not fit an integer changes the host
    only: the server connects to the host of the URL with the port, the user,
    the password and the database of the file, or their defaults. *)
Theorem unreadable_port_splits_the_url provider configFile fs v v' cfg user pass host port db query :
  string_forall host_byte host = true → string_forall is_digit_byte port = true → string_forall part_byte query = true →
  port ≠ "" → is_val (Atoi port) = false →
  env "DATABASE_URL" = database_url user pass host port (url_escape db encodePath) query →
  Parse env provider b configFile fs v zero_Prest = Runs (v', cfg) →
  target_of cfg = MkTarget host (GetInt env v' "pg.port") (GetString env v' "pg.user") (GetString env v' "pg.pass")
                    (GetString env v' "pg.database") (GetString env v' "pg.ssl.mode").
Proof.
  intros Hh Hp Hq Hne Hbig Hurl (-> & cfg1 & p & _ & E)%Parse_fields. cbv zeta in E.
  destruct E as (_ & _ & _ & _ & -> & _).
  destruct (parseDBConfig_target (read_file env configFile fs v zero_Prest).1
              ((parseHTTPConfig env (read_file env configFile fs v zero_Prest).1 cfg1) <| HTTPPort := p |>))
    as (c0 & Hc0 & -> & Ht); [by rw Hurl|]. rw Hurl in Hc0.
  set (u := MkURL "postgres" "" (Some (user, Some pass)) (host +:+ ":" +:+ port) ("/" +:+ db) query).
  destruct (host_port_split b host port u) as (Hhost & Hport & _); [done..|].
  rw (parseDatabaseURL_target c0 u).
  - rw Hc0. by apply url_Parse_database.
  - by rw Hc0.
  - by rw Hport.
  - rw Hport Hhost. destruct (Atoi port); [done|..]; unfold target_of in Ht; by injection Ht as _ -> -> -> -> ->.
Qed.
End url.

(** ** Placeholders *)

Lemma replace_drop r f n s : replace_from r f n 0 s = replace_from r f 0 0 (drop_bytes n s).
Proof. revert s; induction n as [|n IH]; intros s; [done|]. destruct s; [done|]. cbn [replace_from drop_bytes]. apply IH. Qed.

Lemma replace_ascii r f c s :
  (bval c < 128)%N → MatchHere r (String c s) = None →
  replace_from r f 0 0 (String c s) = String c (replace_from r f 0 0 s).
Proof. intros Hc Hm. cbn [replace_from]. rw Hm. rw decode_rune_ascii; [exact Hc|reflexivity]. Qed.

Lemma replace_match r f c s n caps :
  MatchHere r (String c s) = Some (S n, caps) →
  replace_from r f 0 0 (String c s) = f (take_bytes (S n) (String c s)) +:+ replace_from r f 0 0 (drop_bytes n s).
Proof. intros Hm. cbn [replace_from]. rw Hm. by rw replace_drop. Qed.

(** A text that can follow a name: nothing, or an ASCII byte of no name. *)
Definition ends_name (s : string) : Prop :=
  match s with "" => True | String c _ => (bval c < 128)%N ∧ word_rune (bval c) = false end.

Lemma star_set_all p w s caps k r :
  string_forall (in_class p) w = true →
  match s with "" => True | String c _ => (bval c < 128)%N ∧ p (bval c) = false end →
  k s caps = Some r → ReMatch (RStar true (RSet p)) (w +:+ s) caps k = Some r.
Proof.
  intros Hw Hs Hk. apply star_set_run; [done|]. destruct s as [|c s].
  - by rw ReMatch_star star_loop_empty.
  - destruct Hs as [Hc Hp]. by rw star_set_stop.
Qed.

Lemma match_placeholder c name rest :
  in_class alpha_us c = true → string_forall (in_class word_rune) name = true → ends_name rest →
  ∃ caps, MatchHere envVarRe (String "$" (String c name +:+ rest)) = Some (S (slen (String c name)), caps).
Proof.
  intros [Hc Hlt]%in_class_true Hname Hrest. unfold MatchHere, envVarRe. rw ReMatch_cat.
  rw (ReMatch_set (N.eqb 36)) // ReMatch_grp ReMatch_cat. cbn [String.append]. rw ReMatch_set //.
  erewrite star_set_all; [|done|exact Hrest|reflexivity]. eexists.
  f_equal. f_equal. cbn. rw slen_app. lia.
Qed.

(** What a file is made of: text without a dollar sign, and placeholders. *)
Inductive piece := Text (s : string) | Placeholder (c : ascii) (name : string).

Definition source (p : piece) : string := match p with Text s => s | Placeholder c name => "$" +:+ String c name end.
Definition resolved (env : environ) (p : piece) : string :=
  match p with
  | Text s => s
  | Placeholder c name => match env (String c name) with "" => source p | v => v end
  end.

Definition text_byte (c : ascii) : bool := (bval c <? 128)%N && negb (Ascii.eqb c "$").

Fixpoint pieces_ok (ps : list piece) : Prop :=
  match ps with
  | [] => True
  | Text s :: ps => string_forall text_byte s = true ∧ pieces_ok ps
  | Placeholder c name :: ps =>
      in_class alpha_us c = true ∧ string_forall (in_class word_rune) name = true ∧
      ends_name (String.concat "" (source <$> ps)) ∧ pieces_ok ps
  end.

Lemma concat_cons s l : String.concat "" (s :: l) = s +:+ String.concat "" l.
Proof. destruct l; cbn; [by rw sapp_nil_r|done]. Qed.

Lemma render_text env s rest : string_forall text_byte s = true → render env (s +:+ rest) = s +:+ render env rest.
Proof.
  induction s as [|c s IH]; [done|]. cbn [string_forall]. rw andb_true_iff. intros [Hc Hs].
  unfold render, ReplaceAllFunc in *. cbn [String.append]. rw -IH //. apply andb_true_iff in Hc as [Hc Hd].
  apply replace_ascii; [by apply N.ltb_lt|]. unfold MatchHere, envVarRe. rw ReMatch_cat lit_fails //.
  - by apply N.ltb_lt.
  - clear -Hd. intros E. revert Hd E. ascii_cases c.
Qed.

(** Rendering a configuration file replaces every placeholder by the value
    of its variable, in one pass (a dollar sign in a value is not looked at
    again), and keeps the placeholders of variables that are not set and all the
    text between them. *)
Theorem render_resolves env ps :
  pieces_ok ps →
  render env (String.concat "" (source <$> ps)) = String.concat "" (resolved env <$> ps).
Proof.
  induction ps as [|[s|c name] ps IH]; [done|..]; cbn [pieces_ok fmap list_fmap]; rw !concat_cons.
  - intros [Hs Hps]. cbn [source]. rw render_text //. by rw (IH Hps).
  - intros (Hc & Hname & Hrest & Hps). rw -(IH Hps).
    destruct (match_placeholder c name (String.concat "" (source <$> ps))) as [caps Hm]; [done..|].
    unfold render, ReplaceAllFunc. cbn [source].
    change (("$" +:+ String c name) +:+ String.concat "" (source <$> ps))
      with (String "$" (String c name +:+ String.concat "" (source <$> ps))).
    rw (replace_match _ _ _ _ _ _ Hm). rw drop_bytes_app. f_equal.
    change (take_bytes (S (slen (String c name))) (String "$" (String c name +:+ String.concat "" (source <$> ps))))
      with (String "$" (take_bytes (slen (String c name)) (String c name +:+ String.concat "" (source <$> ps)))).
    rw take_bytes_app. done.
Qed.

Lemma render_witness :
  let ps := [Text "url = '"; Placeholder "D" "SN"; Text "' # "; Placeholder "X" "1"; Placeholder "D" "SN"] in
  let env := λ v, if String.eqb v "DSN" then "postgres://u:$X1@h/db" else "" in
  pieces_ok ps ∧
  render env "url = '$DSN' # $X1$DSN" = "url = 'postgres://u:$X1@h/db' # $X1postgres://u:$X1@h/db".
Proof.
  intros ps env. assert (pieces_ok ps) as Hok by (vm_compute; tauto). split; [exact Hok|].
  exact (render_resolves env ps Hok).
Defined.

(** ** A concrete viper

    Settings in tables, a file system that is a set of paths: the laws hold of
    them. *)

Record disk := MkDisk { d_paths : gset string; d_settings : gmap string setting }.

#[export] Instance disk_files : Files := {|
  files := disk;
  ReadFile _ path := Err ("open " +:+ path +:+ ": no such file or directory");
  IsNotExist d path := bool_decide (path ∉ d_paths d);
  MkdirAll path d := (MkDisk ({[path]} ∪ d_paths d) (d_settings d), None)
|}.

#[export] Instance disk_laws : FilesLaws.
Proof. intros p d d' [= <-]. apply bool_decide_eq_false. cbn. set_solver. Qed.

Record table := MkTable { tbl_given : gmap string setting; tbl_default : gmap string setting }.

Definition table_get {A} (f : setting → option A) (zero : A) (v : table) (k : string) : A :=
  default zero ((match tbl_given v !! k with Some x => Some x | None => tbl_default v !! k end) ≫= f).

#[export] Instance table_viper : Viper := {|
  viper := table;
  SetEnvPrefix _ v := v; AutomaticEnv v := v; SetEnvKeyReplacer _ v := v;
  AddConfigPath _ v := v; SetConfigName _ v := v; SetConfigType _ v := v;
  SetDefault k x v := MkTable (tbl_given v) (<[k := x]> (tbl_default v));
  ReadConfig _ v := (v, None);
  ReadInConfig d v := (MkTable (d_settings d) (tbl_default v), None);
  GetString _ := table_get (λ x, match x with SString s => Some s | _ => None end) "";
  GetBool _ := table_get (λ x, match x with SBool b => Some b | _ => None end) false;
  GetInt _ := table_get (λ x, match x with SInt z => Some z | _ => None end) 0%Z;
  GetStringSlice _ := table_get (λ x, match x with SStrings l => Some l | _ => None end) [];
  UnmarshalKey A _ _ v k := ([], match tbl_given v !! k with Some _ => Some "not a list" | None => None end)
|}.

#[export] Program Instance table_laws : ViperLaws := {|
  unset _ v k := bool_decide (tbl_given v !! k = None);
  default_of v k := tbl_default v !! k
|}.
Next Obligation. intros k k' x v. cbn. case_decide; subst; by simplify_map_eq. Qed.
Solve Obligations with
  (cbn; intros; repeat match goal with H : bool_decide _ = true |- _ => apply bool_decide_eq_true in H as -> end;
   unfold table_get; repeat match goal with H : _ !! _ = None |- _ => rw H end;
   repeat case_match; simplify_eq; done).

(** ** Witnesses *)

#[local] Existing Instance ascii_tables.
Definition no_provider : Provider := MkProvider (λ _, Err "refused") (λ _, Err "no") unit (λ _, Err "no") (λ _, Err "no").
Definition fresh_table : @viper disk_files table_viper := MkTable ∅ ∅.
Definition bare_disk : @files disk_files := MkDisk ∅ ∅.
Definition cache_disk : @files disk_files :=
  MkDisk ∅ {["cache.enabled" := SBool true; "cache.storagepath" := SString "/tmp/c"; "json.agg.type" := SString "x"]}.


Lemma fresh_nothing_given configFile v' :
  viperCfg (λ _, "") (Val "/home/u") fresh_table = Runs (configFile, v') →
  nothing_given (λ _, "") (read_file (λ _, "") configFile bare_disk v' zero_Prest).1.
Proof.
  intros E k. apply bool_decide_eq_true.
  assert (tbl_given (read_file (λ _, "") configFile bare_disk v' zero_Prest).1 = ∅) as Hgiven.
  { assert (isYAML configFile = false) as Hyaml
      by (by destruct (viperCfg_defaults _ _ _ _ _ "" (λ k, lookup_empty k) E) as [-> _]).
    unfold read_file. by rw Hyaml. }
  rw Hgiven. apply lookup_empty.
Qed.

Lemma default_witness :
  (∃ v' fs', Load id (Val "/home/u") no_provider (λ _, None) (λ _, "") fresh_table bare_disk
             = Runs (λ _, "", v', default_Prest "/home/u", fs')) ∧
  ValidateJWTConfig (default_Prest "/home/u") = Err ErrJWTDefaultEnabledNoKey.
Proof.
  apply (default_configuration id "/home/u" no_provider (λ _, None) (λ _, "") fresh_table bare_disk).
  - intros k. apply lookup_empty.
  - done.
  - done.
  - apply fresh_nothing_given.
Defined.

Definition server : Prest :=
  zero_Prest <| PGHost := "db-1.local" |> <| PGPort := 5433%Z |> <| PGUser := "a:b@c" |> <| PGPass := "p/#?%" |>
    <| PGSSLMode := "require" |>.
Definition with_url (url : string) : environ := λ k, if String.eqb k "DATABASE_URL" then url else "".

Lemma round_trip_witness :
  ∃ v cfg, Parse (with_url (GetURI server "my/db")) no_provider (λ _, None) "./prest.toml" bare_disk fresh_table zero_Prest
           = Runs (v, cfg) ∧ target_of cfg = MkTarget "db-1.local" 5433 "a:b@c" "p/#?%" "mydb" "require".
Proof.
  destruct (Parse _ _ _ _ _ _ _) as [[v cfg]|n] eqn:E; [|by vm_compute in E].
  exists v, cfg. split; [done|].
  apply (database_url_round_trip (with_url (GetURI server "my/db")) (λ _, None) no_provider "./prest.toml" bare_disk fresh_table
           v cfg server "my/db").
  - by vm_compute.
  - done.
  - done.
  - done.
  - done.
  - exact E.
Defined.

Definition big_url : string := database_url "u" "p" "elsewhere" "99999999999999999999" (url_escape "d" encodePath) "x=1".

Definition admin_disk : @files disk_files :=
  MkDisk ∅ {["pg.user" := SString "admin"; "pg.pass" := SString "secret"]}.

Lemma bad_port_witness :
  ∃ v cfg, Parse (with_url big_url) no_provider (λ _, None) "./prest.toml"
             admin_disk fresh_table zero_Prest
           = Runs (v, cfg) ∧ target_of cfg = MkTarget "elsewhere" 0 "admin" "secret" "" "".
Proof.
  destruct (Parse _ _ _ _ _ _ _) as [[v cfg]|n] eqn:E; [|by vm_compute in E].
  exists v, cfg. split; [done|].
  pose proof (unreadable_port_splits_the_url (with_url big_url) (λ _, None) no_provider "./prest.toml" admin_disk fresh_table
        v cfg "u" "p" "elsewhere" "99999999999999999999" "d" "x=1" eq_refl eq_refl eq_refl ltac:(done) eq_refl eq_refl E) as ->.
  apply Parse_fields in E as [-> _]. by vm_compute.
Defined.
