(* ===== verification/Startup.v ===== *)
(** * Starting the server: cmd/prestd/main.go, cmd/root.go, cmd/migrate.go

    What [main] does after it has loaded the configuration: the extra databases
    are registered, the default database is connected to, and the server
    listens; the migration commands and the URL they connect to.  The command
    line library, the migration library and the listeners are parameters. *)

From S2P Require Import Prelude GoStrings GoStd Cache Config Http Connection Scripts GoUrl UrlSpec Settings.

(** ** [registerExtraURLs] *)

Section startup.
Context `{UnicodeTables}.
Variable dial : string → gores unit.
Variable bracketed_host : string → option string.
Variable PrestConf : Prest.

Abbreviation DBNameFromURL := (DBNameFromURL bracketed_host).

(** Errors are only logged; an alias is mapped to the database it stands for. *)
Definition register_named (st : ConnState) (nc : PGURLConfig) : ConnState :=
  if String.eqb (pu_URL nc) "" then st
  else match AddURI dial PrestConf (pu_Name nc) (pu_URL nc) st with
  | (st, Val _) =>
      let realName := DBNameFromURL (pu_URL nc) in
      if negb (String.eqb realName "") && negb (String.eqb (pu_Name nc) realName) then SetRealName (pu_Name nc) realName st
      else st
  | (st, _) => st
  end.

Definition register_url (st : ConnState) (iu : nat * string) : ConnState :=
  let '(i, u) := iu in
  if String.eqb u "" then st
  else
    let name := DBNameFromURL u in
    let name := if String.eqb name "" then "pg_urls_" +:+ Itoa (Z.of_nat i) else name in
    (AddURI dial PrestConf name u st).1.

Definition registerExtraURLs (st : ConnState) : ConnState :=
  foldl register_url (foldl register_named st (PGNamedURLs PrestConf)) (imap pair (PGURLs PrestConf)).

(** ** The server *)

(** [postgres.Load]: in single-database mode the default database must answer. *)
Definition postgres_Load (ping : nat → gores unit) (st : ConnState) : run ConnState :=
  if SingleDB PrestConf then
    let st := if String.eqb (GetDatabase st) "" then SetDatabase (PGDatabase PrestConf) st else st in
    match Connection.Get dial PrestConf st with
    | (st, Val h) => match ping h with Val _ => Runs st | _ => Exits 1 end
    | _ => Exits 1
    end
  else Runs st.

Inductive listener := ListenAndServeTLS (address cert key : string) | ListenAndServe (address : string).

(** What the server listens on, one after the other; a listener returns when it
    fails, [None] standing for a nil error. *)
Definition startServer (serve : listener → option error) : list listener * run unit :=
  let address := HTTPHost PrestConf +:+ ":" +:+ Itoa (HTTPPort PrestConf) in
  let tls := ListenAndServeTLS address (HTTPSCert PrestConf) (HTTPSKey PrestConf) in
  let plain := ListenAndServe address in
  if HTTPSMode PrestConf then
    match serve tls with
    | Some _ => ([tls], Exits 1)
    | None => ([tls; plain], match serve plain with Some _ => Exits 1 | None => Runs tt end)
    end
  else ([plain], match serve plain with Some _ => Exits 1 | None => Runs tt end).

(** The command without a subcommand; the adapter is not set yet. *)
Definition RootCmd_Run (ping : nat → gores unit) (serve : listener → option error) (st : ConnState)
  : list listener * run unit :=
  match postgres_Load ping st with
  | Runs _ => startServer serve
  | Exits n => ([], Exits n)
  end.

(** ** Migrations *)

(** [url.PathEscape] escapes as [url.escape] in the mode of a path segment. *)
Definition shouldEscape_segment (c : ascii) : bool :=
  let n := bval c in
  if is_lower_ascii n || is_upper_ascii n || is_digit_ascii n then false
  else if existsb (N.eqb n) [45; 95; 46; 126]%N then false
  else if existsb (N.eqb n) [36; 38; 43; 44; 47; 58; 59; 61; 63; 64]%N then existsb (N.eqb n) [47; 59; 44; 63]%N
  else true.

Definition escape_segment_byte (c : ascii) : string :=
  if shouldEscape_segment c then "%" +:+ upper_hex_digit (bval c / 16) +:+ upper_hex_digit (bval c mod 16)
  else String c "".

Definition PathEscape (s : string) : string :=
  String.concat "" (escape_segment_byte <$> String.list_ascii_of_string s).

Definition driverURL : string :=
  let q s := url_escape s encodeQueryComponent in
  "postgres://" +:+ PathEscape (PGUser PrestConf) +:+ ":" +:+ PathEscape (PGPass PrestConf) +:+ "@" +:+
  PathEscape (PGHost PrestConf) +:+ ":" +:+ Itoa (PGPort PrestConf) +:+ "/" +:+ PathEscape (PGDatabase PrestConf) +:+
  "?sslmode=" +:+ q (PGSSLMode PrestConf) +:+ "&sslcert=" +:+ q (PGSSLCert PrestConf) +:+
  "&sslkey=" +:+ q (PGSSLKey PrestConf) +:+ "&sslrootcert=" +:+ q (PGSSLRootCert PrestConf).

Definition ErrPathNotSet : error :=
  "Migrations path not set. " +:+ String (ascii_of_nat 10) "Please set it using --path flag or in your prest config file".
Definition ErrURLNotSet : error :=
  "Database URL not set. " +:+ String (ascii_of_nat 10) "Please set it using --url flag or configure it on your prest config file".

(** [checkTable], run before every migration command: the column names of the
    migration table are the answer of [ShowTable]; the statement it executes is
    part of its result. *)
Definition drop_dirty : string := "ALTER TABLE public.schema_migrations DROP COLUMN dirty".

Definition checkTable (path urlConn : string) (show_table : gores (list string)) (db : gores nat)
    (exec : nat → string → gores unit) : list (nat * string) * gores unit :=
  if String.eqb path "" then ([], Err ErrPathNotSet)
  else if String.eqb urlConn "" then ([], Err ErrURLNotSet)
  else match show_table with
  | Val cols =>
      if existsb (String.eqb "dirty") cols then
        match db with
        | Val h => ([(h, drop_dirty)], exec h drop_dirty)
        | Err e => ([], Err e)
        | Panic w => ([], Panic w)
        end
      else ([], Val tt)
  | Err e => ([], Err e)
  | Panic w => ([], Panic w)
  end.

Inductive migration_command := Up | Down | Next | Redo | Reset | MVersion.

Section commands.
(** [migration.Run(ctx, path, urlConn, action)]: how many migrations were
    executed, and which. *)
Variable migrate : string → gores (Z * list string).
Variable path : string.

(** The lines a command prints for an action. *)
Definition report (n : Z) (executed : list string) : list string :=
  ("exec migrations located in " +:+ path) :: ("executed " +:+ Itoa n +:+ " migrations")
  :: ((λ e, e +:+ " SUCCESS") <$> executed).

(** An action, its report, and what follows when it succeeds: the lines that are
    printed and the error. *)
Definition then_print (action : string) (rep : Z → list string → list string) (next : list string * gores unit)
  : list string * gores unit :=
  match migrate action with
  | Val (n, executed) => let '(out, r) := next in (rep n executed ++ out, r)
  | Err e => ([], Err e)
  | Panic w => ([], Panic w)
  end.

Definition upCmd : list string * gores unit := then_print "up" report ([], Val tt).
Definition downCmd : list string * gores unit := then_print "down" report ([], Val tt).
Definition redoCmd : list string * gores unit := then_print "down 1" report (then_print "up" report ([], Val tt)).
Definition resetCmd : list string * gores unit := then_print "down" report (then_print "up" report ([], Val tt)).
Definition mversionCmd : list string * gores unit :=
  then_print "status" (λ n executed,
    ("check migrations located in " +:+ path) :: (Itoa n +:+ " needs to be executed") :: executed) ([], Val tt).
Definition nextCmd (args : list string) : list string * gores unit :=
  match args with
  | [a] =>
      if HasPrefix a "+" then then_print ("up " +:+ TrimPrefix a "+") report ([], Val tt)
      else then_print ("down " +:+ TrimPrefix a "-") report ([], Val tt)
  | _ => ([], Err ("invalid arguments [" +:+ Join args " " +:+ "]"))
  end.

(** A command of [migrateCmd]: nothing runs when the check before it fails. *)
Definition migrateCmd (check : gores unit) (cmd : migration_command) (args : list string) : list string * gores unit :=
  match check with
  | Val _ =>
      match cmd with
      | Up => upCmd
      | Down => downCmd
      | Next => nextCmd args
      | Redo => redoCmd
      | Reset => resetCmd
      | MVersion => mversionCmd
      end
  | Err e => ([], Err e)
  | Panic w => ([], Panic w)
  end.
End commands.
End startup.

(** ** The pools of the workspace handlers: controllers/utils.go, memory.go

    Each is made once, by the first request that needs it: a [sync.Once] is done
    after its function was called, whether it returned or panicked. *)

Record pools := MkPools {
  dbPool : option nat; dbOnce : bool;
  talosPool : option nat; talosOnce : bool;
  muninnClient : option string; muninnClientOnce : bool      (* a client is its URL *)
}.
Definition no_pools : pools := MkPools None false None false None false.
Definition set_db (x : option nat) (p : pools) : pools :=
  MkPools x true (talosPool p) (talosOnce p) (muninnClient p) (muninnClientOnce p).
Definition set_talos (x : option nat) (p : pools) : pools :=
  MkPools (dbPool p) (dbOnce p) x true (muninnClient p) (muninnClientOnce p).
Definition set_muninn (x : option string) (p : pools) : pools :=
  MkPools (dbPool p) (dbOnce p) (talosPool p) (talosOnce p) x true.

Section pools.
Variable env : environ.
Variable pgxpool_New : string → gores nat.

Definition kawaiDB (p : pools) : pools * gores (option nat) :=
  if dbOnce p then (p, Val (dbPool p))
  else
    let dsn := if String.eqb (env "KAWAI_PG_DSN") "" then env "DATABASE_URL" else env "KAWAI_PG_DSN" in
    match pgxpool_New dsn with
    | Val pool => (set_db (Some pool) p, Val (Some pool))
    | Err e => (set_db (dbPool p) p, Panic ("kawaiDB: " +:+ e))
    | Panic w => (set_db (dbPool p) p, Panic w)
    end.

(** No pool without a DSN, or when making it fails. *)
Definition talosDB (p : pools) : pools * gores (option nat) :=
  if talosOnce p then (p, Val (talosPool p))
  else
    let dsn := env "TALOS_DSN" in
    if String.eqb dsn "" then (set_talos (talosPool p) p, Val (talosPool p))
    else match pgxpool_New dsn with
    | Val pool => (set_talos (Some pool) p, Val (Some pool))
    | Err _ => (set_talos (talosPool p) p, Val (talosPool p))
    | Panic w => (set_talos (talosPool p) p, Panic w)
    end.

(** controllers/memory.go: no client without a URL. *)
Definition muninnClientFromEnv (p : pools) : pools * option string :=
  if muninnClientOnce p then (p, muninnClient p)
  else
    let url := env "MUNINN_URL" in
    let client := if String.eqb url "" then muninnClient p else Some url in
    (set_muninn client p, client).
End pools.

(** ** [main]: cmd/prestd/main.go *)

Section main.
Context `{UnicodeTables} `{Viper}.

(** [main] without a subcommand: the configuration it serves, and what it
    listens on. *)
Definition main godotenv_Load homedir_Dir provider bracketed_host dial ping serve (env : environ) (v : viper) (fs : files)
  : run (Prest * (list listener * run unit)) :=
  '(_, _, PrestConf, _) ← Load godotenv_Load homedir_Dir provider bracketed_host env v fs;
  let st := registerExtraURLs dial bracketed_host PrestConf init_conn in
  Runs (PrestConf, RootCmd_Run dial PrestConf ping serve st).
End main.
