(* ===== verification/StartupSpec.v ===== *)
(** * Starting the server: theorems *)

From S2P Require Import Prelude GoStrings SqlLex GoStd Cache Config Http Connection Scripts GoUrl UrlSpec Settings SettingsSpec Startup.

(** ** Registering the extra databases *)

Section register.
Context `{UnicodeTables}.
Variables (dial : string → gores unit) (b : string → option string) (cfg : Prest).

Lemma nameKey_inj a c : nameKey a = nameKey c → a = c.
Proof. apply sapp_inj_l. Qed.

(** The mapping an entry registers, when it is an alias. *)
Definition alias_of (u : PGURLConfig) : option string :=
  let real := DBNameFromURL b (pu_URL u) in
  if negb (String.eqb real "") && negb (String.eqb (pu_Name u) real) then Some real else None.

Lemma register_named_new st u :
  pu_URL u ≠ "" → pu_Name u ≠ "" → dial (pu_URL u) = Val tt →
  DB (pool st) !! poolKey (pu_URL u) = None → DB (pool st) !! nameKey (pu_Name u) = None →
  register_named dial b cfg st u =
  MkConn (MkPool (<[nameKey (pu_Name u) := next st]> (<[poolKey (pu_URL u) := next st]> (DB (pool st))))
            match alias_of u with Some real => <[pu_Name u := real]> (RealName (pool st)) | None => RealName (pool st) end)
    (currDatabase st) (<[next st := pu_URL u]> (opened st)) (closed st) (S (next st)).
Proof.
  destruct u as [n url]; cbn [pu_Name pu_URL]. intros Hurl Hn Hd Hk Hnk. unfold register_named; cbn [pu_Name pu_URL].
  rw (proj2 (String.eqb_neq _ _) Hurl). unfold AddURI, run_call, lookup_call, uri_name, call_dsn.
  destruct url as [|c url]; [done|]. destruct n as [|d n]; [done|]. rw Hk Hnk. unfold openAndPing. rw Hd.
  unfold store_call, call_dsn. cbn [pool]. rw Hk. unfold alias_of; cbn [pu_Name pu_URL].
  destruct (String.eqb_spec (DBNameFromURL b (String c url)) "") as [E1|E1]; [done|].
  destruct (String.eqb (String d n) _); [done|]. cbn [negb andb]. unfold SetRealName.
  cbn [String.eqb orb]. by rw (proj2 (String.eqb_neq _ _) E1).
Qed.
(** What holds once the entries [l] are registered. *)
Record registered (l : list PGURLConfig) (st : ConnState) : Prop := {
  reg_entry u : u ∈ l → ∃ h, DB (pool st) !! nameKey (pu_Name u) = Some h ∧ opened st !! h = Some (pu_URL u) ∧
    RealName (pool st) !! pu_Name u = alias_of u;
  reg_keys k h : DB (pool st) !! k = Some h → ∃ u, u ∈ l ∧ (k = nameKey (pu_Name u) ∨ k = poolKey (pu_URL u));
  reg_names n r : RealName (pool st) !! n = Some r → n ∈ pu_Name <$> l;
  reg_next h d : opened st !! h = Some d → h < next st
}.

Lemma registered_init : registered [] init_conn.
Proof. split; [by intros u Hu%elem_of_nil|cbn; intros *; by rw lookup_empty..]. Qed.

Lemma registered_step l st u :
  registered l st → pu_URL u ≠ "" → pu_Name u ≠ "" → dial (pu_URL u) = Val tt →
  pu_Name u ∉ pu_Name <$> l → poolKey (pu_URL u) ∉ (poolKey ∘ pu_URL) <$> l →
  registered (u :: l) (register_named dial b cfg st u).
Proof.
  intros [He Hk Hr Hx] Hurl Hn Hd Hname Hhash. rw list_elem_of_fmap in Hname. rw list_elem_of_fmap in Hhash.
  rw register_named_new //.
  { destruct (DB (pool st) !! _) as [h|] eqn:E; [|done]. apply Hk in E as (v & Hv & [E|E]); [by apply poolKey_nameKey in E|].
    exfalso. apply Hhash. by exists v. }
  { destruct (DB (pool st) !! _) as [h|] eqn:E; [|done]. apply Hk in E as (v & Hv & [E|E]).
    - exfalso. apply Hname. exists v. by apply nameKey_inj in E.
    - by symmetry in E; apply poolKey_nameKey in E. }
  assert (∀ v, v ∈ l → pu_Name v ≠ pu_Name u) as Hfresh by (intros v Hv E; apply Hname; by exists v).
  split; cbn [pool DB RealName opened next].
  - intros v [-> | Hv]%elem_of_cons.
    + exists (next st). rw !lookup_insert_eq. split_and!; [done..|].
      destruct (alias_of u) as [real|] eqn:Ea; [by rw lookup_insert_eq|].
      destruct (RealName (pool st) !! pu_Name u) as [r|] eqn:E; [|done]. apply Hr in E. exfalso. apply Hname.
      by apply list_elem_of_fmap in E.
    + destruct (He v Hv) as (h & Hh & Ho & Hal). exists h. pose proof (Hx _ _ Ho). pose proof (Hfresh v Hv) as Hne.
      rw lookup_insert_ne; [by intros E%nameKey_inj|]. rw lookup_insert_ne; [apply poolKey_nameKey|].
      rw lookup_insert_ne; [lia|]. split_and!; [done..|].
      destruct (alias_of u); [by rw lookup_insert_ne|done].
  - intros k h. rw !lookup_insert_Some. intros [[<- _]|[_ [[<- _]|[_ E]]]].
    + exists u. split; [by left|by left].
    + exists u. split; [by left|by right].
    + destruct (Hk _ _ E) as (v & ? & ?). exists v. split; [by right|done].
  - intros n r. cbn [fmap list_fmap]. destruct (alias_of u).
    + rw lookup_insert_Some. intros [[<- _]|[_ E%Hr]]; [by left|by right].
    + intros E%Hr. by right.
  - intros h d. rw lookup_insert_Some. intros [[<- _]|[_ E%Hx]]; lia.
Qed.

Definition has_url (u : PGURLConfig) : Prop := pu_URL u ≠ "".

Lemma registered_all l done st :
  registered done st →
  (∀ u, u ∈ filter has_url l → pu_Name u ≠ "" ∧ dial (pu_URL u) = Val tt) →
  NoDup (pu_Name <$> (rev (filter has_url l) ++ done)) → NoDup ((poolKey ∘ pu_URL) <$> (rev (filter has_url l) ++ done)) →
  registered (rev (filter has_url l) ++ done) (foldl (register_named dial b cfg) st l).
Proof.
  revert done st; induction l as [|u l IH]; intros done st Hreg Hall Hn Hk; [done|]. cbn [foldl].
  destruct (decide (has_url u)) as [Hu|Hu].
  - assert (filter has_url (u :: l) = u :: filter has_url l) as E by by apply filter_cons_True.
    rw E in Hall; rw E in Hn; rw E in Hk; rw E. cbn [rev] in *. rw -!app_assoc in Hn; rw -!app_assoc in Hk; rw -!app_assoc.
    destruct (Hall u) as [Hname Hdial]; [by left|]. apply IH; [|by intros; apply Hall; right|done..].
    cbn [app] in *. rw fmap_app fmap_cons in Hn. rw fmap_app fmap_cons in Hk.
    apply NoDup_app in Hn as (_ & _ & [Hn _]%NoDup_cons), Hk as (_ & _ & [Hk _]%NoDup_cons).
    by apply registered_step.
  - assert (filter has_url (u :: l) = filter has_url l) as E by by apply filter_cons_False.
    rw E in Hall; rw E in Hn; rw E in Hk; rw E. apply IH; [|done..].
    unfold has_url in Hu. unfold register_named. by destruct (String.eqb_spec (pu_URL u) "").
Qed.

(** When the servers of all the named extra databases answer, and no two of
    them share a name or a URL, every one is in the pool under its name, on a
    connection to its own URL.  Statements for it name the database of its URL
    when it is an alias; a database named after itself, or whose URL names no
    database, is taken for the default database of the configuration. *)
Theorem extra_databases_registered :
  let l := filter has_url (PGNamedURLs cfg) in
  let st := registerExtraURLs dial b cfg init_conn in
  PGURLs cfg = [] →
  (∀ u, u ∈ l → pu_Name u ≠ "" ∧ dial (pu_URL u) = Val tt) →
  NoDup (pu_Name <$> l) → NoDup ((poolKey ∘ pu_URL) <$> l) →
  ∀ u, u ∈ l →
    (∃ h, DB (pool st) !! nameKey (pu_Name u) = Some h ∧ opened st !! h = Some (pu_URL u)) ∧
    ResolveDBName cfg st (pu_Name u) =
      (let real := DBNameFromURL b (pu_URL u) in
       if decide (real = "" ∨ real = pu_Name u)
       then (if decide (PGDatabase cfg = "") then pu_Name u else PGDatabase cfg) else real).
Proof.
  intros l st Hurls Hall Hn Hk u Hu. subst st. unfold registerExtraURLs. rw Hurls. cbn [imap foldl].
  assert (rev l ≡ₚ l) as Hrev by (symmetry; apply Permutation_rev).
  assert (registered (rev l ++ []) (foldl (register_named dial b cfg) init_conn (PGNamedURLs cfg))) as Hreg.
  { apply registered_all; [apply registered_init|exact Hall|..]; fold l; rw app_nil_r; by rw Hrev. }
  destruct (reg_entry _ _ Hreg u) as (h & Hh & Ho & Hreal); [rw app_nil_r; by rw Hrev|].
  split; [by exists h|]. unfold ResolveDBName. rw (proj2 (String.eqb_neq _ _) (proj1 (Hall u Hu))) Hreal. unfold alias_of.
  destruct (String.eqb_spec (DBNameFromURL b (pu_URL u)) "") as [E|E]; cbn [negb andb].
  - rw decide_True; [by left|]. by destruct (String.eqb_spec (PGDatabase cfg) ""), (decide _).
  - destruct (String.eqb_spec (pu_Name u) (DBNameFromURL b (pu_URL u))) as [E'|E']; cbn [negb].
    + rw decide_True; [by right|]. by destruct (String.eqb_spec (PGDatabase cfg) ""), (decide _).
    + rw decide_False; [by intros [?|?]|]. by destruct (DBNameFromURL b (pu_URL u)).
Qed.
End register.

(** ** Listening *)

(** A listener that is started in HTTPS mode never falls back to plain HTTP:
    [ListenAndServeTLS] always returns an error, and then the process ends. *)
Theorem https_never_plain cfg serve :
  HTTPSMode cfg = true → (∀ a c k, serve (ListenAndServeTLS a c k) ≠ None) →
  ∃ l, startServer cfg serve = ([ListenAndServeTLS l (HTTPSCert cfg) (HTTPSKey cfg)], Exits 1) ∧
       l = HTTPHost cfg +:+ ":" +:+ Itoa (HTTPPort cfg).
Proof.
  intros Htls Hserve. eexists. split; [|reflexivity]. unfold startServer. rw Htls.
  by destruct (serve (ListenAndServeTLS _ _ _)) eqn:E; [|destruct (Hserve _ _ _ E)].
Qed.

(** The actions of a command, in their order. *)
Definition actions (cmd : migration_command) (args : list string) : list string :=
  match cmd with
  | Up => ["up"]
  | Down => ["down"]
  | Redo => ["down 1"; "up"]
  | Reset => ["down"; "up"]
  | MVersion => ["status"]
  | Next => match args with
            | [a] => [if HasPrefix a "+" then "up " +:+ TrimPrefix a "+" else "down " +:+ TrimPrefix a "-"]
            | _ => []
            end
  end.

(** How a list of actions can end: the first that fails is the last that runs. *)
Definition stops_at (migrate : string → gores (Z * list string)) (acts : list string) (r : gores unit) : Prop :=
  match r with
  | Val _ => ∀ a, a ∈ acts → is_val (migrate a) = true
  | Err e => ∃ before a after, acts = before ++ a :: after ∧ migrate a = Err e ∧ (∀ x, x ∈ before → is_val (migrate x) = true)
  | Panic w => ∃ before a after, acts = before ++ a :: after ∧ migrate a = Panic w ∧ (∀ x, x ∈ before → is_val (migrate x) = true)
  end.

Lemma then_print_stops migrate a rep next acts :
  stops_at migrate acts next.2 → stops_at migrate (a :: acts) (then_print migrate a rep next).2.
Proof.
  unfold then_print. intros Hn. destruct (migrate a) as [[n ex]|e|w] eqn:Ea.
  - assert (is_val (migrate a) = true) as Hv by by rw Ea. destruct next as [out r]. cbn in *.
    destruct r as [x|e|w]; [by intros y [-> | Hy]%elem_of_cons; auto|..].
    all: destruct Hn as (bf & y & af & -> & Hy & Hb); exists (a :: bf), y, af; split_and!; [done..|].
    all: by intros z [-> | Hz]%elem_of_cons; auto.
  - exists [], a, acts. split_and!; [done..|]. by intros x Hx%elem_of_nil.
  - exists [], a, acts. split_and!; [done..|]. by intros x Hx%elem_of_nil.
Qed.

Lemma done_stops migrate out : stops_at migrate [] (out : list string, Val tt).2.
Proof. by intros a Ha%elem_of_nil. Qed.

(** A migration command whose check passed runs its actions in order and
    stops at the first one that fails: [redo] and [reset] apply migrations only
    after rolling back has succeeded, and the error of the action is the error
    of the command. *)
Theorem migrations_stop_at_errors migrate path cmd args :
  (cmd = Next → length args = 1) →
  stops_at migrate (actions cmd args) (migrateCmd migrate path (Val tt) cmd args).2.
Proof.
  intros Hargs. unfold migrateCmd, upCmd, downCmd, redoCmd, resetCmd, mversionCmd, nextCmd, actions.
  destruct cmd; try (repeat apply then_print_stops; apply done_stops).
  destruct args as [|a [|? ?]]; [by specialize (Hargs eq_refl)..| |by specialize (Hargs eq_refl)].
  destruct (HasPrefix a "+"); apply then_print_stops, done_stops.
Qed.

(** ** The URL of the migrations *)

Lemma PathEscape_cons c s : PathEscape (String c s) = escape_segment_byte c +:+ PathEscape s.
Proof.
  unfold PathEscape. change (String.list_ascii_of_string (String c s)) with (c :: String.list_ascii_of_string s).
  cbn [fmap list_fmap]. by rw concat_cons.
Qed.

Lemma PathEscape_forall p s : (∀ c, string_forall p (escape_segment_byte c) = true) → string_forall p (PathEscape s) = true.
Proof. intros Hp. induction s as [|c s IH]; [done|]. by rw PathEscape_cons string_forall_app Hp IH. Qed.

Definition segment_ok (mode : encoding) (c : ascii) : bool :=
  match escape_segment_byte c with
  | String d "" => negb (Ascii.eqb d "%") && Ascii.eqb d c
  | String p (String a (String b' "")) =>
      Ascii.eqb p "%" && match unhex a, unhex b' with
                         | Some x, Some y => String.eqb (byte_str (x * 16 + y)) (String c "")
                         | _, _ => false
                         end
  | _ => false
  end.

Lemma segment_ok_true mode c : segment_ok mode c = true.
Proof. destruct mode; ascii_cases c. Qed.

Lemma PathEscape_unescape mode s :
  mode = encodePath ∨ mode = encodeUserPassword → url_unescape (PathEscape s) mode = Some s.
Proof.
  intros Hm. induction s as [|c s IH]; [done|]. rw PathEscape_cons. pose proof (segment_ok_true mode c) as Hok.
  unfold segment_ok in Hok. destruct (escape_segment_byte c) as [|p [|a [|b' []]]]; try done.
  - apply andb_true_iff in Hok as [Hp ->%Ascii.eqb_eq]. apply negb_true_iff in Hp. cbn [String.append url_unescape].
    rw Hp IH. by destruct Hm as [-> | ->], (Ascii.eqb c "+") eqn:E; try apply Ascii.eqb_eq in E as ->.
  - apply andb_true_iff in Hok as [Hp Hok]. cbn [String.append url_unescape]. rw Hp.
    destruct (unhex a) as [x|], (unhex b') as [y|]; try done. apply String.eqb_eq in Hok. cbn [mbind option_bind].
    rw IH. by destruct Hm as [-> | ->]; rw Hok.
Qed.

Definition driver_query (cfg : Prest) : list (string * string) :=
  [("sslmode", PGSSLMode cfg); ("sslcert", PGSSLCert cfg); ("sslkey", PGSSLKey cfg); ("sslrootcert", PGSSLRootCert cfg)].

Lemma PathEscape_host s : string_forall host_byte s = true → PathEscape s = s.
Proof.
  induction s as [|c s IH]; [done|]. cbn [string_forall]. rw andb_true_iff PathEscape_cons. intros [Hc Hs].
  rw (IH Hs). revert Hc. ascii_cases c.
Qed.

Lemma PathEscape_credential s : string_forall credential_byte (PathEscape s) = true.
Proof. apply PathEscape_forall. intros c. ascii_cases c. Qed.

Lemma PathEscape_no_colon s : no_byte ":" s = true → no_byte ":" (PathEscape s) = true.
Proof.
  unfold no_byte. induction s as [|c s IH]; [done|]. cbn [string_forall]. rw andb_true_iff PathEscape_cons string_forall_app.
  intros [Hc Hs]. rw (IH Hs). revert Hc. ascii_cases c.
Qed.

(** The URL the migrations connect with is read back as the configured
    server, port, database, user, password and SSL mode, whatever bytes the
    password and the names hold, when the user name holds no colon. *)
Theorem driver_url_reads_back b cfg :
  named_server cfg → no_byte ":" (PGUser cfg) = true →
  ∃ u, url_Parse b (driverURL cfg) = Some u ∧
    Hostname u = PGHost cfg ∧ Port u = Itoa (PGPort cfg) ∧ Username u = PGUser cfg ∧ Password u = Some (PGPass cfg) ∧
    DBNameFromURL b (driverURL cfg) = PGDatabase cfg ∧ QueryGet u "sslmode" = PGSSLMode cfg.
Proof.
  intros [Hh Hp] Hcolon.
  assert (string_forall is_digit_byte (Itoa (PGPort cfg)) = true) as Hd by (rw Itoa_nonneg; [lia|]; apply ntoa_spec).
  set (u := MkURL "postgres" "" (Some (PGUser cfg, Some (PGPass cfg))) (PGHost cfg +:+ ":" +:+ Itoa (PGPort cfg))
              ("/" +:+ PGDatabase cfg) (query_encode (driver_query cfg))).
  assert (url_Parse b (driverURL cfg) = Some u) as E.
  { unfold u. rw -(url_Parse_parts b (PathEscape (PGUser cfg)) (PathEscape (PGPass cfg)) _ _ (PathEscape (PGDatabase cfg)) _
      (PGUser cfg) (PGPass cfg) (PGDatabase cfg)) //;
      auto using PathEscape_credential, PathEscape_no_colon, PathEscape_unescape, query_encode_part.
    - apply credential_facts, PathEscape_credential.
    - unfold driverURL. by rw (PathEscape_host (PGHost cfg)). }
  destruct (host_port_split b _ _ u Hh Hd eq_refl) as (Hhost & Hport & _).
  exists u. unfold DBNameFromURL. rw E (query_get u (driver_query cfg)) //. split_and!; try done.
  unfold TrimPrefix, HasPrefix. cbn [u_Path u]. by rw prefix_app.
Qed.

(** A colon in the user name moves the rest of it into the password. *)
Lemma driver_url_splits_user :
  let cfg := zero_Prest <| PGUser := "a:b" |> <| PGPass := "c" |> <| PGHost := "h" |> <| PGDatabase := "d" |> in
  (λ u, (Username u, Password u)) <$> url_Parse (λ _, None) (driverURL cfg) = Some ("a", Some "b:c").
Proof. by vm_compute. Qed.

(** ** Deviations *)

(** A second name for a URL is dropped without an error: the database cannot be
    reached by it. *)
Theorem second_name_is_dropped `{UnicodeTables} dial b n1 n2 url :
  url ≠ "" → n1 ≠ "" → n1 ≠ n2 → dial url = Val tt →
  let cfg := zero_Prest <| PGNamedURLs := [MkPGURL n1 url; MkPGURL n2 url] |> in
  let st := registerExtraURLs dial b cfg init_conn in
  (∃ h, GetFromPool cfg st n1 = Val h) ∧ DB (pool st) !! nameKey n2 = None.
Proof.
  intros Hurl Hn1 Hne Hdial cfg st.
  assert (∃ rn, pool st = MkPool (<[nameKey n1 := 0]> {[poolKey url := 0]}) rn) as [rn Hpool].
  { subst st. unfold registerExtraURLs. change (imap pair (PGURLs cfg)) with (@nil (nat * string)).
    change (PGNamedURLs cfg) with [MkPGURL n1 url; MkPGURL n2 url]. cbn [foldl].
    rw (register_named_new dial b cfg init_conn (MkPGURL n1 url)) //.
    set (st1 := MkConn _ _ _ _ _). unfold register_named; cbn [pu_Name pu_URL].
    rw (proj2 (String.eqb_neq _ _) Hurl). destruct url as [|c url]; [done|].
    unfold AddURI, run_call, lookup_call. cbn [pool st1 DB].
    rw lookup_insert_ne; [by intros E; symmetry in E; apply poolKey_nameKey in E|]. rw lookup_insert_eq.
    unfold SetRealName. repeat case_match; eexists; reflexivity. }
  split.
  - exists 0. unfold GetFromPool, getDatabaseFromPool. rw Hpool. cbn [DB].
    rw (lookup_insert_ne _ (nameKey n1) (poolKey (GetURI cfg n1))); [by intros E; symmetry in E; apply poolKey_nameKey in E|].
    destruct ({[poolKey url := 0]} !! poolKey (GetURI cfg n1)) as [h|] eqn:E.
    + by apply lookup_singleton_Some in E as [_ <-].
    + by rw lookup_insert_eq.
  - rw Hpool. cbn [DB]. rw lookup_insert_ne; [by intros E%nameKey_inj|]. apply lookup_singleton_ne, poolKey_nameKey.
Qed.

(** The password is hidden up to its first at sign, the rest of it is logged. *)
Lemma redact_leaks_after_at : redact "postgres://u:pa@ss@h/d" = "postgres://u:****@ss@h/d".
Proof. by vm_compute. Qed.

Lemma no_extra_databases `{UnicodeTables} dial b cfg st :
  PGNamedURLs cfg = [] → PGURLs cfg = [] → registerExtraURLs dial b cfg st = st.
Proof. intros E1 E2. unfold registerExtraURLs. by rw E1 E2. Qed.

Lemma postgres_Load_fresh `{UnicodeTables} dial cfg ping :
  SingleDB cfg = true → dial (GetURI cfg (PGDatabase cfg)) = Val tt → (∀ h, ping h = Val tt) →
  ∃ st, postgres_Load dial cfg ping init_conn = Runs st.
Proof.
  intros Hs Hdial Hping. unfold postgres_Load. rw Hs. cbn [GetDatabase init_conn currDatabase]. cbn [String.eqb].
  unfold Connection.Get, getDatabaseFromPool, AddDatabaseToPool, run_call, lookup_call.
  cbn [GetDatabase SetDatabase currDatabase pool init_conn DB]. rw !lookup_empty.
  unfold openAndPing, call_dsn. rw Hdial. unfold store_call. cbn [pool SetDatabase DB]. rw lookup_empty.
  rw Hping. by eexists.
Qed.

Lemma startServer_plain cfg serve :
  HTTPSMode cfg = false → (startServer cfg serve).1 = [ListenAndServe (HTTPHost cfg +:+ ":" +:+ Itoa (HTTPPort cfg))].
Proof. intros Hs. unfold startServer. by rw Hs. Qed.

(** A server for which nothing is configured is started although
    [ValidateJWTConfig] rejects its configuration: [main] does not call it, and
    listens, on every address and without verifying a token. *)
Theorem main_serves_unverified `{UnicodeTables} `{ViperLaws} godotenv_Load hDir provider b dial ping serve env v fs :
  fresh v →
  let env' := godotenv_Load env in
  env' "PORT" = "" → env' "DATABASE_URL" = "" →
  (∀ configFile v', viperCfg env' (Val hDir) v = Runs (configFile, v') →
     nothing_given env' (read_file env' configFile fs v' zero_Prest).1) →
  dial (GetURI (default_Prest hDir) "prest") = Val tt → (∀ h, ping h = Val tt) →
  ∃ r, main godotenv_Load (Val hDir) provider b dial ping serve env v fs
       = Runs (default_Prest hDir, ([ListenAndServe "0.0.0.0:3000"], r)) ∧
  ValidateJWTConfig (default_Prest hDir) = Err ErrJWTDefaultEnabledNoKey.
Proof.
  intros Hfresh env' Hport Hurl Hgiven Hdial Hping.
  destruct (default_configuration godotenv_Load hDir provider b env v fs Hfresh Hport Hurl Hgiven) as [(v' & fs' & E) Hval].
  unfold main. rw E. cbn [mbind run_bind]. clear E Hgiven Hfresh. fold env'.
  rw no_extra_databases //. destruct (postgres_Load_fresh dial (default_Prest hDir) ping) as [st Hst]; [done..|].
  unfold RootCmd_Run. rw Hst. rw (surjective_pairing (startServer _ _)) startServer_plain //. by eexists.
Qed.

(** The pool of the workspace handlers is made once.  When the first request
    fails to make it, that request panics, and every later one is given a nil
    pool instead of the error. *)
Theorem kawaiDB_once env new p1 r1 :
  kawaiDB env new no_pools = (p1, r1) →
  match r1 with
  | Val (Some h) => ∀ env' new', kawaiDB env' new' p1 = (p1, Val (Some h))
  | Val None => False
  | _ => ∀ env' new', kawaiDB env' new' p1 = (p1, Val None)
  end.
Proof. unfold kawaiDB; cbn. destruct (new _); intros [= <- <-]; done. Qed.

(** ** Witnesses *)

#[local] Existing Instance ascii_tables.

Lemma extra_databases_witness :
  let cfg := zero_Prest <| PGDatabase := "prest" |>
               <| PGNamedURLs := [MkPGURL "plano" "postgres://h/postgres"; MkPGURL "app" "postgres://g/app"] |> in
  let st := registerExtraURLs (λ _, Val tt) (λ _, None) cfg init_conn in
  ResolveDBName cfg st "plano" = "postgres" ∧ ResolveDBName cfg st "app" = "prest".
Proof.
  intros cfg st.
  assert (∀ u, u ∈ PGNamedURLs cfg → ResolveDBName cfg st (pu_Name u) =
    (let real := DBNameFromURL (λ _, None) (pu_URL u) in
     if decide (real = "" ∨ real = pu_Name u) then "prest" else real)) as Hres.
  { intros u Hu. refine (proj2 (extra_databases_registered (λ _, Val tt) (λ _, None) cfg eq_refl _ _ _ u _)).
    - intros w Hw. split; [|done]. apply list_elem_of_filter in Hw as [_ Hw].
      apply elem_of_cons in Hw as [-> | Hw]; [done|]. by apply list_elem_of_singleton in Hw as ->.
    - refine (bool_decide_unpack (NoDup _) _). by vm_compute.
    - refine (bool_decide_unpack (NoDup _) _). by vm_compute.
    - apply list_elem_of_filter. split; [|done]. apply elem_of_cons in Hu as [-> | Hu]; [done|].
      by apply list_elem_of_singleton in Hu as ->. }
  split.
  - rw (Hres (MkPGURL "plano" "postgres://h/postgres")); [by left|]. by vm_compute.
  - rw (Hres (MkPGURL "app" "postgres://g/app")); [by right; left|]. by vm_compute.
Defined.

Lemma migrations_witness :
  let migrate := λ a, if String.eqb a "up" then Err "locked" else Val (1%Z, ["001.sql"]) in
  (migrateCmd migrate "./m" (Val tt) Redo []).2 = Err "locked" ∧
  stops_at migrate ["down 1"; "up"] (Err "locked").
Proof.
  intros migrate. split; [done|].
  exact (migrations_stop_at_errors migrate "./m" Redo [] ltac:(done)).
Defined.

Lemma driver_url_witness :
  let cfg := zero_Prest <| PGUser := "me" |> <| PGPass := "p@:/?#" |> <| PGHost := "db" |> <| PGPort := 5432%Z |>
               <| PGDatabase := "a/b" |> <| PGSSLMode := "disable" |> in
  ∃ u, url_Parse (λ _, None) (driverURL cfg) = Some u ∧ Password u = Some "p@:/?#".
Proof.
  intros cfg. destruct (driver_url_reads_back (λ _, None) cfg) as (u & Hu & _ & _ & _ & Hp & _).
  - by vm_compute.
  - done.
  - by exists u.
Defined.

Lemma main_witness :
  ∃ r, main id (Val "/home/u") no_provider (λ _, None) (λ _, Val tt) (λ _, Val tt) (λ _, Some "closed") (λ _, "")
         fresh_table bare_disk = Runs (default_Prest "/home/u", ([ListenAndServe "0.0.0.0:3000"], r)) ∧
  ValidateJWTConfig (default_Prest "/home/u") = Err ErrJWTDefaultEnabledNoKey.
Proof.
  apply main_serves_unverified.
  - intros k. apply lookup_empty.
  - done.
  - done.
  - apply fresh_nothing_given.
  - done.
  - done.
Defined.
