(* ===== verification/ScriptsSpec.v ===== *)
(** * What scripts guarantee

    Every run of a template binds its arguments in the order of their numbers;
    the text of a script whose actions only call the binding functions is in the
    grammar of its template whatever the data, and depends on the data only
    through the keys it compares; where a script file is looked up; where the
    identity a script sees comes from; and what the endpoint answers. *)

From S2P Require Import Prelude GoStrings Regexp SqlLex GoStd Ident Cache Config Http Json Where WhereSpec Connection Clauses Exec ExecSpec Tables TablesSpec Scripts.

(** ** Induction on expressions *)

Section expr_induction.
Variable P : expr → Prop.
Hypothesis P_str : ∀ s, P (EStr s).
Hypothesis P_field : ∀ f, P (EField f).
Hypothesis P_call : ∀ f args, Forall P args → P (ECall f args).

Fixpoint expr_nested (e : expr) : P e :=
  match e with
  | EStr s => P_str s
  | EField f => P_field f
  | ECall f args =>
      P_call f args ((fix go (l : list expr) : Forall P l :=
        match l with
        | [] => Forall_nil_2 P
        | a :: l' => Forall_cons_2 P a l' (expr_nested a) (go l')
        end) args)
  end.
End expr_induction.

(** The functions an expression or a template calls are all in a set. *)
Fixpoint calls_only (F : string → bool) (e : expr) : bool :=
  match e with ECall f args => F f && forallb (calls_only F) args | _ => true end.

Fixpoint template_calls (F : string → bool) (t : tmpl) : bool :=
  match t with
  | TEnd => true
  | TText _ rest => template_calls F rest
  | TEmit e rest => calls_only F e && template_calls F rest
  | TIf c a b rest => calls_only F c && template_calls F a && template_calls F b && template_calls F rest
  end.

(** What holds of the arguments that pass a check holds of all when all pass. *)
Lemma Forall_forallb {A} (q : A → bool) (P : A → Prop) l :
  Forall (λ x, q x = true → P x) l → forallb q l = true → Forall P l.
Proof. induction 1; cbn; [done|]. rw andb_true_iff; intros [? ?]. constructor; auto. Qed.

Lemma calls_any e : calls_only (λ _, true) e = true.
Proof.
  induction e as [s|f|f args IH] using expr_nested; [done..|]. cbn. induction IH as [|a l Ha _ IHl]; cbn; by rw ?Ha ?IHl.
Qed.

Lemma template_calls_any t : template_calls (λ _, true) t = true.
Proof. induction t as [|x t IH|e t IH|c a IHa b IHb t IH]; cbn; rw ?calls_any ?IHa ?IHb ?IH; done. Qed.

(** A result of a call, related to another one; errors agree. *)
Definition gores_rel {A B} (R : A → B → Prop) (x : gores A) (y : gores B) : Prop :=
  match x, y with
  | Val a, Val b => R a b
  | Err e, Err e' => e = e'
  | Panic p, Panic p' => p = p'
  | _, _ => False
  end.

Lemma gores_rel_bind {A B C D} (R : A → B → Prop) (S : C → D → Prop) x y f g :
  gores_rel R x y → (∀ a b, R a b → gores_rel S (f a) (g b)) → gores_rel S (x ≫= f) (y ≫= g).
Proof. destruct x, y; cbn; try done; auto. Qed.

Section located.
Context `{UnicodeTables}.
Variable located : expr → error → error.

Abbreviation eval := (eval located).
Abbreviation execute := (execute located).

Lemma locate_Val {A} e (x : gores A) a : locate located e x = Val a ↔ x = Val a.
Proof. by destruct x. Qed.

(** ** What a run does to the registry

    A preorder that the functions of a set respect is respected by the
    evaluation of the expressions and templates that call no other. *)

Section steps.
Variable F : string → bool.
Variable R : FuncRegistry → FuncRegistry → Prop.
Hypothesis R_refl : ∀ fr, R fr fr.
Hypothesis R_trans : ∀ a b c, R a b → R b c → R a c.
Hypothesis R_call : ∀ f args fr fr' v, F f = true → call_registered f args fr = Val (fr', v) → R fr fr'.

Definition stepping (e : expr) : Prop := ∀ fr fr' v, eval e fr = Val (fr', v) → R fr fr'.

Lemma shortcut_steps stop args : Forall stepping args →
  ∀ fr v fr' v', shortcut eval stop args fr v = Val (fr', v') → R fr fr'.
Proof using R_refl R_trans.
  induction 1 as [|a args Ha _ IH]; intros fr v fr' v'; cbn; [by intros [= <- <-]|].
  rw bind_Val; intros ([fr1 v1] & H1 & H2). apply Ha in H1.
  destruct (Bool.eqb _ _); [by injection H2 as <- <-|]. eauto.
Qed.

Lemma values_steps args : Forall stepping args →
  ∀ fr fr' vs, values eval args fr = Val (fr', vs) → R fr fr'.
Proof using R_refl R_trans.
  induction 1 as [|a args Ha _ IH]; intros fr fr' vs; cbn; [by intros [= <- <-]|].
  rw bind_Val; intros ([fr1 v1] & H1 & H2). apply bind_Val in H2 as ([fr2 vs2] & H2 & [= <- <-]). eauto.
Qed.

Lemma strings_steps args : Forall stepping args →
  ∀ fr fr' ss, strings located eval args fr = Val (fr', ss) → R fr fr'.
Proof using R_refl R_trans.
  induction 1 as [|a args Ha _ IH]; intros fr fr' ss; cbn; [by intros [= <- <-]|].
  rw bind_Val; intros ([fr1 v1] & H1 & H2). apply bind_Val in H2 as (s & _ & H2).
  apply bind_Val in H2 as ([fr2 ss2] & H2 & [= <- <-]). eauto.
Qed.

Lemma eval_steps e : calls_only F e = true → stepping e.
Proof using R_refl R_trans R_call.
  induction e as [s|f|f args IH] using expr_nested; intros HF fr fr' v; cbn [Scripts.eval]; [by intros [= <- <-]..|].
  cbn [calls_only] in HF. apply andb_true_iff in HF as [Hf Hall]. apply (Forall_forallb _ _ _ IH) in Hall.
  destruct (_ || _).
  { rw bind_Val; intros (? & _ & ?). by eapply shortcut_steps. }
  destruct (existsb _ _).
  { rw bind_Val; intros (? & _ & Hv). apply bind_Val in Hv as ([fr1 vs] & Hv & Hb).
    apply values_steps in Hv; [|done]. by destruct (call_builtin f vs); [injection Hb as <- <-|..]. }
  destruct (find_key f RegistryAllFuncs) as [want|]; [|done]. destruct (negb _); [done|].
  rw bind_Val; intros ([fr1 ss] & Hs & Hc). apply strings_steps in Hs; [|done].
  destruct (call_registered f ss fr1) as [[fr2 v2]|m|p] eqn:E; [|done..].
  injection Hc as <- <-. eauto.
Qed.

Lemma execute_steps t : template_calls F t = true → ∀ fr fr' out, execute t fr = Val (fr', out) → R fr fr'.
Proof using R_refl R_trans R_call.
  induction t as [|text t IH|e t IH|c a IHa b IHb t IH]; cbn [template_calls]; rw ?andb_true_iff;
    intros HF fr fr' out; cbn [Scripts.execute].
  - by intros [= <- <-].
  - rw bind_Val; intros ([fr1 o1] & H1 & [= <- <-]). eauto.
  - rw bind_Val; intros ([fr1 v] & H1 & H2). apply bind_Val in H2 as ([fr2 o2] & H2 & [= <- <-]).
    apply eval_steps in H1; [|apply HF]. destruct HF; eauto.
  - rw bind_Val; intros ([fr1 v] & H1 & H2). destruct HF as [[[Hc Ha] Hb] Ht].
    apply eval_steps in H1; [|done]. apply bind_Val in H2 as ([fr2 o2] & H2 & H3). apply bind_Val in H3 as ([fr3 o3] & H3 & [= <- <-]).
    assert (R fr1 fr2) by (destruct (truth v); eauto). eauto.
Qed.
End steps.
End located.

(** *** Arguments are numbered as they are bound *)

Definition numbered (fr : FuncRegistry) : Prop := fr_next fr = Z.of_nat (length (Args fr)).

(** Only new arguments, counted. *)
Definition binds (fr fr' : FuncRegistry) : Prop :=
  ∃ vs, Args fr' = Args fr ++ vs ∧ fr_next fr' = (fr_next fr + Z.of_nat (length vs))%Z.

Lemma binds_refl fr : binds fr fr.
Proof. exists []. by rw app_nil_r Z.add_0_r. Qed.

Lemma binds_trans a b c : binds a b → binds b c → binds a c.
Proof.
  intros (vs & Ha & Hn) (ws & Hb & Hm). exists (vs ++ ws). rw Hb Ha Hm Hn length_app app_assoc. split; [done|]. lia.
Qed.

Lemma binds_values vs fr : binds fr (bind_values vs fr).
Proof. by exists vs. Qed.

Lemma binds_numbered fr fr' : binds fr fr' → numbered fr → numbered fr'.
Proof. unfold numbered. intros (vs & -> & ->) ->. rw length_app. lia. Qed.

Create HintDb scripts discriminated.
#[export] Hint Resolve binds_refl binds_values : scripts.

Section binding.
Context `{UnicodeTables}.

Lemma defaultOrValue_binds a b fr : binds fr (defaultOrValue a b fr).1.
Proof. unfold defaultOrValue. destruct (isSet a fr); cbn; exists []; by rw app_nil_r Z.add_0_r. Qed.

Lemma sqlList_binds k fr : binds fr (sqlList k fr).1.
Proof. unfold sqlList. repeat case_match; cbn [fst]; eauto with scripts. Qed.

Lemma tenantScopeIn_binds c fr : binds fr (tenantScopeIn c fr).1.
Proof. unfold tenantScopeIn. repeat case_match; cbn [fst]; eauto with scripts. Qed.

Lemma call_registered_binds f args fr fr' v : call_registered f args fr = Val (fr', v) → binds fr fr'.
Proof.
  unfold call_registered. destruct args as [|a [|b [|]]]; [done| | |done].
  - repeat case_match; try (by intros [= <- <-]; eauto using sqlList_binds, tenantScopeIn_binds with scripts).
    rw bind_Val; intros (q & _ & [= <- <-]). apply binds_refl.
  - repeat case_match; try (by intros [= <- <-]; eauto with scripts).
    intros E%Val_inj. pose proof (defaultOrValue_binds a b fr) as Hb. by rw E in Hb.
Qed.

Lemma execute_binds located t fr fr' out : execute located t fr = Val (fr', out) → binds fr fr'.
Proof.
  apply (execute_steps _ (λ _, true)); [apply binds_refl | apply binds_trans | | apply template_calls_any].
  intros *. intros _. apply call_registered_binds.
Qed.
End binding.

(** *** Every run ends with a text or an error *)

Section total.
Context `{UnicodeTables}.
Variable located : expr → error → error.

Lemma call_registered_no_panic f ss fr : is_panic (call_registered f ss fr) = false.
Proof.
  unfold call_registered. repeat case_match; try done.
  apply bind_no_panic; [|done]. unfold ident_, Ident.Quote. by destruct (negb _).
Qed.

Lemma eq_any_no_panic v vs : is_panic (eq_any v vs) = false.
Proof.
  induction vs as [|w vs IH]; cbn; [done|]. apply bind_no_panic; [by destruct v, w|]. by intros [].
Qed.

Lemma index_no_panic vs x : is_panic x = false → is_panic (foldl (λ acc k, v ← acc; index_value v k) x vs) = false.
Proof.
  revert x; induction vs as [|k vs IH]; intros x Hx; cbn; [done|]. apply IH, bind_no_panic; [done|].
  intros v _. by destruct v, k.
Qed.

Lemma call_builtin_no_panic f vs : is_panic (call_builtin f vs) = false.
Proof.
  unfold call_builtin. destruct (String.eqb f "not"); [done|]. destruct (String.eqb f "eq").
  - destruct vs as [|v [|w vs]]; [done..|]. apply bind_no_panic; [apply eq_any_no_panic | done].
  - destruct vs; [done|]. by apply index_no_panic.
Qed.

Lemma locate_no_panic {A} e (x : gores A) : is_panic x = false → is_panic (locate located e x) = false.
Proof. by destruct x. Qed.

Definition ends (e : expr) : Prop := ∀ fr, is_panic (eval located e fr) = false.

Lemma arguments_end args : Forall ends args →
  (∀ stop fr v, is_panic (shortcut (eval located) stop args fr v) = false)
  ∧ (∀ fr, is_panic (values (eval located) args fr) = false)
  ∧ ∀ fr, is_panic (strings located (eval located) args fr) = false.
Proof.
  induction 1 as [|e args He _ (IH1 & IH2 & IH3)]; [done|]. split_and!; intros *; cbn [shortcut values strings];
    (apply bind_no_panic; [apply He|]; intros [fr1 w] _).
  - by destruct (Bool.eqb _ _).
  - apply bind_no_panic; [done|]. by intros [].
  - apply bind_no_panic; [by apply locate_no_panic; destruct w|]. intros s _.
    apply bind_no_panic; [done|]. by intros [].
Qed.

Lemma eval_no_panic e : ends e.
Proof.
  induction e as [s|f|f args IH] using expr_nested; intros fr; [done..|]. cbn [eval].
  apply arguments_end in IH as (IH1 & IH2 & IH3).
  assert (∀ n, is_panic (locate located (ECall f args) (builtin_arity f n)) = false) as Har.
  { intros n. apply locate_no_panic. unfold builtin_arity. by repeat case_match. }
  destruct (_ || String.eqb f "or"); [by apply bind_no_panic|].
  destruct (existsb _ builtins).
  { apply bind_no_panic; [done|]. intros _ _. apply bind_no_panic; [done|]. intros [fr1 vs] _.
    pose proof (call_builtin_no_panic f vs). by destruct (call_builtin f vs). }
  destruct (find_key f RegistryAllFuncs); [|done]. destruct (negb (Nat.eqb _ _)); [done|].
  apply bind_no_panic; [done|]. intros [fr1 ss] _.
  pose proof (call_registered_no_panic f ss fr1). by destruct (call_registered f ss fr1).
Qed.

Lemma execute_no_panic t : ∀ fr, is_panic (execute located t fr) = false.
Proof.
  induction t as [|x t IH|e t IH|c a IHa b IHb t IH]; intros fr; [done|..]; cbn [execute];
    (apply bind_no_panic; [first [apply IH | apply eval_no_panic]|]; intros [fr1 v] _); [done|..].
  - apply bind_no_panic; [done|]. by intros [].
  - apply bind_no_panic; [by destruct (truth v)|]. intros [fr2 o] _. apply bind_no_panic; [done|]. by intros [].
Qed.
End total.

(** ** What the text of a script depends on

    The keys whose value a template looks at, rather than binds: printed or
    compared fields, defaults, [inFormat] and [ident].  Their names must be
    constants. *)

Definition by_value : list string := ["defaultOrValue"; "inFormat"; "ident"].
Definition listed (k : string) (K : list string) : bool := existsb (String.eqb k) K.

Fixpoint reads (K : list string) (e : expr) : bool :=
  match e with
  | EStr _ => true
  | EField f => listed f K
  | ECall f args =>
      (negb (listed f by_value) || match args with EStr k :: _ => listed k K | _ => false end)
      && forallb (reads K) args
  end.

Fixpoint inspects (K : list string) (t : tmpl) : bool :=
  match t with
  | TEnd => true
  | TText _ rest => inspects K rest
  | TEmit e rest => reads K e && inspects K rest
  | TIf c a b rest => reads K c && inspects K a && inspects K b && inspects K rest
  end.

(** Both absent, both one value, or both lists of the same length. *)
Definition same_shape (x y : option iface) : Prop :=
  match x, y with
  | None, None => True
  | Some (IStrs l), Some (IStrs m) => length l = length m
  | Some (IStrs _), _ | _, Some (IStrs _) => False
  | Some _, Some _ => True
  | _, _ => False
  end.

Definition alike_data (K : list string) (d1 d2 : TemplateData) : Prop :=
  ∀ k, (listed k K = true → d1 !! k = d2 !! k) ∧ same_shape (d1 !! k) (d2 !! k).

Definition alike (K : list string) (a b : FuncRegistry) : Prop :=
  alike_data K (fr_data a) (fr_data b) ∧ fr_next a = fr_next b ∧ length (Args a) = length (Args b).

Definition alike_values {A} (K : list string) (p q : FuncRegistry * A) : Prop := alike K p.1 q.1 ∧ p.2 = q.2.

Lemma same_shape_refl x : same_shape x x.
Proof. by destruct x as [[]|]. Qed.

Section alike.
Context `{UnicodeTables}.
Variable K : list string.

Lemma alike_bind vs ws a b : length vs = length ws → alike K a b → alike K (bind_values vs a) (bind_values ws b).
Proof. intros Hl (Hd & Hn & Ha). split_and!; cbn; [done| |]; [|rw !length_app]; lia. Qed.

Lemma alike_isSet k a b : alike K a b → isSet k a = isSet k b.
Proof. intros (Hd & _). destruct (Hd k) as [_ Hs]. unfold isSet. by destruct (fr_data a !! k) as [[]|], (fr_data b !! k) as [[]|]. Qed.

Lemma alike_default k d a b : listed k K = true → alike K a b →
  alike_values K (defaultOrValue k d a) (defaultOrValue k d b).
Proof.
  intros Hk Hab. unfold defaultOrValue. rw (alike_isSet k a b Hab). destruct Hab as (Hd & Hn & Ha).
  destruct (isSet k b); split; cbn; [done| | |by rw !lookup_insert_eq].
  - by rw (proj1 (Hd k) Hk).
  - split_and!; [|done..]. intros k'. cbn. destruct (decide (k = k')) as [<-|Hne].
    + rw !lookup_insert_eq. by split; [|apply same_shape_refl].
    + rw !lookup_insert_ne; [done..|]. apply Hd.
Qed.

Lemma alike_sqlVal k a b : alike K a b → alike_values K (sqlVal k a) (sqlVal k b).
Proof. intros Hab. unfold sqlVal. split; cbn [fst snd]; [by apply alike_bind|]. cbn. by destruct Hab as (_ & -> & _). Qed.

Lemma alike_sqlList k a b : alike K a b → alike_values K (sqlList k a) (sqlList k b).
Proof.
  intros Hab. pose proof Hab as (Hd & Hn & _). destruct (Hd k) as [_ Hs]. unfold sqlList. rw Hn.
  assert (∀ v w, alike_values K
    (bind_values [v] a, "(" +:+ ph (fr_next a + 1) +:+ ")") (bind_values [w] b, "(" +:+ ph (fr_next b + 1) +:+ ")")) as H1.
  { intros v w. split; cbn [fst snd]; [by apply alike_bind | by rw Hn]. }
  destruct (fr_data a !! k) as [[]|], (fr_data b !! k) as [[]|]; cbn in Hs; try done; try apply H1.
  split; cbn [fst snd]; [apply alike_bind; [by rw !length_fmap|done] | by rw Hs].
Qed.

Lemma alike_tenantScopeIn c a b : alike K a b → alike_values K (tenantScopeIn c a) (tenantScopeIn c b).
Proof.
  intros Hab. pose proof Hab as (Hd & Hn & _). destruct (Hd "tenantIds") as [_ Hs].
  unfold tenantScopeIn. destruct (Ident.Quote c) as [q|e|p]; [|done..]. rw Hn.
  destruct (fr_data a !! "tenantIds") as [[| | | | | |[|j1 l1]| | | |]|],
    (fr_data b !! "tenantIds") as [[| | | | | |[|j2 l2]| | | |]|]; cbn in Hs; try done.
  injection Hs as Hs. split; cbn [fst snd]; [|by cbn [length]; rw Hs].
  apply alike_bind; [by rw !length_fmap; cbn; rw Hs | done].
Qed.

Lemma alike_text p q : alike_values K p q → alike_values K (p.1, IStr p.2) (q.1, IStr q.2).
Proof. intros [? E]. split; cbn [fst snd]; [done | by rw E]. Qed.

Lemma alike_registered f ss a b :
  (listed f by_value = true → ∃ k rest, ss = k :: rest ∧ listed k K = true) → alike K a b →
  gores_rel (alike_values K) (call_registered f ss a) (call_registered f ss b).
Proof.
  intros Hf Hab. unfold call_registered, listed, by_value in *. cbn [existsb] in Hf.
  assert (∀ k, listed k K = true → fr_data a !! k = fr_data b !! k) as Heq by (intros k; apply Hab).
  destruct ss as [|x [|y [|]]]; try done.
  - destruct (String.eqb f "isSet"); [split; cbn; [done | by rw (alike_isSet x a b Hab)]|].
    destruct (String.eqb_spec f "inFormat") as [->|_].
    { destruct (Hf eq_refl) as (k & r & [= <- <-] & Hk). split; [done|]. cbn. unfold inFormat. by rw (Heq x Hk). }
    destruct (String.eqb f "unEscape"); [done|].
    destruct (String.eqb f "sqlVal"); [exact (alike_text _ _ (alike_sqlVal x a b Hab))|].
    destruct (String.eqb f "sqlList"); [exact (alike_text _ _ (alike_sqlList x a b Hab))|].
    destruct (String.eqb f "tenantScopeIn"); [exact (alike_text _ _ (alike_tenantScopeIn x a b Hab))|].
    destruct (String.eqb_spec f "ident") as [->|_]; [|done].
    destruct (Hf eq_refl) as (k & r & [= <- <-] & Hk). unfold ident_. rw (Heq x Hk).
    by destruct (Ident.Quote _).
  - destruct (String.eqb_spec f "defaultOrValue") as [->|_]; [|by destruct (String.eqb f "split"), (String.eqb f "limitOffset")].
    destruct (Hf eq_refl) as (k & r & [= <- <-] & Hk). by apply alike_default.
Qed.

Variable located : expr → error → error.
Abbreviation eval := (eval located).
Abbreviation execute := (execute located).

(** Related results of a call: one value, two registries. *)
Ltac like_pair a v b H :=
  let w := fresh in let E := fresh in
  intros [a v] [b w] [H E]; cbn [fst snd] in H, E; subst w.

Definition like (e : expr) : Prop :=
  ∀ a b, alike K a b → gores_rel (alike_values K) (eval e a) (eval e b).

Lemma shortcut_like stop args : Forall like args →
  ∀ v a b, alike K a b → gores_rel (alike_values K) (shortcut eval stop args a v) (shortcut eval stop args b v).
Proof.
  induction 1 as [|e args He _ IH]; intros v a b Hab; [by split|]. cbn [shortcut].
  eapply gores_rel_bind; [by apply He|]. like_pair a1 v1 b1 Hab1.
  destruct (Bool.eqb _ _); [by split | by apply IH].
Qed.

Lemma values_like args : Forall like args →
  ∀ a b, alike K a b → gores_rel (alike_values K) (values eval args a) (values eval args b).
Proof.
  induction 1 as [|e args He _ IH]; intros a b Hab; [by split|]. cbn [values].
  eapply gores_rel_bind; [by apply He|]. like_pair a1 v1 b1 Hab1.
  eapply gores_rel_bind; [by apply IH|]. like_pair a2 vs b2 Hab2. by split.
Qed.

Lemma gores_rel_refl {A} (R : A → A → Prop) x : (∀ a, R a a) → gores_rel R x x.
Proof. intros HR. by destruct x; cbn. Qed.

Lemma strings_like args : Forall like args →
  ∀ a b, alike K a b → gores_rel (alike_values K) (strings located eval args a) (strings located eval args b).
Proof.
  induction 1 as [|e args He _ IH]; intros a b Hab; [by split|]. cbn [strings].
  eapply gores_rel_bind; [by apply He|]. like_pair a1 v1 b1 Hab1.
  eapply (gores_rel_bind eq); [by apply gores_rel_refl|]. intros s _ <-.
  eapply gores_rel_bind; [by apply IH|]. like_pair a2 vs b2 Hab2. by split.
Qed.

Lemma strings_head k args fr fr' ss :
  strings located eval (EStr k :: args) fr = Val (fr', ss) → ∃ rest, ss = k :: rest.
Proof.
  cbn [strings Scripts.eval]. intros Hs. apply bind_Val in Hs as ([f1 v] & [= <- <-] & Hs).
  cbn [string_arg locate] in Hs. apply bind_Val in Hs as (s & [= <-] & Hs).
  apply bind_Val in Hs as ([f2 r] & _ & [= <- <-]). by exists r.
Qed.

Lemma gores_rel_unit (x : gores unit) : gores_rel eq x x.
Proof. by apply gores_rel_refl. Qed.

Lemma eval_like e : reads K e = true → like e.
Proof.
  induction e as [s|f|f args IH] using expr_nested; intros Hr a b Hab; cbn [Scripts.eval].
  - by split.
  - cbn in Hr. split; [done|]. cbn. by rw (proj1 (proj1 Hab f) Hr).
  - cbn [reads] in Hr. apply andb_true_iff in Hr as [Hk Hall].
    pose proof (Forall_forallb _ _ _ IH Hall) as Hargs.
    destruct (_ || String.eqb f "or").
    { eapply gores_rel_bind; [apply gores_rel_unit|]. intros _ _ _. by apply shortcut_like. }
    destruct (existsb _ builtins).
    { eapply gores_rel_bind; [apply gores_rel_unit|]. intros _ _ _.
      eapply gores_rel_bind; [by apply values_like|]. like_pair a1 vs b1 H1.
      by destruct (call_builtin f vs). }
    destruct (find_key f RegistryAllFuncs) as [want|]; [|done]. destruct (negb (Nat.eqb _ _)); [exact eq_refl|].
    pose proof (strings_like args Hargs a b Hab) as Hs.
    destruct (strings located eval args a) as [[a1 ss]|e1|p1] eqn:Ea,
      (strings located eval args b) as [[b1 ss']|e2|p2]; cbn in Hs |- *; try done; [|by subst..].
    destruct Hs as [H1 E]; cbn [fst snd] in *; subst ss'.
    assert (listed f by_value = true → ∃ k rest, ss = k :: rest ∧ listed k K = true) as Hf.
    { intros Hf. rw Hf in Hk. destruct args as [|[k| |] args']; try done.
      apply strings_head in Ea as [rest ->]. by exists k, rest. }
    pose proof (alike_registered f ss a1 b1 Hf H1) as Hc.
    by destruct (call_registered f ss a1) as [|e3|], (call_registered f ss b1) as [|e4|];
      cbn in Hc |- *; subst.
Qed.

Lemma execute_like t : inspects K t = true →
  ∀ a b, alike K a b → gores_rel (alike_values K) (execute t a) (execute t b).
Proof.
  induction t as [|text t IH|e t IH|c x IHx y IHy t IH]; cbn [inspects Scripts.execute];
    rw ?andb_true_iff; intros Hi a b Hab.
  - by split.
  - eapply gores_rel_bind; [by apply IH|]. like_pair a1 o b1 H1. by split.
  - destruct Hi as [He Ht]. eapply gores_rel_bind; [by apply (eval_like e)|].
    like_pair a1 v b1 H1.
    eapply gores_rel_bind; [by apply IH|]. like_pair a2 o b2 H2. by split.
  - destruct Hi as [[[Hc Hx] Hy] Ht]. eapply gores_rel_bind; [by apply (eval_like c)|].
    like_pair a1 v b1 H1.
    eapply gores_rel_bind; [by destruct (truth v); auto|].
    like_pair a2 o b2 H2.
    eapply gores_rel_bind; [by apply IH|]. like_pair a3 o3 b3 H3. by split.
Qed.
End alike.

(** ** The grammar of a template

    What a printed call of a function may add to the statement when the next
    free parameter is [n], and the next free parameter after it. *)

Inductive emitted : string → N → list token → N → Prop :=
| em_val n : emitted "sqlVal" n [TPh n] (n + 1)
| em_list n k :
    emitted "sqlList" n (TCh "(" :: commas (ids n k) ++ [TCh ")"%char]) (n + N.of_nat k)
| em_scope n c k : IsValid c = true →
    emitted "tenantScopeIn" n
      (dotted (Split c ".") ++ chars " IN " ++ TCh "(" :: commas (ids n (S k)) ++ [TCh ")"%char])
      (n + N.of_nat (S k))
| em_no_scope n : emitted "tenantScopeIn" n (chars "FALSE") n
| em_ident n s : IsValid s = true → emitted "ident" n (dotted (Split s ".")) n
| em_page n ts : sealed ts → placeholders ts = [] → emitted "limitOffset" n ts n.

(** The statements of a template: its own texts, one branch of each condition,
    and what its calls may add. *)
Inductive script_tokens : tmpl → N → list token → N → Prop :=
| st_end n : script_tokens TEnd n [] n
| st_text x rest n tx ts n' :
    lex x = Some tx → script_tokens rest n ts n' → script_tokens (TText x rest) n (tx ++ ts) n'
| st_emit f args rest n tx n1 ts n' :
    emitted f n tx n1 → script_tokens rest n1 ts n' → script_tokens (TEmit (ECall f args) rest) n (tx ++ ts) n'
| st_if c a b (holds : bool) rest n tx n1 ts n' :
    script_tokens (if holds then a else b) n tx n1 → script_tokens rest n1 ts n' →
    script_tokens (TIf c a b rest) n (tx ++ ts) n'.

(** *** Templates that only print through the binding functions

    Texts are whole fragments, free of parameters of their own, that do not
    run into the text before them; a quoted identifier follows plain text. *)

Definition binding : list string := ["sqlVal"; "sqlList"; "tenantScopeIn"].
Definition quiet_call (f : string) : bool := negb (listed f binding).

Definition text_ok (x : string) : bool :=
  starts_sep x && match lex x with Some ts => Nat.eqb (length (placeholders ts)) 0 | None => false end.
Definition ends_plain (x : string) : bool :=
  match lex_run LOut x with Some (_, LOut) => true | _ => false end.

Definition emit_ok (after_plain : bool) (e : expr) : bool :=
  match e with
  | ECall f args =>
      forallb (calls_only quiet_call) args
      && (listed f ["sqlVal"; "sqlList"; "limitOffset"] || listed f ["tenantScopeIn"; "ident"] && after_plain)
  | _ => false
  end.

Fixpoint secure (after_plain : bool) (t : tmpl) : bool :=
  match t with
  | TEnd => true
  | TText x rest => text_ok x && secure (if String.eqb x "" then after_plain else ends_plain x) rest
  | TEmit e rest => emit_ok after_plain e && secure false rest
  | TIf c a b rest =>
      calls_only quiet_call c && secure after_plain a && secure after_plain b && secure false rest
  end.

(** The text so far reads as [tp], and with [plain] no token of it is open. *)
Definition ready (plain : bool) (pre : string) (tp : list token) : Prop :=
  lex pre = Some tp ∧ (plain = true → lex_run LOut pre = Some (tp, LOut)).

Lemma ready_nil : ready true "" [].
Proof. by split. Qed.

Lemma ready_weaken p pre tp : ready p pre tp → ready false pre tp.
Proof. by intros [? _]. Qed.

Lemma ready_app p pre tp x tx :
  ready p pre tp → lex x = Some tx → p = true ∨ starts_sep x = true → lex (pre +:+ x) = Some (tp ++ tx).
Proof.
  intros [Hl Hp] Hx [->|Hs]; [|by apply lex_app].
  specialize (Hp eq_refl). unfold lex in *. rw lex_run_app Hp. cbn.
  destruct (lex_run LOut x) as [[t st]|]; [|done]. cbn in *. destruct (lex_end st); [|done]. cbn in *.
  injection Hx as <-. by rw app_assoc.
Qed.

Lemma ready_text p pre tp x tx :
  ready p pre tp → lex x = Some tx → starts_sep x = true →
  ready (if String.eqb x "" then p else ends_plain x) (pre +:+ x) (tp ++ tx).
Proof.
  intros Hr Hx Hs. destruct (String.eqb_spec x "") as [->|Hne].
  { injection Hx as <-. by rw sapp_nil_r app_nil_r. }
  split; [by eapply ready_app; [|done|right]|]. unfold ends_plain.
  destruct (lex_run LOut x) as [[t []]|] eqn:Ex; try done. intros _.
  unfold lex in Hx. rw Ex in Hx. cbn in Hx. injection Hx as <-. rw app_nil_r.
  destruct Hr as [Hl _]. unfold lex in Hl. destruct (lex_run LOut pre) as [[u st]|] eqn:Ep; [|done].
  cbn in Hl. destruct (lex_end st) as [te|] eqn:Ee; [|done]. injection Hl as <-.
  destruct x as [|c x]; [done|]. rw lex_run_app Ep. cbn [mbind option_bind].
  rw (lex_run_flush st te); [done..|]. rw Ex. cbn. by rw app_assoc.
Qed.

Definition same_args (a b : FuncRegistry) : Prop := fr_next a = fr_next b ∧ Args a = Args b.

Section grammar.
Context `{UnicodeTables}.

Lemma quiet_registered f ss fr fr' v :
  quiet_call f = true → call_registered f ss fr = Val (fr', v) → same_args fr fr'.
Proof.
  unfold quiet_call, listed, binding, call_registered. cbn [existsb]. rw negb_true_iff !orb_false_iff.
  intros (H1 & H2 & H3 & _). destruct ss as [|a [|b [|]]]; try done.
  - rw H1 H2 H3. repeat case_match; try (by intros [= <- <-]); try done.
    rw bind_Val; intros (q & _ & [= <- <-]). done.
  - repeat case_match; try done; try (by intros [= <- <-]).
    intros E%Val_inj. unfold defaultOrValue in E. by destruct (isSet a fr); injection E as <- <-.
Qed.

(** What a registered function that may be printed writes. *)
Lemma registered_emits f ss fr fr' v :
  listed f ["sqlVal"; "sqlList"; "limitOffset"; "tenantScopeIn"; "ident"] = true → (0 ≤ fr_next fr)%Z →
  call_registered f ss fr = Val (fr', v) →
  (0 ≤ fr_next fr')%Z ∧ ∃ s ts, v = IStr s ∧ lex s = Some ts
    ∧ emitted f (Z.to_N (fr_next fr + 1)) ts (Z.to_N (fr_next fr' + 1))
    ∧ (listed f ["sqlVal"; "sqlList"; "limitOffset"] = true → starts_sep s = true).
Proof.
  unfold listed. cbn [existsb]. rw !orb_true_iff !String.eqb_eq. intros Hf Hn.
  unfold call_registered. destruct ss as [|a [|b [|]]]; [done| | |done];
    destruct Hf as [->|[->|[->|[->|[->|]]]]]; try done; cbn [String.eqb Ascii.eqb Bool.eqb].
  - intros [= <- <-]. cbn -[lex ph]. split; [lia|]. eexists _, _. split_and!; [done | apply lex_ph_Z; lia | | done].
    rw (_ : Z.to_N (fr_next fr + 1 + 1) = Z.to_N (fr_next fr + 1) + 1)%N; [lia|]. constructor.
  - unfold sqlList.
    assert (∀ w, 0 ≤ fr_next (bind_values [w] fr) ∧ ∃ s ts,
      IStr ("(" +:+ ph (fr_next (bind_values [w] fr)) +:+ ")") = IStr s ∧ lex s = Some ts
      ∧ emitted "sqlList" (Z.to_N (fr_next fr + 1)) ts (Z.to_N (fr_next (bind_values [w] fr) + 1))
      ∧ (true = true → starts_sep s = true))%Z as H1.
    { intros w. cbn -[lex ph]. split; [lia|]. eexists _, _. split_and!; [done | apply lex_paren, lex_ph_Z; lia | | done].
      rw (_ : Z.to_N (fr_next fr + 1 + 1) = Z.to_N (fr_next fr + 1) + N.of_nat 1)%N; [lia|].
      apply (em_list _ 1). }
    repeat case_match; intros [<- <-]%Val_pair_inj; try apply H1. cbn [fst snd fr_next bind_values]. rw length_fmap. split; [lia|].
    eexists _, _. split_and!; [done | apply lex_paren, lex_commas; lia | | done].
    rw (_ : Z.to_N (fr_next fr + Z.of_nat (length l) + 1) = Z.to_N (fr_next fr + 1) + N.of_nat (length l))%N; [lia|].
    constructor.
  - unfold tenantScopeIn.
    assert (∀ fr' v, Val (fr, IStr "FALSE") = Val (fr', v) → (0 ≤ fr_next fr')%Z ∧ ∃ s ts,
      v = IStr s ∧ lex s = Some ts ∧ emitted "tenantScopeIn" (Z.to_N (fr_next fr + 1)) ts (Z.to_N (fr_next fr' + 1))
      ∧ (false = true → starts_sep s = true)) as H1.
    { intros fr'' v' [= <- <-]. split; [done|]. eexists _, _. split_and!; [done|done| |done]. constructor. }
    destruct (Ident.Quote a) as [q|e|p] eqn:Eq; [|by apply H1..].
    destruct (fr_data fr !! "tenantIds") as [[| | | | | |[|i ids]| | | |]|]; try apply H1.
    intros [<- <-]%Val_pair_inj. cbn [fst snd fr_next bind_values]. rw length_fmap. split; [lia|].
    destruct (IsValid a) eqn:Ha; [|by unfold Ident.Quote in Eq; rw Ha in Eq].
    pose proof (lex_quoted a Ha) as Hl. unfold quoted in Hl. rw Eq in Hl.
    eexists _, _. split_and!; [done | | | done].
    + apply lex_app; [exact Hl | | done]. apply (lex_plain_app " IN "); [done|]. apply lex_paren, lex_commas. lia.
    + rw (_ : Z.to_N (fr_next fr + Z.of_nat (length (i :: ids)) + 1)
              = Z.to_N (fr_next fr + 1) + N.of_nat (S (length ids)))%N; [cbn [length]; lia|]. by constructor.
  - unfold ident_. rw bind_Val; intros (q & Hq & [= <- <-]). split; [done|].
    set (s := match _ with Some _ => _ | None => _ end) in Hq.
    destruct (IsValid s) eqn:Hs; [|by unfold Ident.Quote in Hq; rw Hs in Hq].
    pose proof (lex_quoted s Hs) as Hl. unfold quoted in Hl. rw Hq in Hl.
    eexists _, _. split_and!; [done | exact Hl | by constructor | done].
  - intros [= <- <-]. split; [done|]. unfold limitOffset.
    destruct (LimitOffset a b) as [w|e|p] eqn:E; [|eexists _, []; split_and!; [done|done|by constructor|done]..].
    destruct (LimitOffset_clean a b w E) as (ts & Hl & Hs & Hp).
    eexists _, ts. split_and!; [done|done|by constructor|].
    unfold LimitOffset in E. apply bind_Val in E as (? & _ & E). by apply bind_Val in E as (? & _ & <-%Val_inj).
Qed.

Variable located : expr → error → error.
Abbreviation eval := (eval located).
Abbreviation execute := (execute located).

Lemma same_args_trans a b c : same_args a b → same_args b c → same_args a c.
Proof. unfold same_args. intros [-> ->] [-> ->]. done. Qed.

Lemma strings_quiet args fr fr' ss :
  forallb (calls_only quiet_call) args = true → strings located eval args fr = Val (fr', ss) → same_args fr fr'.
Proof.
  intros Hq. apply strings_steps; [done | apply same_args_trans|].
  apply (Forall_forallb (calls_only quiet_call)); [|done]. apply Forall_true. intros e.
  apply eval_steps; [done | apply same_args_trans | apply quiet_registered].
Qed.

Lemma eval_quiet e fr fr' v :
  calls_only quiet_call e = true → eval e fr = Val (fr', v) → same_args fr fr'.
Proof.
  intros He. revert fr fr' v.
  by apply (eval_steps located quiet_call); [done | apply same_args_trans | apply quiet_registered|].
Qed.

Lemma printed_registered f :
  listed f ["sqlVal"; "sqlList"; "limitOffset"; "tenantScopeIn"; "ident"] = true →
  String.eqb f "and" || String.eqb f "or" = false ∧ existsb (String.eqb f) builtins = false.
Proof.
  unfold listed. cbn [existsb]. rw !orb_true_iff !String.eqb_eq.
  by intros [->|[->|[->|[->|[->|]]]]].
Qed.

Lemma emit_ok_eval plain e fr fr' v :
  emit_ok plain e = true → (0 ≤ fr_next fr)%Z → eval e fr = Val (fr', v) →
  (0 ≤ fr_next fr')%Z ∧ ∃ f args ts, e = ECall f args ∧ lex (print_value v) = Some ts
    ∧ emitted f (Z.to_N (fr_next fr + 1)) ts (Z.to_N (fr_next fr' + 1))
    ∧ (plain = true ∨ starts_sep (print_value v) = true).
Proof.
  destruct e as [| |f args]; [done..|]. cbn [emit_ok]. rw andb_true_iff. intros [Hq Hf] Hn.
  assert (listed f ["sqlVal"; "sqlList"; "limitOffset"; "tenantScopeIn"; "ident"] = true
    ∧ (listed f ["sqlVal"; "sqlList"; "limitOffset"] = true ∨ plain = true)) as [Hl Hcase].
  { unfold listed in *. cbn [existsb] in *.
    destruct (String.eqb f "sqlVal"), (String.eqb f "sqlList"), (String.eqb f "limitOffset"),
      (String.eqb f "tenantScopeIn"), (String.eqb f "ident"), plain; cbn in *; auto. }
  cbn [Scripts.eval]. destruct (printed_registered f Hl) as [-> ->].
  destruct (find_key f RegistryAllFuncs) as [want|]; [|done]. destruct (negb (Nat.eqb _ _)); [done|].
  rw bind_Val; intros ([fr1 ss] & Hs & Hc). apply strings_quiet in Hs as [En Ea]; [|done]. rw En in Hn.
  destruct (call_registered f ss fr1) as [[fr2 v2]|m|p] eqn:E; [|done..].
  injection Hc as -> ->. apply registered_emits in E as (Hn' & s & ts & -> & Hlex & Hem & Hsep); [|done..].
  split; [done|]. exists f, args, ts. split_and!; [done|exact Hlex|by rw En|].
  destruct Hcase as [Hc| ->]; [right; by apply Hsep | by left].
Qed.

Lemma execute_reads t : ∀ plain fr fr' out pre tp,
  secure plain t = true → (0 ≤ fr_next fr)%Z → ready plain pre tp → execute t fr = Val (fr', out) →
  (0 ≤ fr_next fr')%Z ∧ ∃ ts, lex (pre +:+ out) = Some (tp ++ ts)
    ∧ script_tokens t (Z.to_N (fr_next fr + 1)) ts (Z.to_N (fr_next fr' + 1)).
Proof.
  induction t as [|x t IH|e t IH|c a IHa b IHb t IH]; intros plain fr fr' out pre tp; cbn [secure Scripts.execute];
    rw ?andb_true_iff; intros Hsec Hn Hr.
  - intros [= <- <-]. split; [done|]. exists []. rw sapp_nil_r app_nil_r. split; [apply Hr|constructor].
  - rw bind_Val; intros ([fr1 o] & H1 & [= <- <-]). destruct Hsec as [Hx Ht].
    destruct Hx as [Hsep Hx].
    destruct (lex x) as [tx|] eqn:Hlx; [|done].
    eapply IH in H1 as (Hn' & ts & Hl & Hts); [|done..|by apply ready_text].
    split; [done|]. exists (tx ++ ts). rw -sapp_assoc app_assoc. split; [done|]. by constructor.
  - rw bind_Val; intros ([fr1 v] & H1 & H2). apply bind_Val in H2 as ([fr2 o] & H2 & [= <- <-]).
    destruct Hsec as [He Ht].
    apply (emit_ok_eval plain) in H1 as (Hn1 & f & args & tx & -> & Hlx & Hem & Hsep); [|done..].
    eapply IH in H2 as (Hn' & ts & Hl & Hts); [|done..|].
    + split; [done|]. exists (tx ++ ts). rw -sapp_assoc app_assoc. split; [exact Hl|]. by econstructor.
    + split; [by eapply ready_app | done].
  - rw bind_Val; intros ([fr1 v] & H1 & H2). apply bind_Val in H2 as ([fr2 o] & H2 & H3).
    apply bind_Val in H3 as ([fr3 o'] & H3 & [= <- <-]). destruct Hsec as [[[Hc Ha] Hb] Ht].
    apply eval_quiet in H1 as [En _]; [|done]. rw En in Hn. rw En.
    assert ((0 ≤ fr_next fr2)%Z ∧ ∃ ts, lex (pre +:+ o) = Some (tp ++ ts)
      ∧ script_tokens (if truth v then a else b) (Z.to_N (fr_next fr1 + 1)) ts (Z.to_N (fr_next fr2 + 1)))
      as (Hn2 & tx & Hlx & Htx) by (destruct (truth v); eauto).
    eapply IH in H3 as (Hn' & ts & Hl & Hts); [|done..|by split].
    split; [done|]. exists (tx ++ ts). rw -sapp_assoc app_assoc. split; [done|]. by econstructor.
Qed.

(** *** The parameters of a statement of the grammar *)

Lemma emitted_ids f n ts n' : emitted f n ts n' → ∃ k, placeholders ts = ids n k ∧ n' = (n + N.of_nat k)%N.
Proof.
  assert (∀ m k, placeholders (commas (ids m k)) = ids m k) as Hcom by (intros; apply placeholders_commas).
  destruct 1 as [n|n k|n c k Hc|n|n s Hs|n ts Hs Hp].
  - by exists 1.
  - exists k. cbn [placeholders]. by rw placeholders_app Hcom app_nil_r.
  - exists (S k). rw !placeholders_app placeholders_dotted placeholders_chars. cbn [app placeholders].
    by rw placeholders_app Hcom app_nil_r.
  - exists 0. by rw N.add_0_r.
  - exists 0. by rw placeholders_dotted N.add_0_r.
  - exists 0. by rw Hp N.add_0_r.
Qed.

Lemma script_tokens_ids t plain n ts n' :
  secure plain t = true → script_tokens t n ts n' → ∃ k, placeholders ts = ids n k ∧ n' = (n + N.of_nat k)%N.
Proof.
  intros Hsec Ht. revert plain Hsec.
  induction Ht as [n|x rest n tx ts n' Hx Ht IH|f args rest n tx n1 ts n' He Ht IH|c a b h rest n tx n1 ts n' Hb IHb Ht IH];
    intros plain; cbn [secure]; rw ?andb_true_iff; intros Hsec.
  - exists 0. by rw N.add_0_r.
  - destruct Hsec as [Hx' Hr]. destruct (IH _ Hr) as (k & Hk & ->). exists k.
    destruct Hx' as [_ Hx']. rw Hx in Hx'. apply Nat.eqb_eq, nil_length_inv in Hx'.
    by rw placeholders_app Hk Hx'.
  - destruct Hsec as [_ Hr]. destruct (IH _ Hr) as (k & Hk & ->).
    apply emitted_ids in He as (j & Hj & ->). exists (j + k). rw placeholders_app Hj Hk ids_app. split; [done|lia].
  - destruct Hsec as [[[_ Ha] Hb'] Hr]. destruct (IH _ Hr) as (k & Hk & ->).
    assert (secure plain (if h then a else b) = true) as Hs by by destruct h.
    destruct (IHb _ Hs) as (j & Hj & ->). exists (j + k).
    rw placeholders_app Hj Hk ids_app. split; [done|lia].
Qed.
End grammar.

(** ** Where a script file is looked up *)

Definition normal_elem (e : string) : bool :=
  negb (String.eqb e "" || String.eqb e "." || String.eqb e "..").

(** The elements of a cleaned path, from the first one. *)
Definition path_elems (path : string) : list string :=
  rev (foldl (clean_elem (HasPrefix path "/")) [] (Split path "/")).

Definition print_path (rooted : bool) (elems : list string) : string :=
  let out := Join elems "/" in
  if rooted then "/" +:+ out else if String.eqb out "" then "." else out.

Lemma Split1_append d a b :
  Split (a +:+ String d b) (String d "") = Split a (String d "") ++ Split b (String d "").
Proof.
  induction a as [|c a IH]; cbn [String.append]; rw Split_cons1.
  - by rw Ascii.eqb_refl.
  - rw Split_cons1 IH. destruct (Ascii.eqb d c); [done|].
    by destruct (Split a (String d "")) eqn:E; [apply Split_nonempty in E|].
Qed.

Lemma clean_elem_normal rooted stack e : normal_elem e = true → clean_elem rooted stack e = e :: stack.
Proof.
  unfold normal_elem, clean_elem. rw negb_true_iff !orb_false_iff. by intros [[-> ->] ->].
Qed.

Lemma filepath_Clean_elems p : filepath_Clean p = print_path (HasPrefix p "/") (path_elems p).
Proof. done. Qed.

Lemma Join_below base folder name :
  base ≠ "" → normal_elem folder = true → normal_elem name = true →
  no_byte "/" folder = true → no_byte "/" name = true →
  filepath_Join [base; folder; name] = print_path (HasPrefix base "/") (path_elems base ++ [folder; name]).
Proof.
  intros Hb Hf Hn Hfs Hns. unfold filepath_Join.
  assert (∀ e, normal_elem e = true → e ≠ "") as Hne by (intros e He ->; done).
  rw (_ : filter (λ e, e ≠ "") [base; folder; name] = [base; folder; name]).
  { rw filter_cons_True // filter_cons_True; [by apply Hne|]. by rw filter_cons_True; [apply Hne|]. }
  change (Join [base; folder; name] "/") with (base +:+ String "/" (folder +:+ String "/" name)).
  rw filepath_Clean_elems. unfold path_elems.
  rw (_ : HasPrefix (base +:+ String "/" (folder +:+ String "/" name)) "/" = HasPrefix base "/").
  { destruct base as [|c base]; [done|]. unfold HasPrefix. cbn [String.append String.prefix].
    by destruct (Ascii.ascii_dec "/" c); [destruct base|]. }
  rw !Split1_append (Split1_single _ name) // (Split1_single _ folder) // foldl_app. cbn [app foldl].
  rw !clean_elem_normal //. cbn [rev]. by rw -app_assoc.
Qed.

(** ** What a script sees *)

Lemma insert_all_other {A B} (f : A → B) (l : list (string * A)) d k :
  k ∉ l.*1 → foldl (λ (d : gmap string B) kv, <[kv.1 := f kv.2]> d) d l !! k = d !! k.
Proof.
  revert d; induction l as [|[k' v] l IH]; intros d; [done|]. cbn. rw not_elem_of_cons; intros [Hne Hk].
  rw IH //. by rw lookup_insert_ne.
Qed.

Lemma insert_all_elem {A B} (f : A → B) (l : list (string * A)) d k v :
  NoDup l.*1 → (k, v) ∈ l → foldl (λ (d : gmap string B) kv, <[kv.1 := f kv.2]> d) d l !! k = Some (f v).
Proof.
  revert d; induction l as [|[k' v'] l IH]; intros d; cbn; [by intros _ []%elem_of_nil|].
  rw NoDup_cons; intros [Hk Hnd] [[= <- <-]|Hin]%elem_of_cons; [|by apply IH].
  rw insert_all_other //. by rw lookup_insert_eq.
Qed.

Section data.
Context `{MapRange}.

Lemma extractQueryParameters_lookup rq d k :
  extractQueryParameters rq d !! k
  = match Http.Query rq !! k with Some vs => Some (one_or_all vs) | None => d !! k end.
Proof.
  unfold extractQueryParameters. destruct (Http.Query rq !! k) as [vs|] eqn:E.
  - apply insert_all_elem; [apply map_range_NoDup | by apply map_range_lookup].
  - apply insert_all_other. intros ((k' & v) & -> & Hin)%list_elem_of_fmap.
    apply map_range_lookup in Hin. by cbn in E; rw E in Hin.
Qed.

Lemma put_context_lookup key value d k :
  put_context key value d !! k
  = match value with
    | Some id => if String.eqb key k && negb (String.eqb id "") then Some (IStr id) else d !! k
    | None => d !! k
    end.
Proof.
  unfold put_context. destruct value as [id|]; [|done]. destruct (String.eqb_spec id "") as [_|_].
  - by rw andb_false_r.
  - destruct (String.eqb_spec key k) as [<-|Hne]; cbn; [by rw lookup_insert_eq | by rw lookup_insert_ne].
Qed.

(** A value of the context, when it has one that is not empty. *)
Definition context_value (rq : Request) (k : string) : option string :=
  let v := if String.eqb k "userId" then UserIDKey (Ctx rq)
           else if String.eqb k "tenantId" then TenantIDKey (Ctx rq) else None in
  match v with Some id => if String.eqb id "" then None else Some id | None => None end.

Lemma script_data_lookup rq k :
  k ≠ "header" →
  script_data rq !! k
  = match context_value rq k with Some id => Some (IStr id) | None => one_or_all <$> Http.Query rq !! k end.
Proof.
  intros Hh. unfold script_data, extractContextValues, context_value.
  rw !put_context_lookup extractQueryParameters_lookup. unfold extractHeaders. rw lookup_insert_ne //.
  rw (String.eqb_sym "tenantId" k) (String.eqb_sym "userId" k).
  destruct (String.eqb_spec k "userId") as [->|Hu]; cbn [andb String.eqb Ascii.eqb Bool.eqb].
  - destruct (TenantIDKey (Ctx rq)), (UserIDKey (Ctx rq)) as [id|]; try (by destruct (_ !! "userId"));
      destruct (String.eqb_spec id "") as [->|]; cbn; try done; by destruct (_ !! "userId").
  - destruct (String.eqb_spec k "tenantId") as [->|Ht]; cbn [andb].
    + destruct (TenantIDKey (Ctx rq)) as [id|], (UserIDKey (Ctx rq)); try (by destruct (_ !! "tenantId"));
        destruct (String.eqb_spec id "") as [->|]; cbn; try done; by destruct (_ !! "tenantId").
    + destruct (TenantIDKey (Ctx rq)), (UserIDKey (Ctx rq)); by destruct (_ !! k).
Qed.
End data.

(** ** Properties *)

Section properties.
Context `{UnicodeTables}.
Variable located : expr → error → error.
Variable read_template : string → gores tmpl.

Lemma ParseScript_Val path data t sql values :
  read_template path = Val t → ParseScript located read_template path data = Val (sql, values) →
  undefined t = None ∧ ∃ fr, execute located t (fresh_registry data) = Val (fr, sql) ∧ values = Args fr.
Proof.
  intros Ht. unfold ParseScript, parse_file. rw Ht. cbn [mbind gores_bind].
  destruct (undefined t); [done|]. cbn [prefixed mbind gores_bind].
  destruct (execute located t _) as [[fr out]|e|p] eqn:E; [|done..]. intros [= <- <-]. split; [done|]. by exists fr.
Qed.

(** C14: SQL injection through the values of a script is impossible: when every
    action that prints calls [sqlVal], [sqlList], [tenantScopeIn], [ident] or
    [limitOffset] and each text between the actions is a whole lexical fragment
    ([secure]: no quote is left open, and an apostrophe in a comment counts as
    one), the statement is, whatever the data of the request, one of
    the statements of the template's grammar: its own texts, parameters,
    validated identifiers and page numbers.  Its parameters are $1 to $n in the
    order of the text, one for each value that is bound. *)
Theorem script_reads_back path data t sql values :
  read_template path = Val t → secure true t = true →
  ParseScript located read_template path data = Val (sql, values) →
  ∃ ts n, lex sql = Some ts ∧ script_tokens t 1 ts n ∧ placeholders ts = ids 1 (length values).
Proof.
  intros Ht Hsec (_ & fr & Hex & ->)%(ParseScript_Val path data t); [|done].
  destruct (execute_reads located t true (fresh_registry data) fr sql "" [] Hsec) as (Hn & ts & Hl & Hts);
    [done | apply ready_nil | done |].
  exists ts, (Z.to_N (fr_next fr + 1)). split_and!; [done..|].
  destruct (script_tokens_ids t true _ _ _ Hsec Hts) as (k & -> & Hk).
  apply execute_binds, binds_numbered in Hex; [|done]. unfold numbered in Hex.
  f_equal. cbn in Hk. lia.
Qed.

(** C15: The text of a script depends on the data of the request only through
    the keys it looks at by name ([.key], [defaultOrValue], [inFormat],
    [ident]) and, for the others, through whether they are set and how many
    values a list has: two requests that agree on these get the same statement
    and bind as many values, or fail with the same error. *)
Theorem script_text_independent path t K d1 d2 :
  read_template path = Val t → inspects K t = true → alike_data K d1 d2 →
  gores_rel (λ p q, p.1 = q.1 ∧ length p.2 = length q.2)
    (ParseScript located read_template path d1) (ParseScript located read_template path d2).
Proof.
  intros Ht Hi Hd. unfold ParseScript, parse_file. rw Ht. cbn [mbind gores_bind].
  destruct (undefined t); [done|]. cbn [prefixed mbind gores_bind].
  pose proof (execute_like K located t Hi (fresh_registry d1) (fresh_registry d2) (conj Hd (conj eq_refl eq_refl))) as Hx.
  destruct (execute located t (fresh_registry d1)) as [[a o]|e|p], (execute located t (fresh_registry d2)) as [[b o']|e'|p'];
    cbn in Hx |- *; try done; [|by rw Hx..].
  by destruct Hx as [(_ & _ & Hl) E].
Qed.

(** Whatever a template does, the arguments it hands to the database are
    numbered without gaps: [fr.next] is the length of [fr.Args] at every step,
    bound values are never dropped or reordered, and a run never panics, so it
    always ends with a statement or an error. *)
Theorem script_arguments_numbered t fr :
  numbered fr →
  match execute located t fr with
  | Val (fr', _) => numbered fr' ∧ ∃ vs, Args fr' = Args fr ++ vs
  | Err _ => True
  | Panic _ => False
  end.
Proof.
  intros Hn. destruct (execute located t fr) as [[fr' out]|e|p] eqn:E; [|done|].
  2: { pose proof (execute_no_panic located t fr) as Hp. by rw E in Hp. }
  pose proof (execute_binds _ _ _ _ _ E) as Hb. split; [by eapply binds_numbered|].
  destruct Hb as (vs & ? & _). by exists vs.
Qed.
End properties.

(** C16: A script is looked up two levels under the directory of the scripts and
    nowhere else: with a folder and a name that are single path elements, as
    the variables of the route are, the path is the cleaned base directory, the
    folder, and the name with the suffix of the method; every other method than
    the five known ones is an error. *)
Theorem script_path_confined cfg env os_stat verb folder name path :
  let base := if String.eqb env "" then QueriesPath cfg else env in
  base ≠ "" → normal_elem folder = true → no_byte "/" folder = true → no_byte "/" name = true →
  GetScript cfg env os_stat verb folder name = Val path →
  ∃ sufix, assoc verb verbs = Some sufix
    ∧ path = print_path (HasPrefix base "/") (path_elems base ++ [folder; name +:+ sufix]).
Proof.
  intros base Hb Hf Hfs Hns. unfold GetScript. destruct (assoc verb verbs) as [sufix|] eqn:Hv; [|done].
  set (p := script_path cfg env folder name sufix). destruct (os_stat p); [|done..]. intros [= <-].
  exists sufix. split; [done|]. subst p. unfold script_path. fold base.
  assert (sufix ∈ snd <$> verbs) as Hs.
  { unfold assoc in Hv. destruct (List.find _ verbs) as [[v s]|] eqn:E; [|done]. injection Hv as <-.
    apply List.find_some in E as [Hin _]. apply list_elem_of_In in Hin. by apply (list_elem_of_fmap_2 snd) in Hin. }
  apply Join_below; [done|done| |done|].
  - unfold normal_elem. rw negb_true_iff. assert (2 < slen (name +:+ sufix)) as Hl.
    { rw slen_app. repeat (apply elem_of_cons in Hs as [->|Hs]; [cbn; lia|]). by apply elem_of_nil in Hs. }
    destruct (name +:+ sufix) as [|a [|b [|c s]]]; [cbn in Hl; lia..|]. cbn. by repeat case_match.
  - unfold no_byte in *. rw string_forall_app Hns.
    repeat (apply elem_of_cons in Hs as [->|Hs]; [done|]). by apply elem_of_nil in Hs.
Qed.

(** The parent directory is not confined: nothing else checks the folder. *)
Example script_path_parent : filepath_Join ["/srv/queries"; ".."; "x.read.sql"] = "/srv/x.read.sql".
Proof. by vm_compute. Qed.

(** The identity a script sees: a non-empty user or tenant of the request's
    context always wins over a query parameter of the same name; but without
    one, [userId] and [tenantId] are whatever the query string says, and
    [tenantIds], which [tenantScopeIn] filters by, is never anything else. *)
Theorem script_identity `{MapRange} rq :
  (∀ id, UserIDKey (Ctx rq) = Some id → id ≠ "" → script_data rq !! "userId" = Some (IStr id))
  ∧ (∀ id, TenantIDKey (Ctx rq) = Some id → id ≠ "" → script_data rq !! "tenantId" = Some (IStr id))
  ∧ (UserIDKey (Ctx rq) = None → script_data rq !! "userId" = one_or_all <$> Http.Query rq !! "userId")
  ∧ (TenantIDKey (Ctx rq) = None → script_data rq !! "tenantId" = one_or_all <$> Http.Query rq !! "tenantId")
  ∧ script_data rq !! "tenantIds" = one_or_all <$> Http.Query rq !! "tenantIds".
Proof.
  assert (∀ id : string, id ≠ "" → String.eqb id "" = false) as Hne by (intros id; apply String.eqb_neq).
  split_and!; intros *; rw script_data_lookup //; unfold context_value; cbn.
  - intros Hid Hn. by rw Hid Hne.
  - intros Hid Hn. by rw Hid Hne.
  - by intros ->.
  - by intros ->.
Qed.

(** A read script whose text ends in a semicolon cannot run: the query it is
    wrapped in has the semicolon inside an open parenthesis. *)
Theorem semicolon_breaks_read_scripts cfg sql ts :
  template (JSONAggType cfg) = true → lex (sql +:+ ";") = Some (ts ++ [TCh ";"%char]) → depth 0 ts = Some 0 →
  ∃ front, lex (aggregate cfg (sql +:+ ";")) = Some (front ++ chars ";) s") ∧ depth 0 front = Some 1.
Proof.
  intros Hj Hl Hd. set (head := "SELECT " +:+ JSONAggType cfg +:+ "(s) FROM (").
  exists (chars head ++ ts). split.
  - rw (_ : aggregate cfg (sql +:+ ";") = head +:+ ((sql +:+ ";") +:+ ") s")).
    { unfold aggregate, head. by rw !sapp_assoc. }
    rw (_ : (chars head ++ ts) ++ chars ";) s" = chars head ++ (ts ++ [TCh ";"%char]) ++ chars ") s").
    { by rw -!app_assoc. }
    apply lex_plain_app; [|by apply lex_app]. unfold head. rw !plain_app. by apply template_facts in Hj as [-> _].
  - unfold head. rw !chars_app !depth_app. apply template_facts in Hj as [_ [Hs _]%sealed_chars].
    rw (_ : depth 0 (chars "SELECT ") = Some 0) //. cbn [mbind option_bind]. rw depth_app Hs. cbn.
    by apply (depth_shift 0 1) in Hd.
Qed.

(** A script that calls a function the registry does not have is rejected
    before anything of it runs, whatever the request. *)
Theorem undefined_function_rejects_script `{UnicodeTables} located read_template path t data :
  read_template path = Val t → undefined t ≠ None →
  ∃ e, ParseScript located read_template path data = Err ("could not parse file: " +:+ e).
Proof.
  intros Ht Hu. unfold ParseScript, parse_file. rw Ht. cbn [mbind gores_bind].
  destruct (undefined t) as [x|]; [|done]. by eexists.
Qed.

(** ** The endpoint *)

Section endpoint.
Context `{UnicodeTables} `{MapRange}.
Variable cfg : Prest.
Variable env : string.
Variable os_stat : string → stat.
Variable located : expr → error → error.
Variable read_template : string → gores tmpl.

(** The database a request for a script names, or the current one. *)
Definition script_database (st : ConnState) (r : Request) : string :=
  if String.eqb (VarsGet r "database") "" then GetDatabase st else VarsGet r "database".

(** The request the script runs with, and the statement it becomes. *)
Definition script_request (st : ConnState) (r : Request) : Request :=
  with_ctx (table_ctx r (script_database st r)) r.

Definition script_statement (rq : Request) : gores (string * list iface) :=
  let folder := VarsGet rq "queriesLocation" in
  let script := VarsGet rq "script" in
  path ← about_script "get" folder script (GetScript cfg env os_stat (Method rq) folder script);
  about_script "parse" folder script (ParseScript located read_template path (script_data rq)).

(** The reply to the result of the statement. *)
Definition script_reply (r : Request) (res : gores PrestScanner) : gores Reply :=
  match res with
  | Val sc =>
      match sc_result sc with
      | Val b => Val (MkReply (ok_bytes b) (if String.eqb (Method r) "GET" then Some (URL r, b) else None))
      | Err _ => Val (bad_request "could not execute sql, check your prest logs")
      | Panic p => Panic p
      end
  | Err e => Val (bad_request e)
  | Panic p => Panic p
  end.

Lemma ExecuteFromScripts_unfold {D} `{Backend D} r (w : World D) :
  let w1 := MkWorld (SetDatabase (PGDatabase cfg) (w_conn w)) (w_stmts w) (w_db w) in
  let rq := script_request (w_conn w) r in
  ExecuteFromScripts cfg env os_stat located read_template r w
  = match script_statement rq with
    | Val (sql, values) =>
        let '(w2, res) := ExecuteScriptsCtx cfg (Ctx rq) (Method r) sql values w1 in (w2, script_reply r res)
    | Err e => (w1, Val (bad_request e))
    | Panic p => (w1, Panic p)
    end.
Proof.
  intros w1 rq. unfold ExecuteFromScripts. rw conn_state_bind. fold (script_database (w_conn w) r).
  fold (script_request (w_conn w) r). fold rq. unfold ExecuteScriptQuery, script_statement, try, with_conn, lift.
  cbv [mbind M_bind gores_bind]. cbn [w_conn w_stmts w_db]. fold w1.
  change (VarsGet rq "queriesLocation") with (VarsGet r "queriesLocation").
  change (VarsGet rq "script") with (VarsGet r "script"). change (Method rq) with (Method r).
  destruct (about_script "get" _ _ _) as [path|e|p]; [|done..].
  destruct (about_script "parse" _ _ _) as [[sql values]|e|p]; [|done..].
  destruct (ExecuteScriptsCtx _ _ _ _ _ w1) as [w2 [sc|e|p]]; [|done..].
  cbn [script_reply]. by destruct (sc_result sc).
Qed.

(** What the endpoint of scripts answers: a script that cannot be found,
    parsed or executed is a 400 with the error (the database's own is hidden)
    and nothing is cached; a script that runs is a 200 with the rows, which a
    GET, and only a GET, also stores in the cache under the request's URL. *)
Theorem script_endpoint_replies {D} `{Backend D} r (w w' : World D) rep :
  ExecuteFromScripts cfg env os_stat located read_template r w = (w', Val rep) →
  (Status (rp_response rep) = StatusBadRequest ∧ rp_cached rep = None
     ∧ (∀ e, script_statement (script_request (w_conn w) r) = Err e → rep = bad_request e ∧ w_db w' = w_db w))
  ∨ (Status (rp_response rep) = StatusOK ∧ is_val (script_statement (script_request (w_conn w) r)) = true
     ∧ rp_cached rep = if String.eqb (Method r) "GET" then Some (URL r, RespBody (rp_response rep)) else None).
Proof.
  rw ExecuteFromScripts_unfold. destruct (script_statement _) as [[sql values]|e|p]; [| |done].
  - destruct (ExecuteScriptsCtx _ _ _ _ _ _) as [w2 res]. intros [= <- Hrep].
    destruct res as [sc|e|p]; cbn [script_reply] in Hrep; [|injection Hrep as <-; by left|done].
    destruct (sc_result sc); [|injection Hrep as <-; by left|done]. injection Hrep as <-. by right.
  - intros [= <- <-]. left. split_and!; [done..|]. by intros ? [= <-].
Qed.

(** A script runs on the database of its path, or on the current one when
    the route names none: without the statement cache, every call that reaches
    the database goes to the connection the pool resolves for that name. *)
Theorem script_runs_on_path_database {D} `{Backend D} r (w : World (D * list target)) :
  PGCache cfg = false → (w_db w).2 = [] →
  ∀ t, t ∈ (w_db (ExecuteFromScripts (H:=traced) cfg env os_stat located read_template r w).1).2 →
  ∃ h, (getDBFromCtx be_dial cfg (with_DBName (script_database (w_conn w) r) (Ctx r))
          (SetDatabase (PGDatabase cfg) (w_conn w))).2 = Val h ∧ t = OnDB h.
Proof.
  intros Hc Hw t. rw ExecuteFromScripts_unfold.
  set (w1 := MkWorld _ (w_stmts w) (w_db w)). set (rq := script_request (w_conn w) r).
  destruct (script_statement rq) as [[sql values]|e|p]; cbn [fst]; [|subst w1; cbn; rw Hw; by intros []%elem_of_nil..].
  destruct (ExecuteScriptsCtx _ _ _ _ _ w1) as [w2 res] eqn:E. cbn [fst]. intros Ht.
  pose proof (operations_targets cfg (OScriptCtx (Ctx rq) (Method r) sql values) w1 Hc Hw t) as Hop.
  cbn [run_operation] in Hop. rw E in Hop. by apply Hop in Ht.
Qed.
End endpoint.

(** ** Witnesses *)

#[local] Existing Instance ascii_tables.
#[local] Existing Instance echo.

Definition nl : string := byte_str 10.

(** The statement of etc/queries/lobehub/agentByForkedFrom.read.sql, under a
    scope and with a page. *)
Definition agents_script : tmpl :=
  TText ("SELECT a.id" +:+ nl +:+ "FROM agents a" +:+ nl +:+ "WHERE a.user_id = ")
  (TEmit (ECall "sqlVal" [EStr "userId"])
  (TText (nl +:+ "  AND ")
  (TEmit (ECall "tenantScopeIn" [EStr "a.tenant_id"])
  (TIf (ECall "isSet" [EStr "source"])
     (TText (nl +:+ "  AND a.params->>'forkedFromIdentifier' = ") (TEmit (ECall "sqlVal" [EStr "source"]) TEnd))
     TEnd
  (TText (nl +:+ "ORDER BY a.updated_at DESC" +:+ nl)
  (TEmit (ECall "limitOffset" [ECall "defaultOrValue" [EStr "page"; EStr "1"];
                               ECall "defaultOrValue" [EStr "size"; EStr "20"]]) TEnd)))))).

Definition agents_data (user source : string) (tenants : list string) : TemplateData :=
  <["userId" := IStr user]> (<["source" := IStr source]> {[ "tenantIds" := IStrs tenants ]}).

Definition agents_sql : string :=
  "SELECT a.id" +:+ nl +:+ "FROM agents a" +:+ nl +:+ "WHERE a.user_id = $1" +:+ nl +:+
  requote "  AND `a`.`tenant_id` IN ($2,$3)" +:+ nl +:+ "  AND a.params->>'forkedFromIdentifier' = $4" +:+ nl +:+
  "ORDER BY a.updated_at DESC" +:+ nl +:+ "LIMIT 20 OFFSET(1 - 1) * 20".

Definition one_script (t : tmpl) (path : string) : gores tmpl := Val t.
Definition bare : expr → error → error := λ _ e, e.

Lemma script_reads_back_witness :
  ParseScript bare (one_script agents_script) "agents.read.sql" (agents_data "u'; --" "m1" ["t1"; "t2"])
    = Val (agents_sql, [IStr "u'; --"; IStr "t1"; IStr "t2"; IStr "m1"])
  ∧ ∃ ts n, lex agents_sql = Some ts ∧ script_tokens agents_script 1 ts n
      ∧ placeholders ts = ids 1 (length [IStr "u'; --"; IStr "t1"; IStr "t2"; IStr "m1"]).
Proof.
  assert (ParseScript bare (one_script agents_script) "agents.read.sql" (agents_data "u'; --" "m1" ["t1"; "t2"])
    = Val (agents_sql, [IStr "u'; --"; IStr "t1"; IStr "t2"; IStr "m1"])) as E by by vm_compute.
  split; [exact E|].
  by apply (script_reads_back bare (one_script agents_script) "agents.read.sql"
              (agents_data "u'; --" "m1" ["t1"; "t2"]) agents_script agents_sql); [|vm_compute|].
Defined.

Lemma script_text_witness :
  gores_rel (λ p q, p.1 = q.1 ∧ length p.2 = length q.2)
    (ParseScript bare (one_script agents_script) "" (agents_data "alice" "m1" ["t1"]))
    (ParseScript bare (one_script agents_script) "" (agents_data "bob" "' OR true" ["t2"])).
Proof.
  apply (script_text_independent bare (one_script agents_script) "" agents_script ["page"; "size"]);
    [done | by vm_compute |].
  intros k. unfold agents_data. split.
  - unfold listed. cbn. rw !orb_true_iff !String.eqb_eq. by intros [->|[->|]].
  - destruct (decide ("userId" = k)) as [<-|H1]; [by rw !lookup_insert_eq|]. rw !(lookup_insert_ne _ "userId") //.
    destruct (decide ("source" = k)) as [<-|H2]; [by rw !lookup_insert_eq|]. rw !(lookup_insert_ne _ "source") //.
    destruct (decide ("tenantIds" = k)) as [<-|H3]; [by rw !lookup_singleton_eq|]. by rw !lookup_singleton_ne.
Defined.

Lemma script_arguments_witness :
  numbered (fresh_registry (agents_data "alice" "m1" [])) ∧
  match execute bare agents_script (fresh_registry (agents_data "alice" "m1" [])) with
  | Val (fr', _) => numbered fr' ∧ ∃ vs, Args fr' = Args (fresh_registry (agents_data "alice" "m1" [])) ++ vs
  | Err _ => True
  | Panic _ => False
  end.
Proof. split; [done|]. by apply (script_arguments_numbered bare agents_script). Defined.

Lemma script_path_witness :
  ∃ sufix, assoc "PUT" verbs = Some sufix
    ∧ "/srv/queries/lobehub/x.update.sql"
      = print_path (HasPrefix "/srv/./queries/" "/") (path_elems "/srv/./queries/" ++ ["lobehub"; "x" +:+ sufix]).
Proof.
  apply (script_path_confined zero_Prest "/srv/./queries/" (λ _, StatOK) "PUT" "lobehub" "x"); [|by vm_compute..].
  done.
Defined.

Lemma semicolon_witness :
  ∃ front, lex (aggregate sample_cfg ("SELECT 1" +:+ ";")) = Some (front ++ chars ";) s") ∧ depth 0 front = Some 1.
Proof. by apply (semicolon_breaks_read_scripts sample_cfg "SELECT 1" (chars "SELECT 1")); vm_compute. Defined.

Lemma undefined_function_witness :
  ∃ e, ParseScript bare (one_script (TEmit (ECall "defaultOrNull" [EStr "name"]) TEnd)) "taskCreate.write.sql" ∅
       = Err ("could not parse file: " +:+ e).
Proof.
  by apply (undefined_function_rejects_script bare _ _ (TEmit (ECall "defaultOrNull" [EStr "name"]) TEnd)).
Defined.

Definition script_req : Request :=
  MkRequest "GET" "/_QUERIES/lobehub/agents" "/_QUERIES/lobehub/agents?source=m1" {[ "source" := ["m1"] ]} ∅
    (with_UserID "alice" empty_context) (<["queriesLocation" := "lobehub"]> {[ "script" := "agents" ]}).

Lemma script_endpoint_witness :
  let run := ExecuteFromScripts sample_cfg "/srv" (λ _, StatNotExist "no such file") bare (one_script agents_script)
               script_req notes_world in
  ∃ w' rep, run = (w', Val rep) ∧
  ((Status (rp_response rep) = StatusBadRequest ∧ rp_cached rep = None
     ∧ (∀ e, script_statement sample_cfg "/srv" (λ _, StatNotExist "no such file") bare (one_script agents_script)
               (script_request (w_conn notes_world) script_req) = Err e → rep = bad_request e ∧ w_db w' = w_db notes_world))
  ∨ (Status (rp_response rep) = StatusOK
     ∧ is_val (script_statement sample_cfg "/srv" (λ _, StatNotExist "no such file") bare (one_script agents_script)
               (script_request (w_conn notes_world) script_req)) = true
     ∧ rp_cached rep = if String.eqb (Method script_req) "GET"
                       then Some (URL script_req, RespBody (rp_response rep)) else None)).
Proof.
  intros run. eexists _, _. split; [unfold run; rw ExecuteFromScripts_unfold; reflexivity|].
  apply (script_endpoint_replies sample_cfg "/srv" (λ _, StatNotExist "no such file") bare (one_script agents_script)
           script_req notes_world).
  by rw ExecuteFromScripts_unfold.
Defined.

Definition script_req_on (database : string) : Request :=
  MkRequest "GET" "/_QUERIES/b/lobehub/agents" "/_QUERIES/b/lobehub/agents" ∅ ∅
    empty_context (<["database" := database]> (<["queriesLocation" := "lobehub"]> {[ "script" := "agents" ]})).

Lemma script_database_witness :
  let w := MkWorld two_databases ∅ (tt, []) in
  let run := ExecuteFromScripts (H:=traced) zero_Prest "/srv" (λ _, StatOK) bare (one_script agents_script)
               (script_req_on "b") w in
  (w_db run.1).2 = [OnDB 1; OnDB 1]
  ∧ ∀ t, t ∈ (w_db run.1).2 →
    ∃ h, (getDBFromCtx be_dial zero_Prest (with_DBName (script_database two_databases (script_req_on "b")) empty_context)
            (SetDatabase (PGDatabase zero_Prest) two_databases)).2 = Val h ∧ t = OnDB h.
Proof.
  split; [by vm_compute|].
  by apply (script_runs_on_path_database zero_Prest "/srv" (λ _, StatOK) bare (one_script agents_script)
           (script_req_on "b") (MkWorld two_databases ∅ (tt, []))).
Defined.
