(* ===== verification/Adapter.v ===== *)
(** * The adapter: adapters/adapter.go, adapters/postgres/connection.go

    The handlers reach the database through an interface, [Adapter], of which
    the PostgreSQL adapter is the implementation.  This file states the interface
    with one operation per method, in the order of adapter.go, over an abstract
    state; the laws that relate its operations on the current database to those
    on the database of a context; the instance made of the definitions of the
    other files; and what follows from the laws for any client.

    It also holds what is left of the adapter's package: the functions of
    connection.go and the transactions. *)

From S2P Require Import Prelude GoStrings Config Http Where Connection Queries Statements Clauses Permissions Bodies Exec ExecSpec Scripts.

(** ** The functions of adapters/postgres/connection.go

    [GetByName] is [Tables.GetByName]. *)
Section connections.
Context `{UnicodeTables}.
Variable dial : string → gores unit.
Variable cfg : Prest.

Definition postgres_GetURI (DBName : string) : string := Connection.GetURI cfg DBName.
Definition postgres_Get : ConnState → ConnState * gores nat := Connection.Get dial cfg.
Definition postgres_GetPool (st : ConnState) : Pool := pool st.
Definition postgres_AddDatabaseToPool (name : string) : ConnState → ConnState * gores nat :=
  Connection.AddDatabaseToPool dial cfg name.
Definition postgres_SetRealName (logical actual : string) : ConnState → ConnState :=
  Connection.SetRealName logical actual.
Definition postgres_AddURI (name dsn : string) : ConnState → ConnState * gores nat := Connection.AddURI dial cfg name dsn.
Definition postgres_MustGet : ConnState → ConnState * gores nat := Connection.MustGet dial cfg.
Definition postgres_SetDatabase (name : string) : ConnState → ConnState := Connection.SetDatabase name.
Definition postgres_GetDatabase : ConnState → string := Connection.GetDatabase.
End connections.

(** ** Transactions: postgres.go

    [db.Begin] on a connection: the transaction, as a number of its own. *)
Class TxBackend (D : Type) := be_begin : D → nat → D * gores nat.

Section transactions.
Context {D : Type} `{Backend D, TxBackend D} `{UnicodeTables}.
Variable PrestConf : Prest.

Definition GetTransaction : M D nat := db ← get_db PrestConf; with_db (λ d, be_begin d db).
Definition GetTransactionCtx (c : Context) : M D nat :=
  db ← get_db_ctx PrestConf c; with_db (λ d, be_begin d db).
End transactions.

(** ** The interface *)

(** A method that may change the state. *)
Definition Method_ (W A : Type) : Type := W → W * gores A.
(** A method that returns a [Scanner]. *)
Definition Call (W : Type) : Type := Method_ W PrestScanner.

(** A decoded body stands for the body of the request; the two COPY methods get
    the deadline of their context. *)
Class Adapter (W : Type) := {
  a_GetTransaction : Method_ W nat;
  a_GetTransactionCtx : Context → Method_ W nat;
  a_BatchInsertValues : string → list iface → Call W;
  a_BatchInsertValuesCtx : Context → string → list iface → Call W;
  a_BatchInsertCopy : string → string → string → list string → list iface → Call W;
  a_BatchInsertCopyCtx : Context → Z → string → string → string → list string → list iface → Call W;
  a_CountByRequest : Request → gores string;
  a_DatabaseClause : Request → string * bool;
  a_DatabaseOrderBy : string → bool → string;
  a_DatabaseWhere : string → string;
  a_Delete : string → list iface → Call W;
  a_DeleteCtx : Context → string → list iface → Call W;
  a_DeleteWithTransaction : nat → string → list iface → Call W;
  a_DeleteSQL : W → string → string → string → string;
  a_DistinctClause : Request → gores string;
  a_ExecuteScripts : string → string → list iface → Call W;
  a_ExecuteScriptsCtx : Context → string → string → list iface → Call W;
  a_FieldsPermissions : Request → string → string → string → gores (list string);
  a_GetScript : string → string → string → gores string;
  a_GroupByClause : Request → gores string;
  a_Insert : string → list iface → Call W;
  a_InsertCtx : Context → string → list iface → Call W;
  a_InsertWithTransaction : nat → string → list iface → Call W;
  a_InsertSQL : W → string → string → string → string → string → string;
  a_JoinByRequest : Request → gores (list string);
  a_OrderByRequest : Request → gores string;
  a_PaginateIfPossible : Request → gores string;
  a_ParseBatchInsertRequest : gores (list (gmap string iface)) → gores (string * string * list iface);
  a_ParseInsertRequest : Request → gores (gmap string iface) → gores (string * string * list iface);
  a_ParseScript : string → TemplateData → gores (string * list iface);
  a_Query : string → list iface → Call W;
  a_QueryCtx : Context → string → list iface → Call W;
  a_QueryCount : string → list iface → Call W;
  a_QueryCountCtx : Context → string → list iface → Call W;
  a_ReturningByRequest : Request → gores string;
  a_SchemaClause : Request → string * bool;
  a_SchemaOrderBy : string → bool → string;
  a_SchemaTablesClause : string;
  a_SchemaTablesOrderBy : string → string;
  a_SchemaTablesWhere : string → string;
  a_SelectFields : list string → gores string;
  a_SelectSQL : W → string → string → string → string → string;
  a_SetByRequest : gores (gmap string iface) → Z → gores (string * list iface);
  a_SetDatabase : string → W → W;
  a_GetDatabase : W → string;
  a_TableClause : string;
  a_TableOrderBy : string → string;
  a_TablePermissions : string → string → string → bool;
  a_TableWhere : string → string;
  a_Update : string → list iface → Call W;
  a_UpdateCtx : Context → string → list iface → Call W;
  a_UpdateWithTransaction : nat → string → list iface → Call W;
  a_UpdateSQL : W → string → string → string → string → string;
  a_WhereByRequest : Request → Z → gores (string * list iface);
  a_ShowTable : string → string → Call W;
  a_ShowTableCtx : Context → string → string → Call W
}.

(** ** Calls on the current database, and on that of a context *)

Section laws.
Context {W : Type} `{Adapter W}.

(** A call of the current database, and its counterpart for a context. *)
Inductive counterpart (c : Context) : Call W → Call W → Prop :=
| CBatchInsertValues SQL ps : counterpart c (a_BatchInsertValues SQL ps) (a_BatchInsertValuesCtx c SQL ps)
| CDelete SQL ps : counterpart c (a_Delete SQL ps) (a_DeleteCtx c SQL ps)
| CExecuteScripts method SQL ps :
    counterpart c (a_ExecuteScripts method SQL ps) (a_ExecuteScriptsCtx c method SQL ps)
| CInsert SQL ps : counterpart c (a_Insert SQL ps) (a_InsertCtx c SQL ps)
| CQuery SQL ps : counterpart c (a_Query SQL ps) (a_QueryCtx c SQL ps)
| CQueryCount SQL ps : counterpart c (a_QueryCount SQL ps) (a_QueryCountCtx c SQL ps)
| CUpdate SQL ps : counterpart c (a_Update SQL ps) (a_UpdateCtx c SQL ps)
| CShowTable schema table : counterpart c (a_ShowTable schema table) (a_ShowTableCtx c schema table).

(** [m], with [name] as the current database while it runs. *)
Definition on {A} (name : string) (m : Method_ W A) : Method_ W A := λ w,
  let '(w', r) := m (a_SetDatabase name w) in (a_SetDatabase (a_GetDatabase w) w', r).

(** [m] for a context that names a database, or none. *)
Definition on_context {A} (c : Context) (m : Method_ W A) : Method_ W A :=
  match DBNameKey c with Some name => on name m | None => m end.
End laws.

(** What the methods of an adapter promise: the current database is a field of
    the state that calls keep; a call for a context is the call of the current
    database, on the database of the context. *)
Class AdapterLaws (W : Type) `{Adapter W} : Prop := {
  get_set name w : a_GetDatabase (a_SetDatabase name w) = name;
  set_set n1 n2 (w : W) : a_SetDatabase n1 (a_SetDatabase n2 w) = a_SetDatabase n1 w;
  set_get (w : W) : a_SetDatabase (a_GetDatabase w) w = w;
  keeps_database c (m mc : Call W) w : counterpart c m mc → a_GetDatabase (m w).1 = a_GetDatabase w;
  on_its_context c (m mc : Call W) w : counterpart c m mc → mc w = on_context c m w;
  transaction_on_its_context c (w : W) : a_GetTransactionCtx c w = on_context c a_GetTransaction w
}.

(** ** Clients of the interface *)

Section client.
Context {W : Type} `{AdapterLaws W}.

(** Calls one after the other, each with its result. *)
Fixpoint session (ms : list (Call W)) (w : W) : W * list (gores PrestScanner) :=
  match ms with
  | [] => (w, [])
  | m :: ms => let '(w, r) := m w in let '(w, rs) := session ms w in (w, r :: rs)
  end.

Lemma session_keeps c ms mcs w :
  Forall2 (counterpart c) ms mcs → a_GetDatabase (session ms w).1 = a_GetDatabase w.
Proof.
  intros Hms. revert w. induction Hms as [|m mc ms mcs Hm _ IH]; intros w; [done|]. cbn.
  pose proof (keeps_database c m mc w Hm) as Hk. destruct (m w) as [w1 r]. specialize (IH w1).
  destruct (session ms w1) as [w2 rs]. cbn in *. congruence.
Qed.

(** A session of calls for a context is the session of the calls of the current
    database, run with the database of the context as the current one. *)
Lemma session_on_context c ms mcs w :
  Forall2 (counterpart c) ms mcs →
  session mcs w =
  match DBNameKey c with
  | None => session ms w
  | Some name => let '(w', rs) := session ms (a_SetDatabase name w) in (a_SetDatabase (a_GetDatabase w) w', rs)
  end.
Proof.
  intros Hms. revert w. induction Hms as [|m mc ms mcs Hm _ IH]; intros w; cbn.
  - destruct (DBNameKey c); [|done]. by rw set_set set_get.
  - rw (on_its_context c m mc w Hm). unfold on_context, on in *.
    destruct (DBNameKey c) as [name|]; cbn; [|destruct (m w) as [w1 r]; by rw IH].
    pose proof (keeps_database c m mc (a_SetDatabase name w) Hm) as Hk. rw get_set in Hk.
    destruct (m (a_SetDatabase name w)) as [w1 r]. cbn in Hk. rw IH.
    rw set_set get_set -{1}Hk set_get. by destruct (session ms w1).
Qed.

(** A call for a context that names a database does not depend on the current
    one, which another request may have set meanwhile, and leaves it alone. *)
Lemma context_call_ignores_current c name m mc n w :
  counterpart c m mc → DBNameKey c = Some name →
  mc (a_SetDatabase n w) = (a_SetDatabase n (mc w).1, (mc w).2).
Proof.
  intros Hm Hc. rw !(on_its_context c m mc _ Hm). unfold on_context, on. rw Hc set_set get_set.
  destruct (m (a_SetDatabase name w)) as [w1 r]. cbn. by rw set_set.
Qed.

Lemma session_ignores_current c name ms mcs n w :
  Forall2 (counterpart c) ms mcs → DBNameKey c = Some name →
  session mcs (a_SetDatabase n w) = (a_SetDatabase n (session mcs w).1, (session mcs w).2).
Proof.
  intros Hms Hc. revert w. induction Hms as [|m mc ms mcs Hm _ IH]; intros w; [done|]. cbn.
  rw (context_call_ignores_current c name m mc n w Hm Hc). destruct (mc w) as [w1 r]. cbn.
  rw IH. by destruct (session mcs w1).
Qed.
End client.

(** ** The PostgreSQL adapter *)

Section instance.
Context {D : Type} `{Backend D, TxBackend D} `{UnicodeTables} `{MapRange}.
Variable PrestConf : Prest.
Variable env_location : string.
Variable os_stat : string → stat.
Variable located : expr → error → error.
Variable read_template : string → gores tmpl.

Definition set_conn (c : ConnState) (w : World D) : World D := MkWorld c (w_stmts w) (w_db w).

(** [BatchInsertCopy] and its counterpart do not look at the database they are
    given. *)
Definition Postgres : Adapter (World D) := {|
  a_GetTransaction := GetTransaction PrestConf;
  a_GetTransactionCtx := GetTransactionCtx PrestConf;
  a_BatchInsertValues := BatchInsertValues PrestConf;
  a_BatchInsertValuesCtx := BatchInsertValuesCtx PrestConf;
  a_BatchInsertCopy dbname := BatchInsertCopy PrestConf;
  a_BatchInsertCopyCtx c deadline dbname := BatchInsertCopyCtx PrestConf c deadline;
  a_CountByRequest := CountByRequest;
  a_DatabaseClause := DatabaseClause;
  a_DatabaseOrderBy := DatabaseOrderBy;
  a_DatabaseWhere := DatabaseWhere;
  a_Delete := Delete PrestConf;
  a_DeleteCtx := DeleteCtx PrestConf;
  a_DeleteWithTransaction := DeleteWithTransaction PrestConf;
  a_DeleteSQL w := DeleteSQL PrestConf (w_conn w);
  a_DistinctClause := DistinctClause;
  a_ExecuteScripts := ExecuteScripts PrestConf;
  a_ExecuteScriptsCtx := ExecuteScriptsCtx PrestConf;
  a_FieldsPermissions := FieldsPermissions PrestConf;
  a_GetScript := GetScript PrestConf env_location os_stat;
  a_GroupByClause := GroupByClause;
  a_Insert := Insert PrestConf;
  a_InsertCtx := InsertCtx PrestConf;
  a_InsertWithTransaction := InsertWithTransaction PrestConf;
  a_InsertSQL w := InsertSQL PrestConf (w_conn w);
  a_JoinByRequest := JoinByRequest;
  a_OrderByRequest := OrderByRequest;
  a_PaginateIfPossible := PaginateIfPossible;
  a_ParseBatchInsertRequest := ParseBatchInsertRequest;
  a_ParseInsertRequest := ParseInsertRequest PrestConf;
  a_ParseScript := ParseScript located read_template;
  a_Query := Query PrestConf;
  a_QueryCtx := QueryCtx PrestConf;
  a_QueryCount := QueryCount PrestConf;
  a_QueryCountCtx := QueryCountCtx PrestConf;
  a_ReturningByRequest := ReturningByRequest;
  a_SchemaClause := SchemaClause;
  a_SchemaOrderBy := SchemaOrderBy;
  a_SchemaTablesClause := SchemaTablesClause;
  a_SchemaTablesOrderBy := SchemaTablesOrderBy;
  a_SchemaTablesWhere := SchemaTablesWhere;
  a_SelectFields := SelectFields;
  a_SelectSQL w := SelectSQL PrestConf (w_conn w);
  a_SetByRequest := SetByRequest;
  a_SetDatabase name w := set_conn (SetDatabase name (w_conn w)) w;
  a_GetDatabase w := GetDatabase (w_conn w);
  a_TableClause := TableClause;
  a_TableOrderBy := TableOrderBy;
  a_TablePermissions := TablePermissions PrestConf;
  a_TableWhere := TableWhere;
  a_Update := Update PrestConf;
  a_UpdateCtx := UpdateCtx PrestConf;
  a_UpdateWithTransaction := UpdateWithTransaction PrestConf;
  a_UpdateSQL w := UpdateSQL PrestConf (w_conn w);
  a_WhereByRequest := WhereByRequest PrestConf;
  a_ShowTable := ShowTable PrestConf;
  a_ShowTableCtx := ShowTableCtx PrestConf
|}.
End instance.

(** ** Programs that leave the pool alone *)

Create HintDb off_pool.

Section off_pool.
Context {D : Type}.

Definition off_pool {A} (m : M D A) : Prop :=
  ∀ c w, m (set_conn c w) = (set_conn c (m w).1, (m w).2).

Lemma off_pool_conn {A} (m : M D A) w : off_pool m → w_conn (m w).1 = w_conn w.
Proof.
  intros Hm. specialize (Hm (w_conn w) w). destruct w as [c s d]. cbn in Hm.
  apply (f_equal (λ p, w_conn p.1)) in Hm. exact Hm.
Qed.

Lemma off_ret {A} (a : A) : off_pool (mret a).
Proof. done. Qed.
Lemma off_lift {A} (r : gores A) : off_pool (lift r).
Proof. done. Qed.
Lemma off_with_db {A} (f : D → D * gores A) : off_pool (with_db f).
Proof. intros c w. unfold with_db. cbn. by destruct (f (w_db w)). Qed.
Lemma off_lookup SQL : off_pool (lookup_stmt SQL).
Proof. done. Qed.
Lemma off_store SQL s : off_pool (store_stmt SQL s).
Proof. done. Qed.
Lemma off_bind {A B} (m : M D A) (f : A → M D B) :
  off_pool m → (∀ a, off_pool (f a)) → off_pool (m ≫= f).
Proof.
  intros Hm Hf c w. cbv [mbind M_bind]. rw Hm. destruct (m w) as [w' [a|e|p]]; cbn; [|done..]. apply Hf.
Qed.
Lemma off_try {A} (m : M D A) : off_pool m → off_pool (try m).
Proof. intros Hm c w. unfold try. rw Hm. by destruct (m w) as [w' [a|e|p]]. Qed.
Lemma off_catching (m : M D PrestScanner) : off_pool m → off_pool (catching m).
Proof. intros Hm c w. unfold catching. rw Hm. by destruct (m w) as [w' [a|e|p]]. Qed.
Lemma off_annotate {A} t (m : M D A) : off_pool m → off_pool (annotate t m).
Proof. intros Hm c w. unfold annotate. rw Hm. by destruct (m w) as [w' [a|e|p]]. Qed.

#[local] Hint Resolve off_ret off_lift off_with_db off_lookup off_store : off_pool.

Context `{Backend D} `{UnicodeTables}.
Variable cfg : Prest.

Ltac off :=
  repeat lazymatch goal with
    | |- off_pool (catching _) => apply off_catching
    | |- off_pool (try _) => apply off_try
    | |- off_pool (annotate _ _) => apply off_annotate
    | |- off_pool (_ ≫= _) => apply off_bind; [|intros ?]
    | |- off_pool (match ?x with _ => _ end) => destruct x
    | |- _ => solve [eauto with off_pool nocore]
    end.

Lemma off_Prepare t SQL : off_pool (Prepare cfg t SQL).
Proof. unfold Prepare. off. Qed.
#[local] Hint Resolve off_Prepare : off_pool.

Lemma off_stmt_Query s ps : off_pool (stmt_Query s ps).
Proof. apply off_with_db. Qed.
Lemma off_stmt_Exec s ps : off_pool (stmt_Exec s ps).
Proof. apply off_with_db. Qed.
#[local] Hint Resolve off_stmt_Query off_stmt_Exec : off_pool.

Lemma off_fullInsert t SQL : off_pool (fullInsert cfg t SQL).
Proof. unfold fullInsert. off. Qed.
Lemma off_execReturningOrAffected s SQL ps : off_pool (execReturningOrAffected s SQL ps).
Proof. unfold execReturningOrAffected. off. Qed.
#[local] Hint Resolve off_fullInsert off_execReturningOrAffected : off_pool.

Lemma off_queryImpl h SQL ps : off_pool (queryImpl cfg h SQL ps).
Proof. unfold queryImpl. off. Qed.
Lemma off_queryCountImpl h SQL ps : off_pool (queryCountImpl cfg h SQL ps).
Proof. unfold queryCountImpl. off. Qed.
Lemma off_insert t SQL ps : off_pool (insert cfg t SQL ps).
Proof. unfold insert. off. Qed.
Lemma off_batchInsertValuesImpl h SQL ps : off_pool (batchInsertValuesImpl cfg h SQL ps).
Proof. unfold batchInsertValuesImpl. off. Qed.
Lemma off_delete t SQL ps : off_pool (delete_ cfg t SQL ps).
Proof. unfold delete_. off. Qed.
Lemma off_update t SQL ps : off_pool (update cfg t SQL ps).
Proof. unfold update. off. Qed.
Lemma off_writeSQLImpl h SQL ps : off_pool (writeSQLImpl cfg h SQL ps).
Proof. unfold writeSQLImpl. off. Qed.
End off_pool.

#[export] Hint Resolve off_with_db off_queryImpl off_queryCountImpl off_insert off_batchInsertValuesImpl off_delete
  off_update off_writeSQLImpl : off_pool.

(** ** The lookups of the database *)

Section lookups.
Context {D : Type} `{Backend D} `{UnicodeTables}.
Variable cfg : Prest.

(** The current database is neither read nor written. *)
Definition off_current {A} (f : ConnState → ConnState * gores A) : Prop :=
  ∀ n st, f (SetDatabase n st) = (SetDatabase n (f st).1, (f st).2).

Lemma openAndPing_off dial dsn : off_current (openAndPing dial dsn).
Proof. intros n st. unfold openAndPing. by destruct (dial dsn). Qed.

Lemma store_call_off c h n st :
  store_call cfg c h (SetDatabase n st) = (SetDatabase n (store_call cfg c h st).1, (store_call cfg c h st).2).
Proof.
  unfold store_call. change (pool (SetDatabase n st)) with (pool st).
  destruct (DB (pool st) !! poolKey (call_dsn cfg c)); [done|]. by destruct c.
Qed.

Lemma lookup_call_off c n st : lookup_call cfg c (SetDatabase n st) = lookup_call cfg c st.
Proof. by destruct c. Qed.

Lemma run_call_off dial c : off_current (run_call dial cfg c).
Proof.
  intros n st. unfold run_call. destruct c as [name|name [|b dsn]]; [|done|];
    (rw lookup_call_off; destruct (lookup_call cfg _ st) as [h|]; [done|];
     rw openAndPing_off; destruct (openAndPing dial _ st) as [st' [h|e|w]]; [|done..];
     cbn [fst snd]; rw store_call_off; by destruct (store_call cfg _ h st')).
Qed.

Lemma off_keeps {A} (f : ConnState → ConnState * gores A) st :
  off_current f → GetDatabase (f st).1 = GetDatabase st.
Proof.
  intros Hf. specialize (Hf (currDatabase st) st).
  assert (SetDatabase (currDatabase st) st = st) as E by (by destruct st). rw E in Hf.
  exact (f_equal (λ p, currDatabase p.1) Hf).
Qed.

Lemma getDBFromCtx_named dial c name st :
  DBNameKey c = Some name →
  Connection.Get dial cfg (SetDatabase name st)
  = (SetDatabase name (getDBFromCtx dial cfg c st).1, (getDBFromCtx dial cfg c st).2) ∧
  GetDatabase (getDBFromCtx dial cfg c st).1 = GetDatabase st.
Proof.
  intros Hc. unfold Connection.Get, getDBFromCtx, GetFromPool. rw Hc.
  change (GetDatabase (SetDatabase name st)) with name.
  change (getDatabaseFromPool cfg (SetDatabase name st) name) with (getDatabaseFromPool cfg st name).
  destruct (getDatabaseFromPool cfg st name) as [h|]; [done|].
  split; [apply run_call_off | apply off_keeps, run_call_off].
Qed.

Lemma Get_keeps dial st : GetDatabase (Connection.Get dial cfg st).1 = GetDatabase st.
Proof.
  unfold Connection.Get. destruct (getDatabaseFromPool _ _ _); [done|]. apply off_keeps, run_call_off.
Qed.
End lookups.

(** ** The laws of the instance *)

Section laws_hold.
Context {D : Type} `{Backend D, TxBackend D} `{UnicodeTables} `{MapRange}.
Variable PrestConf : Prest.
Variable env_location : string.
Variable os_stat : string → stat.
Variable located : expr → error → error.
Variable read_template : string → gores tmpl.

#[local] Instance adapter : Adapter (World D) := Postgres PrestConf env_location os_stat located read_template.

Definition keeps {A} (m : M D A) : Prop := ∀ w, GetDatabase (w_conn (m w).1) = GetDatabase (w_conn w).
Definition related {A} (c : Context) (m mc : M D A) : Prop := ∀ w, mc w = on_context c m w.

Lemma get_db_related c : related c (get_db PrestConf) (get_db_ctx PrestConf c).
Proof.
  intros w. unfold on_context, get_db, get_db_ctx, with_conn. destruct (DBNameKey c) as [name|] eqn:Ec.
  - destruct (getDBFromCtx_named PrestConf be_dial c name (w_conn w) Ec) as [Hg Hk].
    unfold on, with_conn. cbn. rw Hg. destruct (getDBFromCtx be_dial PrestConf c (w_conn w)) as [st r].
    cbn in Hk |- *. unfold set_conn. cbn. do 2 f_equal. rw -Hk. by destruct st.
  - unfold getDBFromCtx. by rw Ec.
Qed.

Lemma related_wrap {A B} (k : World D * gores A → World D * gores B) c m mc m' mc' :
  (∀ w, m' w = k (m w)) → (∀ w, mc' w = k (mc w)) →
  (∀ w r n, k (set_conn (SetDatabase n (w_conn w)) w, r)
            = (set_conn (SetDatabase n (w_conn (k (w, r)).1)) (k (w, r)).1, (k (w, r)).2)) →
  related c m mc → related c m' mc'.
Proof.
  intros Em Emc Hk Hm w. rw Emc Hm. unfold on_context. destruct (DBNameKey c) as [name|]; [|by rw Em]. unfold on.
  rw Em. destruct (m _) as [w1 r]. cbn. rw Hk. by destruct (k (w1, r)).
Qed.

(** What a program does with the result of another. *)
Definition then_bind {A B} (f : A → M D B) (p : World D * gores A) : World D * gores B :=
  match p with (w, Val a) => f a w | (w, Err e) => (w, Err e) | (w, Panic x) => (w, Panic x) end.
Definition then_catch (p : World D * gores PrestScanner) : World D * gores PrestScanner :=
  match p with (w, Err e) => (w, Val (ErrScanner e)) | r => r end.
Definition then_annotate {A} (t : string) (p : World D * gores A) : World D * gores A :=
  match p with (w, Err e) => (w, Err (t +:+ ": " +:+ e)) | r => r end.

Lemma related_bind {A B} c (m mc : M D A) (f : A → M D B) :
  (∀ a, off_pool (f a)) → related c m mc → related c (m ≫= f) (mc ≫= f).
Proof.
  intros Hf. apply (related_wrap (then_bind f)); [done..|].
  intros w [a|e|p] n; [|done..]. cbn. rw (Hf a) /=. by rw (off_pool_conn (f a) w (Hf a)).
Qed.

Lemma related_catching c m mc : related c m mc → related c (catching m) (catching mc).
Proof.
  apply (related_wrap then_catch); [intros w; unfold catching; by destruct (_ w) as [w' [a|e|p]]..|].
  by intros w [a|e|p] n.
Qed.

Lemma related_annotate {A} t c (m mc : M D A) : related c m mc → related c (annotate t m) (annotate t mc).
Proof.
  apply (related_wrap (then_annotate t)); [intros w; unfold annotate; by destruct (_ w) as [w' [a|e|p]]..|].
  by intros w [a|e|p] n.
Qed.

Lemma related_same c (a : PrestScanner) : related c (mret a) (mret a).
Proof.
  intros [st s d]. unfold on_context, on. destruct (DBNameKey c); [|done]. cbn. by destruct st.
Qed.

(** A call: look the database up, run on it, and wrap an error. *)
Lemma related_call c (f : nat → M D PrestScanner) :
  (∀ db, off_pool (f db)) →
  related c (catching (get_db PrestConf ≫= f)) (catching (get_db_ctx PrestConf c ≫= f)).
Proof. intros Hf. apply related_catching, related_bind; [done|apply get_db_related]. Qed.

Lemma related_annotated_call t c (f : nat → M D PrestScanner) :
  (∀ db, off_pool (f db)) →
  related c (catching (annotate t (get_db PrestConf) ≫= f)) (catching (annotate t (get_db_ctx PrestConf c) ≫= f)).
Proof. intros Hf. apply related_catching, related_bind, related_annotate, get_db_related. done. Qed.

Lemma counterpart_related c (m mc : Call (World D)) : counterpart c m mc → related c m mc.
Proof.
  intros [SQL ps|SQL ps|method SQL ps|SQL ps|SQL ps|SQL ps|SQL ps|schema table];
    try (apply related_call; intros; eauto with off_pool nocore).
  cbn. unfold ExecuteScripts, ExecuteScriptsCtx.
  destruct (String.eqb method "GET"); [apply related_call; intros; eauto with off_pool nocore|].
  destruct (is_write_method method); [|apply related_same].
  apply related_annotated_call. intros. eauto with off_pool nocore.
Qed.

Lemma keeps_call {A} t (f : nat → M D A) :
  (∀ db, off_pool (f db)) → keeps (get_db PrestConf ≫= f) ∧ keeps (annotate t (get_db PrestConf) ≫= f).
Proof.
  intros Hf. unfold keeps, get_db, with_conn, annotate.
  split; intros w; cbv [mbind M_bind]; pose proof (Get_keeps PrestConf be_dial (w_conn w)) as Hk;
    (destruct (Connection.Get be_dial PrestConf (w_conn w)) as [st [h|e|p]]; cbn in *; [|done..]);
    by rw (off_pool_conn (f h) _ (Hf h)).
Qed.

Lemma keeps_catching m : keeps m → keeps (catching m).
Proof. intros Hm w. specialize (Hm w). unfold catching. by destruct (m w) as [w' [a|e|p]]. Qed.

Lemma counterpart_keeps c (m mc : Call (World D)) : counterpart c m mc → keeps m.
Proof.
  intros [SQL ps|SQL ps|method SQL ps|SQL ps|SQL ps|SQL ps|SQL ps|schema table];
    try (apply keeps_catching, (keeps_call ""); intros; eauto with off_pool nocore).
  cbn. unfold ExecuteScripts.
  destruct (String.eqb method "GET"); [apply keeps_catching, (keeps_call ""); intros; eauto with off_pool nocore|].
  destruct (is_write_method method); [|done].
  apply keeps_catching, keeps_call. intros. eauto with off_pool nocore.
Qed.

#[export] Instance Postgres_laws : AdapterLaws (World D).
Proof.
  split.
  - done.
  - done.
  - by intros [[] s d].
  - intros c m mc w Hc. exact (counterpart_keeps c m mc Hc w).
  - intros c m mc w Hc. exact (counterpart_related c m mc Hc w).
  - intros c w. refine (related_bind c _ _ _ _ (get_db_related c) w). intros a. apply off_with_db.
Qed.

(** C20: The calls for a context and the calls of the current database agree.  Any
    sequence of queries, counts, inserts, batches, deletes, updates, scripts and
    table descriptions made for a context that names a database gives, call by
    call, the results of the same sequence made with that database as the
    current one, and ends in the same state but for the current database, which
    it leaves alone and does not depend on; for a context without a database it
    is the sequence of the current one. *)
Theorem context_sessions_agree c ms mcs w :
  Forall2 (counterpart c) ms mcs →
  match DBNameKey c with
  | None => session mcs w = session ms w
  | Some name =>
      let before := set_conn (SetDatabase name (w_conn w)) w in
      let after := (session ms before).1 in
      session mcs w = (set_conn (SetDatabase (GetDatabase (w_conn w)) (w_conn after)) after, (session ms before).2) ∧
      ∀ n, (session mcs (set_conn (SetDatabase n (w_conn w)) w)).2 = (session mcs w).2
  end.
Proof.
  intros Hms. pose proof (session_on_context c ms mcs w Hms) as Hs.
  destruct (DBNameKey c) as [name|] eqn:Hc; [|exact Hs]. split.
  - rw Hs. cbn. by destruct (session ms _).
  - intros n. exact (f_equal snd (session_ignores_current c name ms mcs n w Hms Hc)).
Qed.
End laws_hold.

(** ** A concrete adapter *)

#[local] Existing Instance ascii_tables.
#[local] Existing Instance echo.
#[local] Instance no_transactions : TxBackend unit := λ d _, (d, Err "no transactions").

Definition echo_adapter : Adapter (World unit) :=
  Postgres zero_Prest "" (λ _, StatOK) (λ _ e, e) (λ _, Err "no such file").
#[local] Existing Instance echo_adapter.

Lemma context_sessions_witness :
  let c := with_DBName "b" empty_context in
  let w := MkWorld two_databases ∅ tt in
  Forall2 (counterpart c) [a_Query "SELECT 1" []; a_Delete "DELETE FROM t" []]
    [a_QueryCtx c "SELECT 1" []; a_DeleteCtx c "DELETE FROM t" []] ∧
  let before := set_conn (SetDatabase "b" (w_conn w)) w in
  let ms := [a_Query "SELECT 1" []; a_Delete "DELETE FROM t" []] in
  let mcs := [a_QueryCtx c "SELECT 1" []; a_DeleteCtx c "DELETE FROM t" []] in
  (session ms before).2 = [Val (MkScanner (Some "db1") None true); Val (BuffScanner (rows_affected 1))] ∧
  session mcs w = (set_conn (SetDatabase (GetDatabase (w_conn w)) (w_conn (session ms before).1)) (session ms before).1,
                   (session ms before).2).
Proof.
  intros c w. assert (Forall2 (counterpart c) [a_Query "SELECT 1" []; a_Delete "DELETE FROM t" []]
    [a_QueryCtx c "SELECT 1" []; a_DeleteCtx c "DELETE FROM t" []]) as Hms by repeat constructor.
  split; [exact Hms|]. split; [by vm_compute|].
  exact (proj1 (context_sessions_agree zero_Prest "" (λ _, StatOK) (λ _ e, e) (λ _, Err "no such file") c _ _ w Hms)).
Defined.

(** Calls of the current database are at the mercy of the other requests: one
    that selects its database and one that does the same before the first has
    made its call. *)
Theorem current_database_race :
  let w := MkWorld two_databases ∅ tt in
  let w := a_SetDatabase "b" (a_SetDatabase "a" w) in
  (a_Query "SELECT 1" [] w).2 = Val (MkScanner (Some "db1") None true) ∧
  (a_QueryCtx (with_DBName "a" empty_context) "SELECT 1" [] w).2 = Val (MkScanner (Some "db0") None true).
Proof. by split; vm_compute. Qed.
