(* ===== verification/Interference.v ===== *)
(** * What one request leaves for the next

    All requests share the state of the adapter; one piece of it, the current
    database, is neither per request nor constant: [ExecuteScriptQuery] sets it.
    This file composes the handlers with the laws of the adapter: in
    multi-database mode the table endpoints do not notice the current database,
    while scripts and listings depend on the requests before them. *)

From S2P Require Import Prelude GoStrings Ident Config Http Json Where Connection Queries Statements Clauses Permissions Bodies Exec ExecSpec Tables TablesSpec Scripts ScriptsSpec Adapter.

(** ** Programs the current database does not disturb *)

Section undisturbed.
Context {D : Type}.

(** The world with [n] as its current database. *)
Definition at_database (n : string) (w : World D) : World D := set_conn (SetDatabase n (w_conn w)) w.

(** [m] neither reads nor writes the current database. *)
Definition undisturbed {A} (m : M D A) : Prop :=
  ∀ n w, m (at_database n w) = (at_database n (m w).1, (m w).2).

Lemma undisturbed_ret {A} (a : A) : undisturbed (mret a).
Proof. done. Qed.
Lemma undisturbed_lift {A} (r : gores A) : undisturbed (lift r).
Proof. done. Qed.

Lemma undisturbed_off_pool {A} (m : M D A) : off_pool m → undisturbed m.
Proof. intros Hm n w. unfold at_database. by rw Hm (off_pool_conn m w Hm). Qed.

Lemma undisturbed_bind {A B} (m : M D A) (f : A → M D B) :
  undisturbed m → (∀ a, undisturbed (f a)) → undisturbed (m ≫= f).
Proof.
  intros Hm Hf n w. cbv [mbind M_bind]. rw Hm. destruct (m w) as [w' [a|e|p]]; cbn; [|done..]. apply Hf.
Qed.

Lemma undisturbed_catching m : undisturbed m → undisturbed (catching m).
Proof. intros Hm n w. unfold catching. rw Hm. by destruct (m w) as [w' [a|e|p]]. Qed.

Lemma undisturbed_or_bad {A} (x : gores A) (k : A → M D Reply) :
  (∀ a, undisturbed (k a)) → undisturbed (or_bad x k).
Proof. intros Hk. destruct x; [apply Hk|done..]. Qed.

Lemma undisturbed_response schema table nf fl st res : undisturbed (table_response (D:=D) schema table nf fl st res).
Proof. destruct res as [b|e|p]; cbn; [done| |done]. by destruct (missing_relation _ _ _). Qed.

(** A handler that reads the state of the connections, but not this part. *)
Lemma undisturbed_conn_state {A} (f : ConnState → M D A) :
  (∀ n st, f (SetDatabase n st) = f st) → (∀ st, undisturbed (f st)) → undisturbed (conn_state ≫= f).
Proof. intros Hf Hu n w. rw !conn_state_bind. cbn. rw Hf. apply Hu. Qed.
End undisturbed.

(** ** The table endpoints *)

Section tables.
Context {D : Type} `{Backend D} `{UnicodeTables} `{MapRange}.
Variable cfg : Prest.

Lemma undisturbed_get_db_ctx c name : DBNameKey c = Some name → undisturbed (get_db_ctx (D:=D) cfg c).
Proof.
  intros Hc n w. unfold get_db_ctx, with_conn, getDBFromCtx, GetFromPool. rw Hc.
  change (getDatabaseFromPool cfg (w_conn (at_database n w)) name) with (getDatabaseFromPool cfg (w_conn w) name).
  destruct (getDatabaseFromPool cfg (w_conn w) name) as [h|]; [by destruct w|].
  pose proof (run_call_off cfg be_dial (CAdd name) n (w_conn w)) as E. cbn [at_database set_conn w_conn].
  unfold AddDatabaseToPool. rw E. by destruct (run_call be_dial cfg (CAdd name) (w_conn w)).
Qed.

Lemma undisturbed_call c name (f : nat → M D PrestScanner) :
  DBNameKey c = Some name → (∀ db, off_pool (f db)) → undisturbed (catching (get_db_ctx cfg c ≫= f)).
Proof.
  intros Hc Hf. apply undisturbed_catching, undisturbed_bind; [by eapply undisturbed_get_db_ctx|].
  intros db. apply undisturbed_off_pool, Hf.
Qed.

Lemma off_batchInsertCopyImpl h dl schema table keys ps :
  off_pool (batchInsertCopyImpl (D:=D) h dl schema table keys ps).
Proof.
  unfold batchInsertCopyImpl. apply off_catching, off_bind; [apply off_lift|]. intros [rows cleanKeys].
  apply off_bind; [apply off_with_db|]. intros copied. apply off_ret.
Qed.
#[local] Hint Resolve off_batchInsertCopyImpl : off_pool.

(** Every handler checks the path, builds a statement from parts of the state
    the current database is no part of, and makes one call for the database of
    the path. *)
Ltac undisturb :=
  repeat lazymatch goal with
    | |- undisturbed (table_response _ _ _ _ _ _) => apply undisturbed_response
    | |- undisturbed (mret _) => apply undisturbed_ret
    | |- undisturbed (or_bad _ _) => apply undisturbed_or_bad
    | |- undisturbed (_ ≫= _) => apply undisturbed_bind
    | |- undisturbed (match ?x with _ => _ end) => destruct x
    | |- ∀ _, _ => intros ?
    | |- _ => eapply undisturbed_call; [reflexivity | intros; eauto with off_pool nocore]
    end.

Lemma run_table_undisturbed r c : SingleDB cfg = false → undisturbed (run_table (D:=D) cfg r c).
Proof.
  intros Hs.
  assert (∀ n st, validateTableParams cfg (SetDatabase n st) r = validateTableParams cfg st r) as Hv.
  { intros n st. unfold validateTableParams. by rw Hs. }
  destruct c; cbn [run_table]; unfold SelectFromTables, InsertInTables, BatchInsertInTables, DeleteFromTable,
    UpdateTable, ShowTable_handler, GetTablesByDatabaseAndSchema;
    (apply undisturbed_conn_state; [intros n st; by rw Hv|]; intros st); undisturb.
Qed.

(** ** Requests and changes of the current database, in any order *)

Inductive event :=
| ESetDatabase (name : string)                (* another request sets the current database *)
| ETable (r : Request) (c : table_call).      (* a request to a table endpoint *)

Definition is_table (e : event) : bool := match e with ETable _ _ => true | ESetDatabase _ => false end.

Fixpoint serve (es : list event) (w : World D) : World D * list (gores Reply) :=
  match es with
  | [] => (w, [])
  | ESetDatabase name :: es => serve es (at_database name w)
  | ETable r c :: es =>
      let '(w, rep) := run_table cfg r c w in let '(w, reps) := serve es w in (w, rep :: reps)
  end.

Lemma serve_at_database es n w :
  SingleDB cfg = false →
  ∃ m, serve es (at_database n w) = (at_database m (serve (filter is_table es) w).1, (serve (filter is_table es) w).2).
Proof.
  intros Hs. revert n w. induction es as [|[name|r c] es IH]; intros n w; cbn [serve].
  - by exists n.
  - exact (IH name w).
  - assert (filter is_table (ETable r c :: es) = ETable r c :: filter is_table es) as -> by done.
    rw (run_table_undisturbed r c Hs) /=. destruct (run_table cfg r c w) as [w1 rep]. cbn [fst snd].
    destruct (IH n w1) as [m Hm]. exists m. rw Hm. by destruct (serve (filter is_table es) w1).
Qed.

(** C21: In multi-database mode table requests are independent of the current
    database, the state the requests share: whatever [SetDatabase] calls come
    between them, the replies of any sequence of selects, inserts, batches,
    deletes, updates and listings are those of the same sequence without the
    [SetDatabase] calls, and so are the pool, the statement cache and the state of
    the database they leave. *)
Theorem table_replies_ignore_current_database es w :
  SingleDB cfg = false →
  let alone := serve (filter is_table es) w in
  (serve es w).2 = alone.2 ∧ w_db (serve es w).1 = w_db alone.1 ∧ w_stmts (serve es w).1 = w_stmts alone.1 ∧
  pool (w_conn (serve es w).1) = pool (w_conn alone.1).
Proof.
  intros Hs alone. destruct (serve_at_database es (GetDatabase (w_conn w)) w Hs) as [m Hm].
  assert (at_database (GetDatabase (w_conn w)) w = w) as E by (by destruct w as [[]]).
  rw E in Hm. rw Hm. by split_and!.
Qed.
End tables.

(** ** Scripts and listings depend on the requests before them *)

#[local] Existing Instance ascii_tables.

(** A driver whose only reachable server is that of one named database. *)
Definition named_dsn : string := "postgres://u:p@h:5432/data".
#[local] Instance named_only : Backend unit := {
  be_dial dsn := if String.eqb dsn named_dsn then Val tt else Err "connection refused";
  be_prepare d _ _ := (d, Val tt);
  be_query d s _ := (d, Val (echo_query s));
  be_exec d _ _ := (d, Val (Val 1%Z));
  be_copy d _ _ _ _ _ rows := (d, Val (Z.of_nat (length rows)))
}.

(** Multi-database mode, with that database registered under the name the
    configuration gives as its database, as [main] does. *)
Definition multi_cfg : Prest := zero_Prest <| PGDatabase := "app" |>.
Definition multi_world : World unit :=
  MkWorld (Connection.AddURI be_dial multi_cfg "app" named_dsn init_conn).1 ∅ tt.

Definition plain_script_req : Request :=
  MkRequest "GET" "/_QUERIES/lobehub/agents" "/_QUERIES/lobehub/agents" ∅ ∅ empty_context
    (<["queriesLocation" := "lobehub"]> {[ "script" := "agents" ]}).
Definition databases_req : Request := MkRequest "GET" "/databases" "/databases" ∅ ∅ empty_context ∅.

Definition run_script (w : World unit) : World unit * gores Reply :=
  ExecuteFromScripts multi_cfg "/srv" (λ _, StatOK) bare (one_script agents_script) plain_script_req w.

Definition status_of (r : gores Reply) : option Z :=
  match r with Val rep => Some (Status (rp_response rep)) | _ => None end.

(** The current database is empty until the first script sets it: that script
    is run on the default server, which multi-database mode does not expect to
    exist, and is refused; the same request made again finds the named database
    and succeeds.  The listings change in the same way. *)
Theorem first_script_request_fails :
  let '(w1, r1) := run_script multi_world in
  status_of r1 = Some StatusBadRequest ∧ status_of (run_script w1).2 = Some StatusOK ∧
  status_of (GetDatabases multi_cfg databases_req multi_world).2 = Some StatusBadRequest ∧
  status_of (GetDatabases multi_cfg databases_req w1).2 = Some StatusOK.
Proof. vm_compute. by split_and!. Qed.

Definition notes_events : list event :=
  [ESetDatabase "app";
   ETable (table_req "GET" (<["database" := "db"]> (<["schema" := "public"]> {[ "table" := "notes" ]}))) TShow;
   ESetDatabase "other";
   ETable (table_req "DELETE" (<["database" := "db"]> (<["schema" := "public"]> {[ "table" := "notes" ]}))) TDelete].

Lemma ignore_current_witness :
  SingleDB multi_cfg = false ∧
  (serve multi_cfg (filter is_table notes_events) notes_world).2
  = [Val (reply (ok_bytes "db4")); Val (reply (ok_bytes (rows_affected 1)))] ∧
  (serve multi_cfg notes_events notes_world).2 = (serve multi_cfg (filter is_table notes_events) notes_world).2.
Proof.
  split; [reflexivity|]. split; [by vm_compute|].
  exact (proj1 (table_replies_ignore_current_database multi_cfg notes_events notes_world eq_refl)).
Defined.
