(* ===== verification/Middlewares.v ===== *)
(** * Middlewares: middlewares/*.go

    The handlers that stand between the server and the endpoints: rendering,
    the timeout, the exposure of listings, the identity headers and the response
    cache.  A handler runs on the state of the server, the adapter's and the
    response cache's; a middleware turns a handler into another one.  The chain
    itself (negroni), the recovery and logging handlers and the CORS library are
    an interface, [Negroni]. *)

From S2P Require Import Prelude GoStrings Cache Config Http Json Where Connection Exec Tables Scripts.

(** ** Handlers *)

Record Server (D : Type) := MkServer { sv_world : World D; sv_cache : CacheStore }.
Arguments MkServer {D} _ _.
Arguments sv_world {D} _.
Arguments sv_cache {D} _.

Definition Handler (D : Type) : Type := Request → Server D → Server D * gores Response.
Definition Middleware (D : Type) : Type := Handler D → Handler D.

(** [cors.Options]. *)
Record CorsOptions := MkCorsOptions {
  AllowedOrigins : list string;
  AllowedMethods : list string;
  AllowedHeaders : list string;
  AllowCredentials : bool
}.

(** github.com/urfave/negroni and github.com/rs/cors: a chain calls its
    handlers in order, each with the rest of the chain as its [next]; logging
    changes nothing, recovery only what panics, and CORS adds headers (which are
    not modelled) to everything but preflight requests. *)
Class Negroni (D : Type) := {
  negroni_New : list (Middleware D) → Middleware D;
  NewRecovery : Middleware D;
  NewLogger : Middleware D;
  cors_New : CorsOptions → Middleware D;
  negroni_New_nil : ∀ h r s, negroni_New [] h r s = h r s;
  negroni_New_cons : ∀ m ms h r s, negroni_New (m :: ms) h r s = m (negroni_New ms h) r s;
  NewLogger_next : ∀ h r s, NewLogger h r s = h r s;
  NewRecovery_next : ∀ h r s, is_panic (h r s).2 = false → NewRecovery h r s = h r s;
  cors_New_next : ∀ o h r s, Method r ≠ "OPTIONS" → cors_New o h r s = h r s
}.

(** [http.Error]: the text and a newline. *)
Definition http_Error (text : string) (code : Z) : Response := MkResponse code (text +:+ newline).

(** [fmt.Sprintf(jsonErrFormat, ...)] *)
Definition jsonErrFormat (msg : string) : string := requote "{`error`: `" +:+ msg +:+ requote "`}".

(** ** middlewares/utils.go *)

Definition getVars (path : string) : option (gmap string string) :=
  let named database schema table :=
    Some (<["table" := table]> (<["schema" := schema]> (<["database" := database]> (∅ : gmap string string)))) in
  match Split path "/" with
  | [database; schema; table] | [_; database; schema; table] => named database schema table
  | _ => None
  end.

Definition permissionByMethod (method : string) : string :=
  if String.eqb method "GET" then "read"
  else if existsb (String.eqb method) ["POST"; "PATCH"; "PUT"] then "write"
  else if String.eqb method "DELETE" then "delete" else "".

Definition defaultAllowMethods : list string := ["GET"; "POST"; "PUT"; "PATCH"; "DELETE"; "OPTIONS"].

Definition checkCors (r : Request) (origin : list string) : bool :=
  if negb (existsb (λ m, String.eqb m (Method r)) defaultAllowMethods) then false
  else
    let org := HeaderGet r "Origin" in
    existsb (λ o, String.eqb o org || String.eqb o "*" || String.eqb org "*") origin.

(** The deprecated CORS handler: the headers it sets, and the response when it
    answers itself. *)
Definition Cors (origin headers : list string) (r : Request) : list (string * string) * option Response :=
  let set := [("Access-Control-Allow-Origin", Join origin ","); ("Access-Control-Allow-Credentials", "true")] in
  if String.eqb (Method r) "OPTIONS" && negb (String.eqb (HeaderGet r "Access-Control-Request-Method") "") then
    (set ++ [("Access-Control-Allow-Methods", Join defaultAllowMethods ",");
             ("Access-Control-Allow-Headers", Join headers ",")],
     Some (MkResponse (if checkCors r origin then StatusOK else StatusForbidden) ""))
  else (set, None).

Definition ErrXMLBadRequest (reason : string) : string :=
  requote "<?xml version=`1.0` encoding=`utf-8`?>" +:+ newline +:+
  requote "<errors xmlns=`http://schemas.google.com/g/2005`>" +:+ newline +:+
  "  <error>" +:+ newline +:+
  "    <reason>internal</reason>" +:+ newline +:+
  "    <internalReason>" +:+ reason +:+ "</internalReason>" +:+ newline +:+
  "  </error>" +:+ newline +:+
  "  <code>400</code> " +:+ newline +:+
  "</errors>".

Section middlewares.
Context {D : Type} `{UnicodeTables}.
Variable PrestConf : Prest.
(** [j2x.JsonToXml] of github.com/clbanning/mxj. *)
Variable JsonToXml : string → string + error.
(** [regexp.Match] of a pattern of the configuration. *)
Variable regexp_Match : string → string → gores bool.
(** What the store of the cache uses of the system, and the instant. *)
Variable Slugify : string → string.
Variable can_open : string → bool.
Variable now : Z.

(** [json.MarshalIndent(map[string]string{"error": ...}, "", "\t")] *)
Definition error_object (message : string) : string :=
  "{" +:+ newline +:+ byte_str 9 +:+ requote "`error`: " +:+ json_string message +:+ newline +:+ "}".

Definition renderFormat (res : Response) (format : string) : Response :=
  let byt := if (400 <=? Status res)%Z then error_object (TrimSpace (RespBody res)) else RespBody res in
  if String.eqb format "xml" then
    match JsonToXml byt with
    | inl xmldata => MkResponse (Status res) ("<objects>" +:+ xmldata +:+ "</objects>")
    | inr e => http_Error (ErrXMLBadRequest e) StatusBadRequest
    end
  else MkResponse (Status res) byt.

Fixpoint match_any (exps : list string) (url : string) : gores bool :=
  match exps with
  | [] => Val false
  | exp :: exps' => matched ← regexp_Match exp url; if matched : bool then Val true else match_any exps' url
  end.

Definition MatchURL (url : string) : gores bool := match_any (JWTWhiteList PrestConf) url.

(** ** middlewares/middlewares.go *)

Definition HandlerSet : Middleware D := λ next r s,
  let format := QueryGet r "_renderer" in
  let '(s, res) := next r s in
  (s, res ← res; Val (renderFormat res format)).

Definition SetTimeoutToContext : Middleware D := λ next r s,
  next (with_ctx (with_HTTPTimeout (HTTPTimeout PrestConf) (Ctx r)) r) s.

(** Disabled: they only call the next handler. *)
Definition AuthMiddleware : Middleware D := λ next r s, next r s.
Definition AccessControl : Middleware D := λ next r s, next r s.
Definition JwtMiddleware : Middleware D := λ next r s, next r s.

Definition unauthorized_listing : Response := http_Error (jsonErrFormat "unauthorized listing") StatusUnauthorized.

Definition ExposureMiddleware : Middleware D := λ next r s,
  let url := Path r in
  let exposeConf := Expose PrestConf in
  if HasPrefix url "/databases" && negb (ex_DatabaseListing exposeConf) then (s, Val unauthorized_listing)
  else if HasPrefix url "/tables" && negb (ex_TableListing exposeConf) then (s, Val unauthorized_listing)
  else if HasPrefix url "/schemas" && negb (ex_SchemaListing exposeConf) then (s, Val unauthorized_listing)
  else next r s.

(** ** middlewares/userfilter.go, workspaceactive.go *)

Definition UserFilterMiddleware : Middleware D := λ next r s,
  if String.eqb (UserIDHeader PrestConf) "" then next r s
  else
    let userID := HeaderGet r (UserIDHeader PrestConf) in
    if String.eqb userID "" then next r s
    else next (with_ctx (with_UserID userID (Ctx r)) r) s.

Definition userIDFromContext (r : Request) : string := default "" (UserIDKey (Ctx r)).

Definition TenantActiveMiddleware : Middleware D := λ next r s,
  if String.eqb (TenantActiveHeader PrestConf) "" then next r s
  else
    let ws := HeaderGet r (TenantActiveHeader PrestConf) in
    if negb (String.eqb ws "") then next (with_ctx (with_TenantIDActive ws (Ctx r)) r) s
    else next r s.

(** ** middlewares/cache.go *)

Definition path_join (a b : string) : string := filepath_Join [a; b].

Definition cache_get (s : Server D) (key : string) : option string :=
  BuntGet Slugify path_join can_open (Cache PrestConf) now (sv_cache s) key.
Definition cache_set (s : Server D) (key value : string) : Server D :=
  MkServer (sv_world s) (BuntSet Slugify path_join can_open (Cache PrestConf) now (sv_cache s) key value).

Definition CacheMiddleware : Middleware D := λ next r s,
  match MatchURL (URL r) with
  | Err e => (s, Val (http_Error (jsonErrFormat e) StatusInternalServerError))
  | Panic p => (s, Panic p)
  | Val matched =>
      let cacheRule := (EndpointRules (Cache PrestConf) (Path r)).1 in
      match (if cc_Enabled (Cache PrestConf) && String.eqb (Method r) "GET" && negb matched && cacheRule
             then cache_get s (URL r) else None) with
      | Some body => (s, Val (MkResponse StatusOK body))
      | None => next r s
      end
  end.

(** An endpoint of the adapter as a handler: its reply, and its entry in the
    response cache. *)
Definition endpoint (run : Request → M D Reply) : Handler D := λ r s,
  let '(w, res) := run r (sv_world s) in
  let s := MkServer w (sv_cache s) in
  match res with
  | Val rep => (match rp_cached rep with Some (k, v) => cache_set s k v | None => s end, Val (rp_response rep))
  | Err e => (s, Err e)
  | Panic p => (s, Panic p)
  end.

(** ** middlewares/config.go *)

Section stack.
Context `{Negroni D}.

Definition BaseStack : list (Middleware D) := [NewRecovery; NewLogger; HandlerSet; SetTimeoutToContext].

(** [initApp], with the stack a program that embeds the server may have set. A
    nil slice of origins is the empty list here. *)
Definition initApp (MiddlewareStack : list (Middleware D)) : list (Middleware D) :=
  match MiddlewareStack with
  | [] =>
      BaseStack
      ++ (if negb (Nat.eqb (length (CORSAllowOrigin PrestConf)) 0)
          then [cors_New (MkCorsOptions (CORSAllowOrigin PrestConf) (CORSAllowMethods PrestConf)
                  (CORSAllowHeaders PrestConf) (CORSAllowCredentials PrestConf))] else [])
      ++ (if cc_Enabled (Cache PrestConf) then [CacheMiddleware] else [])
      ++ (if ex_Enabled (Expose PrestConf) then [ExposureMiddleware] else [])
  | _ => MiddlewareStack
  end.
End stack.
End middlewares.
