(* ===== verification/Plugins.v ===== *)
(** * Plugins: plugins/handler.go, plugins/middleware.go

    Endpoints and middlewares loaded from shared objects.  Opening a library,
    looking a symbol up and calling it are Go's [plugin] package: an interface. *)

From S2P Require Import Prelude GoStrings Cache Config Http Exec Tables Scripts Middlewares.

(** What a library exports: a value of the kind a lookup expects, or something else. *)
Inductive symbol (D : Type) :=
| SVariable                                        (* HTTPVars, URLQuery *)
| SHandler (run : gmap string string → gmap string (list string) → string)
| SHandlerCode (run : gmap string string → gmap string (list string) → string * Z)
| SMiddleware (m : Middleware D)
| SOther.
Arguments SVariable {D}.
Arguments SHandler {D} _.
Arguments SHandlerCode {D} _.
Arguments SMiddleware {D} _.
Arguments SOther {D}.

Class PluginPackage (D : Type) := {
  Plugin : Type;
  plugin_Open : string → gores Plugin;
  Lookup : Plugin → string → gores (symbol D)
}.

Record PluginFuncReturn := MkPluginReturn { ReturnJson : string; StatusCode : Z }.

Section plugins.
Context {D : Type} `{PluginPackage D}.
Variable PrestConf : Prest.

(** The libraries opened so far, by path. *)
Definition Loaded : Type := gmap string Plugin.

Definition lib_path (dirs : list string) (fileName : string) : string :=
  filepath_Join (PluginPath PrestConf :: dirs ++ [fileName +:+ ".so"]).

Definition open_lib (loaded : Loaded) (libPath : string) : Loaded * gores Plugin :=
  match loaded !! libPath with
  | Some p => (loaded, Val p)
  | None =>
      match plugin_Open libPath with
      | Val p => (<[libPath := p]> loaded, Val p)
      | r => (loaded, r)
      end
  end.

Definition bad_conversion : string := "interface conversion: plugin.Symbol".

(** The two variables must be there and of their types; a handler of another
    type ends in a panic. *)
Definition call_plugin (p : Plugin) (funcName : string) (r : Request) : gores PluginFuncReturn :=
  httpVars ← Lookup p "HTTPVars";
  match httpVars with
  | SVariable =>
      urlQuery ← Lookup p "URLQuery";
      match urlQuery with
      | SVariable =>
          f ← Lookup p (Method r +:+ funcName +:+ "Handler");
          match f with
          | SHandler run => Val (MkPluginReturn (run (Vars r) (Http.Query r)) (-1))
          | SHandlerCode run =>
              let '(json, code) := run (Vars r) (Http.Query r) in Val (MkPluginReturn json code)
          | _ => Panic bad_conversion
          end
      | _ => Panic bad_conversion
      end
  | _ => Panic bad_conversion
  end.

Definition loadFunc (loaded : Loaded) (fileName funcName : string) (r : Request) : Loaded * gores PluginFuncReturn :=
  let '(loaded, p) := open_lib loaded (lib_path [] fileName) in
  (loaded, p ← p; call_plugin p funcName r).

(** [WriteHeader] panics on a code with other than three digits. *)
Definition write_code (code : Z) (body : string) : gores Response :=
  if (code =? -1)%Z then Val (MkResponse StatusOK body)
  else if ((code <? 100) || (999 <? code))%Z then Panic ("invalid WriteHeader code " +:+ Itoa code)
  else Val (MkResponse code body).

(** [cache_set] is the cache's own, at the instant of the request. *)
Definition HandlerPlugin (cache_set : Server D → string → string → Server D) (loaded : Loaded) (r : Request)
    (s : Server D) : Loaded * (Server D * gores Response) :=
  let '(loaded, ret) := loadFunc loaded (VarsGet r "file") (VarsGet r "func") r in
  match ret with
  | Err e => (loaded, (s, Val (http_Error (jsonErrFormat e) StatusNotFound)))
  | Panic p => (loaded, (s, Panic p))
  | Val ret => (loaded, (cache_set s (URL r) (ReturnJson ret), write_code (StatusCode ret) (ReturnJson ret)))
  end.

(** Only what it loads goes into the table; what it looks in never has an entry. *)
Definition loadMiddlewareFunc (loaded : Loaded) (fileName funcName : string)
  : Loaded * gores (option (Middleware D)) :=
  let libPath := lib_path ["middlewares"] fileName in
  match plugin_Open libPath with
  | Err e => (loaded, Err e)
  | Panic p => (loaded, Panic p)
  | Val p =>
      (<[libPath := p]> loaded,
       f ← Lookup p (funcName +:+ "MiddlewareLoad");
       Val (match f with SMiddleware m => Some m | _ => None end))
  end.

(** The first middleware of the list that loads; the others are not used. *)
Fixpoint first_middleware (loaded : Loaded) (plugins : list PluginMiddleware) : Loaded * Middleware D :=
  match plugins with
  | [] => (loaded, λ next r s, next r s)
  | plugin :: rest =>
      let '(loaded, fn) := loadMiddlewareFunc loaded (pm_File plugin) (pm_Func plugin) in
      match fn with Val (Some m) => (loaded, m) | _ => first_middleware loaded rest end
  end.

Definition MiddlewarePlugin (loaded : Loaded) : Loaded * Middleware D :=
  first_middleware loaded (PluginMiddlewareList PrestConf).
End plugins.
