(* ===== verification/Router.v ===== *)
(** * Routes: router/router.go

    The table of routes, which endpoint each leads to, and which middlewares
    stand before it.  Matching a path against the templates of the table is
    github.com/gorilla/mux: an interface, [Mux]. *)

From S2P Require Import Prelude GoStrings Cache Config Http Json Where Connection Exec Tables Scripts Middlewares Plugins.

(** ** The table *)

Inductive ep :=
| EpDatabases | EpSchemas | EpTables | EpScripts | EpPlugin | EpShow | EpHealth
| EpAccountDelete | EpActiveWorkspaceGet | EpActiveWorkspaceSet
| EpTenantsList | EpTenantsCreate | EpInviteAccept
| EpTenantGet | EpTenantRename | EpTenantDelete | EpTenantMembers | EpMemberUpdateRole | EpMemberRemove
| EpInviteCreate | EpSchedulesList | EpSchedulesCreate | EpSchedulesDelete | EpSchedulesRuns | EpAllExecutions
| EpAuthzWorkspace | EpTablesBySchema
| EpSelect | EpInsert | EpBatchInsert | EpDelete | EpUpdate.

(** A route: its template, its methods ([[]] for any), and whether it is one of
    the subrouter that requires a workspace. *)
Record Route := MkRoute { rt_path : string; rt_methods : list string; rt_scoped : bool; rt_ep : ep }.

Definition workspace_routes : list Route :=
  let route p m e := MkRoute ("/v1/workspaces" +:+ p) [m] true e in [
  route "/current" "GET" EpTenantGet;
  route "/current" "PATCH" EpTenantRename;
  route "/current" "DELETE" EpTenantDelete;
  route "/members" "GET" EpTenantMembers;
  route "/members/{membershipId}" "PATCH" EpMemberUpdateRole;
  route "/members/{membershipId}" "DELETE" EpMemberRemove;
  route "/invites" "POST" EpInviteCreate;
  route "/schedules" "GET" EpSchedulesList;
  route "/schedules" "POST" EpSchedulesCreate;
  route "/schedules/{schedId}" "DELETE" EpSchedulesDelete;
  route "/schedules/{schedId}/runs" "GET" EpSchedulesRuns;
  route "/schedule-runs" "GET" EpAllExecutions].

(** [windows]: the operating system has no plugins. *)
Definition main_routes (windows : bool) : list Route :=
  let route p ms e := MkRoute p ms false e in
  [route "/databases" ["GET"] EpDatabases;
   route "/schemas" ["GET"] EpSchemas;
   route "/tables" ["GET"] EpTables;
   route "/_QUERIES/{queriesLocation}/{script}" [] EpScripts]
  ++ (if windows then [] else [route "/_PLUGIN/{file}/{func}" [] EpPlugin])
  ++ [route "/show/{database}/{schema}/{table}" ["GET"] EpShow;
      route "/_health" ["GET"] EpHealth;
      route "/v1/account/delete" ["POST"] EpAccountDelete;
      route "/v1/account/active-workspace" ["GET"] EpActiveWorkspaceGet;
      route "/v1/account/active-workspace" ["PATCH"] EpActiveWorkspaceSet;
      route "/v1/workspaces" ["GET"] EpTenantsList;
      route "/v1/workspaces" ["POST"] EpTenantsCreate;
      route "/v1/workspaces/invites/accept" ["POST"] EpInviteAccept]
  ++ workspace_routes
  ++ [route "/authz/workspace" ["POST"] EpAuthzWorkspace;
      route "/{database}/{schema}" ["GET"] EpTablesBySchema].

Definition crudRoutes : list Route :=
  let route p ms e := MkRoute p ms false e in [
  route "/{database}/{schema}/{table}" ["GET"] EpSelect;
  route "/{database}/{schema}/{table}" ["POST"] EpInsert;
  route "/batch/{database}/{schema}/{table}" ["POST"] EpBatchInsert;
  route "/{database}/{schema}/{table}" ["DELETE"] EpDelete;
  route "/{database}/{schema}/{table}" ["PUT"; "PATCH"] EpUpdate].

(** The variables of a template. *)
Definition segment_var (seg : string) : option string :=
  if HasPrefix seg "{" && HasSuffix seg "}" then Some (take_bytes (slen seg - 2) (drop_bytes 1 seg)) else None.
Definition path_vars (path : string) : list string := omap segment_var (Split path "/").

(** gorilla/mux: a match is a route of the table whose methods allow the
    request's, with a value for each variable of its template. *)
Class Mux := {
  mux_match : list Route → string → string → option (Route * gmap string string);
  mux_match_route : ∀ rs m p rt vars, mux_match rs m p = Some (rt, vars) →
    rt ∈ rs ∧ (rt_methods rt = [] ∨ m ∈ rt_methods rt) ∧ ∀ k, is_Some (vars !! k) ↔ k ∈ path_vars (rt_path rt)
}.

Definition with_vars (vars : gmap string string) (r : Request) : Request :=
  MkRequest (Method r) (Path r) (URL r) (Http.Query r) (Header r) (Ctx r) vars.

(** ** The router *)

Section router.
Context {D : Type} `{Backend D} `{UnicodeTables} `{MapRange} `{Negroni D} `{Mux}.
Variable PrestConf : Prest.
Variable JsonToXml : string → string + error.
Variable regexp_Match : string → string → gores bool.
Variable Slugify : string → string.
Variable can_open : string → bool.
Variable now : Z.
(** What scripts and the health check use of the system. *)
Variable env_location : string.
Variable os_stat : string → stat.
Variable located : expr → error → error.
Variable read_template : string → gores tmpl.
Variables ping probe : D → nat → gores unit.
(** The decoded bodies of the requests that have one. *)
Variable body_object : Request → gores (gmap string iface).
Variable body_objects : Request → gores (list (gmap string iface)).
(** The endpoints on other databases, the middleware of their subrouter, the
    plugin middleware, and mux's answer when nothing matches. *)
Variable other : ep → Handler D.
Variable RequireWorkspace : Middleware D.
Variable plugin_middleware : Middleware D.
Variable not_found : Request → Response.
Variable windows : bool.

Abbreviation run := (endpoint PrestConf Slugify can_open now).

Definition health : Handler D := λ r s,
  let '(w, res) := WrappedHealthCheck [CheckDBHealth PrestConf ping probe] (sv_world s) in
  (MkServer w (sv_cache s), code ← res; Val (MkResponse code "")).

Definition handler_of (e : ep) : Handler D :=
  match e with
  | EpDatabases => run (GetDatabases PrestConf)
  | EpSchemas => run (GetSchemas PrestConf)
  | EpTables => run (GetTables PrestConf)
  | EpScripts => run (ExecuteFromScripts PrestConf env_location os_stat located read_template)
  | EpShow => run (ShowTable_handler PrestConf)
  | EpHealth => health
  | EpTablesBySchema => run (GetTablesByDatabaseAndSchema PrestConf)
  | EpSelect => run (SelectFromTables PrestConf)
  | EpInsert => λ r, run (λ r, InsertInTables PrestConf r (body_object r)) r
  | EpBatchInsert => λ r, run (λ r, BatchInsertInTables PrestConf r (body_objects r)) r
  | EpDelete => run (DeleteFromTable PrestConf)
  | EpUpdate => λ r, run (λ r, UpdateTable PrestConf r (body_object r)) r
  | e => other e
  end.

Definition serve_route (rt : Route) (vars : gmap string string) : Handler D := λ r s,
  let h := handler_of (rt_ep rt) in
  (if rt_scoped rt then RequireWorkspace h else h) (with_vars vars r) s.

Definition serve_crud : Handler D := λ r s,
  match mux_match crudRoutes (Method r) (Path r) with
  | Some (rt, vars) => serve_route rt vars r s
  | None => (s, Val (not_found r))
  end.

Definition crud_stack : list (Middleware D) := [
  AccessControl; ExposureMiddleware PrestConf; UserFilterMiddleware PrestConf; TenantActiveMiddleware PrestConf;
  CacheMiddleware PrestConf regexp_Match Slugify can_open now; plugin_middleware].

(** Every path of the main table comes before the chain of the table endpoints. *)
Definition GetRouter : Handler D := λ r s,
  match mux_match (main_routes windows) (Method r) (Path r) with
  | Some (rt, vars) => serve_route rt vars r s
  | None => negroni_New crud_stack serve_crud r s
  end.

Definition Routes (MiddlewareStack : list (Middleware D)) : Handler D :=
  negroni_New (initApp PrestConf JsonToXml regexp_Match Slugify can_open now MiddlewareStack) GetRouter.
End router.
