(* ===== verification/RouterSpec.v ===== *)
(** * What the middlewares and the routes guarantee

    Which requests the identity of the caller reaches, what the response cache
    does to it, what the exposure switches cover, and how responses are
    rendered. *)

From S2P Require Import Prelude GoStrings Cache Config Filters Http Json Where WhereSpec Connection Clauses Exec ExecSpec Tables TablesSpec Scripts ScriptsSpec Middlewares Plugins Router.

(** ** Middlewares *)

Section middlewares.
Context {D : Type} `{UnicodeTables}.
Variable cfg : Prest.

(** The request with the identity, and with the tenant, of its headers. *)
Definition with_user (r : Request) : Request :=
  let user := HeaderGet r (UserIDHeader cfg) in
  if String.eqb (UserIDHeader cfg) "" || String.eqb user "" then r else with_ctx (with_UserID user (Ctx r)) r.

Definition with_tenant (r : Request) : Request :=
  let tenant := HeaderGet r (TenantActiveHeader cfg) in
  if String.eqb (TenantActiveHeader cfg) "" || String.eqb tenant "" then r
  else with_ctx (with_TenantIDActive tenant (Ctx r)) r.

Definition identified (r : Request) : Request := with_tenant (with_user r).

Lemma UserFilterMiddleware_spec (h : Handler D) r s : UserFilterMiddleware cfg h r s = h (with_user r) s.
Proof.
  unfold UserFilterMiddleware, with_user. destruct (String.eqb (UserIDHeader cfg) ""); [done|].
  by destruct (String.eqb (HeaderGet r (UserIDHeader cfg)) "").
Qed.

Lemma TenantActiveMiddleware_spec (h : Handler D) r s : TenantActiveMiddleware cfg h r s = h (with_tenant r) s.
Proof.
  unfold TenantActiveMiddleware, with_tenant. destruct (String.eqb (TenantActiveHeader cfg) ""); [done|].
  by destruct (String.eqb (HeaderGet r (TenantActiveHeader cfg)) "").
Qed.

(** Only the context changes. *)
Lemma identified_same r :
  URL (identified r) = URL r ∧ Path (identified r) = Path r ∧ Method (identified r) = Method r
  ∧ Http.Query (identified r) = Http.Query r ∧ Header (identified r) = Header r ∧ Vars (identified r) = Vars r.
Proof. unfold identified, with_tenant, with_user. by destruct (_ || _); destruct (_ || _). Qed.

(** The paths whose listing is switched off. *)
Definition hidden (r : Request) : bool :=
  HasPrefix (Path r) "/databases" && negb (ex_DatabaseListing (Expose cfg))
  || HasPrefix (Path r) "/tables" && negb (ex_TableListing (Expose cfg))
  || HasPrefix (Path r) "/schemas" && negb (ex_SchemaListing (Expose cfg)).

Lemma ExposureMiddleware_spec (h : Handler D) r s :
  ExposureMiddleware cfg h r s = if hidden r then (s, Val unauthorized_listing) else h r s.
Proof. unfold ExposureMiddleware, hidden. by repeat (destruct (_ && _); [done|]). Qed.
End middlewares.

(** ** The chains *)

Section chains.
Context {D : Type} `{Backend D} `{UnicodeTables} `{MapRange} `{Negroni D} `{Mux}.
Variable cfg : Prest.
Variable JsonToXml : string → string + error.
Variable regexp_Match : string → string → gores bool.
Variable Slugify : string → string.
Variable can_open : string → bool.
Variable env : string.
Variable os_stat : string → stat.
Variable located : expr → error → error.
Variable read_template : string → gores tmpl.
Variables ping probe : D → nat → gores unit.
Variable body_object : Request → gores (gmap string iface).
Variable body_objects : Request → gores (list (gmap string iface)).
Variable other : ep → Handler D.
Variable RequireWorkspace plugin_middleware : Middleware D.
Variable not_found : Request → Response.
Variable windows : bool.

Abbreviation router now := (GetRouter cfg regexp_Match Slugify can_open now env os_stat located read_template
  ping probe body_object body_objects other RequireWorkspace plugin_middleware not_found windows).
Abbreviation crud now := (serve_crud cfg Slugify can_open now env os_stat located read_template
  ping probe body_object body_objects other RequireWorkspace not_found).
Abbreviation routes now := (Routes cfg JsonToXml regexp_Match Slugify can_open now env os_stat located read_template
  ping probe body_object body_objects other RequireWorkspace plugin_middleware not_found windows).
Abbreviation run now := (endpoint cfg Slugify can_open now).

(** What the response cache answers a request with. *)
Definition cached (now : Z) (r : Request) (s : Server D) : option string :=
  if cc_Enabled (Cache cfg) && String.eqb (Method r) "GET" && (EndpointRules (Cache cfg) (Path r)).1
  then cache_get cfg Slugify can_open now s (URL r) else None.

Lemma CacheMiddleware_spec now (h : Handler D) r s :
  MatchURL cfg regexp_Match (URL r) = Val false →
  CacheMiddleware cfg regexp_Match Slugify can_open now h r s
  = match cached now r s with Some body => (s, Val (MkResponse StatusOK body)) | None => h r s end.
Proof. intros Hm. unfold CacheMiddleware, cached. rw Hm. cbn [negb]. by rw andb_true_r. Qed.

Lemma crud_chain now r s :
  MatchURL cfg regexp_Match (URL r) = Val false → hidden cfg r = false →
  negroni_New (crud_stack cfg regexp_Match Slugify can_open now plugin_middleware) (crud now) r s
  = match cached now (identified cfg r) s with
    | Some body => (s, Val (MkResponse StatusOK body))
    | None => negroni_New [plugin_middleware] (crud now) (identified cfg r) s
    end.
Proof.
  intros Hm Hh. destruct (identified_same cfg r) as (Hu & _).
  unfold crud_stack. rw negroni_New_cons. unfold AccessControl.
  rw negroni_New_cons ExposureMiddleware_spec Hh negroni_New_cons UserFilterMiddleware_spec.
  rw negroni_New_cons TenantActiveMiddleware_spec negroni_New_cons. fold (identified cfg r).
  by rw CacheMiddleware_spec; [rw Hu|].
Qed.

(** *** The application's own stack *)

Definition timed (r : Request) : Request := with_ctx (with_HTTPTimeout (HTTPTimeout cfg) (Ctx r)) r.

(** What stands before the router once the timeout is set. *)
Definition front (now : Z) (r : Request) (s : Server D) : Server D * gores Response :=
  match cached now r s with
  | Some body => (s, Val (MkResponse StatusOK body))
  | None => if ex_Enabled (Expose cfg) && hidden cfg r then (s, Val unauthorized_listing) else router now r s
  end.

Definition rendered (r : Request) (p : Server D * gores Response) : Server D * gores Response :=
  (p.1, res ← p.2; Val (renderFormat JsonToXml res (QueryGet r "_renderer"))).

Lemma front_chain now r s :
  MatchURL cfg regexp_Match (URL r) = Val false →
  negroni_New ((if cc_Enabled (Cache cfg) then [CacheMiddleware cfg regexp_Match Slugify can_open now] else [])
               ++ (if ex_Enabled (Expose cfg) then [ExposureMiddleware cfg] else [])) (router now) r s
  = front now r s.
Proof.
  intros Hm. unfold front.
  assert (∀ r s, negroni_New (if ex_Enabled (Expose cfg) then [ExposureMiddleware cfg] else []) (router now) r s
    = if ex_Enabled (Expose cfg) && hidden cfg r then (s, Val unauthorized_listing) else router now r s) as He.
  { intros r' s'. destruct (ex_Enabled (Expose cfg)); [|by rw negroni_New_nil].
    rw negroni_New_cons ExposureMiddleware_spec. by rw negroni_New_nil. }
  destruct (cc_Enabled (Cache cfg)) eqn:Hc; cbn [app].
  - rw negroni_New_cons CacheMiddleware_spec //. by rw He.
  - rw He. unfold cached. by rw Hc.
Qed.

Lemma app_chain now r s :
  MatchURL cfg regexp_Match (URL r) = Val false → Method r ≠ "OPTIONS" →
  is_panic (front now (timed r) s).2 = false → routes now [] r s = rendered r (front now (timed r) s).
Proof.
  intros Hm Ho Hp. unfold Routes, initApp, BaseStack. cbn [app]. set (rest := _ ++ _ ++ _).
  assert (negroni_New rest (router now) (timed r) s = front now (timed r) s) as Hrest.
  { subst rest. destruct (negb (Nat.eqb (length (CORSAllowOrigin cfg)) 0)); cbn [app].
    - rw negroni_New_cons cors_New_next //. by apply front_chain.
    - by apply front_chain. }
  rw negroni_New_cons.
  assert (negroni_New (NewLogger :: HandlerSet JsonToXml :: SetTimeoutToContext cfg :: rest) (router now) r s
    = rendered r (front now (timed r) s)) as Hall.
  { rw negroni_New_cons NewLogger_next negroni_New_cons. unfold HandlerSet. rw negroni_New_cons.
    unfold SetTimeoutToContext. fold (timed r). rw Hrest. unfold rendered.
    by destruct (front now (timed r) s) as [s' res]. }
  rw NewRecovery_next; [|exact Hall]. rw Hall. unfold rendered. cbn.
  by destruct (front now (timed r) s) as [s' [x|e|p]].
Qed.

(** ** Properties *)

(** The endpoints of tables. *)
Definition on_tables (e : ep) : bool :=
  match e with EpSelect | EpInsert | EpBatchInsert | EpDelete | EpUpdate => true | _ => false end.

Lemma main_routes_elsewhere rt : rt ∈ main_routes windows → on_tables (rt_ep rt) = false.
Proof.
  assert (Forall (λ rt, on_tables (rt_ep rt) = false) (main_routes windows)) as Hall by by destruct windows; repeat constructor.
  intros Hin. by eapply Forall_forall in Hall.
Qed.

(** C3: Every request for a table passes the identity middlewares before its
    handler: when no earlier route takes its path, its URL is not whitelisted,
    nothing hides it, the cache has no answer and the plugin middleware passes
    requests through, the handler gets the request with the user and the
    tenant of the configured headers in its context, where the tenant filters
    look for them; and no earlier route leads to a table endpoint. *)
Theorem table_requests_carry_identity now r s :
  mux_match (main_routes windows) (Method r) (Path r) = None →
  MatchURL cfg regexp_Match (URL r) = Val false → hidden cfg r = false → cached now (identified cfg r) s = None →
  (∀ h r s, plugin_middleware h r s = h r s) →
  router now r s = crud now (identified cfg r) s
  ∧ (∀ uid, UserIDHeader cfg ≠ "" → HeaderGet r (UserIDHeader cfg) = uid → uid ≠ "" →
       UserIDFromContext (identified cfg r) = uid)
  ∧ (∀ ws, TenantActiveHeader cfg ≠ "" → HeaderGet r (TenantActiveHeader cfg) = ws → ws ≠ "" →
       TenantIDActiveFromContext (identified cfg r) = ws)
  ∧ (∀ rt, rt ∈ main_routes windows → on_tables (rt_ep rt) = false).
Proof.
  intros Hmain Hm Hh Hc Hp. split_and!.
  - unfold GetRouter. rw Hmain. fold (crud now). rw crud_chain // Hc. by rw negroni_New_cons Hp negroni_New_nil.
  - intros uid Hn Hu Hne. unfold identified, with_tenant, with_user.
    rw (proj2 (String.eqb_neq _ _) Hn) Hu (proj2 (String.eqb_neq _ _) Hne). cbn [orb].
    by destruct (_ || _).
  - intros ws Hn Hu Hne. unfold identified. unfold with_tenant.
    assert (HeaderGet (with_user cfg r) (TenantActiveHeader cfg) = ws) as ->.
    { unfold with_user. by destruct (_ || _). }
    by rw (proj2 (String.eqb_neq _ _) Hn) (proj2 (String.eqb_neq _ _) Hne).
  - apply main_routes_elsewhere.
Qed.

(** C40: The identity of the caller never reaches a script: the route of scripts
    comes before the middlewares that read the identity headers, so the whole
    server runs the script with a context in which only the timeout was set, and
    [userId] and [tenantId] are what the query string says. *)
Theorem scripts_never_see_the_identity now rt vars r s :
  let r' := with_vars vars (timed r) in
  let p := run now (ExecuteFromScripts cfg env os_stat located read_template) r' s in
  mux_match (main_routes windows) (Method r) (Path r) = Some (rt, vars) → rt_ep rt = EpScripts →
  MatchURL cfg regexp_Match (URL r) = Val false → Method r ≠ "OPTIONS" →
  cached now (timed r) s = None → hidden cfg r = false → is_panic p.2 = false →
  UserIDKey (Ctx r) = None → TenantIDKey (Ctx r) = None →
  routes now [] r s = rendered r p
  ∧ ∀ st, script_data (script_request st r') !! "userId" = one_or_all <$> Http.Query r !! "userId"
          ∧ script_data (script_request st r') !! "tenantId" = one_or_all <$> Http.Query r !! "tenantId".
Proof.
  intros r' p Hmain Hep Hm Ho Hc Hh Hp Hu Ht.
  assert (rt_scoped rt = false) as Hs.
  { apply mux_match_route in Hmain as [Hin _]. clear -Hin Hep. revert Hep.
    assert (Forall (λ rt, rt_ep rt = EpScripts → rt_scoped rt = false) (main_routes windows)) as Hall
      by by destruct windows; repeat constructor.
    by eapply Forall_forall in Hall. }
  assert (front now (timed r) s = p) as Hf.
  { unfold front. rw Hc. change (hidden cfg (timed r)) with (hidden cfg r). rw Hh andb_false_r.
    unfold GetRouter. change (Method (timed r)) with (Method r). change (Path (timed r)) with (Path r).
    rw Hmain. unfold serve_route. by rw Hs Hep. }
  split; [by rw app_chain // Hf|].
  intros st. split; rw script_data_lookup //; unfold context_value; cbn; [by rw Hu | by rw Ht].
Qed.

(** Rows cross identities through the response cache: once a GET of a table
    has been answered for one caller, every later GET of the same URL is
    answered with the same rows until the entry expires, whoever asks and
    whatever the tenant filters would have said. *)
Theorem cached_rows_cross_identities now now' t rt vars ra rb s w body :
  mux_match (main_routes windows) (Method ra) (Path ra) = None →
  mux_match crudRoutes (Method ra) (Path ra) = Some (rt, vars) → rt_ep rt = EpSelect → rt_scoped rt = false →
  MatchURL cfg regexp_Match (URL ra) = Val false → hidden cfg ra = false → Method ra = "GET" →
  cached now (identified cfg ra) s = None → (∀ h r s, plugin_middleware h r s = h r s) →
  SelectFromTables cfg (with_vars vars (identified cfg ra)) (sv_world s)
    = (w, Val (MkReply (ok_bytes body) (Some (URL ra, body)))) →
  cc_Enabled (Cache cfg) = true → (EndpointRules (Cache cfg) (Path ra)).1 = true →
  EndpointRules (Cache cfg) (default "" (head (Split (URL ra) "?"))) = (true, t) →
  can_open (bunt_file Slugify path_join (Cache cfg) (URL ra)) = true → (now' < now + t)%Z →
  Method rb = Method ra → Path rb = Path ra → URL rb = URL ra →
  (router now ra s).2 = Val (ok_bytes body)
  ∧ router now' rb (router now ra s).1 = ((router now ra s).1, Val (ok_bytes body)).
Proof.
  intros Hmain Hcrud Hep Hsc Hm Hh Hget Hc Hp Hsel Hen Hr1 Hr2 Ho Hnow Em Ep Eu.
  destruct (identified_same cfg ra) as (Iu & Ip & Im & _).
  assert (router now ra s = (cache_set cfg Slugify can_open now (MkServer w (sv_cache s)) (URL ra) body, Val (ok_bytes body))) as Ea.
  { unfold GetRouter. rw Hmain. fold (crud now). rw crud_chain // Hc negroni_New_cons Hp negroni_New_nil.
    unfold serve_crud. rw Im Ip Hcrud. unfold serve_route. rw Hsc Hep. cbn [handler_of]. unfold endpoint.
    change (sv_cache s) with (sv_cache s). by rw Hsel. }
  rw Ea. split; [done|]. cbn [fst]. set (s1 := cache_set _ _ _ _ _ _ _).
  destruct (identified_same cfg rb) as (Ju & Jp & Jm & _).
  unfold GetRouter. rw Em Ep Hmain. fold (crud now').
  assert (hidden cfg rb = false) as Hh' by by unfold hidden; rw Ep.
  rw crud_chain //; [by rw Eu|].
  assert (cached now' (identified cfg rb) s1 = Some body) as ->; [|done].
  unfold cached. rw Hen Jm Jp Ju Em Ep Eu Hget Hr1. cbn [andb String.eqb Ascii.eqb Bool.eqb].
  unfold cache_get, s1, cache_set. cbn [sv_cache].
  destruct (BuntSet_BuntGet_stored Slugify path_join can_open (Cache cfg) now now' (sv_cache s) (URL ra) body t) as [-> _]; [done..|].
  by rw (proj2 (Z.ltb_lt _ _) Hnow).
Qed.

(** The switches of the listings guard the table endpoints by the prefix of
    their path even when exposure is not configured: a request for any table of
    a database whose name starts with [databases], [tables] or [schemas] is
    refused while that listing is switched off, and the server's state stays as
    it is. *)
Theorem exposure_hides_tables_by_prefix now r s :
  mux_match (main_routes windows) (Method r) (Path r) = None → hidden cfg r = true →
  router now r s = (s, Val unauthorized_listing).
Proof.
  intros Hmain Hh. unfold GetRouter. rw Hmain. unfold crud_stack. rw negroni_New_cons. unfold AccessControl.
  by rw negroni_New_cons ExposureMiddleware_spec Hh.
Qed.
End chains.

(** An error of an endpoint reaches the client as JSON inside a JSON string. *)
Lemma errors_encoded_twice `{UnicodeTables} JsonToXml message status :
  (400 ≤ status)%Z →
  renderFormat JsonToXml (jsonError message status) ""
  = MkResponse status (error_object (TrimSpace (requote "{`error`:`" +:+ message +:+ requote "`}" +:+ newline))).
Proof. intros Hs. unfold renderFormat, jsonError. cbn [Status RespBody]. by rw (proj2 (Z.leb_le _ _) Hs). Qed.

(** ** Witnesses *)

#[local] Existing Instance ascii_tables.
#[local] Existing Instance echo.

(** A matcher for the templates of the table, and a chain that composes. *)
Fixpoint match_segs (ts ps : list string) : option (gmap string string) :=
  match ts, ps with
  | [], [] => Some ∅
  | t :: ts, p :: ps =>
      match segment_var t with
      | Some v => if String.eqb p "" then None else <[v := p]> <$> match_segs ts ps
      | None => if String.eqb t p then match_segs ts ps else None
      end
  | _, _ => None
  end.

Lemma match_segs_vars ts ps vars :
  match_segs ts ps = Some vars → ∀ k, is_Some (vars !! k) ↔ k ∈ omap segment_var ts.
Proof.
  revert ps vars; induction ts as [|t ts IH]; intros [|p ps] vars; cbn; try done.
  - intros [= <-] k. split; [by intros []|by intros ?%elem_of_nil].
  - destruct (segment_var t) as [v|].
    + destruct (String.eqb p ""); [done|]. destruct (match_segs ts ps) as [m|] eqn:E; [|done].
      intros [= <-] k. rw elem_of_cons -(IH ps m E k). destruct (decide (v = k)) as [->|Hne].
      * rw lookup_insert_eq. split; eauto.
      * rw lookup_insert_ne //. split; [by right|]. by intros [->|].
    + destruct (String.eqb t p); [|done]. intros Hm k. by apply IH with ps.
Qed.

Fixpoint first_match (rs : list Route) (m p : string) : option (Route * gmap string string) :=
  match rs with
  | [] => None
  | rt :: rs =>
      if Nat.eqb (length (rt_methods rt)) 0 || existsb (String.eqb m) (rt_methods rt) then
        match match_segs (Split (rt_path rt) "/") (Split p "/") with
        | Some vars => Some (rt, vars)
        | None => first_match rs m p
        end
      else first_match rs m p
  end.

Lemma first_match_route rs m p rt vars : first_match rs m p = Some (rt, vars) →
  rt ∈ rs ∧ (rt_methods rt = [] ∨ m ∈ rt_methods rt) ∧ ∀ k, is_Some (vars !! k) ↔ k ∈ path_vars (rt_path rt).
Proof.
  induction rs as [|x rs IH]; [done|]. cbn [first_match].
  destruct (Nat.eqb _ _ || _) eqn:Em; [destruct (match_segs _ _) as [v|] eqn:Es|].
  - intros [= <- <-]. split; [by left|]. split; [|by eapply match_segs_vars].
    apply orb_true_iff in Em as [Hn%Nat.eqb_eq%nil_length_inv|He]; [by left|right].
    apply existsb_exists in He as (y & Hy & ->%String.eqb_eq). by apply list_elem_of_In.
  - intros (Hin & ?)%IH. split; [by right|done].
  - intros (Hin & ?)%IH. split; [by right|done].
Qed.

#[local] Instance plain_mux : Mux := { mux_match := first_match; mux_match_route := first_match_route }.

#[local, refine] Instance plain_chain D : Negroni D := {
  negroni_New ms h := foldr (λ m h, m h) h ms;
  NewRecovery h r s := match h r s with (s', Panic p) => (s', Val (MkResponse 500 "")) | x => x end;
  NewLogger h r s := h r s;
  cors_New o h r s := h r s
}.
Proof. all: try done. intros h r s. by destruct (h r s) as [s' []]. Defined.

Definition server_cfg : Prest :=
  set_headers "X-User-Id" "X-Tenant-Id" (set_Cache (MkCacheConfig true 10 "./" ".db" []) sample_cfg).

(** The rows of the notes, asked for by a user of a tenant. *)
Definition page (path user tenant : string) : Request :=
  MkRequest "GET" path path ∅ (<["X-User-Id" := [user]]> {[ "X-Tenant-Id" := [tenant] ]}) empty_context ∅.

Definition no_xml (b : string) : string + error := inr "no".
Definition no_pattern (exp url : string) : gores bool := Val false.
Definition same_name (s : string) : string := s.
Definition always (s : string) : bool := true.
Definition alive (_ : unit) (_ : nat) : gores unit := Val tt.
Definition no_object (_ : Request) : gores (gmap string iface) := Val ∅.
Definition no_objects (_ : Request) : gores (list (gmap string iface)) := Val [].
Definition elsewhere (e : ep) : Handler unit := λ r s, (s, Val (MkResponse 200 "")).
Definition through : Middleware unit := λ next r s, next r s.
Definition no_route (_ : Request) : Response := MkResponse 404 "".
Definition idle : Server unit := MkServer notes_world ∅.

Abbreviation sample_router cfg now :=
  (GetRouter cfg no_pattern same_name always now "/srv" (λ _, StatOK) bare (one_script agents_script)
     alive alive no_object no_objects elsewhere through through no_route false).

Lemma table_requests_witness :
  let r := page "/db/public/notes" "alice" "t1" in
  sample_router server_cfg 0 r idle
    = serve_crud server_cfg same_name always 0 "/srv" (λ _, StatOK) bare (one_script agents_script)
        alive alive no_object no_objects elsewhere through no_route (identified server_cfg r) idle
  ∧ (∀ uid, UserIDHeader server_cfg ≠ "" → HeaderGet r (UserIDHeader server_cfg) = uid → uid ≠ "" →
       UserIDFromContext (identified server_cfg r) = uid)
  ∧ (∀ ws, TenantActiveHeader server_cfg ≠ "" → HeaderGet r (TenantActiveHeader server_cfg) = ws → ws ≠ "" →
       TenantIDActiveFromContext (identified server_cfg r) = ws)
  ∧ (∀ rt, rt ∈ main_routes false → on_tables (rt_ep rt) = false).
Proof.
  intros r. apply (table_requests_carry_identity server_cfg no_pattern same_name always "/srv" (λ _, StatOK) bare
    (one_script agents_script) alive alive no_object no_objects elsewhere through through no_route false 0 r idle);
    try (by vm_compute).
Defined.

Definition script_page : Request :=
  MkRequest "GET" "/_QUERIES/lobehub/agents" "/_QUERIES/lobehub/agents?userId=victim" {[ "userId" := ["victim"] ]}
    {[ "X-User-Id" := ["mallory"] ]} empty_context ∅.
Definition script_vars : gmap string string := <["queriesLocation" := "lobehub"]> (<["script" := "agents"]> ∅).

Lemma scripts_identity_witness :
  let cfg := set_headers "X-User-Id" "X-Tenant-Id" sample_cfg in
  let r' := with_vars script_vars (timed cfg script_page) in
  let p := endpoint cfg same_name always 0
             (ExecuteFromScripts cfg "/srv" (λ _, StatOK) bare (one_script agents_script)) r' idle in
  Routes cfg no_xml no_pattern same_name always 0 "/srv" (λ _, StatOK) bare (one_script agents_script)
    alive alive no_object no_objects elsewhere through through no_route false [] script_page idle
    = rendered no_xml script_page p
  ∧ ∀ st, script_data (script_request st r') !! "userId" = one_or_all <$> Http.Query script_page !! "userId"
          ∧ script_data (script_request st r') !! "tenantId" = one_or_all <$> Http.Query script_page !! "tenantId".
Proof.
  intros cfg r' p.
  apply (scripts_never_see_the_identity cfg no_xml no_pattern same_name always "/srv" (λ _, StatOK) bare
    (one_script agents_script) alive alive no_object no_objects elsewhere through through no_route false 0
    (MkRoute "/_QUERIES/{queriesLocation}/{script}" [] false EpScripts) script_vars script_page idle); [reflexivity|by vm_compute..].
Defined.

Definition notes_page_vars : gmap string string :=
  <["database" := "db"]> (<["schema" := "public"]> (<["table" := "notes"]> ∅)).

Lemma cached_rows_witness :
  let ra := page "/db/public/notes" "alice" "t1" in
  let rb := page "/db/public/notes" "mallory" "t2" in
  let s1 := (sample_router server_cfg 0 ra idle).1 in
  (sample_router server_cfg 0 ra idle).2 = Val (ok_bytes "db4")
  ∧ sample_router server_cfg 5 rb s1 = (s1, Val (ok_bytes "db4")).
Proof.
  intros ra rb s1.
  apply (cached_rows_cross_identities server_cfg no_pattern same_name always "/srv" (λ _, StatOK) bare
    (one_script agents_script) alive alive no_object no_objects elsewhere through through no_route false 0 5 10
    (MkRoute "/{database}/{schema}/{table}" ["GET"] false EpSelect) notes_page_vars ra rb idle
    (SelectFromTables server_cfg (with_vars notes_page_vars (identified server_cfg ra)) notes_world).1 "db4");
    [by vm_compute|reflexivity|by vm_compute..].
Defined.

Lemma exposure_witness :
  let r := page "/tables_db/public/notes" "alice" "t1" in
  ex_Enabled (Expose server_cfg) = false ∧ sample_router server_cfg 0 r idle = (idle, Val unauthorized_listing).
Proof.
  intros r. split; [done|].
  apply (exposure_hides_tables_by_prefix server_cfg no_pattern same_name always "/srv" (λ _, StatOK) bare
    (one_script agents_script) alive alive no_object no_objects elsewhere through through no_route false 0 r idle);
    by vm_compute.
Defined.
