(* ===== verification/Kawai.v ===== *)
(** * The workspace database, and the handlers' view of it: controllers/utils.go

    The tables behind the workspace, schedule and account endpoints, with the
    meaning of each SQL statement those handlers run; the monad their handlers
    are written in; and the JSON they answer with.

    A primary key is the key of its map; deleting a tenant deletes its members
    and invites, and deleting a schedule its executions, as the foreign keys the
    handlers' comments describe do. *)

From S2P Require Import Prelude GoStrings GoStd GoTime Http Json.

(** ** The tables *)

Record Tenant := MkTenant {
  tn_slug : string; tn_name : string; tn_created_by : string; tn_created : option Z; tn_updated : option Z
}.
Record Member := MkMember { mb_email : string; mb_role : string; mb_created : option Z }.
Record Invite := MkInvite {
  iv_tenant : string; iv_email : string; iv_role : string; iv_token : string; iv_invited_by : string;
  iv_expires : Z; iv_accepted : option (Z * string)
}.
Record Schedule := MkSchedule {
  sc_user : string; sc_workspace : string; sc_name : string; sc_kind : string;
  sc_expression : option string; sc_trigger : option Z; sc_agent : option string; sc_goal : string;
  sc_model : option string; sc_enabled : bool; sc_next : option Z; sc_last : option Z; sc_total : Z;
  sc_created : option Z
}.
Record Execution := MkExecution {
  ex_id : string; ex_schedule : string; ex_status : string; ex_started : option Z; ex_finished : option Z;
  ex_duration : option Z; ex_output : option string; ex_error : option string; ex_created : option Z
}.

#[export] Instance Invite_eq_dec : EqDecision Invite.
Proof. solve_decision. Defined.

(** [content]: the owners of the rows of every other table. *)
Record KDB := MkKDB {
  tenants : gmap string Tenant;
  members : gmap (string * string) Member;
  invites : gmap string Invite;
  scheduled_runs : gmap string Schedule;
  executions : list Execution;
  content : gmap string (list string)
}.

Definition set_tenants f (db : KDB) :=
  MkKDB (f (tenants db)) (members db) (invites db) (scheduled_runs db) (executions db) (content db).
Definition set_members f (db : KDB) :=
  MkKDB (tenants db) (f (members db)) (invites db) (scheduled_runs db) (executions db) (content db).
Definition set_invites f (db : KDB) :=
  MkKDB (tenants db) (members db) (f (invites db)) (scheduled_runs db) (executions db) (content db).
Definition set_schedules f g (db : KDB) :=
  MkKDB (tenants db) (members db) (invites db) (f (scheduled_runs db)) (g (executions db)) (content db).
Definition set_content f (db : KDB) :=
  MkKDB (tenants db) (members db) (invites db) (scheduled_runs db) (executions db) (f (content db)).

Definition duplicate_key : error := "duplicate key value violates unique constraint".
Definition foreign_key : error := "insert or update violates foreign key constraint".

(** [DELETE FROM tenants] with its cascade. *)
Definition drop_tenants (gone : string → bool) (db : KDB) : KDB :=
  set_tenants (filter (λ kv, Is_true (negb (gone kv.1))))
    (set_members (filter (λ kv, Is_true (negb (gone kv.1.1))))
      (set_invites (filter (λ kv, Is_true (negb (gone (iv_tenant kv.2))))) db)).

(** [DELETE FROM scheduled_runs] with its cascade. *)
Definition drop_schedules (gone : string → Schedule → bool) (db : KDB) : KDB :=
  let kept := filter (λ kv, Is_true (negb (gone kv.1 kv.2))) (scheduled_runs db) in
  set_schedules (λ _, kept) (filter (λ e, is_Some (kept !! ex_schedule e))) db.

(** The order a scan of a table comes in is the database's, and so is the number
    of rows it delivers before an error that comes while they are read. *)
Class TableScan := {
  table_scan : ∀ {Key} `{Countable Key} {V : Type}, gmap Key V → list (Key * V);
  rows_before : error → nat;
  table_scan_perm : ∀ {Key} `{Countable Key} {V : Type} (m : gmap Key V), table_scan m ≡ₚ map_to_list m
}.

#[export] Instance scan_sorted : TableScan | 100 := {
  table_scan _ _ _ V m := map_to_list m;
  rows_before _ := 1;
  table_scan_perm _ _ _ V m := reflexivity (map_to_list m)
}.

(** Ordering by a column of times; NULL is the largest value, as PostgreSQL
    sorts it.  Rows with equal times stay in the order of the scan. *)
Definition time_leb (a b : option Z) : bool :=
  match a, b with
  | Some a, Some b => (a <=? b)%Z
  | _, None => true
  | None, Some _ => false
  end.
Fixpoint insert_by {A} (leb : A → A → bool) (x : A) (l : list A) : list A :=
  match l with [] => [x] | y :: l' => if leb x y then x :: l else y :: insert_by leb x l' end.
Definition order_by {A} (leb : A → A → bool) (l : list A) : list A := foldr (insert_by leb) [] l.

(** ** The handlers' monad

    The state is the database, the outcome of the statements still to come (an
    error when the database refuses one), and the profiles handed to the memory
    service.  A computation goes on with a value or has answered. *)
Record KState := MkK {
  k_db : KDB;
  k_outcomes : list (option error);
  k_jobs : list (string * string * string)
}.

Definition K (A : Type) : Type := KState → KState * (A + Response).

#[export] Instance K_ret : MRet K := λ A a s, (s, inl a).
#[export] Instance K_bind : MBind K := λ A B f m s,
  match m s with
  | (s, inl a) => f a s
  | (s, inr r) => (s, inr r)
  end.

Definition answer {A} (r : Response) : K A := λ s, (s, inr r).
Definition guard_that (b : bool) (r : Response) : K unit := if b then mret tt else answer r.

(** The next outcome. *)
Definition next_outcome : K (option error) := λ s,
  match k_outcomes s with
  | [] => (s, inl None)
  | o :: rest => (MkK (k_db s) rest (k_jobs s), inl o)
  end.

(** One statement: what it does when the database accepts it. *)
Definition stmt {A} (f : KDB → gores (KDB * A)) : K (A + error) :=
  o ← next_outcome;
  match o with
  | Some e => mret (inr e)
  | None => λ s,
      match f (k_db s) with
      | Val (db, a) => (MkK db (k_outcomes s) (k_jobs s), inl (inl a))
      | Err e | Panic e => (s, inl (inr e))
      end
  end.

Definition query {A} (f : KDB → A) : K (A + error) := stmt (λ db, Val (db, f db)).
(** [db.Query] and the loop [for rows.Next()]: the statement can still fail while
    its rows are read.  [rows.Next] is then false, as it is behind the last row,
    and nothing reads [rows.Err]: the loop ends with the rows so far. *)
Definition query_rows `{TableScan} {A} (f : KDB → list A) : K (list A + error) :=
  rows ← query f;
  match rows with
  | inl l => o ← next_outcome; mret (inl (match o with Some e => take (rows_before e) l | None => l end))
  | inr e => mret (inr e)
  end.
Definition exec (f : KDB → KDB) : K (unit + error) := stmt (λ db, Val (f db, tt)).
Definition or_answer {A} (r : Response) (x : A + error) : K A :=
  match x with inl a => mret a | inr _ => answer r end.

(** [db.Begin], the deferred [Rollback] and [Commit]: when the body answers, or
    committing fails, the database is as it was. *)
Definition transaction {A} (begin_failed commit_failed : Response) (body : K A) : K A :=
  o ← next_outcome;
  match o with
  | Some _ => answer begin_failed
  | None => λ s,
      let rollback (s' : KState) := MkK (k_db s) (k_outcomes s') (k_jobs s') in
      match body s with
      | (s', inr r) => (rollback s', inr r)
      | (s', inl a) =>
          match next_outcome s' with
          | (s', inl (Some _)) => (rollback s', inr commit_failed)
          | (s', _) => (s', inl a)
          end
      end
  end.

(** A handler: the response of its last step, or the one it stopped with. *)
Definition respond (m : K Response) (s : KState) : KState * Response :=
  match m s with (s, inl r) | (s, inr r) => (s, r) end.

(** ** JSON answers *)

Section json.
Context `{UnicodeTables}.

(** [json.NewEncoder(w).Encode] ends with a newline. *)
Definition writeJSON (code : Z) (body : string) : Response := MkResponse code (body +:+ newline).

Definition writeJSONError (code : Z) (msg : string) : Response :=
  writeJSON code (json_object [("error", json_string msg)]).

(** A struct: its fields in order; an optional one is left out when it is empty. *)
Definition json_struct (fields : list (option (string * string))) : string :=
  "{" +:+ Join ((λ kv, json_string kv.1 +:+ ":" +:+ kv.2) <$> omap (λ f, f) fields) "," +:+ "}".

Definition field (name value : string) : option (string * string) := Some (name, value).
Definition string_field (name value : string) := field name (json_string value).
Definition string_omitempty (name value : string) : option (string * string) :=
  if String.eqb value "" then None else string_field name value.
Definition pointer_omitempty (name : string) (value : option string) : option (string * string) :=
  v ← value; string_field name v.
End json.

Definition extractUserID (r : Request) : string := HeaderGet r "X-User-Id".

(** ** Identifiers: [newUUID] and [newToken] of controllers/workspaces.go

    The bytes are [crypto/rand]'s. *)
Definition newUUID (random : gores (list N)) : gores string :=
  b ← random;
  let b := alter (λ x, N.lor (N.land x 15) 64) 6 b in
  let b := alter (λ x, N.lor (N.land x 63) 128) 8 b in
  let h := hex_encode b in
  let part i n := take_bytes n (drop_bytes i h) in
  Val (part 0 8 +:+ "-" +:+ part 8 4 +:+ "-" +:+ part 12 4 +:+ "-" +:+ part 16 4 +:+ "-" +:+ part 20 12).

Definition newToken (random : gores (list N)) : gores string := b ← random; Val (hex_encode b).
