(* ===== verification/KawaiSpec.v ===== *)
(** * Reasoning about the workspace handlers

    Rules for the handlers' monad: what a read goes on with, what a handler
    leaves in the database, what a transaction does; and what the statements do
    when the database refuses none. *)

From S2P Require Import Prelude GoStrings Http Kawai.

(** ** Reasoning about handlers *)

(** [reads db m Q]: from the database [db], [m] leaves it alone, and what it
    goes on with satisfies [Q]. *)
Definition reads {A} (db : KDB) (m : K A) (Q : A → Prop) : Prop :=
  ∀ s, k_db s = db → k_db (m s).1 = db ∧ match (m s).2 with inl a => Q a | inr _ => True end.

(** [effect db m R]: from [db], the database [m] ends with satisfies [R]. *)
Definition effect {A} (db : KDB) (m : K A) (R : KDB → Prop) : Prop :=
  ∀ s, k_db s = db → R (k_db (m s).1).

(** The values a computation goes on with, and the database then. *)
Definition ktriple {A} (P : KDB → Prop) (m : K A) (Q : A → KDB → Prop) : Prop :=
  ∀ s, P (k_db s) → match (m s).2 with inl a => Q a (k_db (m s).1) | inr _ => True end.

Definition silent {A} (m : K A) : Prop := ∀ s, k_db (m s).1 = k_db s.

Section rules.
Implicit Types (db : KDB) (R : KDB → Prop).

Lemma outcome_db s : k_db (next_outcome s).1 = k_db s.
Proof. unfold next_outcome. by destruct (k_outcomes s). Qed.

Lemma outcome_inl s : ∃ o, (next_outcome s).2 = inl o.
Proof. unfold next_outcome. destruct (k_outcomes s); eauto. Qed.

(** A statement: refused, failed, or run. *)
Lemma stmt_cases {A} (f : KDB → gores (KDB * A)) s :
  (∃ s' e, stmt f s = (s', inl (inr e)) ∧ k_db s' = k_db s)
  ∨ ∃ s' db a, stmt f s = (s', inl (inl a)) ∧ f (k_db s) = Val (db, a) ∧ k_db s' = db.
Proof.
  unfold stmt, mbind, K_bind, next_outcome.
  destruct (k_outcomes s) as [|[e|] o]; cbn; [| left; by eexists _, e |];
    (destruct (f (k_db s)) as [[db a]|e|e] eqn:E; [right; by eexists _, db, a | left; by eexists _, e ..]).
Qed.

Lemma reads_query {A} db (f : KDB → A) : reads db (query f) (λ x, match x with inl a => a = f db | inr _ => True end).
Proof.
  intros s Hs. unfold query.
  destruct (stmt_cases (λ db, Val (db, f db)) s) as [(s' & e & -> & E)|(s' & db' & a & -> & Hf & E)]; cbn; [by rw E Hs|].
  injection Hf as <- <-. by rw E Hs.
Qed.

Lemma reads_query_rows `{TableScan} {A} db (f : KDB → list A) : reads db (query_rows f) (λ _, True).
Proof.
  intros s Hs. unfold query_rows, mbind, K_bind. pose proof (reads_query db f s Hs) as Hq.
  destruct (query f s) as [s1 [[l|e]|r]]; cbn in *; [|done..]. destruct Hq as [Hq _].
  pose proof (outcome_db s1) as Ho. destruct (outcome_inl s1) as [o Eo]. destruct (next_outcome s1) as [s2 x].
  cbn in *. subst x. cbn. by rw Ho Hq.
Qed.

Lemma reads_ret {A} db (a : A) Q : Q a → reads db (mret a) Q.
Proof. by intros Ha s Hs. Qed.
Lemma reads_answer {A} db r (Q : A → Prop) : reads db (answer r) Q.
Proof. by intros s Hs. Qed.
Lemma reads_guard db b r : reads db (guard_that b r) (λ _, b = true).
Proof. by destruct b; intros s Hs. Qed.
Lemma reads_or_answer {A} db r (x : A + error) : reads db (or_answer r x) (λ a, x = inl a).
Proof. by destruct x; intros s Hs. Qed.

Lemma reads_bind {A B} db (m : K A) (f : A → K B) Q Q' :
  reads db m Q → (∀ a, Q a → reads db (f a) Q') → reads db (m ≫= f) Q'.
Proof.
  intros Hm Hf s Hs. specialize (Hm s Hs) as [E Hq]. cbv [mbind K_bind].
  destruct (m s) as [s' [a|r]]; cbn in *; [by apply Hf | done].
Qed.

Lemma reads_weaken {A} db (m : K A) (Q Q' : A → Prop) : reads db m Q → (∀ a, Q a → Q' a) → reads db m Q'.
Proof. intros Hm HQ s Hs. destruct (Hm s Hs) as [? Hq]. split; [done|]. destruct (m s).2; auto. Qed.

Lemma reads_silent {A} (m : K A) : (∀ db, reads db m (λ _, True)) → silent m.
Proof. intros Hm s. by apply (Hm (k_db s) s). Qed.

Lemma effect_reads {A} db (m : K A) Q R : reads db m Q → R db → effect db m R.
Proof. intros Hm HR s Hs. destruct (Hm s Hs) as [-> _]. done. Qed.

Lemma effect_bind {A B} db (m : K A) (f : A → K B) Q R :
  reads db m Q → R db → (∀ a, Q a → effect db (f a) R) → effect db (m ≫= f) R.
Proof.
  intros Hm HR Hf s Hs. specialize (Hm s Hs) as [E Hq]. cbv [mbind K_bind].
  destruct (m s) as [s' [a|r]]; cbn in *; [by apply Hf | by rw E].
Qed.

Lemma effect_last {A B} db (m : K A) (f : A → K B) R :
  effect db m R → (∀ a, silent (f a)) → effect db (m ≫= f) R.
Proof.
  intros Hm Hf s Hs. specialize (Hm s Hs). cbv [mbind K_bind].
  destruct (m s) as [s' [a|r]]; cbn in *; [by rw Hf | done].
Qed.

Lemma effect_stmt {A} db (f : KDB → gores (KDB * A)) R :
  R db → (∀ db' a, f db = Val (db', a) → R db') → effect db (stmt f) R.
Proof.
  intros HR Hf s Hs. destruct (stmt_cases f s) as [(s' & e & -> & E)|(s' & db' & a & -> & Hv & E)]; cbn.
  - by rw E Hs.
  - rw E. apply (Hf db' a). by rw -Hs.
Qed.

Lemma effect_exec db (f : KDB → KDB) R : R db → R (f db) → effect db (exec f) R.
Proof. intros HR Hf. apply effect_stmt; [done|]. by intros db' a [= <- <-]. Qed.

Lemma effect_transaction {A} db b c (body : K A) R :
  ktriple (λ d, d = db) body (λ _, R) → R db → effect db (transaction b c body) R.
Proof.
  intros Hb HR s Hs. unfold transaction, mbind, K_bind. pose proof (outcome_db s) as Ho.
  destruct (next_outcome s) as [s1 [[e|]|r]]; cbn in *; [by rw Ho Hs| |by rw Ho Hs].
  specialize (Hb s1 ltac:(by rw Ho)). destruct (body s1) as [s2 [a|r]]; cbn in *; [|by rw Ho Hs].
  pose proof (outcome_db s2) as Ho2. destruct (next_outcome s2) as [s3 [[e|]|r]]; cbn in *; [by rw Ho Hs|by rw Ho2..].
Qed.

Lemma ktriple_reads {A} db (m : K A) Q : reads db m Q → ktriple (λ d, d = db) m (λ a d, d = db ∧ Q a).
Proof. intros Hm s Hs. destruct (Hm s Hs) as [E Hq]. destruct (m s).2; [done|done]. Qed.

Lemma ktriple_bind {A B} P (m : K A) (f : A → K B) Q Q' :
  ktriple P m Q → (∀ a, ktriple (Q a) (f a) Q') → ktriple P (m ≫= f) Q'.
Proof.
  intros Hm Hf s Hs. specialize (Hm s Hs). cbv [mbind K_bind].
  destruct (m s) as [s' [a|r]]; cbn in *; [by apply Hf | done].
Qed.

Lemma ktriple_ret {A} P (a : A) (Q : A → KDB → Prop) : (∀ db, P db → Q a db) → ktriple P (mret a) Q.
Proof. intros HQ s Hs. by apply HQ. Qed.

Lemma ktriple_stmt {A} P (f : KDB → gores (KDB * A)) :
  ktriple P (stmt f) (λ x db', match x with inl a => ∃ db, P db ∧ f db = Val (db', a) | inr _ => P db' end).
Proof.
  intros s Hs. destruct (stmt_cases f s) as [(s' & e & -> & E)|(s' & db' & a & -> & Hv & E)]; cbn; [by rw E|].
  exists (k_db s). by rw E.
Qed.

Lemma ktriple_or_answer {A} r (x : A + error) (Q : A → KDB → Prop) :
  ktriple (λ db, match x with inl a => Q a db | inr _ => True end) (or_answer r x) Q.
Proof. by destruct x; intros s Hs. Qed.

Lemma effect_respond db (m : K Response) R s :
  effect db m R → k_db s = db → R (k_db (respond m s).1).
Proof. intros Hm Hs. specialize (Hm s Hs). unfold respond. by destruct (m s) as [s' [a|r]]. Qed.
Lemma reads_if {A} db (b : bool) (m n : K A) Q :
  (b = true → reads db m Q) → (b = false → reads db n Q) → reads db (if b then m else n) Q.
Proof. destruct b; auto. Qed.

Lemma silent_ret {A} (a : A) : silent (mret a).
Proof. by intros s. Qed.
Lemma silent_answer {A} r : silent (answer r : K A).
Proof. by intros s. Qed.
Lemma silent_guard b r : silent (guard_that b r).
Proof. by destruct b. Qed.
Lemma silent_or_answer {A} r (x : A + error) : silent (or_answer r x).
Proof. by destruct x. Qed.
Lemma silent_bind {A B} (m : K A) (f : A → K B) : silent m → (∀ a, silent (f a)) → silent (m ≫= f).
Proof.
  intros Hm Hf s. specialize (Hm s). cbv [mbind K_bind]. destruct (m s) as [s' [a|r]]; cbn in *; [by rw Hf|done].
Qed.
(** Two statements in a row, each of which must succeed. *)
Lemma ktriple_run {A B} P (f : KDB → gores (KDB * A)) resp (k : A → K B) Q :
  (∀ a, ktriple (λ db', ∃ db, P db ∧ f db = Val (db', a)) (k a) Q) →
  ktriple P (x ← stmt f; or_answer resp x ≫= k) Q.
Proof.
  intros Hk. eapply ktriple_bind; [apply ktriple_stmt|]. intros [a|e].
  - intros s Hs. by apply (Hk a).
  - by intros s Hs.
Qed.

Lemma ktriple_query_run {A B} db (f : KDB → A) resp (k : A → K B) Q :
  ktriple (λ d, d = db) (k (f db)) Q → ktriple (λ d, d = db) (x ← query f; or_answer resp x ≫= k) Q.
Proof.
  intros Hk. eapply ktriple_bind; [apply (ktriple_reads _ _ _ (reads_query _ _))|]. intros [a|e].
  - intros s [Hs ->]. by apply Hk.
  - by intros s Hs.
Qed.

Lemma ktriple_assume {A} db (Φ : Prop) (m : K A) Q :
  (Φ → ktriple (λ d, d = db) m Q) → ktriple (λ d, d = db ∧ Φ) m Q.
Proof. intros Hm s [Hs HΦ]. by apply Hm. Qed.

(** The same, from one database. *)
Lemma ktriple_run_from {A B} db (f : KDB → gores (KDB * A)) resp (k : A → K B) Q :
  (∀ a db', f db = Val (db', a) → ktriple (λ d, d = db') (k a) Q) →
  ktriple (λ d, d = db) (x ← stmt f; or_answer resp x ≫= k) Q.
Proof.
  intros Hk. apply ktriple_run. intros a s (d & -> & Hf). by eapply Hk.
Qed.

(** *** When the database refuses nothing *)

Lemma query_ok {A} (f : KDB → A) s : k_outcomes s = [] → query f s = (s, inl (inl (f (k_db s)))).
Proof. destruct s as [db o j]. cbn. by intros ->. Qed.

Lemma query_rows_ok `{TableScan} {A} (f : KDB → list A) s :
  k_outcomes s = [] → query_rows f s = (s, inl (inl (f (k_db s)))).
Proof. destruct s as [db o j]. cbn. by intros ->. Qed.

(** An error that comes while the rows are read goes unnoticed. *)
Lemma query_rows_cut `{TableScan} {A} (f : KDB → list A) db e rest jobs :
  query_rows f (MkK db (None :: Some e :: rest) jobs) = (MkK db rest jobs, inl (inl (take (rows_before e) (f db)))).
Proof. done. Qed.

Lemma exec_ok f s : k_outcomes s = [] → exec f s = (MkK (f (k_db s)) [] (k_jobs s), inl (inl tt)).
Proof. destruct s as [db o j]. cbn. by intros ->. Qed.

Definition effect0 {A} (db : KDB) (m : K A) (R : KDB → Prop) : Prop :=
  ∀ s, k_outcomes s = [] → k_db s = db → R (k_db (m s).1).

Lemma effect0_sure {A B} db (m : K A) (f : A → K B) a R :
  (∀ s, k_outcomes s = [] → k_db s = db → m s = (s, inl a)) → effect0 db (f a) R → effect0 db (m ≫= f) R.
Proof. intros Hm Hf s Ho Hs. cbv [mbind K_bind]. rw Hm //. by apply Hf. Qed.

Lemma effect0_guard {B} db b r (f : unit → K B) R :
  R db → (b = true → effect0 db (f tt) R) → effect0 db (guard_that b r ≫= f) R.
Proof. intros HR Hf s Ho Hs. destruct b; [by apply Hf|]. cbn. by rw Hs. Qed.

Lemma effect0_assoc {A B C} db (m : K A) (g : A → K B) (f : B → K C) R :
  effect0 db (m ≫= λ a, g a ≫= f) R → effect0 db ((m ≫= g) ≫= f) R.
Proof.
  intros Hm s Ho Hs. specialize (Hm s Ho Hs). cbv [mbind K_bind] in *.
  by destruct (m s) as [s' [a|r]].
Qed.

Lemma effect0_effect {A} db (m : K A) R : effect db m R → effect0 db m R.
Proof. intros Hm s _. apply Hm. Qed.

End rules.

Create HintDb kawai discriminated.
#[export] Hint Resolve silent_ret silent_answer silent_guard silent_or_answer silent_bind reads_guard reads_query reads_query_rows
  reads_or_answer : kawai.

(** Go through the reads of a handler, up to its write. *)
Ltac effect_step HR :=
  lazymatch goal with
  | |- effect _ (answer _) _ => apply (effect_reads _ _ (λ _, True)); [apply reads_answer | exact HR]
  | |- effect _ (mret _) _ => apply (effect_reads _ _ (λ _, True)); [by apply reads_ret | exact HR]
  | |- effect _ (mbind _ (stmt _)) _ => eapply effect_last; [eapply effect_stmt; [exact HR|]|]
  | |- effect _ (mbind _ (exec _)) _ => eapply effect_last; [eapply effect_exec; [exact HR|]|]
  | |- effect _ (mbind _ _) _ => eapply effect_bind; [solve [eauto with kawai] | exact HR | let G := fresh "G" in intros ? G; cbv beta in G]
  | |- effect _ (match ?x with _ => _ end) _ => destruct x eqn:?
  end.

(** What follows a write only answers. *)
Ltac finish := intros ?; repeat first [apply silent_ret | apply silent_answer | apply silent_guard
  | apply silent_or_answer | apply silent_bind; [|intros ?]].

(** *** Filtered tables *)

Lemma lookup_filter_key {Key} `{Countable Key} {V} (keep : Key * V → bool) (m : gmap Key V) k v :
  filter (λ kv, Is_true (keep kv)) m !! k = Some v ↔ m !! k = Some v ∧ keep (k, v) = true.
Proof. rw map_lookup_filter_Some. by rw Is_true_true. Qed.
