(* ===== verification/Workspaces.v ===== *)
(** * Workspaces, members and invites: controllers/workspaces.go, workspace_middleware.go, authz.go

    The handlers of the workspace endpoints over the tables of [Kawai].  The
    decoded body of a request is an argument of its handler, and so are the
    random bytes and the clocks of the process and of the database. *)

From S2P Require Import Prelude GoStrings GoStd GoTime Http Json Kawai.

Definition roleOwner : string := "owner".
Definition roleMember : string := "member".
Definition roleViewer : string := "viewer".

Definition validRole (r : string) : bool :=
  String.eqb r roleOwner || String.eqb r roleMember || String.eqb r roleViewer.

(** [userFromReq] *)
Definition user_ID (r : Request) : string := HeaderGet r "X-User-Id".
Definition user_Email (r : Request) : string := HeaderGet r "X-User-Email".

(** [strings.SplitN(s, sep, 2)] of one byte. *)
Definition SplitN2 (s : string) (sep : ascii) : list string :=
  match Split s (String sep "") with
  | [] => []
  | [a] => [a]
  | a :: rest => [a; Join rest (String sep "")]
  end.

Definition membershipUserID (membershipID tenantID : string) : string :=
  match SplitN2 membershipID ":" with
  | [t; u] => if String.eqb t tenantID then u else ""
  | _ => ""
  end.

(** ** Lookups *)

Definition userRole (tenantID userID : string) : K string :=
  role ← query (λ db, mb_role <$> members db !! (tenantID, userID));
  mret (match role with inl (Some role) => role | _ => "" end).

Definition userIsMember (tenantID userID : string) : K bool :=
  if String.eqb tenantID "" || String.eqb userID "" then mret false
  else
    found ← query (λ db, members db !! (tenantID, userID));
    mret (match found with inl (Some _) => true | _ => false end).

Definition userIsOwner (tenantID userID : string) : K bool :=
  role ← userRole tenantID userID; mret (String.eqb role roleOwner).

Definition userCanWrite (tenantID userID : string) : K bool :=
  role ← userRole tenantID userID; mret (String.eqb role roleOwner || String.eqb role roleMember).

(** The owners of a tenant. *)
Definition owners (db : KDB) (tenantID : string) : list string :=
  (λ kv, kv.1.2) <$> filter (λ kv, kv.1.1 = tenantID ∧ mb_role kv.2 = roleOwner) (map_to_list (members db)).

(** Zero when the query fails: its error is dropped. *)
Definition countOwners (tenantID : string) : K nat :=
  n ← query (λ db, length (owners db tenantID)); mret (match n with inl n => n | inr _ => 0 end).

(** ** slugify *)

Definition slug_rune (r : N) : bool := is_lower_ascii r || is_digit_ascii r.

(** The builder, and whether its last byte is a dash. *)
Fixpoint slug_loop (rs : list N) (out : string) (prevDash : bool) : string :=
  match rs with
  | [] => out
  | r :: rs =>
      if slug_rune r then slug_loop rs (out +:+ byte_str r) false
      else if negb prevDash && negb (Nat.eqb (slen out) 0) then slug_loop rs (out +:+ "-") true
      else slug_loop rs out prevDash
  end.

Section handlers.
Context `{UnicodeTables} `{TableScan}.

Definition slugify (name : string) : string :=
  let out := TrimRightByte (slug_loop (runes (ToLower (TrimSpace name))) "" false) "-" in
  let out := if Nat.ltb 32 (slen out) then take_bytes 32 out else out in
  if String.eqb out "" then "workspace" else out.

(** The process's clock, the database's, and the random source. *)
Variables now db_now : Z.
Variable random : nat → nat → gores (list N).

(** ** JSON forms *)

Definition format_time (t : option Z) : string := match t with Some t => RFC3339 t | None => "" end.

Definition tenantRow (id name slug createdBy createdAt updatedAt : string) : list (option (string * string)) :=
  [string_field "id" id; string_field "name" name; string_field "slug" slug;
   string_omitempty "createdBy" createdBy; string_omitempty "createdAt" createdAt;
   string_omitempty "updatedAt" updatedAt].

Definition memberRow (tenantID userID : string) (m : Member) : string :=
  json_struct [string_field "membershipId" (tenantID +:+ ":" +:+ userID); string_field "tenantId" tenantID;
    string_field "userId" userID; string_field "email" (mb_email m); string_field "role" (mb_role m);
    string_omitempty "createdAt" (format_time (mb_created m))].

Definition inviteRow (id tenantID email role invitedBy expiresAt : string) : string :=
  json_struct [string_field "id" id; string_field "tenantId" tenantID; string_field "email" email;
    string_field "role" role; string_omitempty "invitedBy" invitedBy; string_omitempty "expiresAt" expiresAt].

Definition rows_object (rows : list string) : string := json_object [("rows", json_array rows)].
Definition strings_object (kvs : list (string * string)) : string :=
  json_object ((λ kv, (kv.1, json_string kv.2)) <$> kvs).

Definition authenticated (r : Request) : K unit :=
  guard_that (negb (String.eqb (user_ID r) "")) (writeJSONError StatusUnauthorized "authentication required").

(** ** Workspaces *)

Definition memberships (db : KDB) (userID : string) : list (string * Tenant * string) :=
  order_by (λ a b, time_leb (tn_created b.1.2) (tn_created a.1.2))
    (omap (λ kv, if String.eqb kv.1.2 userID
                 then t ← tenants db !! kv.1.1; Some (kv.1.1, t, mb_role kv.2) else None)
          (table_scan (members db))).

Definition TenantsListHandler (r : Request) : K Response :=
  authenticated r ≫= λ _,
  rows ← query_rows (λ db, memberships db (user_ID r));
  out ← or_answer (writeJSONError StatusBadGateway "query failed") rows;
  mret (writeJSON StatusOK (rows_object ((λ '(id, t, role),
    json_struct (tenantRow id (tn_name t) (tn_slug t) "" (format_time (tn_created t)) (format_time (tn_updated t))
                 ++ [string_field "role" role])) <$> out))).

(** [INSERT INTO tenants], [INSERT INTO tenant_members] of a new member. *)
Definition insert_tenant (id : string) (t : Tenant) (db : KDB) : gores (KDB * unit) :=
  match tenants db !! id with
  | Some _ => Err duplicate_key
  | None => Val (set_tenants (<[id := t]>) db, tt)
  end.
Definition insert_member (tenantID userID : string) (m : Member) (db : KDB) : gores (KDB * unit) :=
  match tenants db !! tenantID, members db !! (tenantID, userID) with
  | None, _ => Err foreign_key
  | _, Some _ => Err duplicate_key
  | _, None => Val (set_members (<[(tenantID, userID) := m]>) db, tt)
  end.

(** The profile goes to the memory service in the background. *)
Definition go_ingestProfileToMemory (tenantID userID email : string) : K unit :=
  λ s, (MkK (k_db s) (k_outcomes s) (k_jobs s ++ [(tenantID, userID, email)]), inl tt).

(** A body that does not decode, or whose name is blank, is the same error. *)
Definition blank (s : string) : bool := String.eqb (TrimSpace s) "".

Definition TenantsCreateHandler (r : Request) (body : gores (string * string)) : K Response :=
  authenticated r ≫= λ _,
  let failed := writeJSONError StatusBadGateway "could not create workspace" in
  match body with
  | Val (name, slug) =>
      guard_that (negb (blank name)) (writeJSONError StatusBadRequest "name required") ≫= λ _,
      let slug := if String.eqb slug "" then slugify name else slug in
      guard_that (validRole roleOwner) (writeJSONError StatusInternalServerError "role table misconfigured") ≫= λ _,
      memberCount ← query (λ db, length (filter (λ kv, kv.1.2 = user_ID r) (map_to_list (members db))));
      let isFirstWorkspace := match memberCount with inl n => Nat.eqb n 0 | inr _ => true end in
      match newUUID (random 0 16) with
      | Val id =>
          transaction failed failed (
            x ← stmt (insert_tenant id (MkTenant slug name (user_ID r) (Some now) (Some now)));
            or_answer failed x ≫= λ _,
            y ← stmt (insert_member id (user_ID r) (MkMember (ToLower (user_Email r)) roleOwner (Some now)));
            or_answer failed y) ≫= λ _,
          (if isFirstWorkspace && negb (String.eqb (user_Email r) "")
           then go_ingestProfileToMemory id (user_ID r) (user_Email r) else mret tt) ≫= λ _,
          mret (writeJSON StatusOK (json_struct (tenantRow id name slug (user_ID r) "" "")))
      | _ => answer (writeJSONError StatusInternalServerError "id generation failed")
      end
  | _ => answer (writeJSONError StatusBadRequest "name required")
  end.

Definition X_Tenant_Id (r : Request) : string := HeaderGet r "X-Tenant-Id".

Definition TenantGetHandler (r : Request) : K Response :=
  authenticated r ≫= λ _,
  let id := X_Tenant_Id r in
  guard_that (negb (String.eqb id "")) (writeJSONError StatusBadRequest "id required") ≫= λ _,
  isMember ← userIsMember id (user_ID r);
  guard_that isMember (writeJSONError StatusForbidden "not a member") ≫= λ _,
  row ← query (λ db, tenants db !! id);
  t ← or_answer (writeJSONError StatusBadGateway "query failed") row;
  match t with
  | None => answer (writeJSONError StatusNotFound "not found")
  | Some t => mret (writeJSON StatusOK (json_struct
      (tenantRow id (tn_name t) (tn_slug t) "" (format_time (tn_created t)) (format_time (tn_updated t)))))
  end.

(** The second component is the number of rows affected. *)
Definition rename_tenant (id name : string) (db : KDB) : gores (KDB * nat) :=
  match tenants db !! id with
  | None => Val (db, 0)
  | Some t =>
      Val (set_tenants (<[id := MkTenant (tn_slug t) name (tn_created_by t) (tn_created t) (Some db_now)]>) db, 1)
  end.

Definition TenantRenameHandler (r : Request) (body : gores string) : K Response :=
  authenticated r ≫= λ _,
  let id := X_Tenant_Id r in
  match body with
  | Val name =>
      guard_that (negb (blank name)) (writeJSONError StatusBadRequest "name required") ≫= λ _,
      canWrite ← userCanWrite id (user_ID r);
      guard_that canWrite (writeJSONError StatusForbidden "insufficient permission") ≫= λ _,
      res ← stmt (rename_tenant id name);
      n ← or_answer (writeJSONError StatusBadGateway "update failed") res;
      guard_that (negb (Nat.eqb n 0)) (writeJSONError StatusNotFound "not found") ≫= λ _,
      mret (writeJSON StatusOK (strings_object [("id", id); ("name", name)]))
  | _ => answer (writeJSONError StatusBadRequest "name required")
  end.

Definition TenantDeleteHandler (r : Request) : K Response :=
  authenticated r ≫= λ _,
  let id := X_Tenant_Id r in
  isOwner ← userIsOwner id (user_ID r);
  guard_that isOwner (writeJSONError StatusForbidden "only an owner can delete a workspace") ≫= λ _,
  res ← exec (drop_tenants (String.eqb id));
  or_answer (writeJSONError StatusBadGateway "delete failed") res ≫= λ _,
  mret (writeJSON StatusOK (json_object [("id", json_string id); ("deleted", "true")])).

(** ** Members *)

Definition members_of (db : KDB) (tenantID : string) : list (string * Member) :=
  order_by (λ a b, time_leb (mb_created a.2) (mb_created b.2))
    (omap (λ kv, if String.eqb kv.1.1 tenantID then Some (kv.1.2, kv.2) else None) (table_scan (members db))).

Definition TenantMembersHandler (r : Request) : K Response :=
  authenticated r ≫= λ _,
  let id := X_Tenant_Id r in
  isMember ← userIsMember id (user_ID r);
  guard_that isMember (writeJSONError StatusForbidden "not a member") ≫= λ _,
  rows ← query_rows (λ db, members_of db id);
  out ← or_answer (writeJSONError StatusBadGateway "query failed") rows;
  mret (writeJSON StatusOK (rows_object ((λ '(u, m), memberRow id u m) <$> out))).

Definition set_role (tenantID userID role : string) (db : KDB) : gores (KDB * nat) :=
  match members db !! (tenantID, userID) with
  | None => Val (db, 0)
  | Some m =>
      Val (set_members (<[(tenantID, userID) := MkMember (mb_email m) role (mb_created m)]>) db, 1)
  end.

Definition MemberUpdateRoleHandler (r : Request) (body : gores string) : K Response :=
  authenticated r ≫= λ _,
  let id := VarsGet r "id" in
  let targetUserID := membershipUserID (VarsGet r "membershipId") id in
  guard_that (negb (String.eqb targetUserID "")) (writeJSONError StatusBadRequest "invalid membershipId") ≫= λ _,
  let invalid := writeJSONError StatusBadRequest "role must be owner|member|viewer" in
  match body with
  | Val role =>
      guard_that (validRole role) invalid ≫= λ _,
      isOwner ← userIsOwner id (user_ID r);
      guard_that isOwner (writeJSONError StatusForbidden "only an owner can manage members") ≫= λ _,
      (if String.eqb targetUserID (user_ID r) && negb (String.eqb role roleOwner) then
         ownerCount ← countOwners id;
         guard_that (negb (Nat.leb ownerCount 1)) (writeJSONError StatusBadRequest "cannot demote the last owner")
       else mret tt) ≫= λ _,
      res ← stmt (set_role id targetUserID role);
      n ← or_answer (writeJSONError StatusBadGateway "update failed") res;
      guard_that (negb (Nat.eqb n 0)) (writeJSONError StatusNotFound "member not found") ≫= λ _,
      mret (writeJSON StatusOK (strings_object [("tenantId", id); ("userId", targetUserID); ("role", role)]))
  | _ => answer invalid
  end.

Definition remove_member (tenantID userID : string) : KDB → KDB := set_members (delete (tenantID, userID)).

Definition MemberRemoveHandler (r : Request) : K Response :=
  authenticated r ≫= λ _,
  let id := VarsGet r "id" in
  let targetUserID := membershipUserID (VarsGet r "membershipId") id in
  guard_that (negb (String.eqb targetUserID "")) (writeJSONError StatusBadRequest "invalid membershipId") ≫= λ _,
  isOwner ← userIsOwner id (user_ID r);
  guard_that (String.eqb targetUserID (user_ID r) || isOwner)
    (writeJSONError StatusForbidden "only an owner can remove others") ≫= λ _,
  (if String.eqb targetUserID (user_ID r) then
     role ← userRole id (user_ID r);
     if String.eqb role roleOwner then
       ownerCount ← countOwners id;
       guard_that (negb (Nat.leb ownerCount 1))
         (writeJSONError StatusBadRequest "sole owner cannot leave; delete the workspace instead")
     else mret tt
   else mret tt) ≫= λ _,
  res ← exec (remove_member id targetUserID);
  or_answer (writeJSONError StatusBadGateway "remove failed") res ≫= λ _,
  mret (writeJSON StatusOK
    (json_object [("tenantId", json_string id); ("userId", json_string targetUserID); ("removed", "true")])).

(** ** Invites *)

Definition invite_ttl : Z := (7 * 24 * 3600)%Z.

Definition insert_invite (id : string) (i : Invite) (db : KDB) : gores (KDB * unit) :=
  match tenants db !! iv_tenant i, invites db !! id with
  | None, _ => Err foreign_key
  | _, Some _ => Err duplicate_key
  | _, None => Val (set_invites (<[id := i]>) db, tt)
  end.

Definition TenantInviteCreateHandler (r : Request) (body : gores (string * string)) : K Response :=
  authenticated r ≫= λ _,
  let id := X_Tenant_Id r in
  let invalid := writeJSONError StatusBadRequest "email and role (owner|member|viewer) required" in
  match body with
  | Val (email, role) =>
      guard_that (negb (blank email) && validRole role) invalid ≫= λ _,
      let email := ToLower (TrimSpace email) in
      isOwner ← userIsOwner id (user_ID r);
      guard_that isOwner (writeJSONError StatusForbidden "only an owner can invite") ≫= λ _,
      match newUUID (random 0 16), newToken (random 1 32) with
      | Val invID, Val token =>
          let expires := (now + invite_ttl)%Z in
          res ← stmt (insert_invite invID (MkInvite id email role token (user_ID r) expires None));
          or_answer (writeJSONError StatusBadGateway "could not create invite") res ≫= λ _,
          mret (writeJSON StatusOK (inviteRow invID id email role (user_ID r) (RFC3339 expires)))
      | Val _, _ => answer (writeJSONError StatusInternalServerError "token generation failed")
      | _, _ => answer (writeJSONError StatusInternalServerError "id generation failed")
      end
  | _ => answer invalid
  end.

(** An invite that can still be accepted. *)
Definition open_invite (token : string) (i : Invite) : bool :=
  String.eqb (iv_token i) token
  && match iv_accepted i with None => true | Some _ => false end && (db_now <? iv_expires i)%Z.

Definition find_invite (token : string) (db : KDB) : option (string * Invite) :=
  head (filter (λ kv, Is_true (open_invite token kv.2)) (table_scan (invites db))).

(** [ON CONFLICT (tenant_id, user_id) DO UPDATE SET role = EXCLUDED.role] *)
Definition upsert_member (tenantID userID : string) (m : Member) (db : KDB) : gores (KDB * unit) :=
  match tenants db !! tenantID with
  | None => Err foreign_key
  | Some _ =>
      let m' := match members db !! (tenantID, userID) with
                | Some old => MkMember (mb_email old) (mb_role m) (mb_created old)
                | None => m
                end in
      Val (set_members (<[(tenantID, userID) := m']>) db, tt)
  end.

Definition mark_accepted (id userID : string) (db : KDB) : KDB :=
  set_invites (alter (λ i, MkInvite (iv_tenant i) (iv_email i) (iv_role i) (iv_token i) (iv_invited_by i)
    (iv_expires i) (Some (db_now, userID))) id) db.

Definition TenantInviteAcceptHandler (r : Request) (body : gores string) : K Response :=
  authenticated r ≫= λ _,
  let required := writeJSONError StatusBadRequest "token required" in
  match body with
  | Val token =>
      guard_that (negb (blank token)) required ≫= λ _,
      let failed := writeJSONError StatusBadGateway "could not accept invite" in
      inv ← transaction (writeJSONError StatusBadGateway "tx failed")
              (writeJSONError StatusBadGateway "commit failed") (
        row ← query (find_invite token);
        found ← or_answer (writeJSONError StatusBadGateway "query failed") row;
        match found with
        | None => answer (writeJSONError StatusNotFound "invite not found or expired")
        | Some (invID, inv) =>
            guard_that (String.eqb (ToLower (user_Email r)) (ToLower (iv_email inv)))
              (writeJSONError StatusForbidden "invite email mismatch") ≫= λ _,
            x ← stmt (upsert_member (iv_tenant inv) (user_ID r)
                        (MkMember (ToLower (user_Email r)) (iv_role inv) (Some now)));
            or_answer failed x ≫= λ _,
            y ← exec (mark_accepted invID (user_ID r));
            or_answer failed y ≫= λ _,
            mret inv
        end);
      mret (writeJSON StatusOK (strings_object [("tenantId", iv_tenant inv); ("role", iv_role inv)]))
  | _ => answer required
  end.

(** ** controllers/workspace_middleware.go *)

Definition RequireWorkspaceMembership (next : Request → K Response) (r : Request) : K Response :=
  let wsID := X_Tenant_Id r in
  guard_that (negb (String.eqb wsID "")) (writeJSONError StatusForbidden "no active workspace") ≫= λ _,
  isMember ← (if negb (String.eqb (user_ID r) "") then userIsMember wsID (user_ID r) else mret true);
  guard_that isMember (writeJSONError StatusForbidden "not a member of this workspace") ≫= λ _,
  next r.

(** ** controllers/authz.go *)

Record AuthzWorkspaceRequest := MkAuthz {
  az_User : string; az_WorkspaceID : string; az_Tenant : string; az_Permission : string
}.

Definition roleMatchesPermission (role perm : string) : bool :=
  if String.eqb perm "manage" then String.eqb role "owner"
  else if String.eqb perm "write" then String.eqb role "owner" || String.eqb role "member"
  else String.eqb role "owner" || String.eqb role "member" || String.eqb role "viewer".

(** PostgreSQL's [lower]. *)
Variable sql_lower : string → string.

(** The role of the first member of the tenant with the email. *)
Definition role_by_email (tenantID email : string) (db : KDB) : option string :=
  head (omap (λ kv, if String.eqb kv.1.1 tenantID && String.eqb (sql_lower (mb_email kv.2)) email
                    then Some (mb_role kv.2) else None) (table_scan (members db))).

Definition allowed_object (b : bool) : string := json_object [("allowed", if b then "true" else "false")].

Definition AuthzWorkspaceHandler (body : gores AuthzWorkspaceRequest) : K Response :=
  match body with
  | Val req =>
      let wsID := if String.eqb (az_WorkspaceID req) "" then az_Tenant req else az_WorkspaceID req in
      let email := TrimSpace (ToLower (az_User req)) in
      let perm := ToLower (az_Permission req) in
      let perm := if String.eqb perm "" then "view" else perm in
      if String.eqb wsID "" || String.eqb email "" then mret (writeJSON StatusOK (allowed_object false))
      else
        row ← query (role_by_email wsID email);
        match row with
        | inl None => mret (writeJSON StatusOK (allowed_object false))
        | inr _ => mret (writeJSON StatusServiceUnavailable (allowed_object false))
        | inl (Some role) => mret (writeJSON StatusOK (allowed_object (roleMatchesPermission role perm)))
        end
  | _ => mret (writeJSON StatusBadRequest (allowed_object false))
  end.
End handlers.
