(* ===== verification/WorkspacesSpec.v ===== *)
(** * What the workspace endpoints guarantee

    The abstract specification of the membership store is a step relation,
    [ws_step]: who may do what to which tenant.  Every handler refines it: it
    leaves the tables as they are or makes one step its caller may make.  The
    invariants are proved on the relation, by cases on the steps. *)

From S2P Require Import Prelude GoStrings GoStd GoTime Http Json Kawai KawaiSpec Workspaces Router.

(** ** The abstract specification *)

Definition role_of (db : KDB) (tenantID userID : string) : option string := mb_role <$> members db !! (tenantID, userID).
Definition is_owner (db : KDB) (tenantID userID : string) : Prop := role_of db tenantID userID = Some roleOwner.

Section spec.
Context `{UnicodeTables}.
(** The caller, as the edge identifies it, the database's clock, and whether
    the lookups before a removal could be relied on: the handler takes one that
    fails for the role of a stranger. *)
Variables (u email : string) (db_now : Z) (counted : Prop).

Inductive ws_step (db : KDB) : KDB → Prop :=
| ws_create id t m :
    tenants db !! id = None → members db !! (id, u) = None → mb_role m = roleOwner →
    ws_step db (set_members (<[(id, u) := m]>) (set_tenants (<[id := t]>) db))
| ws_rename id t name :
    tenants db !! id = Some t → role_of db id u ∈ [Some roleOwner; Some roleMember] →
    ws_step db (set_tenants
      (<[id := MkTenant (tn_slug t) name (tn_created_by t) (tn_created t) (Some db_now)]>) db)
| ws_delete id : is_owner db id u → ws_step db (drop_tenants (String.eqb id) db)
| ws_role id v m role :
    is_owner db id u → validRole role = true → members db !! (id, v) = Some m →
    (v = u → role ≠ roleOwner → 2 ≤ length (owners db id)) →
    ws_step db (set_members (<[(id, v) := MkMember (mb_email m) role (mb_created m)]>) db)
| ws_remove id v :
    (v = u ∨ is_owner db id u) → (counted → v = u → is_owner db id u → 2 ≤ length (owners db id)) →
    ws_step db (set_members (delete (id, v)) db)
| ws_invite iid i :
    is_Some (tenants db !! iv_tenant i) → invites db !! iid = None → is_owner db (iv_tenant i) u →
    validRole (iv_role i) = true → iv_accepted i = None → iv_invited_by i = u →
    ws_step db (set_invites (<[iid := i]>) db)
| ws_accept iid i db1 created :
    invites db !! iid = Some i → iv_accepted i = None → (db_now < iv_expires i)%Z →
    ToLower email = ToLower (iv_email i) →
    upsert_member (iv_tenant i) u (MkMember (ToLower email) (iv_role i) created) db = Val (db1, tt) →
    ws_step db (mark_accepted db_now iid u db1).
End spec.

(** ** The handlers *)

Inductive ws_call :=
| WList | WCreate (body : gores (string * string)) | WGet | WRename (body : gores string) | WDelete
| WMembers | WUpdateRole (body : gores string) | WRemove
| WInvite (body : gores (string * string)) | WAccept (body : gores string)
| WAuthz (body : gores AuthzWorkspaceRequest).

Section handlers.
Context `{UnicodeTables} `{TableScan}.
Variables now db_now : Z.
Variable random : nat → nat → gores (list N).
Variable sql_lower : string → string.

Definition run_ws (c : ws_call) (r : Request) : K Response :=
  match c with
  | WList => TenantsListHandler r
  | WCreate b => TenantsCreateHandler now random r b
  | WGet => TenantGetHandler r
  | WRename b => TenantRenameHandler db_now r b
  | WDelete => TenantDeleteHandler r
  | WMembers => TenantMembersHandler r
  | WUpdateRole b => MemberUpdateRoleHandler r b
  | WRemove => MemberRemoveHandler r
  | WInvite b => TenantInviteCreateHandler now random r b
  | WAccept b => TenantInviteAcceptHandler now db_now r b
  | WAuthz b => AuthzWorkspaceHandler sql_lower b
  end.

(** *** The lookups *)

Lemma userRole_reads db id v : reads db (userRole id v) (λ role, role ≠ "" → role_of db id v = Some role).
Proof.
  unfold userRole. eapply reads_bind; [apply reads_query|]. intros [x|e] Hx; apply reads_ret; [|done].
  subst x. unfold role_of. by destruct (mb_role <$> _).
Qed.

Lemma userIsOwner_reads db id v : reads db (userIsOwner id v) (λ b, b = true → is_owner db id v).
Proof.
  unfold userIsOwner. eapply reads_bind; [apply userRole_reads|]. intros role Hr. apply reads_ret.
  intros ->%String.eqb_eq. by apply Hr.
Qed.

Lemma userCanWrite_reads db id v :
  reads db (userCanWrite id v) (λ b, b = true → role_of db id v ∈ [Some roleOwner; Some roleMember]).
Proof.
  unfold userCanWrite. eapply reads_bind; [apply userRole_reads|]. intros role Hr. apply reads_ret.
  intros [->%String.eqb_eq| ->%String.eqb_eq]%orb_true_iff; rw Hr //; [by left|by right; left].
Qed.

Lemma userIsMember_reads db id v : reads db (userIsMember id v) (λ b, b = true → is_Some (members db !! (id, v))).
Proof.
  unfold userIsMember. destruct (_ || _); [by apply reads_ret|].
  eapply reads_bind; [apply reads_query|]. intros [x|e] Hx; apply reads_ret; [|done]. subst x.
  by destruct (members db !! (id, v)).
Qed.

Lemma countOwners_reads db id : reads db (countOwners id) (λ n, n ≤ length (owners db id)).
Proof.
  unfold countOwners. eapply reads_bind; [apply reads_query|]. intros [x|e] Hx; apply reads_ret; subst; lia.
Qed.

End handlers.

#[export] Hint Resolve userRole_reads userIsOwner_reads userCanWrite_reads userIsMember_reads countOwners_reads : kawai.

Section refinement.
Context `{UnicodeTables} `{TableScan}.
Variables now db_now : Z.
Variable random : nat → nat → gores (list N).
Variable sql_lower : string → string.
Variable counted : Prop.

(** Nothing, or a step the caller may make. *)
Definition allowed (r : Request) (db db' : KDB) : Prop :=
  db' = db ∨ ws_step (user_ID r) (user_Email r) db_now counted db db'.

Lemma allowed_refl r db : allowed r db db.
Proof. by left. Qed.

Lemma rename_refines r b db : effect db (TenantRenameHandler db_now r b) (allowed r db).
Proof.
  unfold TenantRenameHandler, authenticated. pose proof (allowed_refl r db) as HR.
  repeat effect_step HR; [|by finish].
  unfold rename_tenant. intros db' n. destruct (tenants db !! X_Tenant_Id r) as [t|] eqn:Et; intros [= <- <-]; [|done].
  right. apply ws_rename; auto.
Qed.

Lemma delete_refines r db : effect db (TenantDeleteHandler r) (allowed r db).
Proof.
  unfold TenantDeleteHandler, authenticated. pose proof (allowed_refl r db) as HR.
  repeat effect_step HR; [|by finish]. right. apply ws_delete. auto.
Qed.

(** The last owner is counted before anyone gives the role up. *)
Lemma last_owner_reads db id resp : reads db (ownerCount ← countOwners id; guard_that (negb (Nat.leb ownerCount 1)) resp)
  (λ _, 2 ≤ length (owners db id)).
Proof.
  eapply reads_bind; [apply countOwners_reads|]. intros n Hn.
  eapply reads_weaken; [apply reads_guard|]. intros [] Hg. apply negb_true_iff, Nat.leb_gt in Hg. cbn in Hn. lia.
Qed.

Lemma update_role_refines r b db : effect db (MemberUpdateRoleHandler r b) (allowed r db).
Proof.
  unfold MemberUpdateRoleHandler, authenticated. pose proof (allowed_refl r db) as HR.
  set (id := VarsGet r "id"). set (v := membershipUserID _ id).
  do 2 effect_step HR. destruct b as [role|e|p]; [|by effect_step HR..].
  do 3 effect_step HR.
  eapply (effect_bind _ _ _ (λ _, v = user_ID r → role ≠ roleOwner → 2 ≤ length (owners db id))); [|done|].
  { apply reads_if; intros Hb.
    - eapply reads_weaken; [apply last_owner_reads|]. auto.
    - apply reads_ret. intros Hv Hr. apply andb_false_iff in Hb as [Hb|Hb].
      + by apply String.eqb_neq in Hb.
      + by apply negb_false_iff, String.eqb_eq in Hb. }
  intros _ Hlast. effect_step HR; [|by finish].
  unfold set_role. intros db' n. destruct (members db !! (id, v)) as [m|] eqn:Em; intros [= <- <-]; [|done].
  right. apply ws_role; auto.
Qed.

Lemma invite_refines r b db : effect db (TenantInviteCreateHandler now random r b) (allowed r db).
Proof.
  unfold TenantInviteCreateHandler, authenticated. pose proof (allowed_refl r db) as HR.
  effect_step HR. destruct b as [[mail role]|e|p]; [|by effect_step HR..].
  eapply effect_bind; [apply reads_guard | exact HR | intros [] Hvalid; cbv beta in Hvalid].
  do 2 effect_step HR. destruct (newUUID _) as [iid|e|p]; [|by effect_step HR..].
  destruct (newToken _) as [token|e|p]; [|by effect_step HR..].
  effect_step HR; [|by finish]. unfold insert_invite. cbn [iv_tenant].
  intros db' x. destruct (tenants db !! X_Tenant_Id r) eqn:Et; [|done].
  destruct (invites db !! iid) eqn:Ei; [done|]. intros [= <- <-].
  right. apply ws_invite; cbn; eauto. by apply andb_true_iff in Hvalid as [_ ?].
Qed.

Lemma create_refines r b db : effect db (TenantsCreateHandler now random r b) (allowed r db).
Proof.
  unfold TenantsCreateHandler, authenticated. pose proof (allowed_refl r db) as HR.
  effect_step HR. destruct b as [[name slug]|e|p]; [|by effect_step HR..].
  do 3 effect_step HR. destruct (newUUID _) as [id|e|p]; [|by effect_step HR..].
  eapply effect_last.
  - apply effect_transaction; [|done]. apply ktriple_run. intros [].
    eapply ktriple_bind; [apply ktriple_stmt|]. intros [[]|e]; [|by intros s Hs].
    intros s (db1 & (db0 & -> & H1) & H2). cbn.
    unfold insert_tenant in H1. destruct (tenants db !! id) eqn:Et; [done|]. injection H1 as <-.
    unfold insert_member in H2. cbn [tenants members set_tenants] in H2.
    destruct (<[id := _]> (tenants db) !! id); [|done].
    destruct (members db !! (id, user_ID r)) eqn:Em; [done|]. injection H2 as <-. right. by apply ws_create.
  - intros []. apply silent_bind; [|intros ?; apply silent_ret]. by destruct (_ && _).
Qed.

Lemma find_invite_spec token db iid i :
  find_invite db_now token db = Some (iid, i) → invites db !! iid = Some i ∧ open_invite db_now token i = true.
Proof.
  unfold find_invite. intros Hh. assert ((iid, i) ∈ filter (λ kv, Is_true (open_invite db_now token kv.2)) (table_scan (invites db))) as Hin.
  { destruct (filter _ _) as [|x l]; [done|]. injection Hh as ->. by left. }
  apply list_elem_of_filter in Hin as [Ho Hin]. rw table_scan_perm elem_of_map_to_list in Hin.
  split; [done|]. cbn in Ho. by destruct (open_invite db_now token i).
Qed.

Lemma accept_refines r b db : effect db (TenantInviteAcceptHandler now db_now r b) (allowed r db).
Proof.
  unfold TenantInviteAcceptHandler, authenticated. pose proof (allowed_refl r db) as HR.
  effect_step HR. destruct b as [token|e|p]; [|by effect_step HR..].
  effect_step HR. eapply effect_last; [|by finish].
  apply effect_transaction; [|done].
  apply ktriple_query_run. destruct (find_invite db_now token db) as [[iid i]|] eqn:Hf; [|by intros s Hs].
  apply find_invite_spec in Hf as [Hi Ho]. unfold open_invite in Ho. rw !andb_true_iff in Ho.
  destruct Ho as [[_ Ha] He%Z.ltb_lt].
  eapply ktriple_bind; [apply (ktriple_reads _ _ _ (reads_guard _ _ _))|]. intros [].
  apply ktriple_assume. intros Hm%String.eqb_eq. apply ktriple_run_from. intros [] db1 Hu.
  intros s Hs. unfold exec.
  destruct (stmt_cases (λ db, Val (mark_accepted db_now iid (user_ID r) db, tt)) s)
    as [(s' & e & E & E2)|(s' & db2 & x & E & Hx & E2)]; cbv [mbind K_bind]; rw E; [done|]. cbn.
  injection Hx as <- <-. rw E2 Hs. right. eapply ws_accept; [done| |done|done|done]. by destruct (iv_accepted i).
Qed.

(** *** When the database refuses nothing *)

Lemma userRole_ok id v s : k_outcomes s = [] → userRole id v s = (s, inl (default "" (role_of (k_db s) id v))).
Proof. intros Hs. unfold userRole, mbind, K_bind. by rw query_ok. Qed.

Lemma userIsOwner_ok id v s :
  k_outcomes s = [] → userIsOwner id v s = (s, inl (String.eqb (default "" (role_of (k_db s) id v)) roleOwner)).
Proof. intros Hs. unfold userIsOwner, mbind, K_bind. by rw userRole_ok. Qed.

Lemma countOwners_ok id s : k_outcomes s = [] → countOwners id s = (s, inl (length (owners (k_db s) id))).
Proof. intros Hs. unfold countOwners, mbind, K_bind. by rw query_ok. Qed.

Lemma is_owner_eqb db id v : String.eqb (default "" (role_of db id v)) roleOwner = true ↔ is_owner db id v.
Proof.
  rw String.eqb_eq. unfold is_owner. destruct (role_of db id v) as [x|]; cbn; [|done].
  split; [by intros ->|by intros [= ->]].
Qed.

Lemma remove_checked r db : effect0 db (MemberRemoveHandler r) (allowed r db).
Proof.
  unfold MemberRemoveHandler, authenticated. pose proof (allowed_refl r db) as HR.
  set (id := VarsGet r "id"). set (v := membershipUserID _ id). set (u := user_ID r).
  apply effect0_guard; [done|]. intros _. apply effect0_guard; [done|]. intros _.
  eapply effect0_sure; [intros s Ho Hs; by rw userIsOwner_ok // Hs|].
  apply effect0_guard; [done|]. intros Hwho.
  assert ((v = u → is_owner db id u → 2 ≤ length (owners db id)) → ∀ resp (k : unit → K Response), (∀ a, silent (k a)) →
    effect0 db (res ← exec (remove_member id v); or_answer resp res ≫= k) (allowed r db)) as Hwrite.
  { intros Hlast resp k Hk. apply effect0_effect, effect_last.
    - apply effect_exec; [done|]. right. apply ws_remove; [|done].
      apply orb_true_iff in Hwho as [?%String.eqb_eq|?%is_owner_eqb]; auto.
    - intros x. apply silent_bind; [apply silent_or_answer|done]. }
  destruct (String.eqb_spec v u) as [Hv|Hv].
  - apply effect0_assoc. eapply effect0_sure; [intros s Ho Hs; by rw userRole_ok // Hs|].
    destruct (String.eqb _ roleOwner) eqn:Hr.
    + apply effect0_assoc. eapply effect0_sure; [intros s Ho Hs; by rw countOwners_ok // Hs|].
      apply effect0_guard; [done|]. intros Hn%negb_true_iff%Nat.leb_gt. apply Hwrite; [intros _ _; lia|].
      intros a. apply silent_ret.
    + apply Hwrite; [|intros a; apply silent_ret]. intros _ Ho%is_owner_eqb. by rw Ho in Hr.
  - apply Hwrite; [done|]. intros a. apply silent_ret.
Qed.

Lemma remove_unchecked r db : ¬ counted → effect db (MemberRemoveHandler r) (allowed r db).
Proof.
  intros Hnc. unfold MemberRemoveHandler, authenticated. pose proof (allowed_refl r db) as HR.
  set (id := VarsGet r "id"). set (v := membershipUserID _ id).
  do 3 effect_step HR. eapply effect_bind; [apply reads_guard | exact HR | intros [] Hwho; cbv beta in Hwho].
  eapply (effect_bind _ _ _ (λ _, True)); [|done|].
  { apply reads_if; intros _; [|by apply reads_ret].
    eapply reads_bind; [apply userRole_reads|]. intros role _. apply reads_if; intros _; [|by apply reads_ret].
    eapply reads_weaken; [apply last_owner_reads|]. done. }
  intros _ _. effect_step HR; [|by finish]. right. apply ws_remove; [|done].
  apply orb_true_iff in Hwho as [?%String.eqb_eq|?]; auto.
Qed.

(** *** The handlers that only read *)

Lemma readers_refine c r db :
  match c with WList | WGet | WMembers | WAuthz _ => True | _ => False end →
  effect db (run_ws now db_now random sql_lower c r) (allowed r db).
Proof.
  pose proof (allowed_refl r db) as HR.
  destruct c as [| | | | | | | | | |body]; try done; intros _; cbn [run_ws];
    unfold TenantsListHandler, TenantGetHandler, TenantMembersHandler, AuthzWorkspaceHandler, authenticated;
    repeat effect_step HR.
Qed.

Lemma run_ws_allowed c r s :
  (counted ↔ k_outcomes s = []) →
  allowed r (k_db s) (k_db (respond (run_ws now db_now random sql_lower c r) s).1).
Proof.
  intros Hc.
  assert (c = WRemove ∨ c ≠ WRemove) as [->|Hne] by (destruct c; auto).
  { destruct (decide (k_outcomes s = [])) as [Ho|Ho].
    - unfold respond. pose proof (remove_checked r (k_db s) s Ho eq_refl) as Hr. cbn [run_ws].
      by destruct (MemberRemoveHandler r s) as [s' [x|x]].
    - apply (effect_respond (k_db s)); [|done]. apply remove_unchecked. by rw Hc. }
  apply (effect_respond (k_db s)); [|done].
  destruct c; try (by apply readers_refine); try done; cbn [run_ws].
  - apply create_refines.
  - apply rename_refines.
  - apply delete_refines.
  - apply update_role_refines.
  - apply invite_refines.
  - apply accept_refines.
Qed.
End refinement.

(** ** Invariants of the steps *)

(** Every role is one of the three, and every member and invite belongs to a
    tenant. *)
Record well_formed (db : KDB) : Prop := {
  wf_member : ∀ id v m, members db !! (id, v) = Some m → is_Some (tenants db !! id) ∧ validRole (mb_role m) = true;
  wf_invite : ∀ iid i, invites db !! iid = Some i → is_Some (tenants db !! iv_tenant i) ∧ validRole (iv_role i) = true
}.

Section invariants.
Context `{UnicodeTables}.
Variables (u email : string) (db_now : Z) (counted : Prop).

Lemma drop_tenants_well_formed gone db : well_formed db → well_formed (drop_tenants gone db).
Proof.
  intros [Hm Hi]. unfold drop_tenants. split; cbn.
  - intros id v m [Hl Hg]%lookup_filter_key. destruct (Hm _ _ _ Hl) as [[t Ht] Hv]. split; [|done].
    exists t. by apply lookup_filter_key.
  - intros iid i [Hl Hg]%lookup_filter_key. destruct (Hi _ _ Hl) as [[t Ht] Hv]. split; [|done].
    exists t. by apply lookup_filter_key.
Qed.

Lemma tenant_insert id id' (t : Tenant) (ts : gmap string Tenant) :
  is_Some (ts !! id') → is_Some (<[id := t]> ts !! id').
Proof. intros Hs. destruct (decide (id = id')) as [->|]; [rw lookup_insert_eq|rw lookup_insert_ne //]; eauto. Qed.

Lemma member_insert_well_formed db id v m :
  well_formed db → is_Some (tenants db !! id) → validRole (mb_role m) = true →
  well_formed (set_members (<[(id, v) := m]>) db).
Proof.
  intros [Hm Hi] Ht Hv. split; cbn; [|done]. intros id' v' m' [[[= <- <-] <-]|[_ Hl]]%lookup_insert_Some; eauto.
Qed.

Lemma ws_step_well_formed db db' : ws_step u email db_now counted db db' → well_formed db → well_formed db'.
Proof.
  intros Hstep Hwf. pose proof Hwf as [Hm Hi].
  destruct Hstep as [id t m Ht Hn Hr|id t name Ht Hr|id Ho|id v m role Ho Hv Hl _|id v Ho _|iid i Ht Hn Ho Hv Ha Hb
                    |iid i db1 created Hl Ha He Hmail Hu].
  - apply member_insert_well_formed; [|by cbn; rw lookup_insert_eq|by rw Hr].
    split; cbn; intros *; [intros Hx; destruct (Hm _ _ _ Hx)|intros Hx; destruct (Hi _ _ Hx)]; by split; [apply tenant_insert|].
  - split; cbn; intros *; [intros Hx; destruct (Hm _ _ _ Hx)|intros Hx; destruct (Hi _ _ Hx)]; by split; [apply tenant_insert|].
  - by apply drop_tenants_well_formed.
  - apply member_insert_well_formed; [done| |done]. by apply Hm in Hl as [? _].
  - split; cbn; [|done]. intros id' v' m [_ Hl]%lookup_delete_Some. by eapply Hm.
  - split; cbn; [done|]. intros iid' i' [[<- <-]|[_ Hl]]%lookup_insert_Some; [done|by eapply Hi].
  - unfold upsert_member in Hu. destruct (tenants db !! iv_tenant i) eqn:Et; [|done]. injection Hu as <-.
    destruct (Hi _ _ Hl) as [_ Hrole].
    assert (well_formed (set_members (<[(iv_tenant i, u) := match members db !! (iv_tenant i, u) with
      | Some old => MkMember (mb_email old) (iv_role i) (mb_created old)
      | None => MkMember (ToLower email) (iv_role i) created end]>) db)) as [Hm' Hi'].
    { apply member_insert_well_formed; [done|by rw Et|]. by destruct (members db !! (iv_tenant i, u)). }
    split; cbn; [exact Hm'|]. intros iid' i' Hl'. apply lookup_alter_Some in Hl' as [(<- & old & Hold & ->)|[_ Hl']]; [|by eapply Hi'].
    exact (Hi' _ _ Hold).
Qed.

(** *** Who may change a tenant *)

(** An invite of a tenant the caller can accept now. *)
Definition may_accept (db : KDB) (id role : string) : Prop :=
  ∃ iid i, invites db !! iid = Some i ∧ iv_tenant i = id ∧ iv_accepted i = None ∧ (db_now < iv_expires i)%Z
    ∧ ToLower email = ToLower (iv_email i) ∧ iv_role i = role.

Lemma role_of_insert db id v m id' v' :
  role_of (set_members (<[(id, v) := m]>) db) id' v'
  = if decide ((id, v) = (id', v')) then Some (mb_role m) else role_of db id' v'.
Proof.
  unfold role_of. cbn. case_decide as E; [injection E as <- <-; by rw lookup_insert_eq|by rw lookup_insert_ne].
Qed.

Lemma upsert_role id m db db1 id' v' :
  upsert_member id u m db = Val (db1, tt) →
  is_Some (tenants db !! id) ∧ tenants db1 = tenants db ∧ invites db1 = invites db
  ∧ role_of db1 id' v' = if decide ((id, u) = (id', v')) then Some (mb_role m) else role_of db id' v'.
Proof.
  unfold upsert_member. destruct (tenants db !! id) eqn:Et; [|done]. intros [= <-].
  split_and!; [done..|]. rw role_of_insert. case_decide; [|done]. by destruct (members db !! (id, u)).
Qed.

(** What a step leaves alone in a tenant the caller does not own. *)
Record kept_from_others (db db' : KDB) (id : string) : Prop := {
  ko_tenant : is_Some (tenants db' !! id);
  ko_others : ∀ v, v ≠ u → role_of db' id v = role_of db id v;
  ko_self : ∀ role, role_of db' id u = Some role → role_of db id u = Some role ∨ may_accept db id role;
  ko_invites : ∀ iid i, invites db' !! iid = Some i → iv_tenant i = id →
    ∃ i0, invites db !! iid = Some i0 ∧ iv_tenant i0 = id ∧ iv_email i0 = iv_email i ∧ iv_role i0 = iv_role i
          ∧ iv_token i0 = iv_token i ∧ iv_expires i0 = iv_expires i
}.

(** A step that keeps the invites, and the roles of everyone in the tenant. *)
Lemma kept_roles db db' id :
  is_Some (tenants db' !! id) → (∀ v, role_of db' id v = role_of db id v) →
  (∀ iid i, invites db' !! iid = Some i → iv_tenant i = id → invites db !! iid = Some i) →
  kept_from_others db db' id.
Proof. intros Ht Hr Hi. split; [done|by intros|intros role; rw Hr; by left|eauto 10]. Qed.

Lemma drop_tenants_kept gone db id :
  is_Some (tenants db !! id) → gone id = false → kept_from_others db (drop_tenants gone db) id.
Proof.
  intros [t Ht] Hg. apply kept_roles; unfold drop_tenants; cbn.
  - exists t. apply lookup_filter_key. cbn. by rw Hg.
  - intros v. unfold role_of. cbn. f_equal. destruct (members db !! (id, v)) as [m|] eqn:Em.
    + apply lookup_filter_key. cbn. by rw Hg.
    + apply eq_None_not_Some. intros [m [Hm _]%lookup_filter_key]. congruence.
  - by intros iid i [Hl _]%lookup_filter_key.
Qed.

Lemma step_by_other db db' id :
  ws_step u email db_now counted db db' → is_Some (tenants db !! id) → ¬ is_owner db id u → kept_from_others db db' id.
Proof.
  intros Hstep Hex Hno.
  destruct Hstep as [id0 t m Ht Hn Hr|id0 t name Ht Hr|id0 Ho|id0 v m role Ho Hv Hl _|id0 v Hwho _|iid i Ht Hn Ho Hv Ha Hb
                    |iid i db1 created Hl Ha He Hmail Hu].
  - apply kept_roles; [by apply tenant_insert| |done]. intros v. rw role_of_insert. rw decide_False; [|done].
    intros [= -> _]. rw Ht in Hex. by destruct Hex.
  - apply kept_roles; [by apply tenant_insert|done..].
  - apply drop_tenants_kept; [done|]. apply String.eqb_neq. by intros ->.
  - apply kept_roles; [done| |done]. intros v'. rw role_of_insert. rw decide_False; [|done]. congruence.
  - split; [done| | |cbn; eauto 10]; unfold role_of; cbn.
    + intros v' Hv'. rw lookup_delete_ne; [|done]. intros [= -> ->]. by destruct Hwho.
    + intros role Hr. left. destruct (decide ((id0, v) = (id, u))) as [E|E]; [by rw E lookup_delete_eq in Hr|].
      by rw lookup_delete_ne in Hr.
  - apply kept_roles; [done..|]. cbn. intros iid' i' [[<- <-]|[_ Hl]]%lookup_insert_Some Hid; [|done]. by subst id.
  - assert (∀ id' v, role_of (mark_accepted db_now iid u db1) id' v
      = if decide ((iv_tenant i, u) = (id', v)) then Some (iv_role i) else role_of db id' v) as Hrole.
    { intros id' v. change (role_of (mark_accepted db_now iid u db1) id' v) with (role_of db1 id' v).
      by destruct (upsert_role _ _ _ _ id' v Hu) as (_ & _ & _ & ->). }
    destruct (upsert_role _ _ _ _ id u Hu) as (_ & Etn & Ein & _). split.
    + cbn. by rw Etn.
    + intros v Hv. rw Hrole. rw decide_False; [congruence|done].
    + intros role. rw Hrole. case_decide as E; [|by left]. injection E as <-. intros [= <-]. right. by exists iid, i.
    + cbn. rw Ein. intros iid' i' [(<- & i0 & H0 & ->)|[_ H0]]%lookup_alter_Some Hid; cbn in *; eauto 10.
Qed.

(** *** The last owner *)

Lemma owners_elem db id v : v ∈ owners db id ↔ is_owner db id v.
Proof.
  unfold owners, is_owner, role_of. rw list_elem_of_fmap. split.
  - intros ([[id' v'] m] & -> & [[Hid Hr] Hin]%list_elem_of_filter). cbn in *. subst id'.
    apply elem_of_map_to_list in Hin. by rw Hin; cbn; rw Hr.
  - destruct (members db !! (id, v)) as [m|] eqn:Em; [|done]. intros [= Hr].
    exists ((id, v), m). split; [done|]. apply list_elem_of_filter. split; [done|]. by apply elem_of_map_to_list.
Qed.

Lemma owners_NoDup db id : NoDup (owners db id).
Proof.
  unfold owners. apply NoDup_fmap_2_strong; [|apply NoDup_filter, NoDup_map_to_list].
  intros [[a v] m] [[b w] n] [[Ha _] Hx]%list_elem_of_filter [[Hb _] Hy]%list_elem_of_filter E. cbn in *. subst.
  apply elem_of_map_to_list in Hx, Hy. rw Hx in Hy. by injection Hy as <-.
Qed.

(** Of two owners or more, one is not [u]. *)
Lemma another_owner db id : 2 ≤ length (owners db id) → ∃ v, v ≠ u ∧ is_owner db id v.
Proof.
  intros Hlen. pose proof (owners_NoDup db id) as Hnd.
  destruct (owners db id) as [|v [|w l]] eqn:El; cbn in Hlen; [lia|lia|].
  assert (is_owner db id v ∧ is_owner db id w) as [Hv Hw] by (split; apply owners_elem; rw El; set_solver).
  destruct (decide (v = u)) as [->|]; [|by exists v]. exists w. split; [|done].
  intros ->. apply NoDup_cons in Hnd as [Hn _]. set_solver.
Qed.

Definition owned (db : KDB) (id : string) : Prop := ∃ v, is_owner db id v.

Lemma step_keeps_owner db db' id : counted →
  ws_step u email db_now counted db db' → owned db id → is_Some (tenants db' !! id) →
  (∀ role, may_accept db id role → role = roleOwner) → owned db' id.
Proof.
  intros Hc Hstep [v Hv] Hex Hacc. unfold is_owner in Hv.
  destruct Hstep as [id0 t m Ht Hn Hr|id0 t name Ht Hr|id0 Ho|id0 w m role Ho Hvr Hl H2|id0 w Hwho H2|iid i Ht Hn Ho Hvr Ha Hb
                    |iid i db1 created Hl Ha He Hmail Hu]; try by exists v.
  - exists v. unfold is_owner. rw role_of_insert. case_decide as E; [|done]. by rw Hr.
  - exists v. unfold is_owner, role_of, drop_tenants in *. cbn in *.
    destruct (members db !! (id, v)) as [m|] eqn:Em; [|done]. cbn in Hv.
    destruct Hex as [t [_ Hg]%lookup_filter_key]. cbn in Hg.
    assert (filter (λ kv, Is_true (negb (String.eqb id0 kv.1.1))) (members db) !! (id, v) = Some m) as ->; [|done].
    by apply lookup_filter_key.
  - destruct (decide (role = roleOwner)) as [->|Hne].
    { exists v. unfold is_owner. rw role_of_insert. by case_decide. }
    destruct (decide (id0 = id)) as [->|Hid].
    + destruct (decide (w = u)) as [->|Hw].
      * destruct (another_owner db id) as (x & Hx & Hox); [auto|]. exists x. unfold is_owner. rw role_of_insert.
        rw decide_False; [congruence|done].
      * exists u. unfold is_owner. rw role_of_insert. rw decide_False; [congruence|done].
    + exists v. unfold is_owner. rw role_of_insert. rw decide_False; [congruence|done].
  - assert (∀ x, (id0, w) ≠ (id, x) → is_owner db id x → owned (set_members (delete (id0, w)) db) id) as Hkeep.
    { intros x Hx Ho. exists x. unfold is_owner, role_of. cbn. by rw lookup_delete_ne. }
    destruct (decide ((id0, w) = (id, v))) as [[= -> ->]|E]; [|by apply (Hkeep v)].
    destruct (decide (v = u)) as [->|Hvu].
    + destruct (another_owner db id) as (x & Hx & Hox); [auto|]. apply (Hkeep x); [congruence|done].
    + destruct Hwho as [|Ho]; [done|]. apply (Hkeep u); [congruence|done].
  - exists v. unfold is_owner. change (role_of (mark_accepted db_now iid u db1) id v) with (role_of db1 id v).
    destruct (upsert_role _ _ _ _ id v Hu) as (_ & _ & _ & ->). case_decide as E; [|done]. injection E as Hid _.
    cbn. f_equal. apply Hacc. exists iid, i. by rw Hid.
Qed.
End invariants.
