(* ===== verification/WorkspacesSafety.v ===== *)
(** * What holds of the workspaces, and what does not

    The theorems on the workspace endpoints: that each handler makes only the
    steps of the abstract specification, what every sequence of requests keeps,
    and the ways around the protection of the last owner. *)

From S2P Require Import Prelude GoStrings GoStd GoTime Http Json Connection Kawai KawaiSpec Workspaces WorkspacesSpec Router RouterSpec.

(** ** Requests *)

Section requests.
Context `{UnicodeTables} `{TableScan}.

(** One request to a workspace endpoint: from [db] to [db']. *)
Definition ws_request (db db' : KDB) : Prop :=
  ∃ now db_now random sql_lower c r outcomes jobs,
    db' = k_db (respond (run_ws now db_now random sql_lower c r) (MkK db outcomes jobs)).1.

Lemma ws_request_step db db' :
  ws_request db db' → db' = db ∨ ∃ u email db_now counted, ws_step u email db_now counted db db'.
Proof.
  intros (now & db_now & random & sql_lower & c & r & o & j & ->).
  destruct (run_ws_allowed now db_now random sql_lower (o = []) c r (MkK db o j)) as [E|Hstep]; [done| |].
  - by left.
  - right. by eexists _, _, _, _.
Qed.

(** C4: The workspace handlers implement the abstract specification.  Whatever the request, the clocks, the random bytes and
    the failures of the database, a request leaves the tables as they were or
    makes one step of [ws_step] that its caller may make; when no statement of
    the request fails, an owner is removed only while there is another. *)
Theorem workspace_handlers_refine now db_now random sql_lower c r s :
  allowed db_now (k_outcomes s = []) r (k_db s)
    (k_db (respond (run_ws now db_now random sql_lower c r) s).1).
Proof. by apply run_ws_allowed. Qed.

(** C13: Starting from empty tables, after any sequence of requests by anyone,
    with any failures, each member has one of the three roles, and every member
    and invite belongs to a tenant that exists. *)
Theorem reachable_workspaces_well_formed db :
  rtc ws_request (MkKDB ∅ ∅ ∅ ∅ [] ∅) db → well_formed db.
Proof.
  assert (well_formed (MkKDB ∅ ∅ ∅ ∅ [] ∅)) as Hempty by (split; intros *; cbn; by rw lookup_empty).
  revert Hempty. generalize (MkKDB ∅ ∅ ∅ ∅ [] ∅). intros d0 Hd0 Hr. induction Hr as [|d0 d1 d2 H1 _ IH]; [done|].
  apply IH. destruct (ws_request_step _ _ H1) as [->|(u & e & n & c & Hs)]; [done|]. by eapply ws_step_well_formed.
Qed.

(** C6: Only owners manage a workspace through its endpoints.  Whatever a caller
    who does not own a workspace requests of the workspace endpoints ([run_ws]),
    the workspace stays, the role of every other user in it stays, the caller's
    own role stays, or is lost, or becomes that of an open invite to the caller's
    address, and no invite appears or changes its address, role, token or expiry.
    Closing an account is not one of these endpoints: it deletes the workspaces
    of its user ([AccountSpec], closing_deletes_shared_workspaces). *)
Theorem only_owners_manage now db_now random sql_lower c r s id :
  is_Some (tenants (k_db s) !! id) → ¬ is_owner (k_db s) id (user_ID r) →
  kept_from_others (user_ID r) (user_Email r) db_now (k_db s)
    (k_db (respond (run_ws now db_now random sql_lower c r) s).1) id.
Proof.
  intros Ht Ho. destruct (run_ws_allowed now db_now random sql_lower (k_outcomes s = []) c r s) as [E|Hs]; [done| |].
  - rw E. apply kept_roles; auto.
  - eapply step_by_other; eauto.
Qed.

(** C5: When the database refuses nothing, no request leaves a workspace that
    had an owner without one, unless the caller can accept an invite to it with
    a lesser role. *)
Theorem last_owner_survives now db_now random sql_lower c r s id :
  k_outcomes s = [] → owned (k_db s) id →
  (∀ role, may_accept (user_Email r) db_now (k_db s) id role → role = roleOwner) →
  let db' := k_db (respond (run_ws now db_now random sql_lower c r) s).1 in
  is_Some (tenants db' !! id) → owned db' id.
Proof.
  intros Ho Hown Hacc db' Ht.
  destruct (run_ws_allowed now db_now random sql_lower (k_outcomes s = []) c r s) as [E|Hs]; [done| |].
  - unfold db'. by rw E.
  - by eapply (step_keeps_owner _ _ _ (k_outcomes s = [])); [done| | | |]; eauto.
Qed.

(** ** Accepting an invite *)

Lemma user_guard {A} (r : Request) resp (k : unit → K A) s :
  user_ID r ≠ "" → (guard_that (negb (String.eqb (user_ID r) "")) resp ≫= k) s = k tt s.
Proof. intros Hu%String.eqb_neq. by rw Hu. Qed.

(** A valid token of an invite to the caller's address, when nothing fails. *)
Lemma accept_run now db_now r token s iid i t :
  user_ID r ≠ "" → blank token = false → k_outcomes s = [] →
  find_invite db_now token (k_db s) = Some (iid, i) → ToLower (user_Email r) = ToLower (iv_email i) →
  tenants (k_db s) !! iv_tenant i = Some t →
  ∃ m, mb_role m = iv_role i ∧
  TenantInviteAcceptHandler now db_now r (Val token) s
  = (MkK (mark_accepted db_now iid (user_ID r) (set_members (<[(iv_tenant i, user_ID r) := m]>) (k_db s))) [] (k_jobs s),
     inl (writeJSON StatusOK (strings_object [("tenantId", iv_tenant i); ("role", iv_role i)]))).
Proof.
  intros Hu Hb Ho Hf Hm Ht. destruct s as [db o j]. cbn in *. subst o.
  exists (match members db !! (iv_tenant i, user_ID r) with
          | Some old => MkMember (mb_email old) (iv_role i) (mb_created old)
          | None => MkMember (ToLower (user_Email r)) (iv_role i) (Some now) end).
  split; [by destruct (members db !! _)|].
  unfold TenantInviteAcceptHandler, authenticated. rw user_guard //. rw Hb.
  cbv [mbind K_bind transaction next_outcome query stmt]. cbn. rw Hf. cbn. rw Hm String.eqb_refl. cbn.
  unfold upsert_member. by rw Ht; cbn.
Qed.

(** Accepting an invite can leave a workspace without an owner: when its
    only owner accepts an open invite to it with a lesser role, the workspace
    stays and nobody owns it. *)
Theorem accepting_an_invite_strands_the_workspace now db_now r token s iid i :
  user_ID r ≠ "" → blank token = false → k_outcomes s = [] → well_formed (k_db s) →
  find_invite db_now token (k_db s) = Some (iid, i) → ToLower (user_Email r) = ToLower (iv_email i) →
  (∀ v, is_owner (k_db s) (iv_tenant i) v → v = user_ID r) → iv_role i ≠ roleOwner →
  let '(s', resp) := respond (TenantInviteAcceptHandler now db_now r (Val token)) s in
  Status resp = StatusOK ∧ is_Some (tenants (k_db s') !! iv_tenant i) ∧ ¬ owned (k_db s') (iv_tenant i).
Proof.
  intros Hu Hb Ho Hwf Hf Hm Hsole Hrole.
  assert (is_Some (tenants (k_db s) !! iv_tenant i)) as [t Ht].
  { apply find_invite_spec in Hf as [Hi _]. by apply Hwf in Hi as [? _]. }
  destruct (accept_run now db_now r token s iid i t) as (m & Hmr & E); try done.
  unfold respond. rw E. split_and!; [done|by exists t|].
  intros [v Hv]. unfold is_owner in Hv.
  change (role_of (set_members (<[(iv_tenant i, user_ID r) := m]>) (k_db s)) (iv_tenant i) v = Some roleOwner) in Hv.
  rw role_of_insert in Hv. case_decide as Ed; [by rw Hmr in Hv; injection Hv|].
  apply Ed. by rw (Hsole v).
Qed.

(** C38: An invite is accepted once: when its token is no other invite's and the
    database refuses nothing, an identified caller at its address who accepts it
    gets its role, and in the state this leaves every attempt to accept it, by
    any identified caller, is answered 404 and changes nothing. *)
Theorem invite_accepted_once now db_now r token s iid i :
  user_ID r ≠ "" → blank token = false → k_outcomes s = [] → well_formed (k_db s) →
  find_invite db_now token (k_db s) = Some (iid, i) → ToLower (user_Email r) = ToLower (iv_email i) →
  (∀ iid' i', invites (k_db s) !! iid' = Some i' → iv_token i' = token → iid' = iid) →
  let '(s', resp) := respond (TenantInviteAcceptHandler now db_now r (Val token)) s in
  Status resp = StatusOK ∧ role_of (k_db s') (iv_tenant i) (user_ID r) = Some (iv_role i) ∧
  ∀ now' db_now' r', user_ID r' ≠ "" →
    respond (TenantInviteAcceptHandler now' db_now' r' (Val token)) s'
    = (s', writeJSONError StatusNotFound "invite not found or expired").
Proof.
  intros Hu Hb Ho Hwf Hf Hm Huniq.
  pose proof Hf as [Hi _]%find_invite_spec.
  assert (is_Some (tenants (k_db s) !! iv_tenant i)) as [t Ht] by (by apply Hwf in Hi as [? _]).
  destruct (accept_run now db_now r token s iid i t) as (m & Hmr & E); try done.
  unfold respond. rw E. split_and!; [done| |].
  { change (role_of (set_members (<[(iv_tenant i, user_ID r) := m]>) (k_db s)) (iv_tenant i) (user_ID r) = Some (iv_role i)).
    rw role_of_insert. by rw decide_True // Hmr. }
  intros now' db_now' r' Hu'. set (db' := mark_accepted _ _ _ _).
  assert (find_invite db_now' token db' = None) as Hnone.
  { destruct (find_invite db_now' token db') as [[iid' i']|] eqn:Hf'; [|done].
    apply find_invite_spec in Hf' as [Hi' Hop]. unfold open_invite in Hop. rw !andb_true_iff in Hop.
    destruct Hop as [[Htok%String.eqb_eq Hacc] _]. unfold db' in Hi'. cbn in Hi'.
    apply lookup_alter_Some in Hi' as [(<- & i0 & _ & ->)|[Hne Hi']]; [done|].
    exfalso. apply Hne. symmetry. by apply (Huniq iid' i'). }
  unfold TenantInviteAcceptHandler, authenticated. rw user_guard //. rw Hb.
  cbv [mbind K_bind transaction next_outcome query stmt]. cbn. by rw Hnone.
Qed.

(** Nobody is told the token of an invite.  The answer to creating one is
    the same for every token, so the caller cannot pass on what accepting it
    needs. *)
Theorem invite_token_is_not_told now random random' r body s :
  random 0 16 = random' 0 16 → is_val (random 1 32) = true → is_val (random' 1 32) = true →
  (respond (TenantInviteCreateHandler now random r body) s).2
  = (respond (TenantInviteCreateHandler now random' r body) s).2.
Proof.
  intros Hid Ht Ht'. unfold respond, TenantInviteCreateHandler, authenticated. cbv [mbind K_bind mret K_ret].
  destruct (negb (String.eqb (user_ID r) "")); cbn [guard_that]; [|done]. cbv [mret K_ret].
  destruct body as [[email role]|e|e]; [|done..]. destruct (_ && validRole role); cbn [guard_that]; [|done]. cbv [mret K_ret].
  destruct (userIsOwner (X_Tenant_Id r) (user_ID r) s) as [s1 [b|x]]; [|done].
  destruct b; cbn [guard_that]; [|done]. cbv [mret K_ret]. rw -Hid. destruct (newUUID (random 0 16)) as [iid|e|e]; [|done..].
  unfold newToken. destruct (random 1 32) as [b1|e|e], (random' 1 32) as [b2|e'|e']; try done. cbn [mbind gores_bind].
  unfold stmt, mbind, K_bind. destruct (next_outcome s1) as [s2 [[e|]|x]]; [done| |done].
  unfold insert_invite. cbn [iv_tenant]. destruct (tenants _ !! _); [|done]. by destruct (invites _ !! _).
Qed.

(** ** The member routes

    Their handlers read the workspace from a variable the templates do not
    have: it is always empty. *)

Context `{Mux}.

Lemma member_route_no_id rt rs m p vars :
  rs = workspace_routes → mux_match rs m p = Some (rt, vars) → vars !! "id" = None.
Proof.
  intros -> Hm. apply mux_match_route in Hm as (Hin & _ & Hk). apply eq_None_not_Some. rw Hk.
  assert (Forall (λ rt, "id" ∉ path_vars (rt_path rt)) workspace_routes) as Hall.
  { by apply (bool_decide_unpack _). }
  by apply (proj1 (Forall_forall _ _) Hall rt Hin).
Qed.

Lemma no_member_of_empty db v : tenants db !! "" = None → well_formed db → members db !! ("", v) = None.
Proof.
  intros Ht Hwf. apply eq_None_not_Some. intros [m Hm]. apply Hwf in Hm as [[t E] _]. by rw E in Ht.
Qed.

Lemma delete_member_none db id v : members db !! (id, v) = None → remove_member id v db = db.
Proof. destruct db. unfold remove_member, set_members. cbn. intros Hn. by rw delete_id. Qed.

(** The routes that change a member's role or remove a member never do: a
    request that matches one leaves the tables as they were, whatever its
    caller, its body and the failures of the database. *)
Theorem member_routes_change_nothing now db_now random sql_lower c r s rt vars :
  c = WRemove ∨ (∃ body, c = WUpdateRole body) →
  mux_match workspace_routes (Method r) (Path r) = Some (rt, vars) →
  well_formed (k_db s) → tenants (k_db s) !! "" = None →
  k_db (respond (run_ws now db_now random sql_lower c (with_vars vars r)) s).1 = k_db s.
Proof.
  intros Hc Hm Hwf Ht. apply (member_route_no_id _ _ _ _ _ eq_refl) in Hm.
  assert (VarsGet (with_vars vars r) "id" = "") as Hid by (unfold VarsGet; cbn; by rw Hm).
  apply (effect_respond (k_db s) _ (λ db, db = k_db s)); [|done].
  destruct Hc as [->|[body ->]]; cbn [run_ws].
  - unfold MemberRemoveHandler, authenticated. rw Hid. set (v := membershipUserID _ _).
    assert (k_db s = k_db s) as HR by done. do 4 effect_step HR.
    eapply (effect_bind _ _ _ (λ _, True)); [|done|].
    { apply reads_if; intros _; [|by apply reads_ret].
      eapply reads_bind; [apply userRole_reads|]. intros role _. apply reads_if; intros _; [|by apply reads_ret].
      eapply reads_weaken; [apply last_owner_reads|]. done. }
    intros _ _. eapply effect_last; [apply effect_exec; [done|]|intros ?; apply silent_bind; [apply silent_or_answer|intros ?; apply silent_ret]].
    apply delete_member_none. by apply no_member_of_empty.
  - unfold MemberUpdateRoleHandler, authenticated. rw Hid. assert (k_db s = k_db s) as HR by done.
    do 2 effect_step HR. destruct body as [role|e|p]; [|by effect_step HR..]. do 2 effect_step HR.
    eapply effect_bind; [apply reads_guard|done|]. intros [] Hown. cbv beta in Hown.
    match goal with Ho : _ → is_owner _ _ _ |- _ => apply Ho in Hown end. unfold is_owner, role_of in Hown. by rw no_member_of_empty in Hown.
Qed.

Lemma membership_of_no_workspace t u : no_byte ":" t = true → t ≠ "" → membershipUserID (t +:+ ":" +:+ u) "" = "".
Proof.
  intros Ht Hne. unfold membershipUserID, SplitN2. change (":" +:+ u) with (String ":" u). rw Split1_app //.
  apply String.eqb_neq in Hne. destruct (Split u (String ":" "")) as [|b l]; [done|]. by rw Hne.
Qed.

(** On those routes an identified caller who names a membership the way
    the member list does, workspace and user, is told it is invalid. *)
Theorem member_routes_reject_memberships now db_now random sql_lower c r s rt vars t u :
  c = WRemove ∨ (∃ body, c = WUpdateRole body) → user_ID r ≠ "" →
  mux_match workspace_routes (Method r) (Path r) = Some (rt, vars) →
  vars !! "membershipId" = Some (t +:+ ":" +:+ u) → no_byte ":" t = true → t ≠ "" →
  respond (run_ws now db_now random sql_lower c (with_vars vars r)) s
  = (s, writeJSONError StatusBadRequest "invalid membershipId").
Proof.
  intros Hc Hu Hm Hv Ht Hne. apply (member_route_no_id _ _ _ _ _ eq_refl) in Hm.
  assert (VarsGet (with_vars vars r) "id" = "") as Hid by (unfold VarsGet; cbn; by rw Hm).
  assert (VarsGet (with_vars vars r) "membershipId" = t +:+ ":" +:+ u) as Hmid by (unfold VarsGet; cbn; by rw Hv).
  unfold respond. destruct Hc as [->|[body ->]]; cbn [run_ws];
    unfold MemberRemoveHandler, MemberUpdateRoleHandler, authenticated;
    rw Hid Hmid membership_of_no_workspace //; by rw user_guard.
Qed.

Lemma userIsMember_total id v s : ∃ b, (userIsMember id v s).2 = inl b.
Proof.
  unfold userIsMember. destruct (_ || _); [by eexists|]. unfold query, mbind, K_bind.
  destruct (stmt_cases (λ db, Val (db, members db !! (id, v))) s) as [(s' & e & -> & _)|(s' & db & a & -> & _ & _)]; by eexists.
Qed.

(** The workspace routes are for members.  Whatever stands behind the
    membership check, an identified caller who is not a member of the workspace
    named by the edge, or names none, is answered 403 and changes nothing. *)
Theorem membership_required next r s :
  user_ID r ≠ "" → members (k_db s) !! (X_Tenant_Id r, user_ID r) = None →
  let '(s', resp) := respond (RequireWorkspaceMembership next r) s in
  Status resp = StatusForbidden ∧ k_db s' = k_db s.
Proof.
  intros Hu%String.eqb_neq Hm. unfold respond, RequireWorkspaceMembership.
  destruct (String.eqb (X_Tenant_Id r) ""); [done|]. rw Hu. cbv [mbind K_bind]. cbn [negb guard_that]. unfold mret, K_ret.
  destruct (userIsMember_reads (k_db s) (X_Tenant_Id r) (user_ID r) s eq_refl) as [Edb Hb].
  pose proof (userIsMember_total (X_Tenant_Id r) (user_ID r) s) as [b Eb].
  destruct (userIsMember _ _ s) as [s' x]. cbn in *. subst x. destruct b; [|by cbn].
  destruct (Hb eq_refl) as [m E]. by rw E in Hm.
Qed.

(** ** Authorization decisions *)

(** The authorizer never forbids.  A body that decodes is answered 200
    whatever the decision is, unless the query fails, which is answered 503;
    the decision in the body is that the user's first membership of the
    workspace has a role with the permission. *)
Theorem authz_denials_answer_200 sql_lower req s :
  let ws := if String.eqb (az_WorkspaceID req) "" then az_Tenant req else az_WorkspaceID req in
  let email := TrimSpace (ToLower (az_User req)) in
  let role := role_by_email sql_lower ws email (k_db s) in
  let perm := ToLower (az_Permission req) in
  k_outcomes s = [] →
  (respond (AuthzWorkspaceHandler sql_lower (Val req)) s).2
  = writeJSON StatusOK (allowed_object
      (negb (String.eqb ws "") && negb (String.eqb email "")
       && match role with
          | Some role => roleMatchesPermission role (if String.eqb perm "" then "view" else perm)
          | None => false
          end)).
Proof.
  intros ws email role perm Ho. unfold respond, AuthzWorkspaceHandler. fold ws email perm.
  destruct (String.eqb ws ""); [done|]. destruct (String.eqb email ""); [done|]. cbn [orb negb andb].
  unfold mbind, K_bind. rw query_ok //. fold role. by destruct role.
Qed.

(** Each permission includes the lesser ones. *)
Lemma permissions_nested role :
  (roleMatchesPermission role "manage" = true → roleMatchesPermission role "write" = true)
  ∧ (roleMatchesPermission role "write" = true → roleMatchesPermission role "view" = true)
  ∧ (roleMatchesPermission role "view" = validRole role).
Proof.
  unfold roleMatchesPermission, validRole, roleOwner, roleMember, roleViewer. cbn.
  by split_and!; destruct (String.eqb role "owner"), (String.eqb role "member"), (String.eqb role "viewer").
Qed.
End requests.

(** ** Concrete requests *)

#[local] Existing Instance ascii_tables.
#[local] Existing Instance plain_mux.

Definition caller (user email tenant method path : string) : Request :=
  MkRequest method path path ∅
    (<["X-User-Id" := [user]]> (<["X-User-Email" := [email]]> {[ "X-Tenant-Id" := [tenant] ]})) empty_context ∅.

Definition zeros (_ n : nat) : gores (list N) := Val (replicate n 0%N).

(** A workspace owned by alice, with bob to view it and an invite for alice to
    do no more. *)
Definition acme : KDB := MkKDB
  {[ "t1" := MkTenant "acme" "Acme" "alice" (Some 0%Z) None ]}
  (<[("t1", "alice") := MkMember "alice@x.io" "owner" (Some 0%Z)]>
     {[ ("t1", "bob") := MkMember "bob@x.io" "viewer" (Some 1%Z) ]})
  {[ "i1" := MkInvite "t1" "alice@x.io" "viewer" "secret" "alice" 1000 None ]} ∅ [] ∅.

Definition alice (method path : string) : Request := caller "alice" "alice@x.io" "t1" method path.
Definition bob (method path : string) : Request := caller "bob" "bob@x.io" "t1" method path.
Definition fresh_state (db : KDB) : KState := MkK db [] [].

Lemma acme_well_formed : well_formed acme.
Proof.
  split.
  - intros id v m. change (members acme) with (<[("t1", "alice") := MkMember "alice@x.io" "owner" (Some 0%Z)]>
     {[ ("t1", "bob") := MkMember "bob@x.io" "viewer" (Some 1%Z) ]} : gmap (string * string) Member).
    intros [[[= <- <-] <-]|[_ [[= <- <-] <-]%lookup_singleton_Some]]%lookup_insert_Some; split; by eauto.
  - intros iid i. change (invites acme) with ({[ "i1" := MkInvite "t1" "alice@x.io" "viewer" "secret" "alice" 1000 None ]} : gmap string Invite).
    intros [<- <-]%lookup_singleton_Some. split; [by eexists|done].
Qed.

Lemma acme_owner v : is_owner acme "t1" v → v = "alice".
Proof.
  rw -owners_elem. assert (owners acme "t1" = ["alice"]) as -> by (by vm_compute).
  by rw list_elem_of_singleton.
Qed.

Lemma reachable_workspaces_witness :
  let db := k_db (respond (TenantsCreateHandler 0 zeros (alice "POST" "/v1/workspaces") (Val ("Acme", ""))) (fresh_state (MkKDB ∅ ∅ ∅ ∅ [] ∅))).1 in
  well_formed db ∧ size (members db) = 1.
Proof.
  intros db. split; [|by vm_compute].
  apply (reachable_workspaces_well_formed db). eapply rtc_l; [|apply rtc_refl].
  exists 0%Z, 0%Z, zeros, (λ s, s), (WCreate (Val ("Acme", ""))), (alice "POST" "/v1/workspaces"), [], []. reflexivity.
Defined.

Lemma only_owners_witness :
  let r := bob "DELETE" "/v1/workspaces/current" in
  kept_from_others "bob" "bob@x.io" 0 acme
    (k_db (respond (run_ws 0 0 zeros (λ s, s) WDelete r) (fresh_state acme)).1) "t1".
Proof.
  intros r. apply (only_owners_manage 0 0 zeros (λ s, s) WDelete r (fresh_state acme) "t1"); [by eexists|].
  by intros ?%acme_owner.
Defined.

Lemma last_owner_witness :
  let r := with_vars {[ "id" := "t1"; "membershipId" := "t1:alice" ]} (alice "DELETE" "/") in
  owned (k_db (respond (run_ws 2000 2000 zeros (λ s, s) WRemove r) (fresh_state acme)).1) "t1".
Proof.
  intros r. apply (last_owner_survives 2000 2000 zeros (λ s, s) WRemove r (fresh_state acme) "t1"); [done|by exists "alice"| |].
  - intros role (iid & i & Hi & _ & _ & Hexp & _). exfalso.
    change (({[ "i1" := MkInvite "t1" "alice@x.io" "viewer" "secret" "alice" 1000 None ]} : gmap string Invite) !! iid = Some i) in Hi.
    apply lookup_singleton_Some in Hi as [_ <-]. cbn in Hexp. lia.
  - by eexists.
Defined.

Lemma stranded_witness :
  let '(s', resp) := respond (TenantInviteAcceptHandler 0 0 (alice "POST" "/v1/workspaces/invites/accept") (Val "secret")) (fresh_state acme) in
  Status resp = StatusOK ∧ is_Some (tenants (k_db s') !! "t1") ∧ ¬ owned (k_db s') "t1".
Proof.
  apply (accepting_an_invite_strands_the_workspace 0 0 (alice "POST" "/v1/workspaces/invites/accept") "secret" (fresh_state acme) "i1"
    (MkInvite "t1" "alice@x.io" "viewer" "secret" "alice" 1000 None)); try done; [apply acme_well_formed|].
  apply acme_owner.
Defined.

Lemma invite_once_witness :
  let '(s', resp) := respond (TenantInviteAcceptHandler 0 0 (alice "POST" "/v1/workspaces/invites/accept") (Val "secret")) (fresh_state acme) in
  Status resp = StatusOK ∧ role_of (k_db s') "t1" "alice" = Some "viewer" ∧
  ∀ now' db_now' r', user_ID r' ≠ "" →
    respond (TenantInviteAcceptHandler now' db_now' r' (Val "secret")) s'
    = (s', writeJSONError StatusNotFound "invite not found or expired").
Proof.
  apply (invite_accepted_once 0 0 (alice "POST" "/v1/workspaces/invites/accept") "secret" (fresh_state acme) "i1"
    (MkInvite "t1" "alice@x.io" "viewer" "secret" "alice" 1000 None)); try done; [apply acme_well_formed|].
  intros iid' i' Hi _.
  change (({[ "i1" := MkInvite "t1" "alice@x.io" "viewer" "secret" "alice" 1000 None ]} : gmap string Invite) !! iid' = Some i') in Hi.
  by apply lookup_singleton_Some in Hi as [<- _].
Defined.

Lemma member_routes_nothing_witness :
  let r := with_vars {[ "membershipId" := ":alice" ]} (alice "DELETE" "/v1/workspaces/members/:alice") in
  k_db (respond (run_ws 0 0 zeros (λ s, s) WRemove r) (fresh_state acme)).1 = acme
  ∧ Status (respond (run_ws 0 0 zeros (λ s, s) WRemove r) (fresh_state acme)).2 = StatusOK.
Proof.
  split; [|by vm_compute].
  eapply (member_routes_change_nothing 0 0 zeros (λ s, s) WRemove (alice "DELETE" "/v1/workspaces/members/:alice") (fresh_state acme));
    [by left|reflexivity|apply acme_well_formed|done].
Defined.

Lemma member_routes_reject_witness :
  respond (run_ws 0 0 zeros (λ s, s) WRemove
    (with_vars {[ "membershipId" := "t1:bob" ]} (alice "DELETE" "/v1/workspaces/members/t1:bob"))) (fresh_state acme)
  = (fresh_state acme, writeJSONError StatusBadRequest "invalid membershipId").
Proof.
  eapply (member_routes_reject_memberships 0 0 zeros (λ s, s) WRemove (alice "DELETE" "/v1/workspaces/members/t1:bob")
    (fresh_state acme) _ {[ "membershipId" := "t1:bob" ]} "t1" "bob"); [by left|done|reflexivity|done..].
Defined.

Lemma invite_token_witness :
  let r := alice "POST" "/v1/workspaces/invites" in
  let ones (i n : nat) := Val (replicate n (if Nat.eqb i 0 then 0 else 1)%N) in
  (respond (TenantInviteCreateHandler 0 zeros r (Val ("eve@x.io", "viewer"))) (fresh_state acme)).2
  = (respond (TenantInviteCreateHandler 0 ones r (Val ("eve@x.io", "viewer"))) (fresh_state acme)).2.
Proof. intros r ones. by apply (invite_token_is_not_told 0 zeros ones r (Val ("eve@x.io", "viewer")) (fresh_state acme)). Defined.

Lemma membership_required_witness :
  let r := caller "carol" "carol@x.io" "t1" "GET" "/v1/workspaces/members" in
  let '(s', resp) := respond (RequireWorkspaceMembership TenantMembersHandler r) (fresh_state acme) in
  Status resp = StatusForbidden ∧ k_db s' = acme.
Proof. intros r. by apply (membership_required TenantMembersHandler r (fresh_state acme)). Defined.

Lemma authz_witness :
  (respond (AuthzWorkspaceHandler (λ s, s) (Val (MkAuthz "Bob@x.io" "t1" "" "manage"))) (fresh_state acme)).2
  = writeJSON StatusOK (allowed_object false).
Proof.
  etransitivity; [by apply (authz_denials_answer_200 (λ s, s) (MkAuthz "Bob@x.io" "t1" "" "manage") (fresh_state acme))|].
  by vm_compute.
Defined.

(** ** Names and identifiers *)

Definition slug_byte (c : ascii) : bool := slug_rune (bval c) || Ascii.eqb c "-".

Lemma slug_loop_bytes rs out dash :
  string_forall slug_byte out = true → string_forall slug_byte (slug_loop rs out dash) = true.
Proof.
  revert out dash; induction rs as [|r rs IH]; intros out dash Ho; cbn [slug_loop]; [done|].
  destruct (slug_rune r) eqn:Er.
  - apply IH. rw string_forall_app Ho. unfold byte_str. cbn. unfold slug_byte.
    unfold bval. rw N_ascii_embedding; [|by rw Er].
    unfold slug_rune, is_lower_ascii, is_digit_ascii, between in Er. rw orb_true_iff !andb_true_iff !N.leb_le in Er. lia.
  - destruct (_ && _); apply IH; [|done]. by rw string_forall_app Ho.
Qed.

Lemma TrimRightByte_forall p s c : string_forall p s = true → string_forall p (TrimRightByte s c) = true.
Proof.
  induction s as [|d s IH]; [done|]. cbn. intros [Hd Hs]%andb_true_iff. specialize (IH Hs).
  destruct (TrimRightByte s c) eqn:E; [destruct (Ascii.eqb d c); cbn; by rw ?Hd|]. cbn in *. by rw Hd IH.
Qed.

Lemma take_bytes_forall p n s : string_forall p s = true → string_forall p (take_bytes n s) = true.
Proof.
  rw -{1}(take_drop_bytes n s) string_forall_app. by intros [? _]%andb_true_iff.
Qed.

Lemma slen_take n s : slen (take_bytes n s) = Nat.min n (slen s).
Proof. revert s; induction n as [|n IH]; intros [|c s]; cbn; [done..|by rw IH]. Qed.

(** A slug made from a name is between 1 and 32 bytes long, all of them
    lower-case letters, digits and dashes. *)
Theorem slugify_shape name :
  1 ≤ slen (slugify name) ≤ 32 ∧ string_forall slug_byte (slugify name) = true.
Proof.
  unfold slugify. set (out := TrimRightByte _ _).
  assert (string_forall slug_byte out = true) as Hout by (by apply TrimRightByte_forall, slug_loop_bytes).
  set (cut := if Nat.ltb 32 (slen out) then take_bytes 32 out else out).
  assert (slen cut ≤ 32 ∧ string_forall slug_byte cut = true) as [Hlen Hcut].
  { unfold cut. destruct (Nat.ltb_spec 32 (slen out)); split; [|by apply take_bytes_forall|lia|done].
    rw slen_take. lia. }
  destruct (String.eqb_spec cut "") as [E|E]; [by vm_compute; split; [lia|]|].
  split; [|done]. split; [|done]. destruct cut; [done|cbn; lia].
Qed.

(** The text of a version 4 UUID: its dashes, version and variant in place, and
    hexadecimal digits elsewhere. *)
Definition uuid_char (i : nat) (c : ascii) : bool :=
  if existsb (Nat.eqb i) [8; 13; 18; 23] then Ascii.eqb c "-"
  else if Nat.eqb i 14 then Ascii.eqb c "4"
  else if Nat.eqb i 19 then existsb (Ascii.eqb c) ["8"; "9"; "a"; "b"]%char
  else hex_byte c.
Fixpoint uuid_from (i : nat) (s : string) : bool :=
  match s with "" => Nat.eqb i 36 | String c s => uuid_char i c && uuid_from (S i) s end.
Definition uuid_v4 (s : string) : bool := uuid_from 0 s.

Definition hex_pair (ok : ascii → bool) (s : string) : Prop :=
  ∃ a b, s = String a (String b "") ∧ ok a = true ∧ hex_byte a = true ∧ hex_byte b = true.

(** A property of the 256 bytes, by computation. *)
Lemma byte_cases (P : N → bool) : forallb P (N.of_nat <$> seq 0 256) = true → ∀ x, (x < 256)%N → P x = true.
Proof.
  intros Hall x Hx. rw forallb_forall in Hall. apply Hall. apply list_elem_of_In, list_elem_of_fmap.
  exists (N.to_nat x). rw elem_of_seq. lia.
Qed.

Definition hex_pairb (ok : ascii → bool) (s : string) : bool :=
  match s with String a (String b "") => ok a && (hex_byte a && hex_byte b) | _ => false end.

Lemma hex_pairb_true ok s : hex_pairb ok s = true → hex_pair ok s.
Proof.
  destruct s as [|a [|b []]]; try done. cbn. rw !andb_true_iff. intros (? & ? & ?). by exists a, b.
Qed.

Lemma hex_byte_pair x : (x < 256)%N → hex_pair (λ _, true) (hex_digits 2 x).
Proof. intros Hx. apply hex_pairb_true. revert x Hx. by apply byte_cases; vm_compute. Qed.

Lemma hex_version x : (x < 256)%N → hex_pair (λ a, Ascii.eqb a "4") (hex_digits 2 (N.lor (N.land x 15) 64)).
Proof. intros Hx. apply hex_pairb_true. revert x Hx. by apply byte_cases; vm_compute. Qed.

Lemma hex_variant x : (x < 256)%N →
  hex_pair (λ a, existsb (Ascii.eqb a) ["8"; "9"; "a"; "b"]%char) (hex_digits 2 (N.lor (N.land x 63) 128)).
Proof. intros Hx. apply hex_pairb_true. revert x Hx. by apply byte_cases; vm_compute. Qed.

(** From 16 random bytes [newUUID] makes the text of a version 4 UUID. *)
Theorem newUUID_is_v4 b :
  length b = 16 → Forall (λ x, (x < 256)%N) b → ∃ s, newUUID (Val b) = Val s ∧ uuid_v4 s = true.
Proof.
  intros Hlen Hb. eexists. split; [reflexivity|].
  do 16 (destruct b as [|? b]; [done|]). destruct b; [|done].
  repeat match goal with Hx : Forall _ (_ :: _) |- _ => apply Forall_cons in Hx as [? Hx] end.
  cbn [alter list_alter]. unfold hex_encode. cbn [fmap list_fmap].
  repeat match goal with
  | Hx : (?x < 256)%N |- context [hex_digits 2 (N.lor (N.land ?x 15) 64)] =>
      destruct (hex_version x Hx) as (? & ? & -> & ? & ? & ?); clear Hx
  | Hx : (?x < 256)%N |- context [hex_digits 2 (N.lor (N.land ?x 63) 128)] =>
      destruct (hex_variant x Hx) as (? & ? & -> & ? & ? & ?); clear Hx
  | Hx : (?x < 256)%N |- context [hex_digits 2 ?x] =>
      destruct (hex_byte_pair x Hx) as (? & ? & -> & _ & ? & ?); clear Hx
  end.
  unfold uuid_v4. cbn -[hex_byte Ascii.eqb]. unfold uuid_char. cbn -[hex_byte Ascii.eqb existsb].
  cbn [existsb Nat.eqb orb] in *.
  repeat match goal with Hx : ?a = true |- context [?a] => rw Hx end. reflexivity.
Qed.

Lemma newUUID_witness : ∃ s, newUUID (zeros 0 16) = Val s ∧ uuid_v4 s = true.
Proof. by apply (newUUID_is_v4 (replicate 16 0%N)); [|repeat constructor]. Defined.
