(* ===== verification/Schedules.v ===== *)
(** * Scheduled runs: controllers/scheduled_runs.go

    Listing, creating and deleting the schedules of a user in a workspace, and
    the history of their executions.  The decoded body of a request is an
    argument.  Reading a cron expression is github.com/robfig/cron: a function
    from the expression to the next run after an instant.  What PostgreSQL takes
    for a text and for a [timestamptz] is the class [Postgres]. *)

From S2P Require Import Prelude GoStrings GoStd GoTime Http Json Kawai Workspaces.

(** Every byte of the string is part of a rune. *)
Definition utf8_valid (s : string) : bool :=
  forallb (λ rb, negb ((rb.1 =? RuneError)%N && Nat.eqb (slen rb.2) 1)) (rune_segs s).

(** The server's encoding is UTF-8: a text that is not is refused. *)
Class Postgres := {
  pg_text : string → bool;
  pg_text_utf8 : ∀ s, pg_text s = true → utf8_valid s = true;
  pg_timestamptz : string → option Z
}.

Record createScheduleReq := MkCreateSchedule {
  cs_Name : string; cs_Goal : string; cs_Kind : string;
  cs_Expression : option string; cs_TriggerAt : option string;
  cs_AgentID : option string; cs_Model : option string
}.

Section handlers.
Context `{UnicodeTables} `{TableScan} `{Postgres}.
Variable now : Z.
Variable random : nat → nat → gores (list N).
Variable cron_ParseStandard : string → option (Z → Z).

(** A result, or the error with a prefix. *)
Definition or_fail {A} (prefix : string) (x : A + error) : K A :=
  match x with inl a => mret a | inr e => answer (writeJSONError StatusInternalServerError (prefix +:+ e)) end.

Definition with_user_id (r : Request) : K unit :=
  guard_that (negb (String.eqb (user_ID r) "")) (writeJSONError StatusUnauthorized "missing user").
Definition with_workspace (r : Request) : K unit :=
  guard_that (negb (String.eqb (X_Tenant_Id r) "")) (writeJSONError StatusBadRequest "workspace id required").

(** ** Rows *)

Definition time_field (name : string) (t : option Z) : option (string * string) :=
  pointer_omitempty name (RFC3339 <$> t).
Definition int_field (name : string) (n : option Z) : option (string * string) := v ← n; field name (Itoa v).

(** The next run is printed with the offset it was read with. *)
Definition scheduleRow (id : string) (s : Schedule) (trigger next : option string) : string :=
  json_struct [string_field "id" id; string_field "userId" (sc_user s); string_field "workspaceId" (sc_workspace s);
    string_field "name" (sc_name s); string_field "kind" (sc_kind s);
    pointer_omitempty "expression" (sc_expression s); pointer_omitempty "triggerAt" trigger;
    pointer_omitempty "agentId" (sc_agent s); string_field "goal" (sc_goal s); pointer_omitempty "model" (sc_model s);
    field "enabled" (if sc_enabled s then "true" else "false"); pointer_omitempty "nextRunAt" next;
    time_field "lastRunAt" (sc_last s); field "totalRuns" (Itoa (sc_total s));
    string_field "createdAt" (format_time (sc_created s))].

Definition executionRow (e : Execution) : list (option (string * string)) :=
  [string_field "id" (ex_id e); string_field "scheduleId" (ex_schedule e); string_field "status" (ex_status e);
   time_field "startedAt" (ex_started e); time_field "finishedAt" (ex_finished e);
   int_field "durationMs" (ex_duration e); pointer_omitempty "output" (ex_output e);
   pointer_omitempty "error" (ex_error e); string_field "createdAt" (format_time (ex_created e))].

(** ** List *)

(** The schedules of the user in the workspace, the newest first. *)
Definition schedules_of (ws u : string) (db : KDB) : list (string * Schedule) :=
  order_by (λ a b, time_leb (sc_created b.2) (sc_created a.2))
    (filter (λ kv, sc_workspace kv.2 = ws ∧ sc_user kv.2 = u) (table_scan (scheduled_runs db))).

Definition SchedulesListHandler (r : Request) : K Response :=
  with_user_id r ≫= λ _,
  with_workspace r ≫= λ _,
  rows ← query_rows (schedules_of (X_Tenant_Id r) (user_ID r));
  out ← or_fail "query: " rows;
  mret (writeJSON StatusOK (rows_object
    ((λ '(id, s), scheduleRow id s (RFC3339 <$> sc_trigger s) (RFC3339 <$> sc_next s)) <$> out))).

(** ** Create *)

Definition insert_schedule (id : string) (s : Schedule) (trigger : option string) (db : KDB) : gores (KDB * unit) :=
  let texts := [id; sc_user s; sc_workspace s; sc_name s; sc_kind s; sc_goal s]
               ++ omap (λ x, x) [sc_expression s; sc_agent s; sc_model s] in
  if negb (forallb pg_text texts) then Err "invalid byte sequence for encoding UTF8"
  else
    match trigger, t ← trigger; pg_timestamptz t with
    | Some _, None => Err "invalid input syntax for type timestamp with time zone"
    | _, trigger_at =>
        match scheduled_runs db !! id with
        | Some _ => Err duplicate_key
        | None =>
            let s := MkSchedule (sc_user s) (sc_workspace s) (sc_name s) (sc_kind s) (sc_expression s) trigger_at
                       (sc_agent s) (sc_goal s) (sc_model s) (sc_enabled s) (sc_next s) (sc_last s) (sc_total s)
                       (sc_created s) in
            Val (set_schedules <[id := s]> (λ e, e) db, tt)
        end
    end.

(** A field that is absent or blank. *)
Definition missing (s : option string) : bool := match s with None => true | Some s => blank s end.

(** The first run, with the offset its time is printed with. *)
Definition nextRunAt (req : createScheduleReq) : option (Z * Z) :=
  if String.eqb (cs_Kind req) "once" then t ← cs_TriggerAt req; parse_RFC3339 t
  else if String.eqb (cs_Kind req) "cron" then
    e ← cs_Expression req; next ← cron_ParseStandard e; Some (next now, 0%Z)
  else None.

(** The name, or the beginning of the goal. *)
Definition schedule_name (req : createScheduleReq) : string :=
  let name := TrimSpace (cs_Name req) in let goal := TrimSpace (cs_Goal req) in
  if String.eqb name "" then if Nat.ltb 60 (slen goal) then take_bytes 60 goal else goal else name.

Definition SchedulesCreateHandler (r : Request) (body : gores createScheduleReq) : K Response :=
  with_user_id r ≫= λ _,
  with_workspace r ≫= λ _,
  match body with
  | Val req =>
      let bad msg b := guard_that (negb b) (writeJSONError StatusBadRequest msg) in
      let goal := TrimSpace (cs_Goal req) in
      let name := schedule_name req in
      let kind := cs_Kind req in
      bad "goal required" (String.eqb goal "") ≫= λ _,
      bad "kind must be 'cron' or 'once'" (negb (String.eqb kind "cron" || String.eqb kind "once")) ≫= λ _,
      bad "expression required for cron" (String.eqb kind "cron" && missing (cs_Expression req)) ≫= λ _,
      bad "triggerAt required for once" (String.eqb kind "once" && missing (cs_TriggerAt req)) ≫= λ _,
      match newUUID (random 0 16) with
      | Val id =>
          let s := MkSchedule (user_ID r) (X_Tenant_Id r) name kind (cs_Expression req) None (cs_AgentID req) goal
                     (cs_Model req) true (fst <$> nextRunAt req) None 0 (Some now) in
          res ← stmt (insert_schedule id s (cs_TriggerAt req));
          or_fail "insert: " res ≫= λ _,
          mret (writeJSON StatusCreated
            (scheduleRow id s (cs_TriggerAt req) ((λ '(t, offset), format_in t offset) <$> nextRunAt req)))
      | Err e | Panic e => answer (writeJSONError StatusInternalServerError ("uuid: " +:+ e))
      end
  | Err e | Panic e => answer (writeJSONError StatusBadRequest ("bad json: " +:+ e))
  end.

(** ** One schedule *)

(** The caller's schedule named in the path. *)
Definition own_schedule (r : Request) : K string :=
  with_user_id r ≫= λ _,
  let ws := X_Tenant_Id r in
  let schedID := VarsGet r "schedId" in
  guard_that (negb (String.eqb ws "" || String.eqb schedID ""))
    (writeJSONError StatusBadRequest "workspace id and schedule id required") ≫= λ _,
  row ← query (λ db, s ← scheduled_runs db !! schedID; if String.eqb (sc_workspace s) ws then Some (sc_user s) else None);
  match row with
  | inl (Some ownerID) =>
      guard_that (String.eqb ownerID (user_ID r)) (writeJSONError StatusForbidden "not your schedule") ≫= λ _,
      mret schedID
  | _ => answer (writeJSONError StatusNotFound "schedule not found")
  end.

(** [DELETE FROM scheduled_runs WHERE id = $1], and the rows affected. *)
Definition delete_schedule (id : string) (db : KDB) : gores (KDB * nat) :=
  match scheduled_runs db !! id with
  | None => Val (db, 0)
  | Some _ => Val (drop_schedules (λ k _, String.eqb k id) db, 1)
  end.

Definition SchedulesDeleteHandler (r : Request) : K Response :=
  schedID ← own_schedule r;
  res ← stmt (delete_schedule schedID);
  n ← or_fail "delete: " res;
  guard_that (negb (Nat.eqb n 0)) (writeJSONError StatusNotFound "schedule not found") ≫= λ _,
  mret (writeJSON StatusOK (json_object [("id", json_string schedID); ("deleted", "true")])).

Definition newest_first (l : list Execution) : list Execution :=
  order_by (λ a b, time_leb (ex_created b) (ex_created a)) l.

Definition executions_of (schedID : string) (db : KDB) : list Execution :=
  take 100 (newest_first (filter (λ e, ex_schedule e = schedID) (executions db))).

Definition SchedulesRunsHandler (r : Request) : K Response :=
  schedID ← own_schedule r;
  rows ← query_rows (executions_of schedID);
  out ← or_fail "query: " rows;
  mret (writeJSON StatusOK (rows_object ((λ e, json_struct (executionRow e)) <$> out))).

(** ** Every execution *)

(** The executions of the user's schedules in the workspace, each with its
    schedule. *)
Definition all_executions (ws u : string) (db : KDB) : list (Execution * Schedule) :=
  take 200 (order_by (λ a b, time_leb (ex_created b.1) (ex_created a.1))
    (omap (λ e, s ← scheduled_runs db !! ex_schedule e;
                if String.eqb (sc_workspace s) ws && String.eqb (sc_user s) u then Some (e, s) else None)
          (executions db))).

Definition ScheduledRunsAllExecutionsHandler (r : Request) : K Response :=
  with_user_id r ≫= λ _,
  with_workspace r ≫= λ _,
  rows ← query_rows (all_executions (X_Tenant_Id r) (user_ID r));
  out ← or_fail "query: " rows;
  mret (writeJSON StatusOK (rows_object ((λ '(e, s),
    json_struct (executionRow e ++ [string_field "name" (sc_name s); pointer_omitempty "agentId" (sc_agent s);
                                    string_field "goal" (sc_goal s)])) <$> out))).
End handlers.
