(* ===== verification/SchedulesSpec.v ===== *)
(** * What the schedule endpoints guarantee

    As for the workspaces, the handlers refine a step relation: a request adds a
    schedule of its caller in the named workspace, drops one, or changes
    nothing.  The listings are the caller's rows, newest first. *)

From S2P Require Import Prelude GoStrings GoStd GoTime Http Json Kawai KawaiSpec Workspaces Schedules.

(** ** Ordering *)

Section order_by.
Context {A : Type} (leb : A → A → bool).
Hypothesis total : ∀ a b, leb a b = false → leb b a = true.
Hypothesis trans : ∀ a b c, leb a b = true → leb b c = true → leb a c = true.

Lemma insert_by_perm x l : insert_by leb x l ≡ₚ x :: l.
Proof.
  induction l as [|y l IH]; [done|]. cbn. destruct (leb x y); [done|]. rw IH. apply Permutation_swap.
Qed.

Lemma order_by_perm l : order_by leb l ≡ₚ l.
Proof. induction l as [|x l IH]; [done|].
  change (insert_by leb x (order_by leb l) ≡ₚ x :: l). by rw insert_by_perm IH.
Qed.

Lemma insert_by_sorted x l : StronglySorted (λ a b, leb a b = true) l → StronglySorted (λ a b, leb a b = true) (insert_by leb x l).
Proof.
  induction 1 as [|y l Hs IH Hy]; cbn; [by repeat constructor|]. destruct (leb x y) eqn:E.
  - constructor; [by constructor|]. constructor; [done|]. eapply Forall_impl; [exact Hy|]. intros z. by apply trans.
  - constructor; [done|]. rw insert_by_perm. constructor; [by apply total|done].
Qed.

Lemma order_by_sorted l : StronglySorted (λ a b, leb a b = true) (order_by leb l).
Proof. induction l as [|x l IH]; [constructor|]. by apply insert_by_sorted. Qed.

Lemma StronglySorted_take n (l : list A) (R : A → A → Prop) : StronglySorted R l → StronglySorted R (take n l).
Proof.
  intros Hs; revert n; induction Hs as [|x l Hs IH Hx]; intros [|n]; try constructor; [apply IH|].
  by apply Forall_take.
Qed.

(** What a limit leaves out comes after what it keeps. *)
Lemma StronglySorted_limit n (l : list A) (R : A → A → Prop) a b :
  StronglySorted R l → a ∈ take n l → b ∈ drop n l → R a b.
Proof.
  intros Hs; revert n; induction Hs as [|x l Hs IH Hx]; intros [|n] Ha Hb; cbn in *; try by apply elem_of_nil in Ha.
  apply elem_of_cons in Ha as [->|Ha]; [|by apply IH with n].
  rw Forall_forall in Hx. apply Hx. rw -(take_drop n l). apply elem_of_app. by right.
Qed.
End order_by.

Lemma time_leb_total a b : time_leb a b = false → time_leb b a = true.
Proof. destruct a, b; cbn; try done. rw Z.leb_gt Z.leb_le. lia. Qed.

Lemma time_leb_trans a b c : time_leb a b = true → time_leb b c = true → time_leb a c = true.
Proof. destruct a, b, c; cbn; try done. rw !Z.leb_le. lia. Qed.

(** Sorted by a time, the newest first. *)
Definition newest {A} (created : A → option Z) (l : list A) : Prop :=
  StronglySorted (λ a b, time_leb (created b) (created a) = true) l.

Lemma order_by_newest {A} (created : A → option Z) l :
  newest created (order_by (λ a b, time_leb (created b) (created a)) l).
Proof.
  apply order_by_sorted; [intros a b; apply time_leb_total|]. intros a b c Hab Hbc. by eapply time_leb_trans.
Qed.

(** [ORDER BY created DESC LIMIT n]: the newest first, and what is left out is
    no newer than what is shown. *)
Record latest {A} (n : nat) (created : A → option Z) (l rows : list A) : Prop := {
  lt_length : length rows ≤ n;
  lt_newest : newest created rows;
  lt_sound : rows ⊆+ l;
  lt_complete : ∀ a, a ∈ l → a ∈ rows ∨ length rows = n ∧ ∀ b, b ∈ rows → time_leb (created a) (created b) = true
}.

Lemma latest_take {A} n (created : A → option Z) l :
  latest n created l (take n (order_by (λ a b, time_leb (created b) (created a)) l)).
Proof.
  set (o := order_by _ l). pose proof (order_by_newest created l) as Hs. fold o in Hs.
  assert (∀ a, a ∈ o ↔ a ∈ l) as Hin by (intros a; unfold o; by rw order_by_perm).
  split.
  - rw length_take. lia.
  - by apply StronglySorted_take.
  - trans o; [apply sublist_submseteq, sublist_take|]. unfold o. by rw order_by_perm.
  - intros a Ha%Hin. rw -(take_drop n o) in Ha. apply elem_of_app in Ha as [Ha|Ha]; [by left|right].
    split; [|intros b Hb; exact (StronglySorted_limit n o _ b a Hs Hb Ha)].
    rw length_take. destruct (decide (n ≤ length o)); [lia|]. rw drop_ge in Ha; [lia|]. by apply elem_of_nil in Ha.
Qed.

(** ** The abstract specification *)

Inductive sched_step (u ws : string) (db : KDB) : KDB → Prop :=
| sched_add id s :
    scheduled_runs db !! id = None → sc_user s = u → sc_workspace s = ws → utf8_valid (sc_name s) = true →
    sched_step u ws db (set_schedules <[id := s]> (λ e, e) db)
| sched_drop id s :
    scheduled_runs db !! id = Some s → sc_user s = u → sc_workspace s = ws →
    sched_step u ws db (drop_schedules (λ k _, String.eqb k id) db).

Inductive sched_call :=
| SList | SCreate (body : gores createScheduleReq) | SDelete | SRuns | SAllRuns.

Section refinement.
Context `{UnicodeTables} `{TableScan} `{Postgres}.
Variable now : Z.
Variable random : nat → nat → gores (list N).
Variable cron : string → option (Z → Z).

Definition run_sched (c : sched_call) (r : Request) : K Response :=
  match c with
  | SList => SchedulesListHandler r
  | SCreate b => SchedulesCreateHandler now random cron r b
  | SDelete => SchedulesDeleteHandler r
  | SRuns => SchedulesRunsHandler r
  | SAllRuns => ScheduledRunsAllExecutionsHandler r
  end.

Definition sched_allowed (r : Request) (db db' : KDB) : Prop :=
  db' = db ∨ sched_step (user_ID r) (X_Tenant_Id r) db db'.

Lemma reads_or_fail {A} db prefix (x : A + error) : reads db (or_fail prefix x) (λ a, x = inl a).
Proof. by destruct x; intros s Hs. Qed.
Lemma silent_or_fail {A} prefix (x : A + error) : silent (or_fail prefix x).
Proof. by destruct x; intros s. Qed.

(** The schedule of the path is the caller's. *)
Lemma own_schedule_reads r db :
  reads db (own_schedule r) (λ id, ∃ s, scheduled_runs db !! id = Some s ∧ sc_user s = user_ID r
    ∧ sc_workspace s = X_Tenant_Id r ∧ id = VarsGet r "schedId").
Proof.
  unfold own_schedule, with_user_id. set (id := VarsGet r "schedId").
  eapply reads_bind; [apply reads_guard|]. intros _ _. eapply reads_bind; [apply reads_guard|]. intros _ _.
  eapply reads_bind; [apply reads_query|]. intros [[owner|]|e] Hrow; try apply reads_answer. cbn in Hrow.
  destruct (scheduled_runs db !! id) as [s|] eqn:Es; [|done]. cbn in Hrow.
  destruct (String.eqb_spec (sc_workspace s) (X_Tenant_Id r)) as [Hws|]; [|done]. injection Hrow as ->.
  eapply reads_bind; [apply reads_guard|]. intros [] Ho%String.eqb_eq. apply reads_ret. eauto 10.
Qed.

Lemma insert_schedule_step id s trigger db db' x :
  insert_schedule id s trigger db = Val (db', x) → sched_step (sc_user s) (sc_workspace s) db db'.
Proof.
  unfold insert_schedule. destruct (forallb pg_text _) eqn:Ht; [|done].
  assert (utf8_valid (sc_name s) = true) as Hn.
  { apply pg_text_utf8. rw forallb_forall in Ht. apply Ht, list_elem_of_In. set_solver. }
  destruct trigger as [t|]; cbn.
  - destruct (pg_timestamptz t); [|done]. destruct (scheduled_runs db !! id) eqn:E; [done|].
    intros [<- _]%Val_pair_inj. by apply sched_add.
  - destruct (scheduled_runs db !! id) eqn:E; [done|]. intros [<- _]%Val_pair_inj. by apply sched_add.
Qed.

Lemma create_sched_refines r b db : effect db (SchedulesCreateHandler now random cron r b) (sched_allowed r db).
Proof.
  assert (sched_allowed r db db) as HR by (by left).
  unfold SchedulesCreateHandler, with_user_id, with_workspace. do 2 effect_step HR.
  destruct b as [req|e|p]; [|by effect_step HR..]. cbv zeta. do 4 effect_step HR.
  destruct (newUUID _) as [id|e|p]; [|by effect_step HR..].
  eapply effect_last; [apply effect_stmt; [done|]|intros ?; apply silent_bind; [apply silent_or_fail|intros ?; apply silent_ret]].
  intros db' x Hi%insert_schedule_step. by right.
Qed.

Lemma delete_sched_refines r db : effect db (SchedulesDeleteHandler r) (sched_allowed r db).
Proof.
  assert (sched_allowed r db db) as HR by (by left).
  unfold SchedulesDeleteHandler. eapply effect_bind; [apply own_schedule_reads|done|]. intros id (s & Hs & Hu & Hw & _).
  eapply effect_last; [apply effect_stmt; [done|]|intros ?; apply silent_bind; [apply silent_or_fail|by finish]].
  intros db' n. unfold delete_schedule. rw Hs. intros [= <- _]. right. by eapply sched_drop.
Qed.

Lemma run_sched_allowed c r s : sched_allowed r (k_db s) (k_db (respond (run_sched c r) s).1).
Proof.
  assert (sched_allowed r (k_db s) (k_db s)) as HR by (by left).
  apply (effect_respond (k_db s)); [|done].
  destruct c as [|b| | |]; cbn [run_sched]; [|apply create_sched_refines|apply delete_sched_refines| |];
    unfold SchedulesListHandler, ScheduledRunsAllExecutionsHandler, SchedulesRunsHandler, with_user_id, with_workspace.
  1, 3: do 2 effect_step HR; eapply effect_bind; [apply reads_query_rows|done|]; intros x _;
    eapply effect_bind; [apply reads_or_fail|done|]; intros out _; effect_step HR.
  eapply effect_bind; [apply own_schedule_reads|done|]. intros id _.
  eapply effect_bind; [apply reads_query_rows|done|]; intros x _;
    eapply effect_bind; [apply reads_or_fail|done|]; intros out _; effect_step HR.
Qed.
End refinement.

(** ** Listings *)

Section listings.
Context `{UnicodeTables} `{TableScan} `{Postgres}.

(** The rows of a listing, in the order it shows them. *)
Lemma schedules_of_elem ws u db id s :
  (id, s) ∈ schedules_of ws u db ↔ scheduled_runs db !! id = Some s ∧ sc_workspace s = ws ∧ sc_user s = u.
Proof.
  unfold schedules_of. rw order_by_perm list_elem_of_filter table_scan_perm elem_of_map_to_list. cbn. tauto.
Qed.

Lemma query_answer {A} (f : KDB → list A) (k : list A → Response) s : k_outcomes s = [] →
  respond (rows ← query_rows f; out ← or_fail "query: " rows; mret (k out)) s = (s, k (f (k_db s))).
Proof. intros Ho. unfold respond, mbind, K_bind. by rw query_rows_ok. Qed.

Lemma identified_guards (r : Request) (m : K Response) s :
  user_ID r ≠ "" → X_Tenant_Id r ≠ "" →
  respond (with_user_id r ≫= λ _, with_workspace r ≫= λ _, m) s = respond m s.
Proof. intros Hu%String.eqb_neq Hw%String.eqb_neq. unfold with_user_id, with_workspace. by rw Hu Hw. Qed.

Lemma listed_rows r s :
  user_ID r ≠ "" → X_Tenant_Id r ≠ "" → k_outcomes s = [] →
  ∃ rows,
    respond (SchedulesListHandler r) s
    = (s, writeJSON StatusOK (rows_object
        ((λ '(id, sc), scheduleRow id sc (RFC3339 <$> sc_trigger sc) (RFC3339 <$> sc_next sc)) <$> rows)))
    ∧ newest (λ kv, sc_created kv.2) rows ∧ NoDup rows.*1
    ∧ ∀ id sc, (id, sc) ∈ rows ↔
        scheduled_runs (k_db s) !! id = Some sc ∧ sc_workspace sc = X_Tenant_Id r ∧ sc_user sc = user_ID r.
Proof.
  intros Hu Hw Ho. exists (schedules_of (X_Tenant_Id r) (user_ID r) (k_db s)). split_and!.
  - unfold SchedulesListHandler. by rw identified_guards // query_answer.
  - apply order_by_newest.
  - unfold schedules_of. rw order_by_perm. apply NoDup_fmap_fst.
    + intros k v1 v2 [_ Hx]%list_elem_of_filter [_ Hy]%list_elem_of_filter.
      rw table_scan_perm elem_of_map_to_list in Hx. rw table_scan_perm elem_of_map_to_list in Hy.
      cbn in *. rw Hx in Hy. by injection Hy.
    + apply NoDup_filter. rw table_scan_perm. apply NoDup_map_to_list.
  - intros id sc. apply schedules_of_elem.
Qed.

(** The list of schedules is the caller's schedules in the workspace, each
    once, the newest first. *)
Theorem schedules_listed_newest_first r s :
  user_ID r ≠ "" → X_Tenant_Id r ≠ "" → k_outcomes s = [] →
  ∃ rows,
    respond (SchedulesListHandler r) s
    = (s, writeJSON StatusOK (rows_object
        ((λ '(id, sc), scheduleRow id sc (RFC3339 <$> sc_trigger sc) (RFC3339 <$> sc_next sc)) <$> rows)))
    ∧ newest (λ kv, sc_created kv.2) rows ∧ NoDup rows.*1
    ∧ ∀ id sc, (id, sc) ∈ rows ↔
        scheduled_runs (k_db s) !! id = Some sc ∧ sc_workspace sc = X_Tenant_Id r ∧ sc_user sc = user_ID r.
Proof. apply listed_rows. Qed.

End listings.

(** ** Theorems *)

Section theorems.
Context `{UnicodeTables} `{TableScan} `{Postgres}.
Variable now : Z.
Variable random : nat → nat → gores (list N).
Variable cron : string → option (Z → Z).

Lemma drop_schedules_lookup gone db id s :
  scheduled_runs (drop_schedules gone db) !! id = Some s ↔ scheduled_runs db !! id = Some s ∧ gone id s = false.
Proof.
  unfold drop_schedules. cbn. rw map_lookup_filter_Some Is_true_true. cbn. by rw negb_true_iff.
Qed.

Lemma drop_schedules_executions gone db e :
  e ∈ executions (drop_schedules gone db) ↔
  e ∈ executions db ∧ is_Some (scheduled_runs (drop_schedules gone db) !! ex_schedule e).
Proof. unfold drop_schedules. cbn. rw list_elem_of_filter. by split; intros []. Qed.

(** C8: The schedules of others are safe.  Whatever a caller requests of the
    schedule endpoints, a schedule of another user or of another workspace stays
    as it is, with its executions, in order; every schedule that appears is the
    caller's, in the workspace of the request, with a name that is valid UTF-8;
    and no table but the schedules and their executions changes. *)
Theorem schedules_stay_with_their_owner c r s :
  let db := k_db s in let db' := k_db (respond (run_sched now random cron c r) s).1 in
  (∀ id sc, scheduled_runs db !! id = Some sc → sc_user sc ≠ user_ID r ∨ sc_workspace sc ≠ X_Tenant_Id r →
     scheduled_runs db' !! id = Some sc
     ∧ filter (λ e, ex_schedule e = id) (executions db') = filter (λ e, ex_schedule e = id) (executions db))
  ∧ (∀ id sc, scheduled_runs db' !! id = Some sc → scheduled_runs db !! id = Some sc
     ∨ scheduled_runs db !! id = None ∧ sc_user sc = user_ID r ∧ sc_workspace sc = X_Tenant_Id r
       ∧ utf8_valid (sc_name sc) = true)
  ∧ tenants db' = tenants db ∧ members db' = members db ∧ invites db' = invites db ∧ content db' = content db.
Proof.
  intros db db'. destruct (run_sched_allowed now random cron c r s) as [E|Hstep].
  { unfold db'. rw E. split_and!; auto. }
  fold db db' in Hstep. destruct Hstep as [id0 s0 Hf Hu Hw Hn|id0 s0 Hl Hu Hw].
  - split_and!; try done.
    + intros id sc Hl Ho. cbn. rw lookup_insert_ne //. congruence.
    + cbn. intros id sc [[<- <-]|[_ Hl]]%lookup_insert_Some; [by right|by left].
  - split_and!; try done.
    + intros id sc Hl' Ho. assert (id ≠ id0) as Hne by (intros ->; rw Hl in Hl'; injection Hl' as ->; tauto).
      assert (scheduled_runs (drop_schedules (λ k _, String.eqb k id0) db) !! id = Some sc) as Hkept.
      { apply drop_schedules_lookup. split; [done|]. by apply String.eqb_neq. }
      split; [done|]. unfold drop_schedules in *. cbn in *. rw list_filter_filter.
      apply list_filter_iff. intros e. split; [by intros []|]. intros <-. split; [done|]. by exists sc.
    + intros id sc [? _]%drop_schedules_lookup. by left.
Qed.

(** What the lookup before a deletion or a history does. *)
Lemma own_schedule_run r s :
  user_ID r ≠ "" → X_Tenant_Id r ≠ "" → VarsGet r "schedId" ≠ "" → k_outcomes s = [] →
  own_schedule r s = (s,
    match scheduled_runs (k_db s) !! VarsGet r "schedId" with
    | Some sc =>
        if String.eqb (sc_workspace sc) (X_Tenant_Id r) then
          if String.eqb (sc_user sc) (user_ID r) then inl (VarsGet r "schedId")
          else inr (writeJSONError StatusForbidden "not your schedule")
        else inr (writeJSONError StatusNotFound "schedule not found")
    | None => inr (writeJSONError StatusNotFound "schedule not found")
    end).
Proof.
  intros Hu%String.eqb_neq Hw%String.eqb_neq Hi%String.eqb_neq Ho.
  unfold own_schedule, with_user_id. rw Hu Hw Hi. cbv [mbind K_bind]. cbn [negb orb guard_that]. unfold mret, K_ret.
  rw query_ok //. destruct (scheduled_runs _ !! _) as [sc|]; [|done]. cbn.
  destruct (String.eqb _ (X_Tenant_Id r)); [|done]. by destruct (String.eqb _ (user_ID r)).
Qed.

(** A schedule of another user is refused with 403, and one of another
    workspace, or none, with 404, by the deletion and the history alike; nothing
    changes. *)
Theorem other_schedules_refused c r s :
  c = SDelete ∨ c = SRuns → user_ID r ≠ "" → X_Tenant_Id r ≠ "" → VarsGet r "schedId" ≠ "" → k_outcomes s = [] →
  (∀ sc, scheduled_runs (k_db s) !! VarsGet r "schedId" = Some sc → sc_workspace sc = X_Tenant_Id r →
     sc_user sc ≠ user_ID r) →
  respond (run_sched now random cron c r) s
  = (s, match scheduled_runs (k_db s) !! VarsGet r "schedId" with
        | Some sc => if String.eqb (sc_workspace sc) (X_Tenant_Id r)
                     then writeJSONError StatusForbidden "not your schedule"
                     else writeJSONError StatusNotFound "schedule not found"
        | None => writeJSONError StatusNotFound "schedule not found"
        end).
Proof.
  intros Hc Hu Hw Hi Ho Hother. unfold respond.
  destruct Hc as [->| ->]; cbn [run_sched]; unfold SchedulesDeleteHandler, SchedulesRunsHandler;
    cbv [mbind K_bind]; rw own_schedule_run //; destruct (scheduled_runs _ !! _) as [sc|] eqn:Es; try done;
    (destruct (String.eqb_spec (sc_workspace sc) (X_Tenant_Id r)) as [E|]; [|done]);
    specialize (Hother sc eq_refl E); by apply String.eqb_neq in Hother as ->.
Qed.

(** The executions of the caller's schedules, as the join finds them. *)
Lemma own_executions ws u db :
  let l := omap (λ e, s ← scheduled_runs db !! ex_schedule e;
                      if String.eqb (sc_workspace s) ws && String.eqb (sc_user s) u then Some (e, s) else None)
             (executions db) in
  l.*1 ⊆+ executions db ∧
  ∀ e sc, (e, sc) ∈ l ↔ e ∈ executions db ∧ scheduled_runs db !! ex_schedule e = Some sc
                        ∧ sc_workspace sc = ws ∧ sc_user sc = u.
Proof.
  intros l. split.
  - unfold l. induction (executions db) as [|e es IH]; [done|]. cbn.
    destruct (scheduled_runs db !! ex_schedule e) as [sc|]; cbn; [|by apply submseteq_cons].
    destruct (_ && _); cbn; [by apply submseteq_skip|by apply submseteq_cons].
  - intros e sc. unfold l. rw list_elem_of_omap. split.
    + intros (e0 & He & (sc0 & Hl & Hs)%bind_Some). destruct (_ && _) eqn:E; [|done]. injection Hs as -> ->.
      by apply andb_true_iff in E as [?%String.eqb_eq ?%String.eqb_eq].
    + intros (He & Hl & <- & <-). exists e. split; [done|]. rw Hl. cbn. by rw !String.eqb_refl.
Qed.

(** C37: The history of a schedule shows its owner the newest 100 of its
    executions, and the unified history the newest 200 executions of the
    caller's schedules in the workspace, each with its schedule: the newest
    first, none more often than it is stored, and one is left out only when 100
    (or 200) are shown and none of them is older.  This is when the database
    refuses nothing; a listing cut short by an error is
    [cut_list_is_answered]. *)
Theorem run_histories r s :
  user_ID r ≠ "" → X_Tenant_Id r ≠ "" → k_outcomes s = [] →
  (∀ sc, scheduled_runs (k_db s) !! VarsGet r "schedId" = Some sc → VarsGet r "schedId" ≠ "" →
     sc_workspace sc = X_Tenant_Id r → sc_user sc = user_ID r →
     ∃ rows, respond (SchedulesRunsHandler r) s
             = (s, writeJSON StatusOK (rows_object ((λ e, json_struct (executionRow e)) <$> rows)))
       ∧ latest 100 ex_created (filter (λ e, ex_schedule e = VarsGet r "schedId") (executions (k_db s))) rows)
  ∧ ∃ rows own, respond (ScheduledRunsAllExecutionsHandler r) s
            = (s, writeJSON StatusOK (rows_object ((λ '(e, sc), json_struct (executionRow e
                ++ [string_field "name" (sc_name sc); pointer_omitempty "agentId" (sc_agent sc);
                    string_field "goal" (sc_goal sc)])) <$> rows)))
    ∧ latest 200 (λ p, ex_created p.1) own rows ∧ own.*1 ⊆+ executions (k_db s)
    ∧ ∀ e sc, (e, sc) ∈ own ↔ e ∈ executions (k_db s) ∧ scheduled_runs (k_db s) !! ex_schedule e = Some sc
        ∧ sc_workspace sc = X_Tenant_Id r ∧ sc_user sc = user_ID r.
Proof.
  intros Hu Hw Ho. split.
  - intros sc Hs Hi Hws Hus. eexists. split; [|apply latest_take].
    unfold SchedulesRunsHandler, respond. cbv [mbind K_bind]. rw own_schedule_run // Hs Hws Hus !String.eqb_refl query_rows_ok //.
  - eexists _, _. split; [unfold ScheduledRunsAllExecutionsHandler; by rw identified_guards // query_answer|].
    split; [apply latest_take|]. apply own_executions.
Qed.

(** A listing whose statement fails while its rows are read is answered 200 with
    the rows that came before: [rows.Err] is never looked at. *)
Theorem cut_list_is_answered r db e rest jobs :
  user_ID r ≠ "" → X_Tenant_Id r ≠ "" →
  respond (SchedulesListHandler r) (MkK db (None :: Some e :: rest) jobs)
  = (MkK db rest jobs, writeJSON StatusOK (rows_object
      ((λ '(id, sc), scheduleRow id sc (RFC3339 <$> sc_trigger sc) (RFC3339 <$> sc_next sc))
       <$> take (rows_before e) (schedules_of (X_Tenant_Id r) (user_ID r) db)))).
Proof. intros Hu Hw. unfold SchedulesListHandler. rw identified_guards //. Qed.

(** *** Creating *)

(** A request that passes the checks. *)
Definition acceptable (req : createScheduleReq) : Prop :=
  TrimSpace (cs_Goal req) ≠ ""
  ∧ (cs_Kind req = "cron" ∧ missing (cs_Expression req) = false
     ∨ cs_Kind req = "once" ∧ missing (cs_TriggerAt req) = false).

Definition schedule_of (r : Request) (req : createScheduleReq) (trigger : option Z) : Schedule :=
  MkSchedule (user_ID r) (X_Tenant_Id r) (schedule_name req) (cs_Kind req) (cs_Expression req) trigger
    (cs_AgentID req) (TrimSpace (cs_Goal req)) (cs_Model req) true (fst <$> nextRunAt now cron req) None 0 (Some now).

Lemma create_sched_run r req s id :
  user_ID r ≠ "" → X_Tenant_Id r ≠ "" → acceptable req → newUUID (random 0 16) = Val id → k_outcomes s = [] →
  respond (SchedulesCreateHandler now random cron r (Val req)) s
  = match insert_schedule id (schedule_of r req None) (cs_TriggerAt req) (k_db s) with
    | Val (db', _) => (MkK db' [] (k_jobs s), writeJSON StatusCreated
        (scheduleRow id (schedule_of r req None) (cs_TriggerAt req)
           ((λ '(t, offset), format_in t offset) <$> nextRunAt now cron req)))
    | Err e | Panic e => (s, writeJSONError StatusInternalServerError ("insert: " +:+ e))
    end.
Proof.
  intros Hu Hw [Hg%String.eqb_neq Hk] Hid Ho. unfold SchedulesCreateHandler. rw identified_guards //. cbv zeta. rw Hg.
  assert (String.eqb (cs_Kind req) "cron" || String.eqb (cs_Kind req) "once" = true
    ∧ String.eqb (cs_Kind req) "cron" && missing (cs_Expression req) = false
    ∧ String.eqb (cs_Kind req) "once" && missing (cs_TriggerAt req) = false) as (-> & -> & ->).
  { by destruct Hk as [[-> ->]|[-> ->]]. }
  fold (schedule_of r req None). unfold respond. cbv [mbind K_bind]. cbn [negb guard_that]. unfold mret, K_ret. rw Hid.
  unfold stmt, mbind, K_bind, next_outcome. rw Ho. cbv beta iota. destruct s as [db o j]. cbn in Ho. subst o. cbn [k_db].
  by destruct (insert_schedule _ _ _ db) as [[db' []]|e|e].
Qed.

(** The texts a new schedule stores. *)
Definition texts_of (id : string) (s : Schedule) : list string :=
  [id; sc_user s; sc_workspace s; sc_name s; sc_kind s; sc_goal s]
  ++ omap (λ x, x) [sc_expression s; sc_agent s; sc_model s].

Lemma insert_schedule_run r req id db trigger :
  forallb pg_text (texts_of id (schedule_of r req None)) = true → scheduled_runs db !! id = None →
  (t ← cs_TriggerAt req; pg_timestamptz t) = trigger → (trigger = None → cs_TriggerAt req = None) →
  insert_schedule id (schedule_of r req None) (cs_TriggerAt req) db
  = Val (set_schedules <[id := schedule_of r req trigger]> (λ e, e) db, tt).
Proof.
  intros Ht Hf Htr Hn. unfold insert_schedule. unfold texts_of in Ht. rw Ht Hf. cbn [negb].
  destruct (cs_TriggerAt req) as [x|]; cbn in Htr; [|by subst trigger].
  cbv [mbind option_bind]. rw Htr. destruct trigger as [t|]; [done|]. by specialize (Hn eq_refl).
Qed.

(** C36: What is created is listed.  A schedule whose trigger is the RFC 3339
    text of an instant, or that has a cron expression and no trigger, is answered
    201 with its row; the caller's list then shows the same row, text for text. *)
Theorem created_schedule_is_listed r req s id :
  user_ID r ≠ "" → X_Tenant_Id r ≠ "" → acceptable req → newUUID (random 0 16) = Val id → k_outcomes s = [] →
  forallb pg_text (texts_of id (schedule_of r req None)) = true → scheduled_runs (k_db s) !! id = None →
  (cs_Kind req = "cron" ∧ cs_TriggerAt req = None
   ∨ ∃ t, cs_Kind req = "once" ∧ cs_TriggerAt req = Some (RFC3339 t) ∧ pg_timestamptz (RFC3339 t) = Some t
       ∧ (-62167219200 ≤ t < 253402300800)%Z) →
  ∃ s' row rows,
    respond (SchedulesCreateHandler now random cron r (Val req)) s = (s', writeJSON StatusCreated row)
    ∧ respond (SchedulesListHandler r) s' = (s', writeJSON StatusOK (rows_object rows))
    ∧ row ∈ rows.
Proof.
  intros Hu Hw Hacc Hid Ho Htext Hfresh Hkind.
  set (trigger := t ← cs_TriggerAt req; pg_timestamptz t).
  assert (trigger = None → cs_TriggerAt req = None) as Hnone.
  { unfold trigger. destruct Hkind as [[_ ->]|(t & _ & -> & E & _)]; [done|]. cbn. by rw E. }
  set (sc := schedule_of r req trigger).
  set (s' := MkK (set_schedules <[id := sc]> (λ e, e) (k_db s)) [] (k_jobs s)).
  destruct (listed_rows r s' Hu Hw eq_refl) as (rows & Hlist & _ & _ & Hin).
  eexists s', _, _. split; [|split; [exact Hlist|]].
  { rw (create_sched_run r req s id) //. rw (insert_schedule_run r req id (k_db s) trigger) //. }
  apply list_elem_of_fmap. exists (id, sc). split; [|apply Hin; cbn; by rw lookup_insert_eq].
  assert (RFC3339 <$> trigger = cs_TriggerAt req) as Htrigger.
  { unfold trigger. destruct Hkind as [[_ ->]|(t & _ & -> & Hpg & _)]; [done|].
    change (RFC3339 <$> pg_timestamptz (RFC3339 t) = Some (RFC3339 t)). by rw Hpg. }
  assert ((λ '(t, offset), format_in t offset) <$> nextRunAt now cron req = RFC3339 <$> (fst <$> nextRunAt now cron req)) as Hnext.
  { unfold nextRunAt. destruct Hkind as [[-> _]|(t & -> & -> & _ & Hr)]; cbn [String.eqb Ascii.eqb Bool.eqb].
    - destruct (cs_Expression req) as [e|]; [|done]. cbn [mbind option_bind]. by destruct (cron e).
    - cbn [mbind option_bind]. by rw parse_format. }
  rw -Htrigger Hnext. done.
Qed.

(** A schedule the scheduler cannot time is accepted.  A cron expression
    that does not parse, or a trigger that PostgreSQL reads and Go does not, is
    answered 201; the schedule is enabled and has no next run. *)
Theorem untimed_schedule_is_accepted r req s id :
  user_ID r ≠ "" → X_Tenant_Id r ≠ "" → acceptable req → newUUID (random 0 16) = Val id → k_outcomes s = [] →
  forallb pg_text (texts_of id (schedule_of r req None)) = true → scheduled_runs (k_db s) !! id = None →
  (cs_Kind req = "cron" ∧ cs_TriggerAt req = None ∧ (∀ e, cs_Expression req = Some e → cron e = None)
   ∨ ∃ text t, cs_Kind req = "once" ∧ cs_TriggerAt req = Some text ∧ parse_RFC3339 text = None
       ∧ pg_timestamptz text = Some t) →
  let '(s', resp) := respond (SchedulesCreateHandler now random cron r (Val req)) s in
  Status resp = StatusCreated
  ∧ ∃ sc, scheduled_runs (k_db s') !! id = Some sc ∧ sc_enabled sc = true ∧ sc_next sc = None ∧ sc_user sc = user_ID r.
Proof.
  intros Hu Hw Hacc Hid Ho Htext Hfresh Hkind.
  rw (create_sched_run r req s id) //. rw (insert_schedule_run r req id (k_db s) (t ← cs_TriggerAt req; pg_timestamptz t)) //.
  { destruct Hkind as [(_ & -> & _)|(x & t & _ & -> & _ & E)]; [done|]. cbn. by rw E. }
  split; [done|]. eexists. split; [cbn; by rw lookup_insert_eq|]. split; [done|]. split; [|done]. cbn.
  unfold nextRunAt. destruct Hkind as [(-> & _ & Hcron)|(x & t & -> & -> & Hp & _)]; cbn; [|by rw Hp].
  destruct (cs_Expression req) as [e|]; [|done]. cbn. by rw Hcron.
Qed.

(** A goal of more than 60 bytes whose 60th byte is inside a character,
    sent without a name, cannot be scheduled: the name cut from it is not text to
    the database, and the answer is 500. *)
Theorem name_cut_inside_a_character r req s id :
  user_ID r ≠ "" → X_Tenant_Id r ≠ "" → acceptable req → newUUID (random 0 16) = Val id → k_outcomes s = [] →
  TrimSpace (cs_Name req) = "" → 60 < slen (TrimSpace (cs_Goal req)) →
  utf8_valid (take_bytes 60 (TrimSpace (cs_Goal req))) = false →
  respond (SchedulesCreateHandler now random cron r (Val req)) s
  = (s, writeJSONError StatusInternalServerError "insert: invalid byte sequence for encoding UTF8").
Proof.
  intros Hu Hw Hacc Hid Ho Hname Hlen Hcut. rw (create_sched_run r req s id) //.
  assert (schedule_name req = take_bytes 60 (TrimSpace (cs_Goal req))) as Hn.
  { unfold schedule_name. rw Hname. by apply Nat.ltb_lt in Hlen as ->. }
  unfold insert_schedule.
  destruct (forallb pg_text _) eqn:Ht; [|done]. exfalso. rw forallb_forall in Ht.
  specialize (Ht (schedule_name req)). rw Hn in Ht. apply (pg_text_utf8 _) in Ht; [by rw Ht in Hcut|].
  apply list_elem_of_In. cbn. rw Hn. set_solver.
Qed.
End theorems.

(** ** Concrete requests *)

#[local] Existing Instance ascii_tables.

#[local] Instance utf8_server : Postgres := {
  pg_text := utf8_valid;
  pg_text_utf8 s Hs := Hs;
  pg_timestamptz s := if String.eqb s "tomorrow" then Some 86400%Z else fst <$> parse_RFC3339 s
}.

Definition user_request (user ws : string) (vars : gmap string string) : Request :=
  MkRequest "GET" "/" "/" ∅ (<["X-User-Id" := [user]]> {[ "X-Tenant-Id" := [ws] ]}) empty_context vars.

Definition zero_bytes (_ n : nat) : gores (list N) := Val (replicate n 0%N).
Definition hourly (e : string) : option (Z → Z) := if String.eqb e "@hourly" then Some (λ t, t + 3600)%Z else None.
Definition new_id : string := "00000000-0000-4000-8000-000000000000".

Definition bob_task : Schedule :=
  MkSchedule "bob" "t1" "daily" "cron" (Some "@hourly") None None "report" None true None None 0 (Some 5%Z).
Definition planned : KState :=
  MkK (MkKDB ∅ ∅ ∅ {[ "s1" := bob_task ]} [MkExecution "e1" "s1" "done" None None None None None (Some 7%Z)] ∅) [] [].

Definition once_at (when : string) (name : string) (goal : string) : createScheduleReq :=
  MkCreateSchedule name goal "once" None (Some when) None None.

Lemma schedules_stay_witness :
  let r := user_request "alice" "t1" {[ "schedId" := "s1" ]} in
  let db' := k_db (respond (run_sched 0 zero_bytes hourly SDelete r) planned).1 in
  scheduled_runs db' !! "s1" = Some bob_task
  ∧ filter (λ e, ex_schedule e = "s1") (executions db') = filter (λ e, ex_schedule e = "s1") (executions (k_db planned)).
Proof.
  intros r db'. apply (schedules_stay_with_their_owner 0 zero_bytes hourly SDelete r planned); [done|by left].
Defined.

Lemma listed_witness :
  ∃ rows, respond (SchedulesListHandler (user_request "bob" "t1" ∅)) planned
    = (planned, writeJSON StatusOK (rows_object
        ((λ '(id, sc), scheduleRow id sc (RFC3339 <$> sc_trigger sc) (RFC3339 <$> sc_next sc)) <$> rows)))
    ∧ newest (λ kv : string * Schedule, sc_created kv.2) rows ∧ NoDup rows.*1
    ∧ ∀ id sc, (id, sc) ∈ rows ↔
        scheduled_runs (k_db planned) !! id = Some sc ∧ sc_workspace sc = "t1" ∧ sc_user sc = "bob".
Proof. by apply (schedules_listed_newest_first (user_request "bob" "t1" ∅) planned). Defined.

Lemma refused_witness :
  respond (run_sched 0 zero_bytes hourly SRuns (user_request "alice" "t1" {[ "schedId" := "s1" ]})) planned
  = (planned, writeJSONError StatusForbidden "not your schedule").
Proof.
  etransitivity; [apply (other_schedules_refused 0 zero_bytes hourly SRuns
    (user_request "alice" "t1" {[ "schedId" := "s1" ]}) planned); try done; [by right|]|by vm_compute].
  change (∀ sc, ({[ "s1" := bob_task ]} : gmap string Schedule) !! "s1" = Some sc → sc_workspace sc = "t1" → sc_user sc ≠ "alice").
  by intros sc [_ <-]%lookup_singleton_Some.
Defined.

Lemma histories_witness :
  ∃ rows, respond (SchedulesRunsHandler (user_request "bob" "t1" {[ "schedId" := "s1" ]})) planned
    = (planned, writeJSON StatusOK (rows_object ((λ e, json_struct (executionRow e)) <$> rows)))
    ∧ latest 100 ex_created (filter (λ e, ex_schedule e = "s1") (executions (k_db planned))) rows.
Proof.
  destruct (run_histories (user_request "bob" "t1" {[ "schedId" := "s1" ]}) planned) as [Hr _]; [done..|].
  by apply (Hr bob_task).
Defined.

Lemma created_witness :
  ∃ s' row rows,
    respond (SchedulesCreateHandler 10 zero_bytes hourly (user_request "alice" "t1" ∅)
      (Val (once_at "1970-01-02T00:00:00Z" "" "tell me"))) planned = (s', writeJSON StatusCreated row)
    ∧ respond (SchedulesListHandler (user_request "alice" "t1" ∅)) s' = (s', writeJSON StatusOK (rows_object rows))
    ∧ row ∈ rows.
Proof.
  apply (created_schedule_is_listed 10 zero_bytes hourly (user_request "alice" "t1" ∅)
    (once_at "1970-01-02T00:00:00Z" "" "tell me") planned new_id); try done.
  - split; [done|by right].
  - right. by exists 86400%Z.
Defined.

Lemma untimed_witness :
  let '(s', resp) := respond (SchedulesCreateHandler 10 zero_bytes hourly (user_request "alice" "t1" ∅)
      (Val (once_at "tomorrow" "" "tell me"))) planned in
  Status resp = StatusCreated
  ∧ ∃ sc, scheduled_runs (k_db s') !! new_id = Some sc ∧ sc_enabled sc = true ∧ sc_next sc = None ∧ sc_user sc = "alice".
Proof.
  apply (untimed_schedule_is_accepted 10 zero_bytes hourly (user_request "alice" "t1" ∅)
    (once_at "tomorrow" "" "tell me") planned new_id); try done.
  - split; [done|by right].
  - right. by exists "tomorrow", 86400%Z.
Defined.

Definition accented : string := String.concat "" (replicate 59 "a") +:+ "é".

Lemma name_cut_witness :
  respond (SchedulesCreateHandler 10 zero_bytes hourly (user_request "alice" "t1" ∅)
    (Val (once_at "1970-01-02T00:00:00Z" "" accented))) planned
  = (planned, writeJSONError StatusInternalServerError "insert: invalid byte sequence for encoding UTF8").
Proof.
  apply (name_cut_inside_a_character 10 zero_bytes hourly (user_request "alice" "t1" ∅)
    (once_at "1970-01-02T00:00:00Z" "" accented) planned new_id); try done.
  - split; [by vm_compute|by right].
  - vm_compute. lia.
Defined.

Lemma accented_is_text : utf8_valid accented = true.
Proof. by vm_compute. Qed.
