(* ===== verification/Account.v ===== *)
(** * Account self-service: controllers/account.go, controllers/memory.go

    Closing an account, the active workspace, and the profile facts written to
    the memory service.  Three systems take part: the workspace database of
    [Kawai]; Talos, a database whose rows are represented by the actors they
    belong to; and Kratos, an HTTP service of which only the exchange of requests
    and replies is modelled.  A reply carries its status and its body, decoded
    as a JSON object ([null] is the empty one).

    Deleting a row of a content table may cascade to rows the foreign keys of
    that table reach; they belong to tables of the database server that the
    program does not name, and only the rows that carry the user are modelled. *)

From S2P Require Import Prelude GoStrings GoStd GoTime Http Json Kawai Workspaces.

(** ** The world of a request *)

Record HttpRequest := MkHttp { hr_method : string; hr_url : string; hr_body : option (gmap string iface) }.
Record Reply := MkReply { rp_status : Z; rp_body : gores (gmap string iface) }.

(** Talos: for each table the actors of its rows, and the statements' outcomes
    to come; none when its address is not configured. *)
Record TalosDB := MkTalos { tl_rows : gmap string (list string); tl_outcomes : list (option error) }.

(** [a_replies]: what Kratos will answer to each request, or the failure of the
    exchange; none left is a connection refused. *)
Record AState := MkA {
  a_k : KState; a_talos : option TalosDB; a_replies : list (gores Reply); a_sent : list HttpRequest
}.

Definition A (X : Type) : Type := AState → AState * (X + Response).

#[export] Instance A_ret : MRet A := λ X x s, (s, inl x).
#[export] Instance A_bind : MBind A := λ X Y f m s,
  match m s with (s, inl x) => f x s | (s, inr r) => (s, inr r) end.

Definition lift {X} (m : K X) : A X := λ s,
  let '(k, x) := m (a_k s) in (MkA k (a_talos s) (a_replies s) (a_sent s), x).

Definition respond_a (m : A Response) (s : AState) : AState * Response :=
  match m s with (s, inl r) | (s, inr r) => (s, r) end.

Section account.
Context `{UnicodeTables}.
(** The environment: the address of Kratos, and [net/url]'s parser. *)
Variable KRATOS_ADMIN_URL : string.
Variable url_parses : string → bool.

Definition kratosAdminURL : string :=
  if String.eqb KRATOS_ADMIN_URL "" then "http://localhost:4434" else KRATOS_ADMIN_URL.

(** [http.NewRequestWithContext] and [http.DefaultClient.Do]. *)
Definition http_do (req : HttpRequest) : A (gores Reply) := λ s,
  if negb (url_parses (hr_url req)) then (s, inl (Err "invalid URL"))
  else
    let sent := a_sent s ++ [req] in
    match a_replies s with
    | [] => (MkA (a_k s) (a_talos s) [] sent, inl (Err "connection refused"))
    | reply :: rest => (MkA (a_k s) (a_talos s) rest sent, inl reply)
    end.

Definition identity_url (userID : string) : string := kratosAdminURL +:+ "/admin/identities/" +:+ userID.

(** ** Closing an account *)

Definition contentTables : list string :=
  ["agents"; "document_chunks"; "documents"; "embeddings"; "file_chunks"; "chunks"; "files"; "messages"; "topics";
   "sessions"; "projects"; "scheduled_runs"].

(** [DELETE FROM t WHERE user_id = $1] *)
Definition purge_table (userID t : string) : KDB → KDB :=
  if String.eqb t "scheduled_runs" then drop_schedules (λ _ s, String.eqb (sc_user s) userID)
  else set_content (alter (filter (λ u, u ≠ userID)) t).

(** [SELECT tenant_id FROM tenant_members WHERE user_id = $1 GROUP BY tenant_id
    HAVING count( * ) = 1] *)
Definition counted_once (userID : string) (db : KDB) : list string :=
  let rows := (λ kv, kv.1.1) <$> filter (λ kv, kv.1.2 = userID) (map_to_list (members db)) in
  filter (λ t, length (filter (λ t', t' = t) rows) = 1) rows.

Definition purge_tenants (userID : string) (db : KDB) : KDB :=
  drop_tenants (λ id, existsb (String.eqb id) (counted_once userID db)) db.

Definition purge_invites (userID userEmail : string) : KDB → KDB :=
  set_invites (filter (λ kv, Is_true (negb (String.eqb (iv_invited_by kv.2) userID
    || negb (String.eqb userEmail "") && String.eqb (iv_email kv.2) userEmail)))).

Definition purge_members (userID : string) : KDB → KDB :=
  set_members (filter (λ kv, Is_true (negb (String.eqb kv.1.2 userID)))).

Fixpoint exec_all (resp : Response) (fs : list (KDB → KDB)) : K unit :=
  match fs with
  | [] => mret tt
  | f :: fs => x ← exec f; or_answer resp x ≫= λ _, exec_all resp fs
  end.

Definition purges (userID userEmail : string) : list (KDB → KDB) :=
  (purge_table userID <$> contentTables)
  ++ [purge_table userID "user_connectors"; purge_table userID "user_installed_plugins";
      purge_tenants userID; purge_invites userID userEmail; purge_members userID].

Definition talosTables : list string := ["issued_api_keys"; "imported_api_keys"; "actor_balances"; "api_key_usage"].

(** Best effort: the error of a statement is logged. *)
Definition talos_delete (userID : string) (d : TalosDB) (t : string) : TalosDB :=
  match tl_outcomes d with
  | Some _ :: rest => MkTalos (tl_rows d) rest
  | outcomes => MkTalos (alter (filter (λ u, u ≠ userID)) t (tl_rows d)) (tail outcomes)
  end.

Definition purge_talos (userID : string) : A unit := λ s,
  (MkA (a_k s) (d ← a_talos s; Some (foldl (talos_delete userID) d talosTables)) (a_replies s) (a_sent s), inl tt).

Definition identity_gone (reply : gores Reply) : bool :=
  match reply with
  | Val reply => existsb (Z.eqb (rp_status reply)) [StatusOK; StatusNoContent; StatusNotFound]
  | _ => false
  end.

Definition known_user (r : Request) : K unit :=
  let userID := extractUserID r in
  guard_that (negb (String.eqb userID "" || String.eqb userID "anonymous"))
    (writeJSONError StatusUnauthorized "authentication required").

Definition method_is (m : string) (r : Request) : K unit :=
  guard_that (String.eqb (Method r) m) (writeJSONError StatusMethodNotAllowed "method not allowed").

Definition AccountDeleteHandler (r : Request) : A Response :=
  lift (method_is "POST" r) ≫= λ _,
  lift (known_user r) ≫= λ _,
  let userID := extractUserID r in
  let userEmail := ToLower (TrimSpace (HeaderGet r "X-User-Email")) in
  let could_not := writeJSONError StatusBadGateway "could not close account" in
  lift (transaction could_not could_not
    (exec_all (writeJSONError StatusBadGateway "could not purge account data") (purges userID userEmail))) ≫= λ _,
  purge_talos userID ≫= λ _,
  reply ← http_do (MkHttp "DELETE" (identity_url userID) None);
  lift (guard_that (identity_gone reply) (writeJSONError StatusBadGateway "identity cleanup failed")) ≫= λ _,
  mret (writeJSON StatusOK (json_object [("deleted", "true")])).

(** ** The active workspace *)

Definition as_map (v : iface) : option (gmap string iface) :=
  match v with IMap m => Some (list_to_map m) | _ => None end.

Definition http_status (what : string) (status : Z) : error := "kratos " +:+ what +:+ " identity HTTP " +:+ Itoa status.

(** An exchange that must be answered 200. *)
Definition kratos (what : string) (req : HttpRequest) : A (gores Reply) :=
  reply ← http_do req;
  mret (match reply with
        | Val reply => if Z.eqb (rp_status reply) StatusOK then Val reply else Err (http_status what (rp_status reply))
        | Err e | Panic e => Err e
        end).

Definition getKratosMetadata (userID : string) : A (gores (gmap string iface)) :=
  reply ← kratos "get" (MkHttp "GET" (identity_url userID) None);
  mret (reply ← reply; identity ← rp_body reply;
        match identity !! "metadata_public" with
        | None | Some INil => Val ∅
        | Some v => match as_map v with Some m => Val m | None => Err "json: cannot unmarshal into map" end
        end).

(** The body of the update: the fields Kratos lets one change. *)
Definition put_body (identity updates : gmap string iface) : gmap string iface :=
  let existing := default ∅ (v ← identity !! "metadata_public"; as_map v) in
  <["metadata_public" := IMap (map_to_list (updates ∪ existing))]>
    (filter (λ kv, kv.1 ∈ ["schema_id"; "traits"; "state"; "metadata_admin"]) identity).

Definition setKratosMetadata (userID : string) (updates : gmap string iface) : A (gores unit) :=
  reply ← kratos "get" (MkHttp "GET" (identity_url userID) None);
  match (reply ← reply; rp_body reply) with
  | Val identity =>
      reply ← kratos "put" (MkHttp "PUT" (identity_url userID) (Some (put_body identity updates)));
      mret (reply ≫= λ _, Val tt)
  | Err e | Panic e => mret (Err e)
  end.

Definition ActiveWorkspaceSetHandler (r : Request) (body : gores string) : A Response :=
  lift (method_is "PATCH" r) ≫= λ _,
  lift (known_user r) ≫= λ _,
  let userID := extractUserID r in
  match body with
  | Val ws =>
      lift (guard_that (negb (String.eqb ws "")) (writeJSONError StatusBadRequest "workspaceId required")) ≫= λ _,
      isMember ← lift (userIsMember ws userID);
      lift (guard_that isMember (writeJSONError StatusForbidden "not a member of this workspace")) ≫= λ _,
      res ← setKratosMetadata userID {[ "active_workspace_id" := IStr ws ]};
      lift (guard_that (is_val res) (writeJSONError StatusBadGateway "failed to update identity")) ≫= λ _,
      mret (writeJSON StatusOK (strings_object [("workspaceId", ws)]))
  | Err e | Panic e => lift (answer (writeJSONError StatusBadRequest ("bad json: " +:+ e)))
  end.

Definition ActiveWorkspaceGetHandler (r : Request) : A Response :=
  lift (method_is "GET" r) ≫= λ _,
  lift (known_user r) ≫= λ _,
  res ← getKratosMetadata (extractUserID r);
  match res with
  | Val meta =>
      let wsID := match meta !! "active_workspace_id" with Some (IStr s) => s | _ => "" end in
      mret (writeJSON StatusOK (strings_object [("workspaceId", wsID)]))
  | _ => lift (answer (writeJSONError StatusBadGateway "failed to read identity"))
  end.
End account.

(** ** Profile facts: [ingestProfileToMemory]

    The facts are written one by one to the vault of the tenant; the order of a
    map's keys is Go's to choose. *)
Definition profile_facts (email : string) : gmap string string :=
  let facts := {[ "user.email" := email ]} in
  match Index email "@" with
  | Some (S at_) => <["user.name" := take_bytes (S at_) email]> facts
  | _ => facts
  end.

(** The writes to the memory service, when it is configured: vault, key, value. *)
Definition ingestProfileToMemory `{MapRange} (configured : bool) (tenantID email : string) : list (string * string * string) :=
  if configured then (λ kv, (tenantID, kv.1, kv.2)) <$> map_range (profile_facts email) else [].
