(* ===== verification/AccountSpec.v ===== *)
(** * What account self-service guarantees

    Closing an account is atomic in the workspace database and comes before the
    identity; what it leaves, and what it takes with it; and that the active
    workspace is one of its user's, kept among the rest of the identity. *)

From S2P Require Import Prelude GoStrings GoStd Http Json Connection Kawai KawaiSpec Workspaces Account.

(** ** The purge *)

Definition run_all (db : KDB) (fs : list (KDB → KDB)) : KDB := foldl (λ d f, f d) db fs.
Definition purged (userID userEmail : string) (db : KDB) : KDB := run_all db (purges userID userEmail).

Lemma exec_all_spec resp fs s :
  (∃ s', exec_all resp fs s = (s', inl tt) ∧ k_db s' = run_all (k_db s) fs)
  ∨ ∃ s', exec_all resp fs s = (s', inr resp).
Proof.
  revert s; induction fs as [|f fs IH]; intros s; [left; by exists s|].
  cbn [exec_all]. unfold exec, mbind, K_bind.
  destruct (stmt_cases (λ db, Val (f db, tt)) s) as [(s' & e & -> & E)|(s' & db & [] & -> & Hf & E)]; cbn; [eauto|].
  injection Hf as <-. unfold run_all. cbn. rw -E. apply IH.
Qed.

Lemma exec_all_ok resp fs s :
  k_outcomes s = [] → exec_all resp fs s = (MkK (run_all (k_db s) fs) [] (k_jobs s), inl tt).
Proof.
  revert s; induction fs as [|f fs IH]; intros [db o j] Ho; cbn in Ho; subst o; [done|].
  cbn [exec_all]. unfold mbind, K_bind. rw exec_ok //. cbn. by rw IH.
Qed.

Lemma transaction_exec_all b resp fs s :
  ∃ s', (transaction b b (exec_all resp fs) s = (s', inl tt) ∧ k_db s' = run_all (k_db s) fs)
      ∨ ∃ r, transaction b b (exec_all resp fs) s = (s', inr r) ∧ (r = b ∨ r = resp) ∧ k_db s' = k_db s.
Proof.
  unfold transaction, mbind, K_bind. pose proof (outcome_db s) as Ho. destruct (outcome_inl s) as [o Eo].
  destruct (next_outcome s) as [s1 x]. cbn in Ho, Eo. subst x. destruct o as [e|].
  { exists s1. right. by exists b; auto. }
  destruct (exec_all_spec resp fs s1) as [(s2 & -> & E2)|(s2 & ->)].
  - pose proof (outcome_db s2) as H2. destruct (outcome_inl s2) as [o2 Eo2].
    destruct (next_outcome s2) as [s3 x]. cbn in H2, Eo2. subst x. destruct o2 as [e|].
    + eexists. right. exists b. by split_and!; [reflexivity|left|].
    + exists s3. left. split; [done|]. by rw H2 E2 Ho.
  - eexists. right. exists resp. by split_and!; [reflexivity|right|].
Qed.

(** *** Whose workspaces die *)

Lemma filter_absent (x : string) l : x ∉ l → filter (λ y, y = x) l = [].
Proof.
  induction l as [|y l IH]; [done|]. rw not_elem_of_cons filter_cons. intros [Hne Hl].
  rw decide_False; [by apply not_eq_sym|by apply IH].
Qed.

(** A row of [tenant_members] is determined by its tenant and user, so a user's
    rows fall into groups of one. *)
Lemma counted_once_elem u db id : id ∈ counted_once u db ↔ is_Some (members db !! (id, u)).
Proof.
  unfold counted_once. set (l := filter (λ kv : (string * string) * Member, kv.1.2 = u) (map_to_list (members db))).
  assert (∀ id, id ∈ (λ kv : (string * string) * Member, kv.1.1) <$> l ↔ is_Some (members db !! (id, u))) as Hin.
  { intros id'. rw list_elem_of_fmap. split.
    - intros ([[t v] m] & -> & [Hv Hm]%list_elem_of_filter). cbn in *. subst v.
      apply elem_of_map_to_list in Hm. by exists m.
    - intros [m Hm]. exists ((id', u), m). split; [done|]. apply list_elem_of_filter. split; [done|].
      by apply elem_of_map_to_list. }
  rw list_elem_of_filter Hin. split; [by intros []|]. intros Hs. split; [|done].
  assert (NoDup ((λ kv : (string * string) * Member, kv.1.1) <$> l)) as Hnd.
  { apply NoDup_fmap_2_strong; [|apply NoDup_filter, NoDup_map_to_list].
    intros [[a v] m] [[b w] n] [Ha Hx]%list_elem_of_filter [Hb Hy]%list_elem_of_filter E. cbn in *. subst.
    apply elem_of_map_to_list in Hx, Hy. rw Hx in Hy. by injection Hy as <-. }
  apply Hin in Hs. revert Hnd Hs. generalize ((λ kv : (string * string) * Member, kv.1.1) <$> l). clear.
  induction l as [|x l IH]; intros Hnd Hs; [by apply elem_of_nil in Hs|].
  apply NoDup_cons in Hnd as [Hx Hnd]. rw filter_cons. case_decide as E.
  - subst x. cbn. by rw filter_absent.
  - apply elem_of_cons in Hs as [->|Hs]; [done|by apply IH].
Qed.

(** What each statement changes. *)
Record untouched (db db' : KDB) : Prop := {
  ut_tenants : tenants db' = tenants db; ut_members : members db' = members db; ut_invites : invites db' = invites db
}.

Lemma run_all_untouched db fs : Forall (λ f, ∀ d, untouched d (f d)) fs → untouched db (run_all db fs).
Proof.
  revert db; induction fs as [|f fs IH]; intros db Hfs; [by split|]. apply Forall_cons in Hfs as [Hf Hfs].
  destruct (Hf db) as [T M I]. destruct (IH (f db) Hfs) as [T' M' I']. cbn.
  split; [by rw T'|by rw M'|by rw I'].
Qed.

Lemma purge_table_untouched u t db : untouched db (purge_table u t db).
Proof. unfold purge_table. by destruct (String.eqb t "scheduled_runs"). Qed.

(** The tables whose rows carry their user. *)
Definition purged_tables : list string := contentTables ++ ["user_connectors"; "user_installed_plugins"].
Definition data_purged (u : string) (db : KDB) : KDB := run_all db (purge_table u <$> purged_tables).

Lemma purged_eq u e db :
  purged u e db = purge_members u (purge_invites u e (purge_tenants u (data_purged u db))).
Proof. reflexivity. Qed.

Lemma data_purged_untouched u db : untouched db (data_purged u db).
Proof. apply run_all_untouched. rw Forall_fmap Forall_forall. intros t _ d. apply purge_table_untouched. Qed.






#[local] Opaque purged data_purged.

(** ** Closing an account *)

Section closing.
Context `{UnicodeTables}.
Variable KRATOS_ADMIN_URL : string.
Variable url_parses : string → bool.

Abbreviation close := (AccountDeleteHandler KRATOS_ADMIN_URL url_parses).
Abbreviation delete_identity r := (MkHttp "DELETE" (identity_url KRATOS_ADMIN_URL (extractUserID r)) None).

Definition edge_email (r : Request) : string := ToLower (TrimSpace (HeaderGet r "X-User-Email")).

(** A caller the edge has identified. *)
Definition known (r : Request) : Prop := extractUserID r ≠ "" ∧ extractUserID r ≠ "anonymous".

Lemma known_guard {X} r (k : unit → A X) s : known r → (lift (known_user r) ≫= k) s = k tt s.
Proof.
  intros [Hn%String.eqb_neq Ha%String.eqb_neq]. unfold known_user. rw Hn Ha. by destruct s as [[] ? ? ?].
Qed.

Lemma method_guard {X} m r (k : unit → A X) s : Method r = m → (lift (method_is m r) ≫= k) s = k tt s.
Proof. intros <-. unfold method_is. rw String.eqb_refl. by destruct s as [[] ? ? ?]. Qed.

Definition purged_talos (u : string) (d : option TalosDB) : option TalosDB :=
  d ← d; Some (foldl (talos_delete u) d talosTables).

(** What the identity service makes of the request to delete the identity. *)
Definition identity_deleted (r : Request) (s : AState) : bool :=
  url_parses (hr_url (delete_identity r))
  && match a_replies s with reply :: _ => identity_gone reply | [] => false end.

Lemma close_cases r s :
  Method r = "POST" → known r →
  let '(s', resp) := respond_a (close r) s in
  (k_db (a_k s') = k_db (a_k s) ∧ a_sent s' = a_sent s ∧ a_talos s' = a_talos s ∧ Status resp = StatusBadGateway)
  ∨ (k_db (a_k s') = purged (extractUserID r) (edge_email r) (k_db (a_k s))
     ∧ a_sent s' = a_sent s ++ (if url_parses (hr_url (delete_identity r)) then [delete_identity r] else [])
     ∧ a_talos s' = purged_talos (extractUserID r) (a_talos s)
     ∧ resp = if identity_deleted r s then writeJSON StatusOK (json_object [("deleted", "true")])
              else writeJSONError StatusBadGateway "identity cleanup failed").
Proof.
  intros Hm Hk. unfold respond_a, AccountDeleteHandler. rw method_guard // known_guard //. cbv zeta. fold (edge_email r).
  set (b := writeJSONError StatusBadGateway "could not close account").
  set (p := writeJSONError StatusBadGateway "could not purge account data").
  destruct (transaction_exec_all b p (purges (extractUserID r) (edge_email r)) (a_k s)) as (k' & [[Et Edb]|(x & Et & Hx & Edb)]).
  - cbv [mbind A_bind lift]. rw Et. unfold purge_talos, http_do, identity_deleted. cbn [a_k a_talos a_replies a_sent].
    fold (purged_talos (extractUserID r) (a_talos s)). cbn [hr_url].
    destruct (url_parses _); cbn [negb andb].
    + destruct (a_replies s) as [|reply rest]; [right; split_and!; [exact Edb|done..]|].
      cbn [a_k]. destruct (identity_gone reply); right; (split_and!; [exact Edb|done..]).
    + right. rw app_nil_r. split_and!; [exact Edb|done..].
  - cbv [mbind A_bind lift]. rw Et. left. cbn. split_and!; [done..|]. by destruct Hx as [->| ->].
Qed.

(** C7: Closing an account is atomic.  When any statement, or the commit,
    fails, the answer is 502 and nothing has changed: not the tables, not Talos,
    and the identity service was not called, so the caller can log in and try
    again.  Otherwise the purge is done before the identity service is called,
    once, about the caller alone; and the answer is 200 exactly when it says the
    identity is gone. *)
Theorem closing_is_atomic r s :
  Method r = "POST" → known r →
  let '(s', resp) := respond_a (close r) s in
  (k_db (a_k s') = k_db (a_k s) ∧ a_sent s' = a_sent s ∧ a_talos s' = a_talos s ∧ Status resp = StatusBadGateway)
  ∨ (k_db (a_k s') = purged (extractUserID r) (edge_email r) (k_db (a_k s))
     ∧ a_sent s' = a_sent s ++ (if url_parses (hr_url (delete_identity r)) then [delete_identity r] else [])
     ∧ a_talos s' = purged_talos (extractUserID r) (a_talos s)
     ∧ resp = if identity_deleted r s then writeJSON StatusOK (json_object [("deleted", "true")])
              else writeJSONError StatusBadGateway "identity cleanup failed").
Proof. apply close_cases. Qed.

(** What counts as gone, by the numbers. *)
Lemma identity_gone_spec reply :
  identity_gone (Val reply) = true ↔ (rp_status reply = 200 ∨ rp_status reply = 204 ∨ rp_status reply = 404)%Z.
Proof.
  unfold identity_gone, StatusOK, StatusNoContent, StatusNotFound. cbn [existsb].
  rw !orb_true_iff !Z.eqb_eq. intuition congruence.
Qed.

(** C34: Closing can be finished.  When the database refuses nothing, whatever
    earlier attempts have done, the account is closed if the identity service
    answers 200, 204 or 404 (the identity is gone already); any other status is
    answered 502, so that the caller tries again. *)
Theorem closing_succeeds r s reply rest :
  Method r = "POST" → known r → k_outcomes (a_k s) = [] →
  url_parses (hr_url (delete_identity r)) = true → a_replies s = Val reply :: rest →
  let resp := (respond_a (close r) s).2 in
  ((rp_status reply = 200 ∨ rp_status reply = 204 ∨ rp_status reply = 404)%Z →
     resp = writeJSON 200 (json_object [("deleted", "true")])) ∧
  ((rp_status reply ≠ 200 ∧ rp_status reply ≠ 204 ∧ rp_status reply ≠ 404)%Z →
     resp = writeJSONError 502 "identity cleanup failed").
Proof.
  intros Hm Hk Ho Hurl Hr resp.
  assert (resp = if identity_gone (Val reply) then writeJSON StatusOK (json_object [("deleted", "true")])
                 else writeJSONError StatusBadGateway "identity cleanup failed") as Hresp.
  { unfold resp, respond_a, AccountDeleteHandler. rw method_guard // known_guard //. cbv zeta.
    destruct s as [[db o j] talos replies sent]. cbn in Ho, Hr. subst o replies.
    cbv [mbind A_bind lift transaction K_bind next_outcome]. cbn [a_k k_outcomes]. rw exec_all_ok //.
    cbn. unfold http_do. cbn [hr_url] in *. rw Hurl. cbn. by destruct (_ || _). }
  rw Hresp. split; intros Hst.
  - by rw (proj2 (identity_gone_spec reply) Hst).
  - destruct (identity_gone (Val reply)) eqn:E; [|done]. apply identity_gone_spec in E. lia.
Qed.

(** The purge is done whenever the answer is 200. *)
Lemma closed_purged r s :
  Method r = "POST" → known r → Status (respond_a (close r) s).2 = StatusOK →
  k_db (a_k (respond_a (close r) s).1) = purged (extractUserID r) (edge_email r) (k_db (a_k s)).
Proof.
  intros Hm Hk. pose proof (close_cases r s Hm Hk) as Hc. destruct (respond_a (close r) s) as [s' resp]. cbn [fst snd].
  intros Hs. destruct Hc as [(_ & _ & _ & E)|(E & _)]; [by rw E in Hs|exact E].
Qed.

(** *** What is left *)

Lemma not_counted u db id : existsb (String.eqb id) (counted_once u db) = false ↔ members db !! (id, u) = None.
Proof.
  rw -not_true_iff_false existsb_exists eq_None_not_Some -counted_once_elem list_elem_of_In.
  split; [intros Hn Hin; apply Hn; exists id; by rw String.eqb_refl|].
  by intros Hn (x & Hx & <-%String.eqb_eq).
Qed.

(** The statements after the content tables, on any database. *)
Abbreviation leave u e d := (purge_members u (purge_invites u e (purge_tenants u d))).

Lemma leave_members u e d id v m :
  members (leave u e d) !! (id, v) = Some m ↔ members d !! (id, v) = Some m ∧ v ≠ u ∧ members d !! (id, u) = None.
Proof.
  unfold purge_members, purge_invites, purge_tenants, drop_tenants. cbn [members set_members set_invites set_tenants].
  rw !lookup_filter_key. cbn [fst snd]. rw !negb_true_iff String.eqb_neq not_counted. tauto.
Qed.

Lemma leave_tenants u e d id :
  tenants (leave u e d) !! id = if members d !! (id, u) is Some _ then None else tenants d !! id.
Proof.
  unfold purge_members, purge_invites, purge_tenants, drop_tenants. cbn [tenants set_members set_invites set_tenants].
  apply option_eq. intros t. rw lookup_filter_key. cbn [fst snd]. rw negb_true_iff not_counted.
  destruct (members d !! (id, u)) as [m|]; split; try done; by intros [].
Qed.


Lemma purged_members u e db id v m :
  members (purged u e db) !! (id, v) = Some m ↔
  members db !! (id, v) = Some m ∧ v ≠ u ∧ members db !! (id, u) = None.
Proof. rw purged_eq leave_members. by destruct (data_purged_untouched u db) as [_ -> _]. Qed.

Lemma purged_tenants u e db id :
  tenants (purged u e db) !! id = if members db !! (id, u) is Some _ then None else tenants db !! id.
Proof. rw purged_eq leave_tenants. by destruct (data_purged_untouched u db) as [-> -> _]. Qed.




(** C39: Closing an account deletes every workspace its user belongs to, shared
    ones included: the other members lose the workspace and their memberships.
    A workspace the user does not belong to is kept with its members. *)
Theorem closing_deletes_shared_workspaces r s :
  Method r = "POST" → known r → Status (respond_a (close r) s).2 = StatusOK →
  let u := extractUserID r in let db := k_db (a_k s) in let db' := k_db (a_k (respond_a (close r) s).1) in
  ∀ id, if members db !! (id, u) is Some _
        then tenants db' !! id = None ∧ ∀ v, members db' !! (id, v) = None
        else tenants db' !! id = tenants db !! id ∧ ∀ v, members db' !! (id, v) = members db !! (id, v).
Proof.
  intros Hm Hk Hs u db db' id. unfold db'. rw closed_purged //. fold u db. rw purged_tenants.
  destruct (members db !! (id, u)) as [m|] eqn:Em; (split; [done|]); intros v.
  - apply eq_None_not_Some. intros [m' (_ & _ & E)%purged_members]. by rw Em in E.
  - apply option_eq. intros m'. rw purged_members. split; [by intros []|]. intros Hl. split_and!; try done.
    intros ->. by rw Em in Hl.
Qed.
End closing.

(** ** The active workspace *)

Section workspace.
Context `{UnicodeTables}.
Variable KRATOS_ADMIN_URL : string.
Variable url_parses : string → bool.

Abbreviation set_active := (ActiveWorkspaceSetHandler KRATOS_ADMIN_URL url_parses).
Abbreviation get_active := (ActiveWorkspaceGetHandler KRATOS_ADMIN_URL url_parses).
Abbreviation url r := (identity_url KRATOS_ADMIN_URL (extractUserID r)).

#[local] Opaque writeJSON writeJSONError strings_object.

Definition active (ws : string) : gmap string iface := {[ "active_workspace_id" := IStr ws ]}.

(** The metadata of an identity, as the update merges it. *)
Definition metadata (identity : gmap string iface) : gmap string iface :=
  default ∅ (v ← identity !! "metadata_public"; as_map v).

(** What is put back: of the identity the fields that may change, and its
    metadata with the workspace in it. *)
Lemma put_body_spec identity ws :
  metadata (put_body identity (active ws)) = <["active_workspace_id" := IStr ws]> (metadata identity)
  ∧ ∀ k, k ≠ "metadata_public" →
      put_body identity (active ws) !! k
      = if decide (k ∈ ["schema_id"; "traits"; "state"; "metadata_admin"]) then identity !! k else None.
Proof.
  split.
  - unfold put_body. set (existing := default _ _). unfold metadata. rw lookup_insert_eq. cbn.
    rw list_to_map_to_list. unfold active. rw -insert_union_singleton_l. done.
  - intros k Hk. unfold put_body. rw lookup_insert_ne; [congruence|].
    destruct (identity !! k) as [v|] eqn:E; case_decide as Hin.
    + by apply map_lookup_filter_Some.
    + apply map_lookup_filter_None. right. by intros v' _.
    + apply map_lookup_filter_None. by left.
    + apply map_lookup_filter_None. by left.
Qed.

Lemma userIsMember_state id v s : k_db (userIsMember id v s).1 = k_db s ∧
  ((userIsMember id v s).2 = inl true ∧ is_Some (members (k_db s) !! (id, v)) ∨ (userIsMember id v s).2 = inl false).
Proof.
  unfold userIsMember. destruct (_ || _); [by auto|]. unfold query, mbind, K_bind.
  destruct (stmt_cases (λ db, Val (db, members db !! (id, v))) s) as [(s' & e & -> & E)|(s' & db & a & -> & Hf & E)]; cbn.
  - by auto.
  - injection Hf as <- <-. rw E. split; [done|]. destruct (members (k_db s) !! (id, v)); [left|right]; by split.
Qed.

(** The two exchanges of an update. *)
Lemma setKratos_sent u updates s :
  let '(s', res) := setKratosMetadata KRATOS_ADMIN_URL url_parses u updates s in
  k_db (a_k s') = k_db (a_k s)
  ∧ ∃ sent ok, res = inl ok ∧ a_sent s' = a_sent s ++ sent
    ∧ (∀ req, req ∈ sent → hr_url req = identity_url KRATOS_ADMIN_URL u)
    ∧ (ok = Val tt → ∃ code identity, a_replies s !! 0 = Some (Val (MkReply code (Val identity)))
         ∧ sent = [MkHttp "GET" (identity_url KRATOS_ADMIN_URL u) None;
                   MkHttp "PUT" (identity_url KRATOS_ADMIN_URL u) (Some (put_body identity updates))]).
Proof.
  unfold setKratosMetadata, kratos, http_do. cbv [mbind A_bind]. cbn [hr_url].
  destruct (url_parses _); cbn [negb]; [|split; [done|]; exists [], (Err "invalid URL"); rw app_nil_r; split_and!; [done|done|set_solver|done]].
  destruct s as [k talos replies sent]. cbn [a_k a_talos a_replies a_sent].
  set (get := MkHttp "GET" _ _).
  assert (∀ req, req ∈ [get] → hr_url req = identity_url KRATOS_ADMIN_URL u) as Hget by (by intros req ->%list_elem_of_singleton).
  destruct replies as [|reply replies]; [split; [done|]; by eexists [get], (Err _); split_and!|].
  destruct reply as [[code body]|e|e]; [|split; [done|]; by eexists [get], (Err _); split_and!..].
  cbn [rp_status]. destruct (Z.eqb code StatusOK); cbn [mret A_ret]; [|split; [done|]; by eexists [get], (Err _); split_and!].
  destruct body as [identity|e|e]; cbn; [|split; [done|]; by eexists [get], (Err _); split_and!..].
  set (put := MkHttp "PUT" _ _).
  assert (∀ req, req ∈ [get; put] → hr_url req = identity_url KRATOS_ADMIN_URL u) as Hput
    by (by intros req [->| ->%list_elem_of_singleton]%elem_of_cons).
  assert (∀ ok, ∃ sent' ok', inl ok = (inl ok' : gores unit + Response) ∧ (sent ++ [get]) ++ [put] = sent ++ sent'
    ∧ (∀ req, req ∈ sent' → hr_url req = identity_url KRATOS_ADMIN_URL u)
    ∧ (ok' = Val tt → ∃ code0 identity0, Some (Val (MkReply code (Val identity))) = Some (Val (MkReply code0 (Val identity0)))
         ∧ sent' = [get; MkHttp "PUT" (identity_url KRATOS_ADMIN_URL u) (Some (put_body identity0 updates))])) as Hdone.
  { intros ok. exists [get; put], ok. split_and!; [done|by rw -app_assoc|done|]. intros _. by exists code, identity. }
  destruct replies as [|reply replies]; [split; [done|]; apply Hdone|].
  destruct reply as [[code' body']|e|e]; [|split; [done|]; apply Hdone..].
  cbn [rp_status]. destruct (Z.eqb code' StatusOK); (split; [done|]; apply Hdone).
Qed.

(** The active workspace is one of the caller's.  Whatever fails, setting
    it changes no table, and the identity service is only asked about the caller,
    and only once the caller is found to be a member of the workspace.  When the
    answer is 200 the identity was read and put back with the workspace in its
    metadata, every other key of the metadata as it was, and none but its schema,
    traits, state and admin metadata besides. *)
Theorem active_workspace_is_a_membership r ws s :
  Method r = "PATCH" → known r →
  let '(s', resp) := respond_a (set_active r (Val ws)) s in
  k_db (a_k s') = k_db (a_k s)
  ∧ (a_sent s' = a_sent s
     ∨ is_Some (members (k_db (a_k s)) !! (ws, extractUserID r))
       ∧ ∃ sent, a_sent s' = a_sent s ++ sent ∧ ∀ req, req ∈ sent → hr_url req = url r)
  ∧ (Status resp = StatusOK →
     ∃ code identity body,
       a_replies s !! 0 = Some (Val (MkReply code (Val identity)))
       ∧ a_sent s' = a_sent s ++ [MkHttp "GET" (url r) None; MkHttp "PUT" (url r) (Some body)]
       ∧ metadata body = <["active_workspace_id" := IStr ws]> (metadata identity)
       ∧ ∀ k, k ≠ "metadata_public" →
           body !! k = if decide (k ∈ ["schema_id"; "traits"; "state"; "metadata_admin"]) then identity !! k else None).
Proof.
  intros Hm Hk. unfold respond_a, ActiveWorkspaceSetHandler. rw method_guard // known_guard //. cbv zeta.
  cbv [mbind A_bind]. destruct (String.eqb ws ""); cbn [negb].
  { unfold lift. destruct s as [k t rp st]. cbn. by split_and!; [|left|]. }
  unfold lift at 1. cbn [guard_that]. destruct s as [k t rp st]. cbn [a_k a_talos a_replies a_sent].
  unfold lift at 1. cbn [a_k a_talos a_replies a_sent mret K_ret].
  pose proof (userIsMember_state ws (extractUserID r) k) as [Edb Hmem].
  destruct (userIsMember ws (extractUserID r) k) as [k' x]. cbn [fst snd] in *.
  destruct Hmem as [[-> Hmem]| ->]; [|cbn; by split_and!; [|left|]].
  cbn [guard_that lift mret K_ret]. unfold lift at 1. cbn [a_k a_talos a_replies a_sent].
  pose proof (setKratos_sent (extractUserID r) (active ws) (MkA k' t rp st)) as Hset.
  fold (active ws). destruct (setKratosMetadata _ _ _ _ _) as [s' res].
  destruct Hset as (Edb' & sent & ok & -> & Esent & Hurl & Hok). cbn [a_k a_sent a_replies] in *.
  assert (is_val ok = true → ok = Val tt) as Hval by (by destruct ok as [[]|e|e]).
  destruct s' as [k2 t2 rp2 st2]. cbn [a_k a_sent] in *.
  destruct (is_val ok) eqn:Eok; unfold lift; cbn [guard_that a_k mret K_ret answer a_sent a_talos a_replies];
    (split; [by rw Edb'|]; split; [right; split; [done|]; by exists sent|]); [|done].
  intros _. destruct (Hok (Hval eq_refl)) as (code & identity & Er & Es).
  exists code, identity, (put_body identity (active ws)). destruct (put_body_spec identity ws) as [H1 H2].
  split_and!; [done|by rw Esent Es|done|done].
Qed.

(** The active workspace reads back: when the identity service answers with
    the identity that was put, the workspace that was set is returned. *)
Theorem active_workspace_reads_back r ws identity s rest :
  Method r = "GET" → known r → url_parses (url r) = true →
  a_replies s = Val (MkReply StatusOK (Val (put_body identity (active ws)))) :: rest →
  (respond_a (get_active r) s).2 = writeJSON StatusOK (strings_object [("workspaceId", ws)]).
Proof.
  intros Hm Hk Hu Hr. unfold respond_a, ActiveWorkspaceGetHandler. rw method_guard // known_guard //.
  unfold getKratosMetadata, kratos, http_do. cbv [mbind A_bind]. cbn [hr_url]. rw Hu Hr. cbn.
  unfold put_body. rw lookup_insert_eq. cbn. rw list_to_map_to_list.
  unfold active. by rw -insert_union_singleton_l lookup_insert_eq.
Qed.
End workspace.

(** ** Profile facts *)

(** The name is what stands before the first at sign, when something does. *)
Lemma profile_facts_spec name rest :
  name ≠ "" → no_byte "@" name = true →
  profile_facts (name +:+ "@" +:+ rest)
  = <["user.name" := name]> {[ "user.email" := name +:+ "@" +:+ rest ]}.
Proof.
  intros Hne Hn. unfold profile_facts. change ("@" +:+ rest) with (String "@" rest).
  rw Index1_app //. destruct name as [|c name]; [done|]. cbn [slen].
  change (S (slen name)) with (slen (String c name)). by rw take_bytes_app.
Qed.

(** ** Concrete requests *)

#[local] Existing Instance ascii_tables.

Definition person (user email method path : string) : Request :=
  MkRequest method path path ∅ (<["X-User-Id" := [user]]> {[ "X-User-Email" := [email] ]}) empty_context ∅.

(** A workspace that carol owns and dave belongs to. *)
Definition shared : KDB := MkKDB
  {[ "t1" := MkTenant "acme" "Acme" "carol" None None ]}
  (<[("t1", "carol") := MkMember "carol@x.io" "owner" None]> {[ ("t1", "dave") := MkMember "dave@x.io" "viewer" None ]})
  ∅ ∅ [] {[ "agents" := ["carol"; "dave"] ]}.

Definition ask (replies : list (gores Reply)) : AState := MkA (MkK shared [] []) None replies [].
Definition gone : gores Reply := Val (MkReply StatusNoContent (Val ∅)).
Definition dave_leaves : Request := person "dave" "dave@x.io" "POST" "/v1/account/delete".

Lemma closing_atomic_witness :
  let '(s', resp) := respond_a (AccountDeleteHandler "" (λ _, true) dave_leaves)
    (MkA (MkK shared [None; None; Some "deadlock"] []) None [gone] []) in
  k_db (a_k s') = shared ∧ a_sent s' = [].
Proof.
  pose proof (closing_is_atomic "" (λ _, true) dave_leaves
    (MkA (MkK shared [None; None; Some "deadlock"] []) None [gone] []) eq_refl ltac:(by split)) as Hc.
  destruct (respond_a _ _) as [s' resp] eqn:E. assert (Status resp = StatusBadGateway) as Hs by (by injection E as _ <-).
  destruct Hc as [(? & ? & _)|(_ & _ & _ & ->)]; done.
Defined.

Lemma closing_succeeds_witness :
  (respond_a (AccountDeleteHandler "" (λ _, true) dave_leaves) (ask [Val (MkReply 404 (Err "EOF"))])).2
  = writeJSON 200 (json_object [("deleted", "true")]).
Proof.
  apply (closing_succeeds "" (λ _, true) dave_leaves (ask [Val (MkReply 404 (Err "EOF"))]) (MkReply 404 (Err "EOF")) []);
    [done|by split|done|done|done|]. right; right. reflexivity.
Defined.


Lemma shared_deleted_witness :
  let db' := k_db (a_k (respond_a (AccountDeleteHandler "" (λ _, true) dave_leaves) (ask [gone])).1) in
  tenants db' !! "t1" = None ∧ ∀ v, members db' !! ("t1", v) = None.
Proof.
  exact (closing_deletes_shared_workspaces "" (λ _, true) dave_leaves (ask [gone]) eq_refl
    ltac:(by split) ltac:(by vm_compute) "t1").
Defined.

Definition identity : gmap string iface :=
  <["metadata_public" := IMap [("theme", IStr "dark")]]> {[ "traits" := IStr "x" ]}.

Lemma active_membership_witness :
  let r := person "dave" "dave@x.io" "PATCH" "/v1/account/active-workspace" in
  let s := ask [Val (MkReply StatusOK (Val identity)); Val (MkReply StatusOK (Val ∅))] in
  let '(s', resp) := respond_a (ActiveWorkspaceSetHandler "" (λ _, true) r (Val "t1")) s in
  k_db (a_k s') = shared ∧ Status resp = StatusOK.
Proof.
  intros r s.
  pose proof (active_workspace_is_a_membership "" (λ _, true) r "t1" s eq_refl ltac:(by split)) as Hc.
  destruct (respond_a _ _) as [s' resp] eqn:E. destruct Hc as (-> & _). split; [done|]. by injection E as _ <-.
Defined.

Lemma active_back_witness :
  (respond_a (ActiveWorkspaceGetHandler "" (λ _, true) (person "dave" "dave@x.io" "GET" "/v1/account/active-workspace"))
    (ask [Val (MkReply StatusOK (Val (put_body identity (active "t1"))))])).2
  = writeJSON StatusOK (strings_object [("workspaceId", "t1")]).
Proof.
  by apply (active_workspace_reads_back "" (λ _, true) (person "dave" "dave@x.io" "GET" "/v1/account/active-workspace") "t1"
    identity (ask [Val (MkReply StatusOK (Val (put_body identity (active "t1"))))]) []).
Defined.
